(** * Free The Man: the match / cascade / gravity engine

    A shallow embedding of the JavaScript sources (config.js, Tile.js,
    Character.js, GridManager.js, MatchResolver.js, GravitySystem.js,
    CharacterController.js, LevelManager.js, main.js) followed by the
    properties of the engine.

    Conventions of the embedding.
    - JS numbers that hold coordinates, sizes and counters are [Z].
    - Tile types are JS strings and stay strings.  The JS value
      [undefined], which a tile type can only take when a colour is drawn
      from an empty palette, is written as the string "undefined".
    - The 2D array [grid[y][x]] is a list of rows; a cell is [None] for
      JS [null].  Tiles are JS objects held by exactly one cell, so an
      in-place mutation of a tile is a write to its cell.
    - [Math.random] is a tape of natural numbers; a draw of an index
      below [n] is the head of the tape modulo [n].
    - DOM elements and animation delays carry no game state; the calls made
      to the presentation layer are recorded in an event log. *)

From Stdlib Require Import ZArith List String Bool Lia.
From stdpp Require Import prelude strings.

Local Open Scope Z_scope.

(** ** config.js *)

Module CONFIG.

Module GRID.
Definition DEFAULT_WIDTH : Z := 7.
Definition DEFAULT_HEIGHT : Z := 8.
End GRID.

Module TILE_TYPES.
Definition EMPTY : string := "empty".
Definition RED : string := "red".
Definition BLUE : string := "blue".
Definition GREEN : string := "green".
Definition YELLOW : string := "yellow".
Definition PURPLE : string := "purple".
Definition STONE : string := "stone".
Definition ICE : string := "ice".
Definition LOCKED : string := "locked".
Definition EXIT : string := "exit".
Definition CHARACTER : string := "character".
End TILE_TYPES.

Definition MATCHABLE_COLORS : list string :=
  ["red"; "blue"; "green"; "yellow"; "purple"]%string.

(** SPECIAL_TILES: 'line-h', 'line-v', 'bomb'. *)
Inductive SPECIAL_TILES := LINE_H | LINE_V | BOMB.

Module MATCH.
Definition MIN_MATCH : Z := 3.
Definition LINE_CLEAR_COUNT : Z := 4.
Definition BOMB_COUNT : Z := 5.
End MATCH.

Inductive STATE :=
  IDLE | SWAPPING | MATCHING | FALLING | CHARACTER_MOVING | WIN | LOSE.

(** Object.values(CONFIG.DIRECTIONS): UP, DOWN, LEFT, RIGHT as (dx, dy). *)
Definition DIRECTIONS : list (Z * Z) := [(0, -1); (0, 1); (-1, 0); (1, 0)].

End CONFIG.

(** A grid position {x, y}. *)
Abbreviation Pos := (Z * Z)%type.

Definition pos_eqb (p q : Pos) : bool :=
  (fst p =? fst q) && (snd p =? snd q).

Definition pos_mem (p : Pos) (l : list Pos) : bool := existsb (pos_eqb p) l.

(** [Math.floor(Math.random() * n)]: the next number of the tape modulo
    [n]; an exhausted tape draws 0.  (For [n = 0] the JS index is NaN and
    the array read that follows yields [undefined]; here the read of the
    empty list yields its default, whatever the index.) *)
Abbreviation Tape := (list nat).

Definition randomIndex (n : nat) (tape : Tape) : nat * Tape :=
  match tape with
  | [] => (0%nat, [])
  | r :: tape' => (Nat.modulo r n, tape')
  end.

(** ** Tile.js *)

Module Tile.

Record t := mk {
  type : string;
  x : Z;
  y : Z;
  isMatched : bool;
  isFalling : bool;
  isSpecial : bool;
  specialType : option CONFIG.SPECIAL_TILES;
  iceLayer : Z;
  isLocked : bool
}.

(** constructor(type, x, y) *)
Definition new (ty : string) (px py : Z) : t :=
  {| type := ty; x := px; y := py; isMatched := false; isFalling := false;
     isSpecial := false; specialType := None; iceLayer := 0;
     isLocked := false |}.

Definition isMatchable (tile : t) : bool :=
  existsb (String.eqb (type tile)) CONFIG.MATCHABLE_COLORS
  && negb (isLocked tile).

Definition isEmpty (tile : t) : bool :=
  String.eqb (type tile) CONFIG.TILE_TYPES.EMPTY.

Definition isBlocker (tile : t) : bool :=
  String.eqb (type tile) CONFIG.TILE_TYPES.STONE.

Definition isCharacter (tile : t) : bool :=
  String.eqb (type tile) CONFIG.TILE_TYPES.CHARACTER.

Definition isExit (tile : t) : bool :=
  String.eqb (type tile) CONFIG.TILE_TYPES.EXIT.

Definition canSwap (tile : t) : bool :=
  isMatchable tile && negb (isFalling tile) && negb (isLocked tile).

Definition setSpecial (tile : t) (sp : CONFIG.SPECIAL_TILES) : t :=
  {| type := type tile; x := x tile; y := y tile;
     isMatched := isMatched tile; isFalling := isFalling tile;
     isSpecial := true; specialType := Some sp;
     iceLayer := iceLayer tile; isLocked := isLocked tile |}.

Definition addIce (tile : t) (layers : Z) : t :=
  {| type := type tile; x := x tile; y := y tile;
     isMatched := isMatched tile; isFalling := isFalling tile;
     isSpecial := isSpecial tile; specialType := specialType tile;
     iceLayer := layers; isLocked := isLocked tile |}.

(** removeIceLayer(): the tile after the call and the returned flag. *)
Definition removeIceLayer (tile : t) : t * bool :=
  if 0 <? iceLayer tile
  then (addIce tile (iceLayer tile - 1), true)
  else (tile, false).

Definition setLocked (tile : t) (b : bool) : t :=
  {| type := type tile; x := x tile; y := y tile;
     isMatched := isMatched tile; isFalling := isFalling tile;
     isSpecial := isSpecial tile; specialType := specialType tile;
     iceLayer := iceLayer tile; isLocked := b |}.

Definition lock (tile : t) : t := setLocked tile true.
Definition unlock (tile : t) : t := setLocked tile false.

(** The assignments [tile.x = x; tile.y = y]. *)
Definition moveTo (tile : t) (px py : Z) : t :=
  {| type := type tile; x := px; y := py;
     isMatched := isMatched tile; isFalling := isFalling tile;
     isSpecial := isSpecial tile; specialType := specialType tile;
     iceLayer := iceLayer tile; isLocked := isLocked tile |}.

(** clone(): a new tile with the type, the coordinates and the special,
    ice and lock attributes of this one; the state flags are those of
    the constructor. *)
Definition clone (tile : t) : t :=
  {| type := type tile; x := x tile; y := y tile;
     isMatched := false; isFalling := false;
     isSpecial := isSpecial tile; specialType := specialType tile;
     iceLayer := iceLayer tile; isLocked := isLocked tile |}.

End Tile.

(** ** Character.js *)

Module Character.

Record t := mk {
  x : Z;
  y : Z;
  startX : Z;
  startY : Z;
  isMoving : bool;
  hasEscaped : bool
}.

Definition new (px py : Z) : t :=
  {| x := px; y := py; startX := px; startY := py;
     isMoving := false; hasEscaped := false |}.

Definition moveTo (c : t) (newX newY : Z) : t :=
  {| x := newX; y := newY; startX := startX c; startY := startY c;
     isMoving := isMoving c; hasEscaped := hasEscaped c |}.

Definition getPosition (c : t) : Pos := (x c, y c).

Definition hasReachedExit (c : t) (exitY : Z) : bool := y c <=? exitY.

(** reset() *)
Definition reset (c : t) : t :=
  {| x := startX c; y := startY c; startX := startX c; startY := startY c;
     isMoving := false; hasEscaped := false |}.

End Character.

(** ** Level configuration records (LevelManager.js, DEFAULT_LEVELS) *)

Module Blocker.
(** [iceLayer] and [locked] are optional in the JS object and only
    tested for truthiness: an absent field is 0, respectively false. *)
Record t := mk {
  type : string;
  x : Z;
  y : Z;
  iceLayer : Z;
  locked : bool
}.
End Blocker.

Module Level.
(** The fields read by GridManager.initialize have defaults in its
    destructuring pattern; [None] is an absent field. *)
Record t := mk {
  gridWidth : Z;
  gridHeight : Z;
  maxMoves : Z;
  characterStart : option Pos;
  exitPosition : option Pos;
  blockers : option (list Blocker.t);
  tileTypes : option (list string)
}.
End Level.

(** ** GridManager.js *)

Module GridManager.

Record t := mk {
  width : Z;
  height : Z;
  grid : list (list (option Tile.t));
  tileTypes : list string;
  exitPosition : Pos;
  characterPosition : Pos
}.

Definition setGrid (gm : t) (cells : list (list (option Tile.t))) : t :=
  {| width := width gm; height := height gm; grid := cells;
     tileTypes := tileTypes gm; exitPosition := exitPosition gm;
     characterPosition := characterPosition gm |}.

Definition setCharacterPosition (gm : t) (p : Pos) : t :=
  {| width := width gm; height := height gm; grid := grid gm;
     tileTypes := tileTypes gm; exitPosition := exitPosition gm;
     characterPosition := p |}.

(** The array read [cells[y][x]].  Outside the arrays the JS read is
    [undefined] (or a TypeError when the row is missing): [None] here. *)
Definition cellAt (cells : list (list (option Tile.t))) (x y : Z)
  : option Tile.t :=
  if (0 <=? x) && (0 <=? y) then
    match cells !! Z.to_nat y with
    | Some row =>
        match row !! Z.to_nat x with
        | Some c => c
        | None => None
        end
    | None => None
    end
  else None.

(** The array write [cells[y][x] = v].  The engine only writes inside
    the arrays; outside them (where JS would raise or grow the row) the
    write is dropped. *)
Definition cellSet (cells : list (list (option Tile.t))) (x y : Z)
  (v : option Tile.t) : list (list (option Tile.t)) :=
  if (0 <=? x) && (0 <=? y) then
    alter (fun row => <[Z.to_nat x := v]> row) (Z.to_nat y) cells
  else cells.

Definition isValidPosition (gm : t) (x y : Z) : bool :=
  (0 <=? x) && (x <? width gm) && (0 <=? y) && (y <? height gm).

Definition getTile (gm : t) (x y : Z) : option Tile.t :=
  if isValidPosition gm x y then cellAt (grid gm) x y else None.

Definition setTile (gm : t) (x y : Z) (tile : Tile.t) : t :=
  if isValidPosition gm x y
  then setGrid gm (cellSet (grid gm) x y (Some (Tile.moveTo tile x y)))
  else gm.

(** An in-place mutation of the tile object held by cell (x, y). *)
Definition updateTile (gm : t) (x y : Z) (f : Tile.t -> Tile.t) : t :=
  match getTile gm x y with
  | Some tile => setGrid gm (cellSet (grid gm) x y (Some (f tile)))
  | None => gm
  end.

Definition isEmpty (gm : t) (x y : Z) : bool :=
  match getTile gm x y with
  | Some tile => Tile.isEmpty tile
  | None => false
  end.

Definition setEmpty (gm : t) (x y : Z) : t :=
  setTile gm x y (Tile.new CONFIG.TILE_TYPES.EMPTY x y).

Definition areAdjacent (x1 y1 x2 y2 : Z) : bool :=
  let dx := Z.abs (x1 - x2) in
  let dy := Z.abs (y1 - y2) in
  ((dx =? 1) && (dy =? 0)) || ((dx =? 0) && (dy =? 1)).

Definition swap (gm : t) (x1 y1 x2 y2 : Z) : t :=
  let tile1 := cellAt (grid gm) x1 y1 in
  let tile2 := cellAt (grid gm) x2 y2 in
  let tile1' := option_map (fun tl => Tile.moveTo tl x2 y2) tile1 in
  let tile2' := option_map (fun tl => Tile.moveTo tl x1 y1) tile2 in
  setGrid gm (cellSet (cellSet (grid gm) x1 y1 tile2') x2 y2 tile1').

Definition updateCharacterPosition (gm : t) (oldX oldY newX newY : Z) : t :=
  let gm' :=
    if negb ((oldX =? fst (exitPosition gm)) && (oldY =? snd (exitPosition gm)))
    then setEmpty gm oldX oldY
    else gm in
  setCharacterPosition gm' (newX, newY).

(** getAdjacentTiles(x, y): the neighbouring tile objects, each given
    with the cell that holds it. *)
Definition getAdjacentTiles (gm : t) (x y : Z) : list (Pos * Tile.t) :=
  flat_map
    (fun dir =>
       let nx := x + fst dir in
       let ny := y + snd dir in
       match getTile gm nx ny with
       | Some tile => [((nx, ny), tile)]
       | None => []
       end)
    CONFIG.DIRECTIONS.

(** [index = a.indexOf(s); if (index > -1) a.splice(index, 1)] *)
Fixpoint removeFirst (s : string) (a : list string) : list string :=
  match a with
  | [] => []
  | c :: a' => if String.eqb c s then a' else c :: removeFirst s a'
  end.

(** One of the two exclusion tests of createNonMatchingTile on the cells
    [c1] (one step back) and [c2] (two steps back). *)
Definition exclude (c1 c2 : option Tile.t) (availableTypes : list string)
  : list string :=
  match c1, c2 with
  | Some t1, Some t2 =>
      if String.eqb (Tile.type t1) (Tile.type t2) && Tile.isMatchable t1
      then removeFirst (Tile.type t1) availableTypes
      else availableTypes
  | _, _ => availableTypes
  end.

(** The local [availableTypes] of createNonMatchingTile after both
    exclusion tests. *)
Definition availableTypes (cells : list (list (option Tile.t)))
  (x y : Z) (tileTypes : list string) : list string :=
  let a0 := tileTypes in
  let a1 :=
    if 2 <=? x
    then exclude (cellAt cells (x - 1) y) (cellAt cells (x - 2) y) a0
    else a0 in
  if 2 <=? y
  then exclude (cellAt cells x (y - 1)) (cellAt cells x (y - 2)) a1
  else a1.

(** The list the colour is drawn from (with the fallback to the whole
    palette when every type is excluded). *)
Definition candidateTypes (cells : list (list (option Tile.t)))
  (x y : Z) (tileTypes : list string) : list string :=
  match availableTypes cells x y tileTypes with
  | [] => tileTypes
  | a => a
  end.

Definition createNonMatchingTile (cells : list (list (option Tile.t)))
  (x y : Z) (tileTypes : list string) (tape : Tape) : Tile.t * Tape :=
  let types := candidateTypes cells x y tileTypes in
  let '(i, tape') := randomIndex (List.length types) tape in
  (Tile.new (nth i types "undefined"%string) x y, tape').

(** The two nested loops that fill the remaining [null] cells, row by
    row.  Besides the cells and the tape, the loop state carries a ghost
    list: the cells at which the fallback branch ("all types would cause
    a match, just pick any") was taken. *)
Definition fillCell (tileTypes : list string)
  (st : list (list (option Tile.t)) * Tape * list Pos) (p : Pos)
  : list (list (option Tile.t)) * Tape * list Pos :=
  let '(cells, tape, fallbacks) := st in
  let '(x, y) := p in
  match cellAt cells x y with
  | None =>
      let '(tile, tape') := createNonMatchingTile cells x y tileTypes tape in
      let fallbacks' :=
        match availableTypes cells x y tileTypes with
        | [] => fallbacks ++ [p]
        | _ => fallbacks
        end in
      (cellSet cells x y (Some tile), tape', fallbacks')
  | Some _ => st
  end.

(** The cells in the order of [for y ... for x ...]. *)
Definition rowMajor (w h : Z) : list Pos :=
  flat_map (fun y => map (fun x => (x, y)) (seqZ 0 w)) (seqZ 0 h).

Definition placeBlocker (cells : list (list (option Tile.t)))
  (b : Blocker.t) : list (list (option Tile.t)) :=
  let tile := Tile.new (Blocker.type b) (Blocker.x b) (Blocker.y b) in
  let tile :=
    if negb (Blocker.iceLayer b =? 0)
    then Tile.addIce tile (Blocker.iceLayer b) else tile in
  let tile := if Blocker.locked b then Tile.lock tile else tile in
  cellSet cells (Blocker.x b) (Blocker.y b) (Some tile).

(** The grid right before the filling loops of initialize. *)
Definition placeFixed (w h : Z) (blockers : list Blocker.t)
  (exitPos characterStart : Pos) : list (list (option Tile.t)) :=
  let cells := replicate (Z.to_nat h) (replicate (Z.to_nat w) None) in
  let cells := fold_left placeBlocker blockers cells in
  let cells :=
    cellSet cells (fst exitPos) (snd exitPos)
      (Some (Tile.new CONFIG.TILE_TYPES.EXIT (fst exitPos) (snd exitPos))) in
  cellSet cells (fst characterStart) (snd characterStart)
    (Some (Tile.new CONFIG.TILE_TYPES.EMPTY
             (fst characterStart) (snd characterStart))).

(** new GridManager(w, h).initialize(levelConfig): the grid manager, the
    rest of the tape and the ghost list of fallback cells. *)
Definition initializeTraced (w h : Z) (levelConfig : Level.t) (tape : Tape)
  : t * Tape * list Pos :=
  let blockers := default [] (Level.blockers levelConfig) in
  let exitPos := default (w / 2, 0) (Level.exitPosition levelConfig) in
  let characterStart :=
    default (w / 2, h - 1) (Level.characterStart levelConfig) in
  let tileTypes :=
    default CONFIG.MATCHABLE_COLORS (Level.tileTypes levelConfig) in
  let cells := placeFixed w h blockers exitPos characterStart in
  let '(cells, tape', fallbacks) :=
    fold_left (fillCell tileTypes) (rowMajor w h) (cells, tape, []) in
  ({| width := w; height := h; grid := cells; tileTypes := tileTypes;
      exitPosition := exitPos; characterPosition := characterStart |},
   tape', fallbacks).

Definition initialize (w h : Z) (levelConfig : Level.t) (tape : Tape)
  : t * Tape :=
  fst (initializeTraced w h levelConfig tape).

(** The length of the longest prefix of [l] whose elements satisfy [f]:
    the counting loops of checkForMatchAt, which stop at the first
    [break]. *)
Fixpoint countWhile (f : Z -> bool) (l : list Z) : Z :=
  match l with
  | [] => 0
  | i :: l' => if f i then 1 + countWhile f l' else 0
  end.

(** GridManager.checkForMatchAt(x, y), the check behind hasPossibleMoves
    and findHint: the neighbours are compared by type only. *)
Definition checkForMatchAt (gm : t) (x y : Z) : bool :=
  match getTile gm x y with
  | None => false
  | Some tile =>
      if negb (Tile.isMatchable tile) then false
      else
        let same (t : option Tile.t) : bool :=
          match t with
          | Some t' => String.eqb (Tile.type t') (Tile.type tile)
          | None => false
          end in
        let hCount :=
          1 + countWhile (fun i => same (getTile gm i y)) (reverse (seqZ 0 x))
            + countWhile (fun i => same (getTile gm i y))
                (seqZ (x + 1) (width gm - (x + 1))) in
        if 3 <=? hCount then true
        else
          let vCount :=
            1 + countWhile (fun j => same (getTile gm x j)) (reverse (seqZ 0 y))
              + countWhile (fun j => same (getTile gm x j))
                  (seqZ (y + 1) (height gm - (y + 1))) in
          3 <=? vCount
  end.

(** The probe of findHint on the cells (x, y) and (x2, y2): swap, test
    both cells, swap back.  The grid after the two
    swaps is returned with the result. *)
Definition probe (gm : t) (x y x2 y2 : Z) : bool * t :=
  let gm1 := swap gm x y x2 y2 in
  let hasMatch := checkForMatchAt gm1 x y || checkForMatchAt gm1 x2 y2 in
  (hasMatch, swap gm1 x y x2 y2).

Definition isMatchableAt (gm : t) (x y : Z) : bool :=
  match getTile gm x y with
  | Some tile => Tile.isMatchable tile
  | None => false
  end.

(** The body of the two loops of findHint at the cell (x, y): the hint
    found there, if any, and the grid after the probes. *)
Definition hintAt (gm : t) (x y : Z) : option (Pos * Pos) * t :=
  if negb (isMatchableAt gm x y) then (None, gm)
  else
    let '(rightMatch, gm1) :=
      if (x <? width gm - 1) && isMatchableAt gm (x + 1) y
      then probe gm x y (x + 1) y
      else (false, gm) in
    if rightMatch then (Some ((x, y), (x + 1, y)), gm1)
    else
      let '(downMatch, gm2) :=
        if (y <? height gm1 - 1) && isMatchableAt gm1 x (y + 1)
        then probe gm1 x y x (y + 1)
        else (false, gm1) in
      if downMatch then (Some ((x, y), (x, y + 1)), gm2)
      else (None, gm2).

(** The loops [for y ... for x ...] of findHint over the cells [ps], up
    to the first [return]. *)
Fixpoint findHintIn (ps : list Pos) (gm : t) : option (Pos * Pos) * t :=
  match ps with
  | [] => (None, gm)
  | p :: ps' =>
      match hintAt gm (fst p) (snd p) with
      | (Some hint, gm') => (Some hint, gm')
      | (None, gm') => findHintIn ps' gm'
      end
  end.

(** findHint(): { x1, y1, x2, y2 } or null. *)
Definition findHint (gm : t) : option (Pos * Pos) * t :=
  findHintIn (rowMajor (width gm) (height gm)) gm.

(** The body of the two loops of hasPossibleMoves at the cell (x, y):
    whether the function returns true there, and the grid after the
    swaps and the swaps back. *)
Definition possibleMoveAt (gm : t) (x y : Z) : bool * t :=
  match getTile gm x y with
  | None => (false, gm)
  | Some tile =>
      if negb (Tile.isMatchable tile) then (false, gm)
      else
        (* Check swap with right neighbor *)
        let '(rightMatch, gm1) :=
          if x <? width gm - 1 then
            match getTile gm (x + 1) y with
            | Some rightTile =>
                if Tile.isMatchable rightTile then
                  let gmS := swap gm x y (x + 1) y in
                  let hasMatch :=
                    checkForMatchAt gmS x y || checkForMatchAt gmS (x + 1) y in
                  (hasMatch, swap gmS x y (x + 1) y)
                else (false, gm)
            | None => (false, gm)
            end
          else (false, gm) in
        if rightMatch then (true, gm1)
        else
          (* Check swap with bottom neighbor *)
          let '(bottomMatch, gm2) :=
            if y <? height gm1 - 1 then
              match getTile gm1 x (y + 1) with
              | Some bottomTile =>
                  if Tile.isMatchable bottomTile then
                    let gmS := swap gm1 x y x (y + 1) in
                    let hasMatch :=
                      checkForMatchAt gmS x y || checkForMatchAt gmS x (y + 1) in
                    (hasMatch, swap gmS x y x (y + 1))
                  else (false, gm1)
              | None => (false, gm1)
              end
            else (false, gm1) in
          if bottomMatch then (true, gm2) else (false, gm2)
  end.

(** The loops [for y ... for x ...] of hasPossibleMoves over the cells
    [ps], up to the first [return true]. *)
Fixpoint hasPossibleMovesIn (ps : list Pos) (gm : t) : bool * t :=
  match ps with
  | [] => (false, gm)
  | p :: ps' =>
      match possibleMoveAt gm (fst p) (snd p) with
      | (true, gm') => (true, gm')
      | (false, gm') => hasPossibleMovesIn ps' gm'
      end
  end.

(** hasPossibleMoves(): true or false, and the grid it leaves. *)
Definition hasPossibleMoves (gm : t) : bool * t :=
  hasPossibleMovesIn (rowMajor (width gm) (height gm)) gm.

(** handleTileSelect(x, y) with the field [selectedTile] passed in and
    returned: the new selection and the swap, if any, that is handed to
    the swap callback.  (The handler is attached to the rendered cells
    and the callback is set when a level is loaded; the class changes of
    the DOM elements are left out.) *)
Definition handleTileSelect (gm : t) (selectedTile : option Pos) (x y : Z)
  : option Pos * option (Pos * Pos) :=
  match cellAt (grid gm) x y with
  | None => (None, None)
  | Some tile =>
      if negb (Tile.canSwap tile) then (None, None)
      else
        match selectedTile with
        | None => (Some (x, y), None)
        | Some (sx, sy) =>
            if areAdjacent sx sy x y
            then (None, Some ((sx, sy), (x, y)))
            else (None, None)
        end
  end.

End GridManager.

(** ** MatchResolver.js *)

Inductive Orientation := horizontal | vertical.

Module MatchObj.
(** A match object { tiles, type, length, color }. *)
Record t := mk {
  tiles : list Pos;
  type : Orientation;
  length : Z;
  color : string
}.
End MatchObj.

Module SpecialObj.
(** { type, position, color }; [position] is [match.tiles[centerIndex]],
    which is [undefined] ([None]) when the index is outside the array. *)
Record t := mk {
  type : CONFIG.SPECIAL_TILES;
  position : option Pos;
  color : string
}.
End SpecialObj.

Definition option_string_eqb (a b : option string) : bool :=
  match a, b with
  | Some s1, Some s2 => String.eqb s1 s2
  | None, None => true
  | _, _ => false
  end.

Module MatchResolver.

(** [tile?.isMatchable() ? tile.type : null] *)
Definition tileTypeAt (gm : GridManager.t) (x y : Z) : option string :=
  match GridManager.getTile gm x y with
  | Some tile => if Tile.isMatchable tile then Some (Tile.type tile) else None
  | None => None
  end.

(** The state of one run-length scan: the loop variables [matchStart]
    and [currentType], and the matches pushed by this line. *)
Record scan := mkScan {
  matchStart : Z;
  currentType : option string;
  found : list MatchObj.t
}.

(** The body of the inner loop of findAllMatches at index [i] of a line.
    [typeAt] reads the matchable type along the line and [mkMatch s e c]
    builds the match object of the cells [s .. e-1].  The row loop and the
    column loop of the source are this body with the two coordinates
    exchanged.  (The [visited] set of the source is written and never
    read.) *)
Definition scanStep (typeAt : Z -> option string)
  (mkMatch : Z -> Z -> string -> MatchObj.t) (st : scan) (i : Z) : scan :=
  let tileType := typeAt i in
  if option_string_eqb tileType (currentType st)
     && bool_decide (currentType st <> None)
  then st
  else
    let matchLength := i - matchStart st in
    let found' :=
      match currentType st with
      | Some c =>
          if CONFIG.MATCH.MIN_MATCH <=? matchLength
          then found st ++ [mkMatch (matchStart st) i c]
          else found st
      | None => found st
      end in
    {| matchStart := i; currentType := tileType; found := found' |}.

(** [for (let i = 0; i <= n; i++)] over one line. *)
Definition scanLine (typeAt : Z -> option string)
  (mkMatch : Z -> Z -> string -> MatchObj.t) (n : Z) : list MatchObj.t :=
  found
    (fold_left (scanStep typeAt mkMatch) (seqZ 0 (n + 1))
       {| matchStart := 0; currentType := None; found := [] |}).

Definition horizontalMatch (y : Z) (s e : Z) (c : string) : MatchObj.t :=
  {| MatchObj.tiles := map (fun mx => (mx, y)) (seqZ s (e - s));
     MatchObj.type := horizontal;
     MatchObj.length := e - s;
     MatchObj.color := c |}.

Definition verticalMatch (x : Z) (s e : Z) (c : string) : MatchObj.t :=
  {| MatchObj.tiles := map (fun my => (x, my)) (seqZ s (e - s));
     MatchObj.type := vertical;
     MatchObj.length := e - s;
     MatchObj.color := c |}.

Definition findAllMatches (gm : GridManager.t) : list MatchObj.t :=
  flat_map
    (fun y =>
       scanLine (fun x => tileTypeAt gm x y) (horizontalMatch y)
         (GridManager.width gm))
    (seqZ 0 (GridManager.height gm))
  ++
  flat_map
    (fun x =>
       scanLine (fun y => tileTypeAt gm x y) (verticalMatch x)
         (GridManager.height gm))
    (seqZ 0 (GridManager.width gm)).

(** [Math.floor(match.tiles.length / 2)] *)
Definition centerIndex (m : MatchObj.t) : nat :=
  Nat.div (List.length (MatchObj.tiles m)) 2.

Definition getSpecialTileForMatch (m : MatchObj.t) : option SpecialObj.t :=
  if CONFIG.MATCH.BOMB_COUNT <=? MatchObj.length m then
    Some {| SpecialObj.type := CONFIG.BOMB;
            SpecialObj.position := MatchObj.tiles m !! centerIndex m;
            SpecialObj.color := MatchObj.color m |}
  else if CONFIG.MATCH.LINE_CLEAR_COUNT <=? MatchObj.length m then
    let specialType :=
      match MatchObj.type m with
      | horizontal => CONFIG.LINE_V
      | vertical => CONFIG.LINE_H
      end in
    Some {| SpecialObj.type := specialType;
            SpecialObj.position := MatchObj.tiles m !! centerIndex m;
            SpecialObj.color := MatchObj.color m |}
  else None.

(** The test [tile && !tile.isBlocker() && !tile.isCharacter() &&
    !tile.isExit()] of getSpecialTileAffectedPositions. *)
Definition affectable (gm : GridManager.t) (p : Pos) : bool :=
  match GridManager.getTile gm (fst p) (snd p) with
  | Some tile =>
      negb (Tile.isBlocker tile) && negb (Tile.isCharacter tile)
      && negb (Tile.isExit tile)
  | None => false
  end.

Definition getSpecialTileAffectedPositions (gm : GridManager.t) (x y : Z)
  (specialType : CONFIG.SPECIAL_TILES) : list Pos :=
  match specialType with
  | CONFIG.LINE_H =>
      filter (fun p => affectable gm p = true)
        (map (fun px => (px, y)) (seqZ 0 (GridManager.width gm)))
  | CONFIG.LINE_V =>
      filter (fun p => affectable gm p = true)
        (map (fun py => (x, py)) (seqZ 0 (GridManager.height gm)))
  | CONFIG.BOMB =>
      filter (fun p => affectable gm p = true)
        (flat_map (fun py => map (fun px => (px, py)) (seqZ (x - 1) 3))
           (seqZ (y - 1) 3))
  end.

Definition unlockAdjacentTiles (gm : GridManager.t) (x y : Z)
  : GridManager.t :=
  fold_left
    (fun g (adj : Pos * Tile.t) =>
       if Tile.isLocked (snd adj)
       then GridManager.updateTile g (fst (fst adj)) (snd (fst adj)) Tile.unlock
       else g)
    (GridManager.getAdjacentTiles gm x y) gm.

(** The state of processMatches: the grid (tiles are mutated in place),
    the [processed] key set and the [clearedPositions] array. *)
Record progress := mkProgress {
  gridManager : GridManager.t;
  processed : list Pos;
  clearedPositions : list Pos
}.

(** The body of [match.tiles.forEach(pos => ...)]. *)
Definition processTile (st : progress) (pos : Pos) : progress :=
  if pos_mem pos (processed st) then st
  else
    let processed' := pos :: processed st in
    let gm := gridManager st in
    match GridManager.getTile gm (fst pos) (snd pos) with
    | None =>
        {| gridManager := gm; processed := processed';
           clearedPositions := clearedPositions st |}
    | Some tile =>
        let gm1 :=
          if 0 <? Tile.iceLayer tile
          then GridManager.updateTile gm (fst pos) (snd pos)
                 (fun tl => fst (Tile.removeIceLayer tl))
          else gm in
        let stillIced :=
          (0 <? Tile.iceLayer tile)
          && (0 <? Tile.iceLayer (fst (Tile.removeIceLayer tile))) in
        if stillIced then
          {| gridManager := gm1; processed := processed';
             clearedPositions := clearedPositions st |}
        else
          {| gridManager := unlockAdjacentTiles gm1 (fst pos) (snd pos);
             processed := processed';
             clearedPositions := clearedPositions st ++ [pos] |}
    end.

Definition processMatch (st : progress * list SpecialObj.t) (m : MatchObj.t)
  : progress * list SpecialObj.t :=
  let specialTiles :=
    match getSpecialTileForMatch m with
    | Some special => snd st ++ [special]
    | None => snd st
    end in
  (fold_left processTile (MatchObj.tiles m) (fst st), specialTiles).

(** processMatches(matches): the grid after the in-place mutations and
    the returned { clearedPositions, specialTiles }. *)
Definition processMatches (gm : GridManager.t) (ms : list MatchObj.t)
  : GridManager.t * list Pos * list SpecialObj.t :=
  let '(st, specialTiles) :=
    fold_left processMatch ms
      ({| gridManager := gm; processed := []; clearedPositions := [] |}, []) in
  (gridManager st, clearedPositions st, specialTiles).

(** The length of the longest prefix of [l] whose elements satisfy [f]:
    a counting loop that stops at the first [break]. *)
Fixpoint countRun (f : Z -> bool) (l : list Z) : Z :=
  match l with
  | [] => 0
  | i :: l' => if f i then 1 + countRun f l' else 0
  end.

Definition checkForMatchAt (gm : GridManager.t) (x y : Z) : bool :=
  match GridManager.getTile gm x y with
  | None => false
  | Some tile =>
      if negb (Tile.isMatchable tile) then false
      else
        let same (t : option Tile.t) : bool :=
          match t with
          | Some t' =>
              String.eqb (Tile.type t') (Tile.type tile) && Tile.isMatchable t'
          | None => false
          end in
        let hCount :=
          1 + countRun (fun i => same (GridManager.getTile gm i y))
                (reverse (seqZ 0 x))
            + countRun (fun i => same (GridManager.getTile gm i y))
                (seqZ (x + 1) (GridManager.width gm - (x + 1))) in
        if CONFIG.MATCH.MIN_MATCH <=? hCount then true
        else
          let vCount :=
            1 + countRun (fun j => same (GridManager.getTile gm x j))
                  (reverse (seqZ 0 y))
              + countRun (fun j => same (GridManager.getTile gm x j))
                  (seqZ (y + 1) (GridManager.height gm - (y + 1))) in
          CONFIG.MATCH.MIN_MATCH <=? vCount
  end.

Definition checkSwapForMatches (gm : GridManager.t) (x1 y1 x2 y2 : Z) : bool :=
  checkForMatchAt gm x1 y1 || checkForMatchAt gm x2 y2.

(** getMatchedPositions(matches): the positions of the matches, each
    once, in the order of their first occurrence (the values of a Map
    keyed by position). *)
Definition getMatchedPositions (ms : list MatchObj.t) : list Pos :=
  fold_left
    (fun positionMap (m : MatchObj.t) =>
       fold_left
         (fun positionMap pos =>
            if pos_mem pos positionMap then positionMap
            else positionMap ++ [pos])
         (MatchObj.tiles m) positionMap)
    ms [].

Definition hasMatches (gm : GridManager.t) : bool :=
  match findAllMatches gm with
  | [] => false
  | _ => true
  end.

End MatchResolver.

(** ** GravitySystem.js *)

Module Movement.
Record t := mk { fromX : Z; fromY : Z; toX : Z; toY : Z }.
End Movement.

Module Spawn.
(** A record { x, y, tile } of spawnNewTiles.  [tile] is the tile as
    spawnNewTiles puts it in the cell (x, y).  In the source the record
    and the grid share the tile object, so the coordinates of the object
    follow it if it falls afterwards; [x] and [y] are plain numbers and
    stay.  Nothing below reads [tile] after a later fall. *)
Record t := mk { x : Z; y : Z; tile : Tile.t }.
End Spawn.

Module GravitySystem.

Definition isPositionFixed (gm : GridManager.t) (x y : Z) : bool :=
  let tile := GridManager.getTile gm x y in
  let charPos := GridManager.characterPosition gm in
  if (x =? fst charPos) && (y =? snd charPos) then true
  else if match tile with Some tl => Tile.isExit tl | None => false end then true
  else if match tile with Some tl => Tile.isBlocker tl | None => false end then true
  else false.

(** The first loop over a column: the empty, non-fixed rows from the
    bottom up. *)
Definition emptyPositions (gm : GridManager.t) (x : Z) : list Z :=
  filter
    (fun y => negb (isPositionFixed gm x y) && GridManager.isEmpty gm x y = true)
    (reverse (seqZ 0 (GridManager.height gm))).

(** The search [for (searchY = emptyY - 1; searchY >= 0; searchY--)]
    over the rows [ys], up to its [break]. *)
Fixpoint findFalling (gm : GridManager.t) (x : Z) (ys : list Z)
  : option (Z * Tile.t) :=
  match ys with
  | [] => None
  | searchY :: ys' =>
      if isPositionFixed gm x searchY then findFalling gm x ys'
      else
        match GridManager.getTile gm x searchY with
        | Some tile =>
            if negb (Tile.isEmpty tile) && negb (Tile.isBlocker tile)
               && Tile.isMatchable tile
            then Some (searchY, tile)
            else findFalling gm x ys'
        | None => findFalling gm x ys'
        end
  end.

(** The body of [emptyPositions.forEach(emptyY => ...)] in column [x]. *)
Definition fallInto (x : Z) (st : GridManager.t * list Movement.t)
  (emptyY : Z) : GridManager.t * list Movement.t :=
  let gm := fst st in
  match findFalling gm x (reverse (seqZ 0 emptyY)) with
  | Some (searchY, tile) =>
      (GridManager.setEmpty (GridManager.setTile gm x emptyY tile) x searchY,
       snd st ++ [{| Movement.fromX := x; Movement.fromY := searchY;
                     Movement.toX := x; Movement.toY := emptyY |}])
  | None => st
  end.

Definition applyGravityColumn (st : GridManager.t * list Movement.t) (x : Z)
  : GridManager.t * list Movement.t :=
  fold_left (fallInto x) (emptyPositions (fst st) x) st.

Definition applyGravity (gm : GridManager.t)
  : GridManager.t * list Movement.t :=
  fold_left applyGravityColumn (seqZ 0 (GridManager.width gm)) (gm, []).

(** The do-while loop of applyGravityFully, run for at most [fuel]
    passes; [None] when the fuel runs out before a pass without
    movement. *)
Fixpoint applyGravityLoop (fuel : nat) (gm : GridManager.t)
  (allMovements : list (list Movement.t))
  : option (GridManager.t * list (list Movement.t)) :=
  match fuel with
  | O => None
  | S fuel' =>
      let '(gm', movements) := applyGravity gm in
      match movements with
      | [] => Some (gm', allMovements)
      | _ => applyGravityLoop fuel' gm' (allMovements ++ [movements])
      end
  end.

(** The weight of a grid: every cell that holds no tile that can fall
    counts for its row number plus one.  Each movement of a pass lowers
    the weight. *)
Definition cellWeight (gm : GridManager.t) (p : Pos) : nat :=
  match GridManager.getTile gm (fst p) (snd p) with
  | Some tile => if Tile.isMatchable tile then 0%nat else Z.to_nat (snd p + 1)
  | None => Z.to_nat (snd p + 1)
  end.

Definition weight (gm : GridManager.t) : nat :=
  list_sum
    (map (cellWeight gm)
       (GridManager.rowMajor (GridManager.width gm) (GridManager.height gm))).

(** applyGravityFully(): the loop with as many passes as the weight of
    the grid allows, plus the last one. *)
Definition applyGravityFully (gm : GridManager.t)
  : GridManager.t * list (list Movement.t) :=
  default (gm, []) (applyGravityLoop (S (weight gm)) gm []).

(** The body of the two loops of spawnNewTiles at cell (x, y). *)
Definition spawnAt (st : GridManager.t * Tape * list Spawn.t) (p : Pos)
  : GridManager.t * Tape * list Spawn.t :=
  let '(gm, tape, newTiles) := st in
  let '(x, y) := p in
  if isPositionFixed gm x y then st
  else if GridManager.isEmpty gm x y then
    let '(newTile, tape') :=
      GridManager.createNonMatchingTile (GridManager.grid gm) x y
        (GridManager.tileTypes gm) tape in
    (GridManager.setTile gm x y newTile, tape',
     newTiles ++ [{| Spawn.x := x; Spawn.y := y;
                     Spawn.tile := Tile.moveTo newTile x y |}])
  else st.

(** The cells in the order of [for x ... for y ...]. *)
Definition columnMajor (w h : Z) : list Pos :=
  flat_map (fun x => map (fun y => (x, y)) (seqZ 0 h)) (seqZ 0 w).

Definition spawnNewTiles (gm : GridManager.t) (tape : Tape)
  : GridManager.t * Tape * list Spawn.t :=
  fold_left spawnAt
    (columnMajor (GridManager.width gm) (GridManager.height gm))
    (gm, tape, []).

Definition processGravity (gm : GridManager.t) (tape : Tape)
  : GridManager.t * Tape * list Movement.t * list Spawn.t :=
  let '(gm1, allMovements) := applyGravityFully gm in
  let movements := concat allMovements in
  let '(gm2, tape', newTiles) := spawnNewTiles gm1 tape in
  match newTiles with
  | [] => (gm2, tape', movements, newTiles)
  | _ =>
      let '(gm3, additionalMovements) := applyGravityFully gm2 in
      (gm3, tape', movements ++ concat additionalMovements, newTiles)
  end.

(** getEmptyPositions(): the empty cells that are not fixed, row by
    row. *)
Definition getEmptyPositions (gm : GridManager.t) : list Pos :=
  filter
    (fun p => GridManager.isEmpty gm (fst p) (snd p)
              && negb (isPositionFixed gm (fst p) (snd p)) = true)
    (GridManager.rowMajor (GridManager.width gm) (GridManager.height gm)).

End GravitySystem.

(** ** CharacterController.js *)

Module Step.
(** A movement { fromY, toY, x } of the character. *)
Record t := mk { fromY : Z; toY : Z; x : Z }.
End Step.

Module CharacterController.

(** The controller holds a reference to the grid manager; the methods
    that write to the grid take it and return it. *)
Record t := mk {
  character : option Character.t;
  exitY : Z
}.

Definition initialize (gm : GridManager.t) (x y exitY : Z)
  : t * GridManager.t :=
  ({| character := Some (Character.new x y); exitY := exitY |},
   GridManager.updateCharacterPosition gm x y x y).

Definition hasEscaped (cc : t) : bool :=
  match character cc with
  | None => false
  | Some c => Character.y c <=? exitY cc
  end.

Definition tryMoveUp (cc : t) (gm : GridManager.t)
  : t * GridManager.t * option Step.t :=
  match character cc with
  | None => (cc, gm, None)
  | Some c =>
      if Character.isMoving c then (cc, gm, None)
      else
        let '(x, y) := Character.getPosition c in
        if y <=? 0 then (cc, gm, None)
        else
          let canMove :=
            match GridManager.getTile gm x (y - 1) with
            | Some tileAbove => Tile.isEmpty tileAbove || Tile.isExit tileAbove
            | None => false
            end in
          if canMove then
            let fromY := y in
            let toY := y - 1 in
            ({| character := Some (Character.moveTo c x toY);
                exitY := exitY cc |},
             GridManager.updateCharacterPosition gm x fromY x toY,
             Some {| Step.fromY := fromY; Step.toY := toY; Step.x := x |})
          else (cc, gm, None)
  end.

(** The while loop of moveToHighestEmpty, for at most [fuel] steps. *)
Fixpoint climb (fuel : nat) (cc : t) (gm : GridManager.t)
  (movements : list Step.t) : t * GridManager.t * list Step.t :=
  match fuel with
  | O => (cc, gm, movements)
  | S fuel' =>
      match tryMoveUp cc gm with
      | (cc', gm', Some movement) =>
          let movements' := movements ++ [movement] in
          if hasEscaped cc' then (cc', gm', movements')
          else climb fuel' cc' gm' movements'
      | (cc', gm', None) => (cc', gm', movements)
      end
  end.

(** Every step lowers the row of the character by one and no step is
    taken from row 0 or above it, so the loop ends within as many steps
    as the row number. *)
Definition moveToHighestEmpty (cc : t) (gm : GridManager.t)
  : t * GridManager.t * list Step.t :=
  let rows :=
    match character cc with
    | Some c => Z.to_nat (Character.y c)
    | None => O
    end in
  climb (S rows) cc gm [].

Definition getPosition (cc : t) : option Pos :=
  option_map Character.getPosition (character cc).

(** reset(): the character goes back to its start; the grid is told so
    with the start as the old and as the new position. *)
Definition reset (cc : t) (gm : GridManager.t) : t * GridManager.t :=
  match character cc with
  | Some c =>
      let c' := Character.reset c in
      ({| character := Some c'; exitY := exitY cc |},
       GridManager.updateCharacterPosition gm (Character.x c') (Character.y c')
         (Character.startX c) (Character.startY c))
  | None => (cc, gm)
  end.

Definition isPositionAboveCharacter (cc : t) (x y : Z) : bool :=
  match character cc with
  | None => false
  | Some c => (x =? Character.x c) && (y <? Character.y c)
  end.

(** getPathToExit(): the cells from the one above the character up to
    the exit row. *)
Definition getPathToExit (cc : t) : list Pos :=
  match character cc with
  | None => []
  | Some c =>
      map (fun y => (Character.x c, y))
        (reverse (seqZ (exitY cc) (Character.y c - exitY cc)))
  end.

Definition isBlocked (cc : t) (gm : GridManager.t) : bool :=
  match character cc with
  | None => true
  | Some c =>
      let '(x, y) := Character.getPosition c in
      if y <=? 0 then false
      else
        match GridManager.getTile gm x (y - 1) with
        | Some tileAbove =>
            negb (Tile.isEmpty tileAbove) && negb (Tile.isExit tileAbove)
        | None => true
        end
  end.

End CharacterController.

(** ** The calls to the presentation layer *)

Inductive Event :=
| AnimateSwap (p1 p2 : Pos)
| AnimateInvalidSwap (p1 p2 : Pos)
| AnimateMatch (cleared : list Pos)
| AnimateSpawn (spawned : list Pos)
| CascadeDelay
| CharacterMoveDelay
| MovesChanged (remaining max : Z)
| OnWin (level movesUsed movesRemaining : Z)
| OnLose (level : Z).

(** ** LevelManager.js *)

Module LevelManager.

(** [movesRemaining] and [maxMoves] are JS numbers.  They are integers
    here, and [movesRemaining--] is the subtraction of Z: this is the
    arithmetic of JS numbers on the integers of magnitude below 2^53
    (beyond, a JS number may keep its value when 1 is subtracted).
    Properties that depend on the subtraction are stated for counts in
    that range. *)
Record t := mk {
  levels : list Level.t;
  currentLevelIndex : Z;
  currentLevel : option Level.t;
  movesRemaining : Z;
  maxMoves : Z;
  gameState : CONFIG.STATE
}.

Definition setState (lm : t) (state : CONFIG.STATE) : t :=
  {| levels := levels lm; currentLevelIndex := currentLevelIndex lm;
     currentLevel := currentLevel lm; movesRemaining := movesRemaining lm;
     maxMoves := maxMoves lm; gameState := state |}.

Definition setMovesRemaining (lm : t) (n : Z) : t :=
  {| levels := levels lm; currentLevelIndex := currentLevelIndex lm;
     currentLevel := currentLevel lm; movesRemaining := n;
     maxMoves := maxMoves lm; gameState := gameState lm |}.

Definition getState (lm : t) : CONFIG.STATE := gameState lm.
Definition getMovesRemaining (lm : t) : Z := movesRemaining lm.

Definition isWin (s : CONFIG.STATE) : bool :=
  match s with CONFIG.WIN => true | _ => false end.

Definition isLose (s : CONFIG.STATE) : bool :=
  match s with CONFIG.LOSE => true | _ => false end.

Definition isGameOver (lm : t) : bool :=
  isWin (gameState lm) || isLose (gameState lm).

(** The callbacks onWin, onLose and onMovesChanged are set by Game.init;
    each method returns the events its callbacks produce. *)
Definition triggerWin (lm : t) : t * list Event :=
  (setState lm CONFIG.WIN,
   [OnWin (currentLevelIndex lm + 1) (maxMoves lm - movesRemaining lm)
      (movesRemaining lm)]).

Definition triggerLose (lm : t) : t * list Event :=
  (setState lm CONFIG.LOSE, [OnLose (currentLevelIndex lm + 1)]).

Definition useMove (lm : t) : t * bool * list Event :=
  if movesRemaining lm <=? 0 then (lm, false, [])
  else
    let lm1 := setMovesRemaining lm (movesRemaining lm - 1) in
    let ev1 := [MovesChanged (movesRemaining lm1) (maxMoves lm1)] in
    if (movesRemaining lm1 <=? 0) && negb (isWin (gameState lm1)) then
      let '(lm2, ev2) := triggerLose lm1 in
      (lm2, false, ev1 ++ ev2)
    else (lm1, true, ev1).

(** getLevel(index) *)
Definition getLevel (lm : t) (index : Z) : option Level.t :=
  if (0 <=? index) && (index <? Z.of_nat (List.length (levels lm)))
  then levels lm !! Z.to_nat index
  else None.

(** startLevel(index): the returned level (or null) and the
    onMovesChanged event.  (The onLevelLoaded callback only writes the
    level number to the page.)  [level.maxMoves || 20]: a budget of 0 is
    replaced by 20. *)
Definition startLevel (lm : t) (index : Z) : t * option Level.t * list Event :=
  match getLevel lm index with
  | None => (lm, None, [])
  | Some level =>
      let maxMoves' :=
        if Level.maxMoves level =? 0 then 20 else Level.maxMoves level in
      ({| levels := levels lm; currentLevelIndex := index;
          currentLevel := Some level; movesRemaining := maxMoves';
          maxMoves := maxMoves'; gameState := CONFIG.IDLE |},
       Some level, [MovesChanged maxMoves' maxMoves'])
  end.

Definition nextLevel (lm : t) : t * option Level.t * list Event :=
  startLevel lm (currentLevelIndex lm + 1).

Definition restartLevel (lm : t) : t * option Level.t * list Event :=
  startLevel lm (currentLevelIndex lm).

Definition addMoves (lm : t) (moves : Z) : t * list Event :=
  let lm' := setMovesRemaining lm (movesRemaining lm + moves) in
  (lm', [MovesChanged (movesRemaining lm') (maxMoves lm')]).

Definition hasWon (lm : t) : bool := isWin (gameState lm).
Definition hasLost (lm : t) : bool := isLose (gameState lm).

Definition hasMoreLevels (lm : t) : bool :=
  currentLevelIndex lm <? Z.of_nat (List.length (levels lm)) - 1.

Definition getCurrentLevelNumber (lm : t) : Z := currentLevelIndex lm + 1.

Definition getTotalLevels (lm : t) : Z := Z.of_nat (List.length (levels lm)).

End LevelManager.

(** ** main.js *)

Module Game.

Record t := mk {
  gridManager : GridManager.t;
  characterController : CharacterController.t;
  levelManager : LevelManager.t;
  isProcessing : bool;
  events : list Event
}.

Definition setState (g : t) (state : CONFIG.STATE) : t :=
  {| gridManager := gridManager g;
     characterController := characterController g;
     levelManager := LevelManager.setState (levelManager g) state;
     isProcessing := isProcessing g; events := events g |}.

Definition setGridManager (g : t) (gm : GridManager.t) : t :=
  {| gridManager := gm; characterController := characterController g;
     levelManager := levelManager g; isProcessing := isProcessing g;
     events := events g |}.

Definition setCharacterController (g : t) (cc : CharacterController.t) : t :=
  {| gridManager := gridManager g; characterController := cc;
     levelManager := levelManager g; isProcessing := isProcessing g;
     events := events g |}.

Definition setLevelManager (g : t) (lm : LevelManager.t) : t :=
  {| gridManager := gridManager g;
     characterController := characterController g;
     levelManager := lm; isProcessing := isProcessing g;
     events := events g |}.

Definition setProcessing (g : t) (b : bool) : t :=
  {| gridManager := gridManager g;
     characterController := characterController g;
     levelManager := levelManager g; isProcessing := b;
     events := events g |}.

Definition emit (g : t) (evs : list Event) : t :=
  {| gridManager := gridManager g;
     characterController := characterController g;
     levelManager := levelManager g; isProcessing := isProcessing g;
     events := events g ++ evs |}.

(** [specialTiles.forEach(special => ...)] of processCascades.  A special
    without a position cannot come out of processMatches on the matches
    of findAllMatches (JS would raise a TypeError on it). *)
Definition createSpecial (gm : GridManager.t) (special : SpecialObj.t)
  : GridManager.t :=
  match SpecialObj.position special with
  | Some p =>
      let tile := Tile.new (SpecialObj.color special) (fst p) (snd p) in
      let tile := Tile.setSpecial tile (SpecialObj.type special) in
      GridManager.setTile gm (fst p) (snd p) tile
  | None => gm
  end.

(** The part of one round of the cascade loop that clears the matches:
    processMatches, setEmpty on the cleared cells, creation of the
    specials. *)
Definition clearMatches (gm : GridManager.t) (ms : list MatchObj.t)
  : GridManager.t * list Pos :=
  let '(gm1, clearedPositions, specialTiles) :=
    MatchResolver.processMatches gm ms in
  let gm2 :=
    fold_left (fun g (pos : Pos) => GridManager.setEmpty g (fst pos) (snd pos))
      clearedPositions gm1 in
  (fold_left createSpecial specialTiles gm2, clearedPositions).

(** The while loop of processCascades, for at most [fuel] rounds; [None]
    when matches are still found after them. *)
Fixpoint processCascades (fuel : nat) (g : t) (tape : Tape)
  : option (t * Tape) :=
  match fuel with
  | O => None
  | S fuel' =>
      let g := setState g CONFIG.MATCHING in
      let ms := MatchResolver.findAllMatches (gridManager g) in
      match ms with
      | [] => Some (g, tape)
      | _ =>
          let '(gm, clearedPositions) := clearMatches (gridManager g) ms in
          let g := emit (setGridManager g gm) [AnimateMatch clearedPositions] in
          let g := setState g CONFIG.FALLING in
          let '(gm', tape', _, newTiles) :=
            GravitySystem.processGravity (gridManager g) tape in
          let g := setGridManager g gm' in
          let g :=
            match newTiles with
            | [] => g
            | _ =>
                emit g [AnimateSpawn
                          (map (fun nt => (Spawn.x nt, Spawn.y nt)) newTiles)]
            end in
          processCascades fuel' (emit g [CascadeDelay]) tape'
      end
  end.

Definition moveCharacter (g : t) : t :=
  let g := setState g CONFIG.CHARACTER_MOVING in
  let '(cc, gm, movements) :=
    CharacterController.moveToHighestEmpty (characterController g)
      (gridManager g) in
  let g := setGridManager (setCharacterController g cc) gm in
  match movements with
  | [] => g
  | _ => emit g [CharacterMoveDelay]
  end.

(** handleSwap(x1, y1, x2, y2); [fuel] bounds the rounds of the cascade
    loop. *)
Definition handleSwap (fuel : nat) (g : t) (x1 y1 x2 y2 : Z) (tape : Tape)
  : option (t * Tape) :=
  if isProcessing g || LevelManager.isGameOver (levelManager g)
  then Some (g, tape)
  else
    let g := setProcessing g true in
    let g := setState g CONFIG.SWAPPING in
    let g := emit g [AnimateSwap (x1, y1) (x2, y2)] in
    let g := setGridManager g (GridManager.swap (gridManager g) x1 y1 x2 y2) in
    let hasMatch :=
      MatchResolver.checkSwapForMatches (gridManager g) x1 y1 x2 y2 in
    let finish (g : t) : t :=
      setProcessing (setState g CONFIG.IDLE) false in
    if hasMatch then
      let '(lm, _, evs) := LevelManager.useMove (levelManager g) in
      let g := emit (setLevelManager g lm) evs in
      match processCascades fuel g tape with
      | None => None
      | Some (g, tape') =>
          let g := moveCharacter g in
          let g :=
            if CharacterController.hasEscaped (characterController g) then
              let '(lm, evs) := LevelManager.triggerWin (levelManager g) in
              emit (setLevelManager g lm) evs
            else if LevelManager.getMovesRemaining (levelManager g) <=? 0 then
              let '(lm, evs) := LevelManager.triggerLose (levelManager g) in
              emit (setLevelManager g lm) evs
            else g in
          Some (finish g, tape')
      end
    else
      let g := emit g [AnimateInvalidSwap (x1, y1) (x2, y2)] in
      let g :=
        setGridManager g (GridManager.swap (gridManager g) x1 y1 x2 y2) in
      Some (finish g, tape).

(** loadCurrentLevel(): new managers for the current level.  The level
    must name its character start and its exit (the source reads
    [level.characterStart.x] and [level.exitPosition.y]; without them it
    raises a TypeError, [None] here); without a current level nothing
    happens. *)
Definition loadCurrentLevel (g : t) (tape : Tape) : option (t * Tape) :=
  match LevelManager.currentLevel (levelManager g) with
  | None => Some (g, tape)
  | Some level =>
      match Level.characterStart level, Level.exitPosition level with
      | Some start, Some exitPos =>
          let '(gm, tape') :=
            GridManager.initialize (Level.gridWidth level)
              (Level.gridHeight level) level tape in
          let '(cc, gm') :=
            CharacterController.initialize gm (fst start) (snd start)
              (snd exitPos) in
          Some ({| gridManager := gm'; characterController := cc;
                   levelManager := levelManager g; isProcessing := false;
                   events := events g |}, tape')
      | _, _ => None
      end
  end.

(** startGame() *)
Definition startGame (g : t) (tape : Tape) : option (t * Tape) :=
  let '(lm, _, evs) := LevelManager.startLevel (levelManager g) 0 in
  loadCurrentLevel (emit (setLevelManager g lm) evs) tape.

(** restartLevel() *)
Definition restartLevel (g : t) (tape : Tape) : option (t * Tape) :=
  let '(lm, _, evs) := LevelManager.restartLevel (levelManager g) in
  loadCurrentLevel (emit (setLevelManager g lm) evs) tape.

End Game.


(** * Part II: the vocabulary of the properties *)

(** The cell (x, y) is inside the arrays of [cells]. *)
Definition cellExists (cells : list (list (option Tile.t))) (x y : Z) : Prop :=
  0 <= x /\ 0 <= y /\
  exists row, cells !! Z.to_nat y = Some row /\ (Z.to_nat x < List.length row)%nat.

(** The fields other than the cells are never written by the tile
    operations. *)
Definition sameFrame (gm gm' : GridManager.t) : Prop :=
  GridManager.width gm' = GridManager.width gm
  /\ GridManager.height gm' = GridManager.height gm
  /\ GridManager.tileTypes gm' = GridManager.tileTypes gm
  /\ GridManager.exitPosition gm' = GridManager.exitPosition gm
  /\ GridManager.characterPosition gm' = GridManager.characterPosition gm.

(** [m] is the match object of a run [s .. e-1] of one colour along a line
    read by [typeAt], of length at least 3, that ends at or before
    [bound]. *)
Definition isRun (typeAt : Z -> option string)
  (mkMatch : Z -> Z -> string -> MatchObj.t) (bound : Z) (m : MatchObj.t) : Prop :=
  exists s e c,
    m = mkMatch s e c /\ 0 <= s /\ s + 3 <= e /\ e <= bound
    /\ forall j, s <= j < e -> typeAt j = Some c.

(** The loop invariant of a scan before index [i]. *)
Definition scanInv (typeAt : Z -> option string)
  (mkMatch : Z -> Z -> string -> MatchObj.t) (i : Z) (st : MatchResolver.scan)
  : Prop :=
  0 <= MatchResolver.matchStart st <= i
  /\ (forall j, MatchResolver.matchStart st <= j < i ->
                typeAt j = MatchResolver.currentType st)
  /\ Forall (isRun typeAt mkMatch (i - 1)) (MatchResolver.found st).

(** A horizontal, respectively vertical, run of at least three cells that
    hold matchable tiles of one colour. *)
Definition isHorizontalRun (gm : GridManager.t) (m : MatchObj.t) : Prop :=
  exists y s e c,
    0 <= y < GridManager.height gm
    /\ m = MatchResolver.horizontalMatch y s e c
    /\ 0 <= s /\ s + 3 <= e /\ e <= GridManager.width gm
    /\ forall j, s <= j < e -> MatchResolver.tileTypeAt gm j y = Some c.

Definition isVerticalRun (gm : GridManager.t) (m : MatchObj.t) : Prop :=
  exists x s e c,
    0 <= x < GridManager.width gm
    /\ m = MatchResolver.verticalMatch x s e c
    /\ 0 <= s /\ s + 3 <= e /\ e <= GridManager.height gm
    /\ forall j, s <= j < e -> MatchResolver.tileTypeAt gm x j = Some c.

(** The ice count of the tile in a cell. *)
Definition iceAt (gm : GridManager.t) (p : Pos) : option Z :=
  Tile.iceLayer <$> GridManager.getTile gm (fst p) (snd p).

(** The state of processMatches as far as a cell [pos] that held [n] ice
    layers at the start is concerned: not yet visited and untouched, or
    visited once, with one layer less, and cleared exactly when that was
    the last layer. *)
Definition iceInv (pos : Pos) (n : Z) (st : MatchResolver.progress) : Prop :=
  (~ In pos (MatchResolver.processed st)
   /\ iceAt (MatchResolver.gridManager st) pos = Some n
   /\ ~ In pos (MatchResolver.clearedPositions st))
  \/
  (In pos (MatchResolver.processed st)
   /\ iceAt (MatchResolver.gridManager st) pos = Some (n - 1)
   /\ (In pos (MatchResolver.clearedPositions st) <-> n = 1)).

(** ** Boards for the examples *)

Definition rowOf (y : Z) (types : list string) : list (option Tile.t) :=
  imap (fun i ty => Some (Tile.new ty (Z.of_nat i) y)) types.

(** The board whose rows hold plain tiles of the given types. *)
Definition boardOf (rows : list (list string)) (palette : list string)
  (exitPos characterPos : Pos) : GridManager.t :=
  {| GridManager.width := Z.of_nat (List.length (hd [] rows));
     GridManager.height := Z.of_nat (List.length rows);
     GridManager.grid := imap (fun j row => rowOf (Z.of_nat j) row) rows;
     GridManager.tileTypes := palette;
     GridManager.exitPosition := exitPos;
     GridManager.characterPosition := characterPos |}.

(** A 5 x 3 board: the exit in the top row, the character in the bottom
    row, and a run of four red tiles in the middle row. *)
Definition boardRun4 : GridManager.t :=
  boardOf
    [ ["blue"; "green"; "exit"; "green"; "blue"];
      ["red"; "red"; "red"; "red"; "blue"];
      ["green"; "blue"; "empty"; "blue"; "green"] ]%string
    ["red"; "blue"; "green"]%string (2, 0) (2, 2).

(** The same board with a run of three red tiles. *)
Definition boardRun3 : GridManager.t :=
  boardOf
    [ ["blue"; "green"; "exit"; "green"; "blue"];
      ["red"; "red"; "red"; "green"; "blue"];
      ["green"; "blue"; "empty"; "blue"; "green"] ]%string
    ["red"; "blue"; "green"]%string (2, 0) (2, 2).

(** [boardRun3] with [n] ice layers on the middle tile of the run. *)
Definition boardIced (n : Z) : GridManager.t :=
  GridManager.updateTile boardRun3 1 1 (fun tl => Tile.addIce tl n).

(** [boardRun3] with the middle tile of the run locked. *)
Definition boardLocked : GridManager.t :=
  GridManager.updateTile boardRun3 1 1 Tile.lock.

(** ** Gravity *)

(** The rows [ys] of column [x] are distinct cells that are empty and not
    fixed: the state of the list [emptyPositions] while a column is
    processed. *)
Definition holes (gm : GridManager.t) (x : Z) (ys : list Z) : Prop :=
  List.NoDup ys
  /\ forall y, In y ys ->
       GravitySystem.isPositionFixed gm x y = false
       /\ GridManager.isEmpty gm x y = true.

(** The movement list only grows, and the state is untouched when it does
    not grow. *)
Definition grows (st st' : GridManager.t * list Movement.t) : Prop :=
  exists new, snd st' = snd st ++ new /\ (new = [] -> st' = st).

(** What any stretch of a gravity pass does to the state: the frame and the
    fixed positions stay, the tiles of the fixed positions stay, every new
    movement ends in a position that is not fixed, and the weight of the
    grid drops by at least the number of new movements. *)
Definition settles (st st' : GridManager.t * list Movement.t) : Prop :=
  sameFrame (fst st) (fst st')
  /\ (forall x y, GravitySystem.isPositionFixed (fst st') x y
                  = GravitySystem.isPositionFixed (fst st) x y)
  /\ (forall x y, GravitySystem.isPositionFixed (fst st) x y = true ->
                  GridManager.getTile (fst st') x y = GridManager.getTile (fst st) x y)
  /\ exists new,
       snd st' = snd st ++ new
       /\ (GravitySystem.weight (fst st') + List.length new
           <= GravitySystem.weight (fst st))%nat
       /\ Forall (fun mv =>
                    GravitySystem.isPositionFixed (fst st)
                      (Movement.toX mv) (Movement.toY mv) = false) new.

(** No tile that can fall stands above an empty cell that is not fixed. *)
Definition atRest (gm : GridManager.t) : Prop :=
  forall x y y' tile,
    GravitySystem.isPositionFixed gm x y = false ->
    GridManager.isEmpty gm x y = true ->
    0 <= y' < y ->
    GravitySystem.isPositionFixed gm x y' = false ->
    GridManager.getTile gm x y' = Some tile ->
    Tile.isMatchable tile = false.

(** The frame stays and so does the tile of every fixed position. *)
Definition keepsFixed (gm gm' : GridManager.t) : Prop :=
  sameFrame gm gm'
  /\ forall x y, GravitySystem.isPositionFixed gm x y = true ->
                 GridManager.getTile gm' x y = GridManager.getTile gm x y.

(** [n] calls of processGravity in a row: the last grid and tape, and all
    the movement and spawn records returned on the way. *)
Fixpoint processGravityTimes (n : nat) (gm : GridManager.t) (tape : Tape)
  : GridManager.t * Tape * list Movement.t * list Spawn.t :=
  match n with
  | O => (gm, tape, [], [])
  | S n' =>
      let '(gm1, tape1, movements1, newTiles1) :=
        GravitySystem.processGravity gm tape in
      let '(gm2, tape2, movements2, newTiles2) :=
        processGravityTimes n' gm1 tape1 in
      (gm2, tape2, movements1 ++ movements2, newTiles1 ++ newTiles2)
  end.

(** ** Initialisation and spawning *)

(** The cell holds a matchable tile of type [ty]. *)
Definition matchableCell (c : option Tile.t) (ty : string) : Prop :=
  exists tile, c = Some tile /\ Tile.isMatchable tile = true /\ Tile.type tile = ty.

(** No three cells in a row, or in a column, hold matchable tiles of one
    type. *)
Definition noRun3 (cells : list (list (option Tile.t))) : Prop :=
  forall x y ty,
    ~ (matchableCell (GridManager.cellAt cells x y) ty
       /\ matchableCell (GridManager.cellAt cells (x + 1) y) ty
       /\ matchableCell (GridManager.cellAt cells (x + 2) y) ty)
    /\ ~ (matchableCell (GridManager.cellAt cells x y) ty
          /\ matchableCell (GridManager.cellAt cells x (y + 1)) ty
          /\ matchableCell (GridManager.cellAt cells x (y + 2)) ty).

(** The order in which the filling loops of initialize visit the cells. *)
Definition before (p q : Pos) : Prop :=
  snd p < snd q \/ (snd p = snd q /\ fst p < fst q).

(** The invariant of the filling loops when [next] is the next cell: the
    matchable tiles are all in cells visited before, and as long as the
    fallback was never taken there is no run of three. *)
Definition fillInv (next : Pos)
  (st : list (list (option Tile.t)) * Tape * list Pos) : Prop :=
  (forall x y tile,
      GridManager.cellAt (fst (fst st)) x y = Some tile ->
      Tile.isMatchable tile = true -> before (x, y) next)
  /\ (snd st = [] -> noRun3 (fst (fst st))).

(** The blocker types of a level: stone, ice, locked. *)
Definition blockerTypes : list string :=
  [CONFIG.TILE_TYPES.STONE; CONFIG.TILE_TYPES.ICE; CONFIG.TILE_TYPES.LOCKED].

Definition inBounds (w h : Z) (p : Pos) : Prop :=
  0 <= fst p < w /\ 0 <= snd p < h.

(** A level, for a grid of [w] x [h] cells, is well formed when its
    blockers have a blocker type and when its blockers, its exit and its
    character start are inside the grid (outside of it the JS array writes
    of initialize raise or grow a row). *)
Definition wellFormedLevel (w h : Z) (level : Level.t) : Prop :=
  Forall (fun b => In (Blocker.type b) blockerTypes
                   /\ inBounds w h (Blocker.x b, Blocker.y b))
    (default [] (Level.blockers level))
  /\ inBounds w h (default (w / 2, 0) (Level.exitPosition level))
  /\ inBounds w h (default (w / 2, h - 1) (Level.characterStart level)).

(** Level 1 of DEFAULT_LEVELS. *)
Definition level1 : Level.t :=
  {| Level.gridWidth := 7; Level.gridHeight := 8; Level.maxMoves := 25;
     Level.characterStart := Some (3, 7);
     Level.exitPosition := Some (3, 0);
     Level.blockers := Some [];
     Level.tileTypes := Some ["red"; "blue"; "green"; "yellow"]%string |}.

(** A level of 3 x 3 cells whose palette names red twice. *)
Definition levelRepeatedColour : Level.t :=
  {| Level.gridWidth := 3; Level.gridHeight := 3; Level.maxMoves := 10;
     Level.characterStart := Some (1, 2);
     Level.exitPosition := Some (1, 0);
     Level.blockers := Some [];
     Level.tileTypes := Some ["red"; "red"; "blue"; "green"]%string |}.

(** A 4 x 3 board with one empty cell that is not fixed, (2, 0), to the
    right of two red tiles. *)
Definition boardSpawn : GridManager.t :=
  boardOf
    [ ["red"; "red"; "empty"; "exit"];
      ["blue"; "green"; "blue"; "green"];
      ["green"; "blue"; "empty"; "blue"] ]%string
    ["red"; "blue"; "green"]%string (3, 0) (2, 2).

(** The cell is one that spawnNewTiles fills: empty and not fixed. *)
Definition pending (gm : GridManager.t) (x y : Z) : Prop :=
  GravitySystem.isPositionFixed gm x y = false
  /\ GridManager.isEmpty gm x y = true.

(** [gm'] is a grid on the way of spawnNewTiles from [gm]: the frame is
    the same and only cells that [gm] leaves to spawn differ. *)
Definition spawnedFrom (gm gm' : GridManager.t) : Prop :=
  sameFrame gm gm'
  /\ forall x y, ~ pending gm x y ->
       GridManager.getTile gm' x y = GridManager.getTile gm x y.

(** The cells of [ps] that come before the cell [p]: the cells that loops
    over [ps] have visited when they reach [p]. *)
Fixpoint visitedBefore (p : Pos) (ps : list Pos) : list Pos :=
  match ps with
  | [] => []
  | q :: ps' =>
      if (fst q =? fst p) && (snd q =? snd p) then []
      else q :: visitedBefore p ps'
  end.

(** The state of spawnNewTiles when its loops reach the cell (x, y): the
    grid with the cells spawned so far, the rest of the tape, and the
    records made so far. *)
Definition reaching (gm : GridManager.t) (tape : Tape) (x y : Z)
  : GridManager.t * Tape * list Spawn.t :=
  fold_left GravitySystem.spawnAt
    (visitedBefore (x, y)
       (GravitySystem.columnMajor (GridManager.width gm) (GridManager.height gm)))
    (gm, tape, []).

(** ** Game states for the examples *)

(** The tile of the cell, if any, carries the coordinates of the cell (as
    every tile does that was put there by the constructor, setTile or
    swap). *)
Definition atHome (gm : GridManager.t) (x y : Z) : Prop :=
  forall tile, GridManager.cellAt (GridManager.grid gm) x y = Some tile ->
               Tile.x tile = x /\ Tile.y tile = y.

(** A game on the board [gm], idle, with the character at [characterPos],
    the exit in row [exitY] and [moves] moves left out of 25. *)
Definition gameOn (gm : GridManager.t) (characterPos : Pos) (exitY moves : Z)
  : Game.t :=
  {| Game.gridManager := gm;
     Game.characterController :=
       {| CharacterController.character :=
            Some (Character.new (fst characterPos) (snd characterPos));
          CharacterController.exitY := exitY |};
     Game.levelManager :=
       {| LevelManager.levels := []; LevelManager.currentLevelIndex := 0;
          LevelManager.currentLevel := None;
          LevelManager.movesRemaining := moves; LevelManager.maxMoves := 25;
          LevelManager.gameState := CONFIG.IDLE |};
     Game.isProcessing := false;
     Game.events := [] |}.

(** A board on which the swap of (2, 1) and (3, 1) lines up three red
    tiles in the middle row. *)
Definition boardSwap : GridManager.t :=
  boardOf
    [ ["blue"; "green"; "exit"; "green"; "blue"];
      ["red"; "red"; "green"; "red"; "blue"];
      ["green"; "blue"; "empty"; "blue"; "green"] ]%string
    ["red"; "blue"; "green"]%string (2, 0) (2, 2).

(** A board with the character right below the exit, on which the swap of
    (2, 2) and (3, 2) lines up three red tiles in the bottom row. *)
Definition boardLastStep : GridManager.t :=
  boardOf
    [ ["blue"; "green"; "exit"; "green"; "blue"];
      ["green"; "blue"; "empty"; "blue"; "green"];
      ["red"; "red"; "green"; "red"; "blue"] ]%string
    ["red"; "blue"; "green"]%string (2, 0) (2, 1).

(** [boardRun3] with the middle tile of the run a special tile that clears
    its column. *)
Definition boardSpecial : GridManager.t :=
  GridManager.updateTile boardRun3 1 1 (fun tl => Tile.setSpecial tl CONFIG.LINE_V).

(** ** Runs through a cell *)

(** The cell (x, y) holds a matchable tile and lies on a horizontal or a
    vertical stretch of at least three cells that hold matchable tiles of
    its colour: a run of length >= 3 at the cell. *)
Definition runAt (gm : GridManager.t) (x y : Z) : Prop :=
  exists c,
    MatchResolver.tileTypeAt gm x y = Some c
    /\ ((exists s e, s <= x < e /\ s + 3 <= e
                     /\ forall j, s <= j < e -> MatchResolver.tileTypeAt gm j y = Some c)
        \/ (exists s e, s <= y < e /\ s + 3 <= e
                        /\ forall j, s <= j < e -> MatchResolver.tileTypeAt gm x j = Some c)).

(** The count of one axis of checkForMatchAt: the cell at index [x] of a
    line of length [n], plus the cells that continue the run ([f]) before
    it and after it. *)
Definition lineCount (f : Z -> bool) (x n : Z) : Z :=
  1 + MatchResolver.countRun f (reverse (seqZ 0 x))
  + MatchResolver.countRun f (seqZ (x + 1) (n - (x + 1))).

(** ** Vocabulary of the further properties *)

(** The stretch [s .. e-1] of a line is covered by a match found by a scan:
    a match object of a run [s' .. e'-1] of the same colour around it. *)
Definition covered (mkMatch : Z -> Z -> string -> MatchObj.t)
  (found : list MatchObj.t) (s e : Z) (c : string) : Prop :=
  exists s' e', In (mkMatch s' e' c) found /\ s' <= s /\ e <= e'.

(** The second invariant of a scan before index [i]: the current run
    cannot be extended to the left, and every stretch of at least three
    cells of one colour that ends before [i] is covered by a found match
    or lies in the current run. *)
Definition scanInv2 (typeAt : Z -> option string)
  (mkMatch : Z -> Z -> string -> MatchObj.t) (i : Z) (st : MatchResolver.scan)
  : Prop :=
  (0 < MatchResolver.matchStart st ->
   MatchResolver.currentType st = None
   \/ typeAt (MatchResolver.matchStart st - 1) <> MatchResolver.currentType st)
  /\ (0 < i -> MatchResolver.matchStart st < i)
  /\ forall s e c,
       0 <= s -> s + 3 <= e -> e <= i ->
       (forall j, s <= j < e -> typeAt j = Some c) ->
       covered mkMatch (MatchResolver.found st) s e c
       \/ (MatchResolver.currentType st = Some c
           /\ MatchResolver.matchStart st <= s).

(** [t'] is the tile [t] after some of its ice was removed and after it
    was, perhaps, unlocked: everything else is the same. *)
Definition thawed (t t' : Tile.t) : Prop :=
  Tile.type t' = Tile.type t /\ Tile.x t' = Tile.x t /\ Tile.y t' = Tile.y t
  /\ Tile.isMatched t' = Tile.isMatched t
  /\ Tile.isFalling t' = Tile.isFalling t
  /\ Tile.isSpecial t' = Tile.isSpecial t
  /\ Tile.specialType t' = Tile.specialType t
  /\ Tile.iceLayer t' <= Tile.iceLayer t
  /\ (Tile.isLocked t' = true -> Tile.isLocked t = true).

Definition thawedCell (c c' : option Tile.t) : Prop :=
  match c, c' with
  | Some t, Some t' => thawed t t'
  | None, None => True
  | _, _ => False
  end.

(** The grid [gm'] holds the tiles of [gm], cell by cell, up to removed ice
    and opened locks. *)
Definition thawedGrid (gm gm' : GridManager.t) : Prop :=
  sameFrame gm gm'
  /\ forall x y,
       thawedCell (GridManager.getTile gm x y) (GridManager.getTile gm' x y).

(** The cell holds no locked tile. *)
Definition unlockedAt (gm : GridManager.t) (q : Pos) : Prop :=
  forall tile, GridManager.getTile gm (fst q) (snd q) = Some tile ->
               Tile.isLocked tile = false.

(** The loop body of getMatchedPositions. *)
Definition addPosition (positionMap : list Pos) (pos : Pos) : list Pos :=
  if pos_mem pos positionMap then positionMap else positionMap ++ [pos].

(** The cleared positions are distinct and were all processed. *)
Definition clearedOnce (st : MatchResolver.progress) : Prop :=
  List.NoDup (MatchResolver.clearedPositions st)
  /\ forall p, In p (MatchResolver.clearedPositions st) ->
               In p (MatchResolver.processed st).

(** Around every cleared position the neighbours are unlocked. *)
Definition clearedUnlocked (st : MatchResolver.progress) : Prop :=
  forall p d, In p (MatchResolver.clearedPositions st) ->
              In d CONFIG.DIRECTIONS ->
              unlockedAt (MatchResolver.gridManager st) (fst p + fst d, snd p + snd d).

(** The state of processMatches next to the position map of
    getMatchedPositions, when every matched cell holds a tile with at most
    one ice layer. *)
Definition clearsAll (targets : Pos -> Prop) (st : MatchResolver.progress)
  (pm : list Pos) : Prop :=
  MatchResolver.clearedPositions st = pm
  /\ (forall p, In p (MatchResolver.processed st) <-> In p pm)
  /\ forall p, targets p ->
       exists n, iceAt (MatchResolver.gridManager st) p = Some n /\ n <= 1.

(** The cells a special tile of the given type at (x, y) reaches: its row,
    its column, or the 3 x 3 square around it. *)
Definition inShape (gm : GridManager.t) (specialType : CONFIG.SPECIAL_TILES)
  (x y : Z) (p : Pos) : Prop :=
  match specialType with
  | CONFIG.LINE_H => snd p = y /\ 0 <= fst p < GridManager.width gm
  | CONFIG.LINE_V => fst p = x /\ 0 <= snd p < GridManager.height gm
  | CONFIG.BOMB => x - 1 <= fst p <= x + 1 /\ y - 1 <= snd p <= y + 1
  end.

(** ** The grid invariant *)

(** Every cell of the grid holds a tile, and the tile carries the
    coordinates of its cell. *)
Definition fullGrid (gm : GridManager.t) : Prop :=
  forall x y, GridManager.isValidPosition gm x y = true ->
    exists tile, GridManager.getTile gm x y = Some tile
                 /\ Tile.x tile = x /\ Tile.y tile = y.

(** The same, as a check over the cells. *)
Definition fullGridb (gm : GridManager.t) : bool :=
  forallb
    (fun p : Pos =>
       match GridManager.getTile gm (fst p) (snd p) with
       | Some tile => (Tile.x tile =? fst p) && (Tile.y tile =? snd p)
       | None => false
       end)
    (GridManager.rowMajor (GridManager.width gm) (GridManager.height gm)).

(** The size, the palette and the exit of the board are the same. *)
Definition sameBoard (gm gm' : GridManager.t) : Prop :=
  GridManager.width gm' = GridManager.width gm
  /\ GridManager.height gm' = GridManager.height gm
  /\ GridManager.tileTypes gm' = GridManager.tileTypes gm
  /\ GridManager.exitPosition gm' = GridManager.exitPosition gm.

(** Every tile of the cells carries the coordinates of its cell. *)
Definition cellsHome (cells : list (list (option Tile.t))) : Prop :=
  forall x y tile, GridManager.cellAt cells x y = Some tile ->
                   Tile.x tile = x /\ Tile.y tile = y.

(** A 3 x 2 board on which no swap lines up three tiles. *)
Definition boardStuck : GridManager.t :=
  boardOf
    [ ["red"; "blue"; "exit"];
      ["blue"; "red"; "empty"] ]%string
    ["red"; "blue"]%string (2, 0) (2, 1).

(** ** Further vocabulary of gravity *)

(** The test of spawnNewTiles and getEmptyPositions on a cell. *)
Definition pendingb (gm : GridManager.t) (p : Pos) : bool :=
  GridManager.isEmpty gm (fst p) (snd p)
  && negb (GravitySystem.isPositionFixed gm (fst p) (snd p)).

Definition spawnPos (s : Spawn.t) : Pos := (Spawn.x s, Spawn.y s).

(** The state of spawnNewTiles with the cells [ps] still to visit: every
    record made so far names a cell that is not visited again and holds
    the tile of the record. *)
Definition spawned (ps : list Pos) (st : GridManager.t * Tape * list Spawn.t)
  : Prop :=
  forall s, In s (snd st) ->
    ~ In (spawnPos s) ps
    /\ GridManager.getTile (fst (fst st)) (Spawn.x s) (Spawn.y s)
       = Some (Spawn.tile s).

(** The number of cells that hold a tile of type [c]. *)
Definition typeIs (gm : GridManager.t) (c : string) (p : Pos) : nat :=
  match GridManager.getTile gm (fst p) (snd p) with
  | Some tile => if String.eqb (Tile.type tile) c then 1%nat else 0%nat
  | None => 0%nat
  end.

Definition typeCount (gm : GridManager.t) (c : string) : nat :=
  list_sum
    (map (typeIs gm c)
       (GridManager.rowMajor (GridManager.width gm) (GridManager.height gm))).

(** A movement record that goes straight down inside the grid. *)
Definition falls (gm : GridManager.t) (mv : Movement.t) : Prop :=
  Movement.fromX mv = Movement.toX mv
  /\ 0 <= Movement.fromX mv < GridManager.width gm
  /\ 0 <= Movement.fromY mv < Movement.toY mv
  /\ Movement.toY mv < GridManager.height gm.

(** What any stretch of a gravity pass conserves: the frame and the number
    of tiles of every type; and every new movement goes straight down. *)
Definition conserves (st st' : GridManager.t * list Movement.t) : Prop :=
  sameFrame (fst st) (fst st')
  /\ (forall c, typeCount (fst st') c = typeCount (fst st) c)
  /\ exists new, snd st' = snd st ++ new /\ Forall (falls (fst st)) new.

(** ** Vocabulary of the character and of the game *)

(** The record of the [i]-th step of a climb of the character [c]. *)
Definition stepAt (c : Character.t) (i : nat) : Step.t :=
  {| Step.fromY := Character.y c - Z.of_nat i;
     Step.toY := Character.y c - Z.of_nat i - 1;
     Step.x := Character.x c |}.

(** Every empty cell is a fixed one. *)
Definition holeFree (gm : GridManager.t) : Prop :=
  forall x y, GridManager.isEmpty gm x y = true ->
              GravitySystem.isPositionFixed gm x y = true.

(** Every empty cell is the cell of the character or a cell below it. *)
Definition emptiesBelow (gm : GridManager.t) (c : Character.t) : Prop :=
  forall x y, GridManager.isEmpty gm x y = true ->
              x = Character.x c /\ Character.y c <= y.

(** The grid manager and the character controller agree on where the
    character is. *)
Definition lockStep (gm : GridManager.t) (cc : CharacterController.t) : Prop :=
  exists c, CharacterController.character cc = Some c
            /\ Character.isMoving c = false
            /\ GridManager.characterPosition gm = (Character.x c, Character.y c).

(** The level manager but for the state of the game. *)
Definition sameLevel (lm lm' : LevelManager.t) : Prop :=
  LevelManager.levels lm' = LevelManager.levels lm
  /\ LevelManager.currentLevelIndex lm' = LevelManager.currentLevelIndex lm
  /\ LevelManager.currentLevel lm' = LevelManager.currentLevel lm
  /\ LevelManager.movesRemaining lm' = LevelManager.movesRemaining lm
  /\ LevelManager.maxMoves lm' = LevelManager.maxMoves lm.

(** The cells of [gm'] are those of [gm] or were emptied. *)
Definition emptied (gm gm' : GridManager.t) : Prop :=
  sameBoard gm gm'
  /\ forall x y, GridManager.getTile gm' x y = GridManager.getTile gm x y
                 \/ GridManager.isEmpty gm' x y = true.

(** The controller after [k] steps of the character [c] of [cc]. *)
Definition climbedTo (cc : CharacterController.t) (c : Character.t) (k : nat)
  : CharacterController.t :=
  match k with
  | O => cc
  | S _ =>
      {| CharacterController.character :=
           Some (Character.moveTo c (Character.x c) (Character.y c - Z.of_nat k));
         CharacterController.exitY := CharacterController.exitY cc |}
  end.

(** What a climb of [k] steps from [gm] with the character [c] leaves:
    the records of the steps, the controller, and a grid that differs from
    [gm] only in the cells the character left, which are empty now (but for
    the exit cell); every step went onto an empty tile or the exit tile. *)
Definition climbs (cc : CharacterController.t) (gm : GridManager.t)
  (c : Character.t) (k : nat)
  (r : CharacterController.t * GridManager.t * list Step.t) : Prop :=
  snd r = map (stepAt c) (seq 0 k)
  /\ Z.of_nat k <= Z.max 0 (Character.y c)
  /\ fst (fst r) = climbedTo cc c k
  /\ (k = O -> snd (fst r) = gm)
  /\ (k <> O ->
      GridManager.characterPosition (snd (fst r))
      = (Character.x c, Character.y c - Z.of_nat k))
  /\ emptied gm (snd (fst r))
  /\ (forall x y,
        ~ (x = Character.x c /\ Character.y c - Z.of_nat k < y <= Character.y c) ->
        GridManager.getTile (snd (fst r)) x y = GridManager.getTile gm x y)
  /\ (forall i, (i < k)%nat ->
        exists tile,
          GridManager.getTile gm (Character.x c) (Character.y c - Z.of_nat i - 1)
          = Some tile
          /\ Tile.isEmpty tile || Tile.isExit tile = true).

(** The cell holds a tile that can be swapped. *)
Definition canSwapAt (gm : GridManager.t) (p : Pos) : bool :=
  match GridManager.cellAt (GridManager.grid gm) (fst p) (snd p) with
  | Some tile => Tile.canSwap tile
  | None => false
  end.

(** The budget of a level: [level.maxMoves || 20]. *)
Definition budget (level : Level.t) : Z :=
  if Level.maxMoves level =? 0 then 20 else Level.maxMoves level.


(** * Part III: the properties *)

(** ** The cells of the grid *)

Section Cells.
Implicit Types cells : list (list (option Tile.t)).


Lemma cellAt_Some_exists cells x y tile :
  GridManager.cellAt cells x y = Some tile -> cellExists cells x y.
Proof.
  unfold GridManager.cellAt, cellExists.
  destruct (0 <=? x) eqn:Hx, (0 <=? y) eqn:Hy; simpl; try discriminate.
  destruct (cells !! Z.to_nat y) as [row|] eqn:Hrow; try discriminate.
  destruct (row !! Z.to_nat x) as [c|] eqn:Hc; try discriminate.
  intros _. repeat split; try lia.
  exists row. split; [reflexivity|]. eapply lookup_lt_Some; eauto.
Qed.

Lemma cellAt_cellSet_ne cells x y v x' y' :
  (x', y') <> (x, y) ->
  GridManager.cellAt (GridManager.cellSet cells x y v) x' y'
  = GridManager.cellAt cells x' y'.
Proof.
  intros Hne. unfold GridManager.cellAt, GridManager.cellSet.
  destruct ((0 <=? x') && (0 <=? y')) eqn:Hv'; [|reflexivity].
  destruct ((0 <=? x) && (0 <=? y)) eqn:Hv; [|reflexivity].
  apply andb_true_iff in Hv' as [Hx' Hy'], Hv as [Hx Hy].
  apply Z.leb_le in Hx', Hy', Hx, Hy.
  destruct (decide (Z.to_nat y = Z.to_nat y')) as [Heq|Hny].
  - rewrite <- Heq, list_lookup_alter_eq.
    destruct (cells !! Z.to_nat y) as [row|]; simpl; [|reflexivity].
    rewrite list_lookup_insert_ne; [reflexivity|].
    intros Hxx. apply Hne. f_equal; lia.
  - rewrite list_lookup_alter_ne by assumption. reflexivity.
Qed.

Lemma cellAt_cellSet_eq cells x y v :
  cellExists cells x y ->
  GridManager.cellAt (GridManager.cellSet cells x y v) x y = v.
Proof.
  intros (Hx & Hy & row & Hrow & Hlen).
  unfold GridManager.cellAt, GridManager.cellSet.
  assert (Hb : (0 <=? x) && (0 <=? y) = true)
    by (apply andb_true_iff; split; apply Z.leb_le; lia).
  rewrite Hb, list_lookup_alter_eq, Hrow. simpl.
  rewrite list_lookup_insert_eq by assumption. reflexivity.
Qed.

Lemma cellExists_cellSet cells x y v x' y' :
  cellExists (GridManager.cellSet cells x y v) x' y' <-> cellExists cells x' y'.
Proof.
  unfold cellExists, GridManager.cellSet.
  destruct ((0 <=? x) && (0 <=? y)); [|reflexivity].
  split; intros (Hx & Hy & row & Hrow & Hlen); (split; [lia|split; [lia|]]).
  - destruct (decide (Z.to_nat y = Z.to_nat y')) as [Heq|Hny].
    + rewrite <- Heq, list_lookup_alter_eq in Hrow.
      destruct (cells !! Z.to_nat y) as [row0|] eqn:Hrow0; simpl in Hrow; [|discriminate].
      exists row0. rewrite <- Heq. split; [assumption|].
      injection Hrow as <-. rewrite length_insert in Hlen. assumption.
    + rewrite list_lookup_alter_ne in Hrow by assumption. eauto.
  - destruct (decide (Z.to_nat y = Z.to_nat y')) as [Heq|Hny].
    + rewrite <- Heq, list_lookup_alter_eq. rewrite <- Heq in Hrow. rewrite Hrow. simpl.
      eexists. split; [reflexivity|]. rewrite length_insert. assumption.
    + rewrite list_lookup_alter_ne by assumption. eauto.
Qed.
End Cells.

(** ** Reading and writing tiles through the grid manager *)

Section GridAccess.
Implicit Types gm : GridManager.t.

Lemma getTile_Some_valid gm x y tile :
  GridManager.getTile gm x y = Some tile ->
  GridManager.isValidPosition gm x y = true /\ cellExists (GridManager.grid gm) x y.
Proof.
  unfold GridManager.getTile.
  destruct (GridManager.isValidPosition gm x y); [|discriminate].
  intros H. split; [reflexivity|]. eapply cellAt_Some_exists; eauto.
Qed.

Lemma isValidPosition_setGrid gm cells x y :
  GridManager.isValidPosition (GridManager.setGrid gm cells) x y
  = GridManager.isValidPosition gm x y.
Proof. reflexivity. Qed.

Lemma getTile_setGrid_ne gm x y v x' y' :
  (x', y') <> (x, y) ->
  GridManager.getTile
    (GridManager.setGrid gm (GridManager.cellSet (GridManager.grid gm) x y v)) x' y'
  = GridManager.getTile gm x' y'.
Proof.
  intros Hne. unfold GridManager.getTile. rewrite isValidPosition_setGrid.
  destruct (GridManager.isValidPosition gm x' y'); [|reflexivity].
  simpl. apply cellAt_cellSet_ne. assumption.
Qed.

Lemma getTile_setGrid_eq gm x y v tile :
  GridManager.getTile gm x y = Some tile ->
  GridManager.getTile
    (GridManager.setGrid gm (GridManager.cellSet (GridManager.grid gm) x y v)) x y
  = v.
Proof.
  intros H. destruct (getTile_Some_valid _ _ _ _ H) as [Hv Hex].
  unfold GridManager.getTile. rewrite isValidPosition_setGrid, Hv. simpl.
  apply cellAt_cellSet_eq. assumption.
Qed.

Lemma getTile_setTile_ne gm x y tile x' y' :
  (x', y') <> (x, y) ->
  GridManager.getTile (GridManager.setTile gm x y tile) x' y'
  = GridManager.getTile gm x' y'.
Proof.
  intros Hne. unfold GridManager.setTile.
  destruct (GridManager.isValidPosition gm x y); [|reflexivity].
  apply getTile_setGrid_ne. assumption.
Qed.

Lemma getTile_setTile_eq gm x y tile old :
  GridManager.getTile gm x y = Some old ->
  GridManager.getTile (GridManager.setTile gm x y tile) x y
  = Some (Tile.moveTo tile x y).
Proof.
  intros H. unfold GridManager.setTile.
  destruct (getTile_Some_valid _ _ _ _ H) as [-> _].
  eapply getTile_setGrid_eq; eauto.
Qed.

Lemma getTile_setEmpty_ne gm x y x' y' :
  (x', y') <> (x, y) ->
  GridManager.getTile (GridManager.setEmpty gm x y) x' y'
  = GridManager.getTile gm x' y'.
Proof. apply getTile_setTile_ne. Qed.

Lemma getTile_setEmpty_eq gm x y old :
  GridManager.getTile gm x y = Some old ->
  GridManager.getTile (GridManager.setEmpty gm x y) x y
  = Some (Tile.new CONFIG.TILE_TYPES.EMPTY x y).
Proof. intros H. unfold GridManager.setEmpty. erewrite getTile_setTile_eq; eauto. Qed.

Lemma getTile_updateTile_ne gm x y f x' y' :
  (x', y') <> (x, y) ->
  GridManager.getTile (GridManager.updateTile gm x y f) x' y'
  = GridManager.getTile gm x' y'.
Proof.
  intros Hne. unfold GridManager.updateTile.
  destruct (GridManager.getTile gm x y); [|reflexivity].
  apply getTile_setGrid_ne. assumption.
Qed.

Lemma getTile_updateTile_eq gm x y f :
  GridManager.getTile (GridManager.updateTile gm x y f) x y
  = f <$> GridManager.getTile gm x y.
Proof.
  unfold GridManager.updateTile.
  destruct (GridManager.getTile gm x y) as [tile|] eqn:H; simpl; [|assumption].
  eapply getTile_setGrid_eq; eauto.
Qed.


Lemma sameFrame_refl gm : sameFrame gm gm.
Proof. repeat split. Qed.

Lemma sameFrame_trans gm1 gm2 gm3 :
  sameFrame gm1 gm2 -> sameFrame gm2 gm3 -> sameFrame gm1 gm3.
Proof.
  unfold sameFrame. intros (?&?&?&?&?) (?&?&?&?&?).
  repeat split; congruence.
Qed.

Lemma sameFrame_setTile gm x y tile : sameFrame gm (GridManager.setTile gm x y tile).
Proof.
  unfold GridManager.setTile.
  destruct (GridManager.isValidPosition gm x y); repeat split.
Qed.

Lemma sameFrame_setEmpty gm x y : sameFrame gm (GridManager.setEmpty gm x y).
Proof. apply sameFrame_setTile. Qed.

Lemma sameFrame_updateTile gm x y f : sameFrame gm (GridManager.updateTile gm x y f).
Proof.
  unfold GridManager.updateTile.
  destruct (GridManager.getTile gm x y); repeat split.
Qed.
End GridAccess.

Lemma pos_eqb_eq (p q : Pos) : pos_eqb p q = true <-> p = q.
Proof.
  destruct p as [a b], q as [c d]. unfold pos_eqb. simpl.
  rewrite andb_true_iff, !Z.eqb_eq. split; [intros [-> ->]; reflexivity|].
  intros H. injection H as -> ->. split; reflexivity.
Qed.

Lemma pos_mem_In (p : Pos) (l : list Pos) : pos_mem p l = true <-> In p l.
Proof.
  unfold pos_mem. rewrite existsb_exists. split.
  - intros (q & Hq & Heq). apply pos_eqb_eq in Heq. subst. assumption.
  - intros H. exists p. split; [assumption|]. apply pos_eqb_eq. reflexivity.
Qed.

(** ** The run-length scan of findAllMatches *)

Lemma option_string_eqb_eq (a b : option string) :
  option_string_eqb a b = true <-> a = b.
Proof.
  destruct a as [s1|], b as [s2|]; simpl; try (split; congruence).
  rewrite String.eqb_eq. split; congruence.
Qed.

Section Scan.
Variable typeAt : Z -> option string.
Variable mkMatch : Z -> Z -> string -> MatchObj.t.
Local Abbreviation isRun := (isRun typeAt mkMatch).
Local Abbreviation scanInv := (scanInv typeAt mkMatch).


Lemma isRun_mono b b' m : b <= b' -> isRun b m -> isRun b' m.
Proof.
  intros Hb (s & e & c & -> & ? & ? & ? & ?).
  exists s, e, c. repeat split; try assumption; lia.
Qed.

Lemma scanStep_inv i st :
  0 <= i -> scanInv i st ->
  scanInv (i + 1) (MatchResolver.scanStep typeAt mkMatch st i).
Proof.
  intros Hi (Hms & Hrun & Hfound).
  assert (Hfound' : Forall (isRun (i + 1 - 1)) (MatchResolver.found st)).
  { eapply Forall_impl; [eassumption|]. intros m. apply isRun_mono. lia. }
  unfold MatchResolver.scanStep.
  destruct (option_string_eqb (typeAt i) (MatchResolver.currentType st)
            && bool_decide (MatchResolver.currentType st <> None)) eqn:Hcont.
  - apply andb_true_iff in Hcont as [Heq _].
    apply option_string_eqb_eq in Heq.
    repeat split; try lia; [|assumption].
    intros j Hj. destruct (decide (j = i)) as [->|]; [assumption|].
    apply Hrun. lia.
  - repeat split; simpl; try lia.
    + intros j Hj. replace j with i by lia. reflexivity.
    + destruct (MatchResolver.currentType st) as [c|] eqn:Hc; [|assumption].
      destruct (CONFIG.MATCH.MIN_MATCH <=? i - MatchResolver.matchStart st) eqn:Hlen;
        [|assumption].
      apply Forall_app. split; [assumption|].
      apply Forall_cons. split; [|apply Forall_nil; exact I].
      apply Z.leb_le in Hlen. unfold CONFIG.MATCH.MIN_MATCH in Hlen.
      exists (MatchResolver.matchStart st), i, c.
      repeat split; try lia. assumption.
Qed.

Lemma scan_fold_inv (k : nat) :
  scanInv (Z.of_nat k)
    (fold_left (MatchResolver.scanStep typeAt mkMatch) (seqZ 0 (Z.of_nat k))
       {| MatchResolver.matchStart := 0; MatchResolver.currentType := None;
          MatchResolver.found := [] |}).
Proof.
  induction k as [|k IH].
  - simpl. repeat split; simpl; try lia. apply Forall_nil. exact I.
  - rewrite seqZ_S, fold_left_app. simpl.
    replace (Z.of_nat (S k)) with (Z.of_nat k + 1) by lia.
    apply scanStep_inv; [lia|]. exact IH.
Qed.

Lemma scanLine_sound n :
  Forall (isRun n) (MatchResolver.scanLine typeAt mkMatch n).
Proof.
  unfold MatchResolver.scanLine.
  destruct (Z_le_gt_dec (n + 1) 0) as [Hn|Hn].
  - rewrite seqZ_nil by lia. simpl. apply Forall_nil. exact I.
  - pose proof (scan_fold_inv (Z.to_nat (n + 1))) as (_ & _ & H).
    rewrite Z2Nat.id in H by lia.
    replace (n + 1 - 1) with n in H by lia. exact H.
Qed.
End Scan.


Lemma findAllMatches_sound gm m :
  In m (MatchResolver.findAllMatches gm) ->
  isHorizontalRun gm m \/ isVerticalRun gm m.
Proof.
  unfold MatchResolver.findAllMatches. rewrite in_app_iff, !in_flat_map.
  intros [(y & Hy & Hm)|(x & Hx & Hm)].
  - left. apply list_elem_of_In, elem_of_seqZ in Hy.
    pose proof (scanLine_sound (fun x => MatchResolver.tileTypeAt gm x y)
                  (MatchResolver.horizontalMatch y) (GridManager.width gm)) as H.
    rewrite Forall_forall in H. apply list_elem_of_In, H in Hm.
    destruct Hm as (s & e & c & ? & ? & ? & ? & ?).
    exists y, s, e, c. repeat split; try assumption; lia.
  - right. apply list_elem_of_In, elem_of_seqZ in Hx.
    pose proof (scanLine_sound (fun y => MatchResolver.tileTypeAt gm x y)
                  (MatchResolver.verticalMatch x) (GridManager.height gm)) as H.
    rewrite Forall_forall in H. apply list_elem_of_In, H in Hm.
    destruct Hm as (s & e & c & ? & ? & ? & ? & ?).
    exists x, s, e, c. repeat split; try assumption; lia.
Qed.

(** ** processMatches *)


Lemma iceAt_updateTile_other gm x y f p :
  p <> (x, y) -> iceAt (GridManager.updateTile gm x y f) p = iceAt gm p.
Proof.
  intros Hne. unfold iceAt. rewrite getTile_updateTile_ne; [reflexivity|].
  destruct p. assumption.
Qed.

Lemma iceAt_updateTile_same_ice gm x y f p :
  (forall tl, Tile.iceLayer (f tl) = Tile.iceLayer tl) ->
  iceAt (GridManager.updateTile gm x y f) p = iceAt gm p.
Proof.
  intros Hf. destruct (decide (p = (x, y))) as [->|Hne].
  - unfold iceAt. simpl. rewrite getTile_updateTile_eq.
    destruct (GridManager.getTile gm x y); simpl; [|reflexivity].
    rewrite Hf. reflexivity.
  - apply iceAt_updateTile_other. assumption.
Qed.

Lemma iceAt_unlockAdjacentTiles gm x y p :
  iceAt (MatchResolver.unlockAdjacentTiles gm x y) p = iceAt gm p.
Proof.
  unfold MatchResolver.unlockAdjacentTiles.
  generalize (GridManager.getAdjacentTiles gm x y) as adj.
  intros adj. revert gm. induction adj as [|a adj IH]; intros gm; simpl.
  - reflexivity.
  - rewrite IH. destruct (Tile.isLocked (snd a)); [|reflexivity].
    apply iceAt_updateTile_same_ice. intros tl. reflexivity.
Qed.

Section IceAbsorption.
Variable pos : Pos.
Variable n : Z.
Hypothesis Hn : 0 < n.
Local Abbreviation iceInv := (iceInv pos n).


Lemma processTile_iceInv st q :
  iceInv st -> iceInv (MatchResolver.processTile st q).
Proof.
  intros Hinv. unfold MatchResolver.processTile.
  destruct (pos_mem q (MatchResolver.processed st)) eqn:Hmem; [assumption|].
  assert (Hq : ~ In q (MatchResolver.processed st)).
  { intros H. apply pos_mem_In in H. congruence. }
  destruct (decide (q = pos)) as [->|Hne].
  - destruct Hinv as [(_ & Hice & Hcl)|(Hin & _)]; [|contradiction].
    unfold iceAt in Hice.
    destruct (GridManager.getTile (MatchResolver.gridManager st) (fst pos) (snd pos))
      as [tile|] eqn:Htile; [|discriminate].
    simpl in Hice. injection Hice as Hice.
    assert (Hpos : (0 <? Tile.iceLayer tile) = true) by (apply Z.ltb_lt; lia).
    rewrite Hpos. unfold Tile.removeIceLayer at 1. rewrite Hpos. simpl.
    assert (Hnew : iceAt
              (GridManager.updateTile (MatchResolver.gridManager st) (fst pos) (snd pos)
                 (fun tl => fst (Tile.removeIceLayer tl))) pos = Some (n - 1)).
    { unfold iceAt. rewrite getTile_updateTile_eq, Htile. simpl.
      unfold Tile.removeIceLayer. rewrite Hpos. simpl. f_equal. lia. }
    destruct (0 <? Tile.iceLayer tile - 1) eqn:Hstill; right; simpl.
    + apply Z.ltb_lt in Hstill. split; [left; reflexivity|]. split; [assumption|].
      split; [contradiction|lia].
    + apply Z.ltb_ge in Hstill. split; [left; reflexivity|].
      split; [rewrite iceAt_unlockAdjacentTiles; assumption|].
      split; [lia|]. intros _. apply in_or_app. right. left. reflexivity.
  - assert (Hgm : forall gm',
               iceAt gm' pos = iceAt (MatchResolver.gridManager st) pos ->
               forall cl, (In pos cl <-> In pos (MatchResolver.clearedPositions st)) ->
               iceInv {| MatchResolver.gridManager := gm';
                         MatchResolver.processed := q :: MatchResolver.processed st;
                         MatchResolver.clearedPositions := cl |}).
    { intros gm' Hice cl Hcl. unfold iceInv. simpl. rewrite Hice, Hcl.
      destruct Hinv as [(H1 & H2 & H3)|(H1 & H2 & H3)]; [left|right];
        (split; [|split; assumption]).
      - intros [?|?]; [congruence|contradiction].
      - right. assumption. }
    assert (Happ : In pos (MatchResolver.clearedPositions st ++ [q])
                   <-> In pos (MatchResolver.clearedPositions st)).
    { rewrite in_app_iff. simpl. split; [|tauto].
      intros [?|[?|[]]]; [assumption|congruence]. }
    destruct (GridManager.getTile (MatchResolver.gridManager st) (fst q) (snd q))
      as [tile|] eqn:Htile.
    + assert (Hup : iceAt
                (if 0 <? Tile.iceLayer tile
                 then GridManager.updateTile (MatchResolver.gridManager st)
                        (fst q) (snd q) (fun tl => fst (Tile.removeIceLayer tl))
                 else MatchResolver.gridManager st) pos
              = iceAt (MatchResolver.gridManager st) pos).
      { destruct (0 <? Tile.iceLayer tile); [|reflexivity].
        apply iceAt_updateTile_other. destruct q. simpl. congruence. }
      destruct ((0 <? Tile.iceLayer tile)
                && (0 <? Tile.iceLayer (fst (Tile.removeIceLayer tile)))).
      * apply Hgm; [assumption|reflexivity].
      * apply Hgm; [|assumption].
        rewrite iceAt_unlockAdjacentTiles. assumption.
    + apply Hgm; reflexivity.
Qed.

Lemma processTile_processed st q : In q (MatchResolver.processed (MatchResolver.processTile st q)).
Proof.
  unfold MatchResolver.processTile.
  destruct (pos_mem q (MatchResolver.processed st)) eqn:Hmem.
  - apply pos_mem_In. assumption.
  - destruct (GridManager.getTile _ _ _); [|left; reflexivity].
    destruct (_ && _); left; reflexivity.
Qed.

Lemma processTile_processed_mono st q p :
  In p (MatchResolver.processed st) ->
  In p (MatchResolver.processed (MatchResolver.processTile st q)).
Proof.
  intros H. unfold MatchResolver.processTile.
  destruct (pos_mem q (MatchResolver.processed st)); [assumption|].
  destruct (GridManager.getTile _ _ _); [|right; assumption].
  destruct (_ && _); right; assumption.
Qed.

Lemma processTiles_iceInv l st :
  iceInv st -> iceInv (fold_left MatchResolver.processTile l st).
Proof.
  revert st. induction l as [|q l IH]; intros st H; simpl; [assumption|].
  apply IH, processTile_iceInv, H.
Qed.

Lemma processTiles_processed_mono l st p :
  In p (MatchResolver.processed st) ->
  In p (MatchResolver.processed (fold_left MatchResolver.processTile l st)).
Proof.
  revert st. induction l as [|q l IH]; intros st H; simpl; [assumption|].
  apply IH, processTile_processed_mono, H.
Qed.

Lemma processTiles_processed l st p :
  In p l -> In p (MatchResolver.processed (fold_left MatchResolver.processTile l st)).
Proof.
  revert st. induction l as [|q l IH]; intros st; simpl; [contradiction|].
  intros [->|H].
  - apply processTiles_processed_mono, processTile_processed.
  - apply IH, H.
Qed.

Lemma processMatch_fold_iceInv ms st sp :
  iceInv st -> iceInv (fst (fold_left MatchResolver.processMatch ms (st, sp))).
Proof.
  revert st sp. induction ms as [|m ms IH]; intros st sp H; simpl; [assumption|].
  unfold MatchResolver.processMatch at 2. simpl.
  apply IH, processTiles_iceInv, H.
Qed.

Lemma processMatch_fold_processed_mono ms st sp p :
  In p (MatchResolver.processed st) ->
  In p (MatchResolver.processed (fst (fold_left MatchResolver.processMatch ms (st, sp)))).
Proof.
  revert st sp. induction ms as [|m ms IH]; intros st sp H; simpl; [assumption|].
  unfold MatchResolver.processMatch at 2. simpl.
  apply IH, processTiles_processed_mono, H.
Qed.

Lemma processMatch_fold_processed ms st sp p :
  (exists m, In m ms /\ In p (MatchObj.tiles m)) ->
  In p (MatchResolver.processed (fst (fold_left MatchResolver.processMatch ms (st, sp)))).
Proof.
  revert st sp. induction ms as [|m ms IH]; intros st sp (m' & Hm' & Hp); simpl.
  - contradiction.
  - unfold MatchResolver.processMatch at 2. simpl.
    destruct Hm' as [->|Hm'].
    + apply processMatch_fold_processed_mono, processTiles_processed, Hp.
    + apply IH. eauto.
Qed.
End IceAbsorption.

(** ** The claims on MatchResolver *)

Lemma tileTypeAt_Some gm x y c :
  MatchResolver.tileTypeAt gm x y = Some c ->
  exists tile,
    GridManager.getTile gm x y = Some tile
    /\ Tile.isMatchable tile = true /\ Tile.type tile = c.
Proof.
  unfold MatchResolver.tileTypeAt.
  destruct (GridManager.getTile gm x y) as [tile|]; [|discriminate].
  destruct (Tile.isMatchable tile) eqn:Hm; [|discriminate].
  intros [= <-]. eauto.
Qed.

Lemma isMatchable_unlocked tile :
  Tile.isMatchable tile = true -> Tile.isLocked tile = false.
Proof.
  unfold Tile.isMatchable. rewrite andb_true_iff, negb_true_iff. tauto.
Qed.

(** Every cell of a match of findAllMatches holds a matchable tile of the
    colour of the match. *)
Lemma findAllMatches_tiles gm m p :
  In m (MatchResolver.findAllMatches gm) -> In p (MatchObj.tiles m) ->
  exists tile,
    GridManager.getTile gm (fst p) (snd p) = Some tile
    /\ Tile.isMatchable tile = true /\ Tile.type tile = MatchObj.color m.
Proof.
  intros Hm Hp.
  destruct (findAllMatches_sound _ _ Hm)
    as [(y & s & e & c & _ & -> & _ & _ & _ & Hrun)
       |(x & s & e & c & _ & -> & _ & _ & _ & Hrun)];
    simpl in Hp; apply in_map_iff in Hp as (j & <- & Hj);
    apply list_elem_of_In, elem_of_seqZ in Hj; simpl;
    apply tileTypeAt_Some, Hrun; lia.
Qed.

(** C3 (as amended).  A locked tile is never matchable, whatever its colour
    and its ice count: it is not swappable, it is the tile of no cell of any
    match found by findAllMatches, and checkForMatchAt fails on its cell. *)
Theorem locked_tile_not_matchable (gm : GridManager.t) (tile : Tile.t) :
  Tile.isLocked tile = true ->
  Tile.isMatchable tile = false
  /\ Tile.canSwap tile = false
  /\ (forall m p, In m (MatchResolver.findAllMatches gm) ->
                  In p (MatchObj.tiles m) ->
                  GridManager.getTile gm (fst p) (snd p) <> Some tile)
  /\ (forall x y, GridManager.getTile gm x y = Some tile ->
                  MatchResolver.checkForMatchAt gm x y = false).
Proof.
  intros Hlocked.
  assert (Hnm : Tile.isMatchable tile = false).
  { unfold Tile.isMatchable. rewrite Hlocked. apply andb_false_r. }
  split; [assumption|]. split; [|split].
  - unfold Tile.canSwap. rewrite Hnm. reflexivity.
  - intros m p Hm Hp Hget.
    destruct (findAllMatches_tiles _ _ _ Hm Hp) as (tile' & Hget' & Hmatch & _).
    congruence.
  - intros x y Hget. unfold MatchResolver.checkForMatchAt.
    rewrite Hget, Hnm. reflexivity.
Qed.

Lemma locked_tile_not_matchable_witness :
  exists tile,
    GridManager.getTile boardLocked 1 1 = Some tile
    /\ Tile.isLocked tile = true
    /\ Tile.isMatchable tile = false
    /\ MatchResolver.checkForMatchAt boardLocked 1 1 = false.
Proof.
  eexists. split; [reflexivity|]. split; [reflexivity|].
  match goal with
  | |- Tile.isMatchable ?t = _ /\ _ =>
      destruct (locked_tile_not_matchable boardLocked t eq_refl)
        as (H1 & _ & _ & H4)
  end.
  split; [exact H1|]. apply H4. reflexivity.
Defined.

(** C3 as stated fails for ice: a red tile under one ice layer is
    matchable and swappable, and findAllMatches puts its cell in a match. *)
Lemma iced_tile_is_matchable :
  exists tile m,
    GridManager.getTile (boardIced 1) 1 1 = Some tile
    /\ 0 < Tile.iceLayer tile
    /\ Tile.isMatchable tile = true
    /\ Tile.canSwap tile = true
    /\ In m (MatchResolver.findAllMatches (boardIced 1))
    /\ In (1, 1) (MatchObj.tiles m).
Proof.
  eexists. eexists. split; [reflexivity|].
  split; [reflexivity|]. split; [reflexivity|]. split; [reflexivity|].
  split; [left; reflexivity|]. right. left. reflexivity.
Qed.




Lemma lookup_seqZ_middle (s n : Z) :
  0 < n -> seqZ s n !! Z.to_nat (n / 2) = Some (s + n / 2).
Proof.
  intros Hn. rewrite lookup_seqZ_lt.
  - f_equal. rewrite Z2Nat.id; [reflexivity|]. apply Z.div_pos; lia.
  - rewrite Z2Nat.id by (apply Z.div_pos; lia). apply Z.div_lt; lia.
Qed.

Lemma centerIndex_run {A} (f : Z -> A) (s n : Z) :
  0 <= n -> Nat.div (List.length (map f (seqZ s n))) 2 = Z.to_nat (n / 2).
Proof.
  intros Hn. rewrite length_map, length_seqZ.
  change 2%nat with (Z.to_nat 2). rewrite <- Z2Nat.inj_div by lia. reflexivity.
Qed.

(** processMatches derives the specials once per match, in the order of
    the matches. *)
Lemma processMatches_specialTiles gm ms :
  snd (MatchResolver.processMatches gm ms)
  = omap MatchResolver.getSpecialTileForMatch ms.
Proof.
  unfold MatchResolver.processMatches.
  set (st0 := {| MatchResolver.gridManager := gm; MatchResolver.processed := [];
                 MatchResolver.clearedPositions := [] |}).
  assert (H : forall ms st sp,
             snd (fold_left MatchResolver.processMatch ms (st, sp))
             = sp ++ omap MatchResolver.getSpecialTileForMatch ms).
  { clear. induction ms as [|m ms IH]; intros st sp; simpl.
    - rewrite app_nil_r. reflexivity.
    - unfold MatchResolver.processMatch at 2. simpl. rewrite IH.
      destruct (MatchResolver.getSpecialTileForMatch m); simpl;
        [rewrite <- app_assoc|]; reflexivity. }
  specialize (H ms st0 []).
  destruct (fold_left MatchResolver.processMatch ms (st0, [])) as [st sp].
  simpl in *. assumption.
Qed.

(** C6.  For a match [m] found by findAllMatches, of length [n] (the
    number of its cells, at least 3): the cell [p] at index [floor(n/2)] of
    the run exists; if [n >= 5], getSpecialTileForMatch yields a bomb at [p];
    if [n = 4], it yields a line special at [p] that clears the column
    (line-v) for a horizontal run and the row (line-h) for a vertical run;
    if [n = 3], it yields no special. *)
Theorem getSpecialTileForMatch_policy (gm : GridManager.t) (m : MatchObj.t) :
  In m (MatchResolver.findAllMatches gm) ->
  let n := MatchObj.length m in
  Z.of_nat (List.length (MatchObj.tiles m)) = n
  /\ 3 <= n
  /\ exists p,
      MatchObj.tiles m !! Z.to_nat (n / 2) = Some p
      /\ match MatchObj.type m with
         | horizontal =>
             exists s y,
               MatchObj.tiles m = map (fun i => (i, y)) (seqZ s n)
               /\ p = (s + n / 2, y)
         | vertical =>
             exists s x,
               MatchObj.tiles m = map (fun j => (x, j)) (seqZ s n)
               /\ p = (x, s + n / 2)
         end
      /\ (5 <= n ->
          MatchResolver.getSpecialTileForMatch m
          = Some {| SpecialObj.type := CONFIG.BOMB;
                    SpecialObj.position := Some p;
                    SpecialObj.color := MatchObj.color m |})
      /\ (n = 4 ->
          MatchResolver.getSpecialTileForMatch m
          = Some {| SpecialObj.type :=
                      match MatchObj.type m with
                      | horizontal => CONFIG.LINE_V
                      | vertical => CONFIG.LINE_H
                      end;
                    SpecialObj.position := Some p;
                    SpecialObj.color := MatchObj.color m |})
      /\ (n = 3 -> MatchResolver.getSpecialTileForMatch m = None).
Proof.
  intros Hm.
  assert (Hcases :
    forall (mk : Z -> (Z * Z)) (o : Orientation) (s e : Z) (c : string),
      0 <= s -> s + 3 <= e ->
      let m' := {| MatchObj.tiles := map mk (seqZ s (e - s)); MatchObj.type := o;
                   MatchObj.length := e - s; MatchObj.color := c |} in
      let n := e - s in
      Z.of_nat (List.length (MatchObj.tiles m')) = n /\ 3 <= n
      /\ MatchObj.tiles m' !! Z.to_nat (n / 2) = Some (mk (s + n / 2))
      /\ (5 <= n ->
          MatchResolver.getSpecialTileForMatch m'
          = Some {| SpecialObj.type := CONFIG.BOMB;
                    SpecialObj.position := Some (mk (s + n / 2));
                    SpecialObj.color := c |})
      /\ (n = 4 ->
          MatchResolver.getSpecialTileForMatch m'
          = Some {| SpecialObj.type :=
                      match o with
                      | horizontal => CONFIG.LINE_V
                      | vertical => CONFIG.LINE_H
                      end;
                    SpecialObj.position := Some (mk (s + n / 2));
                    SpecialObj.color := c |})
      /\ (n = 3 -> MatchResolver.getSpecialTileForMatch m' = None)).
  { clear. intros mk o s e c Hs He m' n.
    assert (Hmid : MatchObj.tiles m' !! Z.to_nat (n / 2) = Some (mk (s + n / 2))).
    { simpl. rewrite list_lookup_fmap, lookup_seqZ_middle by (unfold n; lia).
      reflexivity. }
    assert (Hcenter : MatchObj.tiles m' !! MatchResolver.centerIndex m'
                      = Some (mk (s + n / 2))).
    { unfold MatchResolver.centerIndex, m'. cbn [MatchObj.tiles].
      rewrite centerIndex_run by lia. exact Hmid. }
    split; [simpl; rewrite length_map, length_seqZ; unfold n; lia|].
    split; [unfold n; lia|]. split; [exact Hmid|].
    unfold MatchResolver.getSpecialTileForMatch. rewrite Hcenter.
    unfold CONFIG.MATCH.BOMB_COUNT, CONFIG.MATCH.LINE_CLEAR_COUNT.
    change (MatchObj.length m') with n. change (MatchObj.type m') with o.
    change (MatchObj.color m') with c.
    split; [|split]; intros Hn.
    - destruct (5 <=? n) eqn:H5; [reflexivity|]. apply Z.leb_gt in H5. lia.
    - subst n. rewrite Hn. simpl. destruct o; reflexivity.
    - subst n. rewrite Hn. reflexivity. }
  destruct (findAllMatches_sound _ _ Hm)
    as [(y & s & e & c & _ & -> & Hs & He & _ & _)
       |(x & s & e & c & _ & -> & Hs & He & _ & _)].
  - destruct (Hcases (fun i => (i, y)) horizontal s e c Hs He)
      as (H1 & H2 & H3 & H4 & H5 & H6).
    split; [exact H1|]. split; [exact H2|].
    exists (s + (e - s) / 2, y). split; [exact H3|].
    split; [exists s, y; split; reflexivity|].
    split; [exact H4|]. split; [exact H5|exact H6].
  - destruct (Hcases (fun j => (x, j)) vertical s e c Hs He)
      as (H1 & H2 & H3 & H4 & H5 & H6).
    split; [exact H1|]. split; [exact H2|].
    exists (x, s + (e - s) / 2). split; [exact H3|].
    split; [exists s, x; split; reflexivity|].
    split; [exact H4|]. split; [exact H5|exact H6].
Qed.

Lemma getSpecialTileForMatch_policy_witness :
  In (MatchResolver.horizontalMatch 1 0 4 "red") (MatchResolver.findAllMatches boardRun4)
  /\ MatchResolver.getSpecialTileForMatch (MatchResolver.horizontalMatch 1 0 4 "red")
     = Some {| SpecialObj.type := CONFIG.LINE_V;
               SpecialObj.position := Some (2, 1);
               SpecialObj.color := "red" |}.
Proof.
  assert (Hin : In (MatchResolver.horizontalMatch 1 0 4 "red")
                  (MatchResolver.findAllMatches boardRun4))
    by (left; reflexivity).
  split; [exact Hin|].
  destruct (getSpecialTileForMatch_policy boardRun4 _ Hin)
    as (_ & _ & p & Hp & _ & _ & H4 & _).
  rewrite (H4 eq_refl). simpl in Hp. injection Hp as <-. reflexivity.
Defined.


(** ** Kinds of tiles *)

Lemma isMatchable_kind tile :
  Tile.isMatchable tile = true ->
  Tile.isEmpty tile = false /\ Tile.isBlocker tile = false
  /\ Tile.isExit tile = false.
Proof.
  unfold Tile.isMatchable, Tile.isEmpty, Tile.isBlocker, Tile.isExit.
  rewrite andb_true_iff, existsb_exists.
  intros [(c & Hc & Heq) _]. apply String.eqb_eq in Heq. rewrite Heq.
  simpl in Hc. destruct Hc as [<-|[<-|[<-|[<-|[<-|[]]]]]]; repeat split.
Qed.

Lemma isMatchable_moveTo tile x y :
  Tile.isMatchable (Tile.moveTo tile x y) = Tile.isMatchable tile.
Proof. reflexivity. Qed.

Lemma isEmpty_new_empty x y :
  Tile.isEmpty (Tile.new CONFIG.TILE_TYPES.EMPTY x y) = true.
Proof. reflexivity. Qed.

Lemma isMatchable_isEmpty tile :
  Tile.isEmpty tile = true -> Tile.isMatchable tile = false.
Proof.
  intros He. destruct (Tile.isMatchable tile) eqn:Hm; [|reflexivity].
  apply isMatchable_kind in Hm as (Hm & _). congruence.
Qed.

(** ** Fixed positions *)

Lemma isPositionFixed_ext gm gm' x y :
  GridManager.characterPosition gm' = GridManager.characterPosition gm ->
  GridManager.getTile gm' x y = GridManager.getTile gm x y ->
  GravitySystem.isPositionFixed gm' x y = GravitySystem.isPositionFixed gm x y.
Proof.
  intros Hc Ht. unfold GravitySystem.isPositionFixed. rewrite Hc, Ht. reflexivity.
Qed.

Lemma isPositionFixed_false gm x y :
  GravitySystem.isPositionFixed gm x y = false ->
  (x, y) <> GridManager.characterPosition gm
  /\ forall tile, GridManager.getTile gm x y = Some tile ->
                  Tile.isExit tile = false /\ Tile.isBlocker tile = false.
Proof.
  unfold GravitySystem.isPositionFixed.
  destruct ((x =? fst (GridManager.characterPosition gm))
            && (y =? snd (GridManager.characterPosition gm))) eqn:Hc; [discriminate|].
  intros H. split.
  - intros Heq. rewrite <- Heq in Hc. simpl in Hc.
    rewrite !Z.eqb_refl in Hc. discriminate.
  - intros tile Ht. rewrite Ht in H.
    destruct (Tile.isExit tile); [discriminate|].
    destruct (Tile.isBlocker tile); [discriminate|]. split; reflexivity.
Qed.

Lemma isPositionFixed_false_intro gm x y tile :
  (x, y) <> GridManager.characterPosition gm ->
  GridManager.getTile gm x y = Some tile ->
  Tile.isExit tile = false -> Tile.isBlocker tile = false ->
  GravitySystem.isPositionFixed gm x y = false.
Proof.
  intros Hc Ht He Hb. unfold GravitySystem.isPositionFixed.
  rewrite Ht, He, Hb.
  destruct ((x =? fst (GridManager.characterPosition gm))
            && (y =? snd (GridManager.characterPosition gm))) eqn:Heq; [|reflexivity].
  apply andb_true_iff in Heq as [H1 H2]. apply Z.eqb_eq in H1, H2.
  exfalso. apply Hc. destruct (GridManager.characterPosition gm). simpl in *. congruence.
Qed.

Lemma isPositionFixed_character gm :
  GravitySystem.isPositionFixed gm (fst (GridManager.characterPosition gm))
    (snd (GridManager.characterPosition gm)) = true.
Proof. unfold GravitySystem.isPositionFixed. rewrite !Z.eqb_refl. reflexivity. Qed.

Lemma isPositionFixed_tile gm x y tile :
  GridManager.getTile gm x y = Some tile ->
  Tile.isExit tile || Tile.isBlocker tile = true ->
  GravitySystem.isPositionFixed gm x y = true.
Proof.
  intros Ht Hk. unfold GravitySystem.isPositionFixed. rewrite Ht.
  destruct (_ && _); [reflexivity|].
  destruct (Tile.isExit tile); [reflexivity|]. simpl in Hk. rewrite Hk. reflexivity.
Qed.

Lemma isEmpty_Some gm x y :
  GridManager.isEmpty gm x y = true ->
  exists tile, GridManager.getTile gm x y = Some tile /\ Tile.isEmpty tile = true.
Proof.
  unfold GridManager.isEmpty.
  destruct (GridManager.getTile gm x y) as [tile|]; [|discriminate]. eauto.
Qed.

(** ** The search for a falling tile *)

Lemma findFalling_Some gm x ys searchY tile :
  GravitySystem.findFalling gm x ys = Some (searchY, tile) ->
  In searchY ys
  /\ GravitySystem.isPositionFixed gm x searchY = false
  /\ GridManager.getTile gm x searchY = Some tile
  /\ Tile.isMatchable tile = true.
Proof.
  induction ys as [|y ys IH]; simpl; [discriminate|].
  destruct (GravitySystem.isPositionFixed gm x y) eqn:Hf.
  - intros H. destruct (IH H) as (? & ? & ? & ?). auto.
  - destruct (GridManager.getTile gm x y) as [tl|] eqn:Ht.
    + destruct (negb (Tile.isEmpty tl) && negb (Tile.isBlocker tl)
                && Tile.isMatchable tl) eqn:Hc.
      * intros [= <- <-]. apply andb_true_iff in Hc as [_ Hm]. auto.
      * intros H. destruct (IH H) as (? & ? & ? & ?). auto.
    + intros H. destruct (IH H) as (? & ? & ? & ?). auto.
Qed.

Lemma findFalling_None gm x ys y tile :
  GravitySystem.findFalling gm x ys = None ->
  In y ys ->
  GravitySystem.isPositionFixed gm x y = false ->
  GridManager.getTile gm x y = Some tile ->
  Tile.isMatchable tile = false.
Proof.
  induction ys as [|y0 ys IH]; simpl; [contradiction|].
  intros Hnone [->|Hin] Hf Ht.
  - rewrite Hf, Ht in Hnone.
    destruct (Tile.isMatchable tile) eqn:Hm; [|reflexivity].
    destruct (isMatchable_kind _ Hm) as (He & Hb & _).
    rewrite He, Hb in Hnone. discriminate.
  - apply IH; try assumption.
    destruct (GravitySystem.isPositionFixed gm x y0); [assumption|].
    destruct (GridManager.getTile gm x y0) as [tl|]; [|assumption].
    destruct (_ && _); [discriminate|assumption].
Qed.

Lemma findFalling_ext gm gm' x ys :
  GridManager.characterPosition gm' = GridManager.characterPosition gm ->
  (forall y, In y ys -> GridManager.getTile gm' x y = GridManager.getTile gm x y) ->
  GravitySystem.findFalling gm' x ys = GravitySystem.findFalling gm x ys.
Proof.
  intros Hc. induction ys as [|y ys IH]; intros H; simpl; [reflexivity|].
  rewrite (isPositionFixed_ext gm gm' x y Hc) by (apply H; left; reflexivity).
  rewrite (H y) by (left; reflexivity).
  rewrite IH by (intros; apply H; right; assumption). reflexivity.
Qed.

Lemma elem_of_reverse_seqZ (y n : Z) : In y (reverse (seqZ 0 n)) <-> 0 <= y < n.
Proof.
  rewrite <- list_elem_of_In, elem_of_reverse, elem_of_seqZ. lia.
Qed.

(** ** The weight of a grid *)

Lemma In_rowMajor (w h x y : Z) :
  In (x, y) (GridManager.rowMajor w h) <-> 0 <= x < w /\ 0 <= y < h.
Proof.
  unfold GridManager.rowMajor. rewrite in_flat_map. split.
  - intros (y' & Hy & Hx). apply in_map_iff in Hx as (x' & [= <- <-] & Hx).
    apply list_elem_of_In, elem_of_seqZ in Hy, Hx. lia.
  - intros [Hx Hy]. exists y. split.
    + apply list_elem_of_In, elem_of_seqZ. lia.
    + apply in_map_iff. exists x. split; [reflexivity|].
      apply list_elem_of_In, elem_of_seqZ. lia.
Qed.

Lemma NoDup_grid_positions (xs ys : list Z) :
  List.NoDup xs -> List.NoDup ys ->
  List.NoDup (flat_map (fun y => map (fun x => (x, y)) xs) ys).
Proof.
  intros Hxs. induction 1 as [|y ys Hy Hys IH]; simpl; [constructor|].
  apply List.NoDup_app.
  - apply Finite.Injective_map_NoDup; [|assumption]. intros a b [= ->]. reflexivity.
  - assumption.
  - intros [a b] Ha Hb. apply in_map_iff in Ha as (x & [= <- <-] & _).
    apply in_flat_map in Hb as (y' & Hy' & Hb).
    apply in_map_iff in Hb as (x' & [= <- <-] & _). contradiction.
Qed.

Lemma NoDup_rowMajor (w h : Z) : List.NoDup (GridManager.rowMajor w h).
Proof.
  apply NoDup_grid_positions; apply NoDup_ListNoDup, NoDup_seqZ.
Qed.

Lemma list_sum_map_change (f f' : Pos -> nat) (ps : list Pos) (a : Pos) :
  List.NoDup ps -> In a ps -> (forall p, p <> a -> f' p = f p) ->
  (list_sum (map f' ps) + f a = list_sum (map f ps) + f' a)%nat.
Proof.
  intros Hnd Hin Hf. induction Hnd as [|p ps Hp Hnd IH]; [contradiction|].
  simpl. destruct Hin as [->|Hin].
  - assert (Hsame : map f' ps = map f ps).
    { apply map_ext_in. intros q Hq. apply Hf. intros ->. contradiction. }
    rewrite Hsame. lia.
  - specialize (IH Hin). rewrite (Hf p) by (intros ->; contradiction). lia.
Qed.

Lemma getTile_Some_In_rowMajor gm x y tile :
  GridManager.getTile gm x y = Some tile ->
  In (x, y) (GridManager.rowMajor (GridManager.width gm) (GridManager.height gm)).
Proof.
  intros H. apply getTile_Some_valid in H as [Hv _]. apply In_rowMajor.
  unfold GridManager.isValidPosition in Hv.
  rewrite !andb_true_iff, !Z.leb_le, !Z.ltb_lt in Hv. lia.
Qed.

Lemma weight_setTile gm x y tile old :
  GridManager.getTile gm x y = Some old ->
  (GravitySystem.weight (GridManager.setTile gm x y tile)
   + GravitySystem.cellWeight gm (x, y)
   = GravitySystem.weight gm
     + GravitySystem.cellWeight (GridManager.setTile gm x y tile) (x, y))%nat.
Proof.
  intros Hold. unfold GravitySystem.weight.
  destruct (sameFrame_setTile gm x y tile) as (-> & -> & _).
  apply list_sum_map_change.
  - apply NoDup_rowMajor.
  - eapply getTile_Some_In_rowMajor; eauto.
  - intros [x' y'] Hne. unfold GravitySystem.cellWeight. simpl.
    rewrite getTile_setTile_ne by assumption. reflexivity.
Qed.

(** ** One movement *)

Section Move.
Variable gm : GridManager.t.
Variables x emptyY searchY : Z.
Variables tile hole : Tile.t.
Hypothesis Hhole : GridManager.getTile gm x emptyY = Some hole.
Hypothesis HholeEmpty : Tile.isEmpty hole = true.
Hypothesis HholeFree : GravitySystem.isPositionFixed gm x emptyY = false.
Hypothesis Htile : GridManager.getTile gm x searchY = Some tile.
Hypothesis HtileMatchable : Tile.isMatchable tile = true.
Hypothesis HtileFree : GravitySystem.isPositionFixed gm x searchY = false.
Hypothesis Habove : 0 <= searchY < emptyY.

Let gm' : GridManager.t :=
  GridManager.setEmpty (GridManager.setTile gm x emptyY tile) x searchY.

Lemma move_sameFrame : sameFrame gm gm'.
Proof.
  eapply sameFrame_trans; [apply sameFrame_setTile|apply sameFrame_setEmpty].
Qed.

Lemma move_getTile_target :
  GridManager.getTile gm' x emptyY = Some (Tile.moveTo tile x emptyY).
Proof.
  unfold gm'. rewrite getTile_setEmpty_ne by (intros [= ?]; lia).
  eapply getTile_setTile_eq; eauto.
Qed.

Lemma move_getTile_source :
  GridManager.getTile gm' x searchY
  = Some (Tile.new CONFIG.TILE_TYPES.EMPTY x searchY).
Proof.
  unfold gm'. eapply getTile_setEmpty_eq.
  rewrite getTile_setTile_ne by (intros [= ?]; lia). eassumption.
Qed.

Lemma move_getTile_other x' y' :
  (x', y') <> (x, emptyY) -> (x', y') <> (x, searchY) ->
  GridManager.getTile gm' x' y' = GridManager.getTile gm x' y'.
Proof.
  intros H1 H2. unfold gm'.
  rewrite getTile_setEmpty_ne, getTile_setTile_ne by assumption. reflexivity.
Qed.

Lemma move_isPositionFixed x' y' :
  GravitySystem.isPositionFixed gm' x' y' = GravitySystem.isPositionFixed gm x' y'.
Proof.
  destruct move_sameFrame as (_ & _ & _ & _ & Hc).
  destruct (isPositionFixed_false _ _ _ HholeFree) as [Hc1 _].
  destruct (isPositionFixed_false _ _ _ HtileFree) as [Hc2 _].
  destruct (decide ((x', y') = (x, emptyY))) as [[= -> ->]|Hne1].
  - rewrite HholeFree. eapply isPositionFixed_false_intro.
    + rewrite Hc. assumption.
    + apply move_getTile_target.
    + apply (isMatchable_kind (Tile.moveTo tile x emptyY)). assumption.
    + apply (isMatchable_kind (Tile.moveTo tile x emptyY)). assumption.
  - destruct (decide ((x', y') = (x, searchY))) as [[= -> ->]|Hne2].
    + rewrite HtileFree. eapply isPositionFixed_false_intro.
      * rewrite Hc. assumption.
      * apply move_getTile_source.
      * reflexivity.
      * reflexivity.
    + apply isPositionFixed_ext; [assumption|].
      apply move_getTile_other; assumption.
Qed.

Lemma move_fixed_untouched x' y' :
  GravitySystem.isPositionFixed gm x' y' = true ->
  GridManager.getTile gm' x' y' = GridManager.getTile gm x' y'.
Proof.
  intros Hf. apply move_getTile_other; intros [= -> ->]; congruence.
Qed.

Lemma move_weight :
  (GravitySystem.weight gm' + Z.to_nat (emptyY - searchY)
   = GravitySystem.weight gm)%nat.
Proof.
  pose proof (weight_setTile gm x emptyY tile hole Hhole) as H1.
  assert (Hmid : GridManager.getTile (GridManager.setTile gm x emptyY tile) x searchY
                 = Some tile).
  { rewrite getTile_setTile_ne by (intros [= ?]; lia). assumption. }
  pose proof (weight_setTile (GridManager.setTile gm x emptyY tile) x searchY
                (Tile.new CONFIG.TILE_TYPES.EMPTY x searchY) tile Hmid) as H2.
  fold (GridManager.setEmpty (GridManager.setTile gm x emptyY tile) x searchY) in H2.
  fold gm' in H2.
  unfold GravitySystem.cellWeight in H1, H2. simpl in H1, H2.
  rewrite Hhole in H1. rewrite (isMatchable_isEmpty _ HholeEmpty) in H1.
  erewrite getTile_setTile_eq in H1 by eassumption.
  rewrite isMatchable_moveTo, HtileMatchable in H1.
  rewrite Hmid, HtileMatchable in H2.
  rewrite move_getTile_source in H2. simpl in H2. lia.
Qed.
End Move.

(** ** One pass of gravity *)

Lemma grows_refl st : grows st st.
Proof. exists []. rewrite app_nil_r. auto. Qed.

Lemma grows_trans st1 st2 st3 : grows st1 st2 -> grows st2 st3 -> grows st1 st3.
Proof.
  intros (n1 & H1 & E1) (n2 & H2 & E2). exists (n1 ++ n2). split.
  - rewrite H2, H1, app_assoc. reflexivity.
  - intros H. apply app_eq_nil in H as [-> ->]. rewrite E2, E1; reflexivity.
Qed.

Lemma grows_quiet st st' : grows st st' -> snd st' = snd st -> st' = st.
Proof.
  intros (new & H & E) Heq. apply E. rewrite Heq in H.
  rewrite <- (app_nil_r (snd st)) in H at 1. apply app_inv_head in H. congruence.
Qed.

Lemma fallInto_grows x st emptyY : grows st (GravitySystem.fallInto x st emptyY).
Proof.
  unfold GravitySystem.fallInto.
  destruct (GravitySystem.findFalling (fst st) x (reverse (seqZ 0 emptyY)))
    as [[searchY tile]|]; [|apply grows_refl].
  eexists. split; [reflexivity|]. discriminate.
Qed.

Lemma fold_grows {A} (f : GridManager.t * list Movement.t -> A ->
                          GridManager.t * list Movement.t) (l : list A) st :
  (forall st a, grows st (f st a)) -> grows st (fold_left f l st).
Proof.
  intros Hf. revert st. induction l as [|a l IH]; intros st; simpl.
  - apply grows_refl.
  - eapply grows_trans; [apply Hf|apply IH].
Qed.

Lemma applyGravityColumn_grows st x : grows st (GravitySystem.applyGravityColumn st x).
Proof. apply fold_grows. intros. apply fallInto_grows. Qed.

Lemma applyGravity_grows gm : grows (gm, []) (GravitySystem.applyGravity gm).
Proof. apply fold_grows. intros. apply applyGravityColumn_grows. Qed.

Lemma grows_between st1 st2 st3 :
  grows st1 st2 -> grows st2 st3 -> snd st3 = snd st1 -> st2 = st1 /\ st3 = st1.
Proof.
  intros H12 H23 Heq.
  assert (H2 : st2 = st1).
  { destruct H12 as (n1 & H1 & E1), H23 as (n2 & H2 & E2).
    apply E1. rewrite H2, H1, <- app_assoc in Heq.
    rewrite <- (app_nil_r (snd st1)) in Heq at 2.
    apply app_inv_head, app_eq_nil in Heq. tauto. }
  split; [assumption|]. subst st2. apply grows_quiet; assumption.
Qed.

Lemma column_quiet x l st :
  snd (fold_left (GravitySystem.fallInto x) l st) = snd st ->
  forall y, In y l ->
    GravitySystem.findFalling (fst st) x (reverse (seqZ 0 y)) = None.
Proof.
  revert st. induction l as [|y0 l IH]; intros st Hq y Hin; [contradiction|].
  simpl in Hq.
  destruct (grows_between st (GravitySystem.fallInto x st y0)
              (fold_left (GravitySystem.fallInto x) l (GravitySystem.fallInto x st y0)))
    as [H1 _]; [apply fallInto_grows| |assumption|].
  { apply fold_grows. intros. apply fallInto_grows. }
  destruct Hin as [->|Hin].
  - unfold GravitySystem.fallInto in H1.
    destruct (GravitySystem.findFalling (fst st) x (reverse (seqZ 0 y)))
      as [[searchY tile]|]; [|reflexivity].
    exfalso. apply (f_equal snd) in H1. simpl in H1.
    rewrite <- (app_nil_r (snd st)) in H1 at 2.
    apply app_inv_head in H1. discriminate.
  - rewrite H1 in Hq. apply IH; assumption.
Qed.

Lemma pass_quiet xs st :
  snd (fold_left GravitySystem.applyGravityColumn xs st) = snd st ->
  fold_left GravitySystem.applyGravityColumn xs st = st
  /\ forall x y, In x xs -> In y (GravitySystem.emptyPositions (fst st) x) ->
       GravitySystem.findFalling (fst st) x (reverse (seqZ 0 y)) = None.
Proof.
  revert st. induction xs as [|x0 xs IH]; intros st Hq; simpl.
  - split; [reflexivity|]. intros ? ? [].
  - simpl in Hq.
    destruct (grows_between st (GravitySystem.applyGravityColumn st x0)
                (fold_left GravitySystem.applyGravityColumn xs
                   (GravitySystem.applyGravityColumn st x0)))
      as [H1 H2]; [apply applyGravityColumn_grows| |assumption|].
    { apply fold_grows. intros. apply applyGravityColumn_grows. }
    split; [assumption|].
    intros x y [->|Hx] Hy.
    + eapply column_quiet; [|eassumption].
      unfold GravitySystem.applyGravityColumn in H1. rewrite H1. reflexivity.
    + rewrite H1 in Hq. apply (IH st Hq); assumption.
Qed.

Lemma In_emptyPositions gm x y :
  In y (GravitySystem.emptyPositions gm x)
  <-> 0 <= y < GridManager.height gm
      /\ GravitySystem.isPositionFixed gm x y = false
      /\ GridManager.isEmpty gm x y = true.
Proof.
  unfold GravitySystem.emptyPositions.
  rewrite <- list_elem_of_In, list_elem_of_filter, list_elem_of_In, elem_of_reverse_seqZ.
  rewrite andb_true_iff, negb_true_iff. tauto.
Qed.

Lemma isEmpty_valid gm x y :
  GridManager.isEmpty gm x y = true ->
  0 <= x < GridManager.width gm /\ 0 <= y < GridManager.height gm.
Proof.
  intros H. apply isEmpty_Some in H as (tile & Ht & _).
  apply getTile_Some_In_rowMajor, In_rowMajor in Ht. assumption.
Qed.

(** A pass without movement leaves the grid as it is, and the grid is at
    rest. *)
Lemma applyGravity_quiet gm :
  snd (GravitySystem.applyGravity gm) = [] ->
  GravitySystem.applyGravity gm = (gm, []) /\ atRest gm.
Proof.
  intros Hq. destruct (pass_quiet (seqZ 0 (GridManager.width gm)) (gm, []) Hq)
    as [Hsame Hnone].
  split; [assumption|].
  intros x y y' tile Hfree Hempty Hy' Hfree' Htile.
  destruct (isEmpty_valid _ _ _ Hempty) as [Hx Hy].
  eapply findFalling_None; [| |eassumption|eassumption].
  - apply (Hnone x y).
    + apply list_elem_of_In, elem_of_seqZ. lia.
    + apply In_emptyPositions. auto.
  - apply elem_of_reverse_seqZ. assumption.
Qed.

(** Conversely, a grid at rest has no movement in a pass. *)
Lemma atRest_findFalling gm x y :
  atRest gm ->
  GravitySystem.isPositionFixed gm x y = false ->
  GridManager.isEmpty gm x y = true ->
  GravitySystem.findFalling gm x (reverse (seqZ 0 y)) = None.
Proof.
  intros Hrest Hfree Hempty.
  destruct (GravitySystem.findFalling gm x (reverse (seqZ 0 y)))
    as [[searchY tile]|] eqn:Hfind; [|reflexivity].
  apply findFalling_Some in Hfind as (Hin & Hf & Ht & Hm).
  apply elem_of_reverse_seqZ in Hin.
  rewrite (Hrest x y searchY tile) in Hm by assumption. discriminate.
Qed.

Lemma settles_refl st : settles st st.
Proof.
  split; [apply sameFrame_refl|]. split; [reflexivity|]. split; [reflexivity|].
  exists []. rewrite app_nil_r. split; [reflexivity|]. split; [simpl; lia|].
  apply Forall_nil. exact I.
Qed.

Lemma settles_trans st1 st2 st3 :
  settles st1 st2 -> settles st2 st3 -> settles st1 st3.
Proof.
  intros (F1 & X1 & T1 & n1 & M1 & W1 & D1) (F2 & X2 & T2 & n2 & M2 & W2 & D2).
  split; [eapply sameFrame_trans; eassumption|].
  split; [intros; rewrite X2, X1; reflexivity|].
  split.
  - intros x y Hf. rewrite T2, T1; [reflexivity|assumption|].
    rewrite X1. assumption.
  - exists (n1 ++ n2). split; [rewrite M2, M1, app_assoc; reflexivity|].
    split; [rewrite length_app; lia|].
    apply Forall_app. split; [assumption|].
    eapply Forall_impl; [eassumption|]. intros mv. simpl. rewrite X1. auto.
Qed.

Lemma isEmpty_ext gm gm' x y :
  GridManager.getTile gm' x y = GridManager.getTile gm x y ->
  GridManager.isEmpty gm' x y = GridManager.isEmpty gm x y.
Proof. intros H. unfold GridManager.isEmpty. rewrite H. reflexivity. Qed.

Lemma fallInto_settles x st emptyY l :
  holes (fst st) x (emptyY :: l) ->
  settles st (GravitySystem.fallInto x st emptyY)
  /\ holes (fst (GravitySystem.fallInto x st emptyY)) x l.
Proof.
  intros [Hnd Hholes]. inversion Hnd as [|? ? Hnotin Hnd']; subst.
  assert (Htail : holes (fst st) x l).
  { split; [assumption|]. intros y Hy. apply Hholes. right. assumption. }
  unfold GravitySystem.fallInto.
  destruct (GravitySystem.findFalling (fst st) x (reverse (seqZ 0 emptyY)))
    as [[searchY tile]|] eqn:Hfind; [|split; [apply settles_refl|assumption]].
  apply findFalling_Some in Hfind as (Hin & Hfree & Htile & Hmatch).
  apply elem_of_reverse_seqZ in Hin.
  destruct (Hholes emptyY (or_introl eq_refl)) as [HholeFree HholeEmpty].
  apply isEmpty_Some in HholeEmpty as (hole & Hhole & HholeEmpty).
  simpl. split.
  - split; [eapply move_sameFrame|].
    split; [intros; eapply move_isPositionFixed; eassumption|].
    split; [intros; eapply move_fixed_untouched; eassumption|].
    eexists. split; [reflexivity|]. split.
    + pose proof (move_weight (fst st) x emptyY searchY tile hole
                    Hhole HholeEmpty Htile Hmatch Hin) as Hw.
      simpl. lia.
    + apply Forall_cons. split; [assumption|]. apply Forall_nil. exact I.
  - split; [assumption|]. intros y Hy.
    destruct (Hholes y (or_intror Hy)) as [Hyfree Hyempty].
    assert (Hsame : GridManager.getTile
                      (GridManager.setEmpty
                         (GridManager.setTile (fst st) x emptyY tile) x searchY) x y
                    = GridManager.getTile (fst st) x y).
    { apply move_getTile_other.
      - intros [= ->]. contradiction.
      - intros [= ->]. apply isEmpty_Some in Hyempty as (tl & Htl & Hempty).
        rewrite Htl in Htile. injection Htile as ->.
        rewrite (isMatchable_isEmpty _ Hempty) in Hmatch. discriminate. }
    split.
    + erewrite move_isPositionFixed; eassumption.
    + rewrite (isEmpty_ext _ _ _ _ Hsame). assumption.
Qed.

Lemma column_settles x l st :
  holes (fst st) x l -> settles st (fold_left (GravitySystem.fallInto x) l st).
Proof.
  revert st. induction l as [|emptyY l IH]; intros st Hholes; simpl.
  - apply settles_refl.
  - destruct (fallInto_settles x st emptyY l Hholes) as [Hstep Hrest].
    eapply settles_trans; [exact Hstep|]. apply IH. exact Hrest.
Qed.

Lemma emptyPositions_holes gm x : holes gm x (GravitySystem.emptyPositions gm x).
Proof.
  split.
  - apply NoDup_ListNoDup. unfold GravitySystem.emptyPositions.
    apply NoDup_filter. rewrite reverse_Permutation. apply NoDup_seqZ.
  - intros y Hy. apply In_emptyPositions in Hy. tauto.
Qed.

Lemma applyGravityColumn_settles st x :
  settles st (GravitySystem.applyGravityColumn st x).
Proof. apply column_settles, emptyPositions_holes. Qed.

Lemma fold_settles {A} (f : GridManager.t * list Movement.t -> A ->
                            GridManager.t * list Movement.t) (l : list A) st :
  (forall st a, settles st (f st a)) -> settles st (fold_left f l st).
Proof.
  intros Hf. revert st. induction l as [|a l IH]; intros st; simpl.
  - apply settles_refl.
  - eapply settles_trans; [apply Hf|apply IH].
Qed.

Lemma applyGravity_settles gm : settles (gm, []) (GravitySystem.applyGravity gm).
Proof. apply fold_settles. intros. apply applyGravityColumn_settles. Qed.

(** ** applyGravityFully *)

Lemma settles_rebase gm gm' a b n :
  settles (gm, a) (gm', a ++ n) -> settles (gm, b) (gm', b ++ n).
Proof.
  intros (F & X & T & new & M & W & D). simpl in *.
  apply app_inv_head in M. subst new.
  split; [assumption|]. split; [assumption|]. split; [assumption|].
  exists n. simpl. auto.
Qed.

Lemma applyGravity_weight gm gm' movements :
  GravitySystem.applyGravity gm = (gm', movements) ->
  (GravitySystem.weight gm' + List.length movements <= GravitySystem.weight gm)%nat.
Proof.
  intros H. pose proof (applyGravity_settles gm) as (_ & _ & _ & new & M & W & _).
  rewrite H in M, W. simpl in M, W. subst new. assumption.
Qed.

(** With more passes allowed than the weight of the grid, the loop of
    applyGravityFully ends on a pass without movement; what it did in
    between settles the grid, and the grid it returns is at rest. *)
Lemma applyGravityLoop_spec fuel gm all :
  (GravitySystem.weight gm < fuel)%nat ->
  exists gm' new,
    GravitySystem.applyGravityLoop fuel gm all = Some (gm', all ++ new)
    /\ GravitySystem.applyGravity gm' = (gm', [])
    /\ atRest gm'
    /\ settles (gm, []) (gm', concat new)
    /\ (List.length new <= GravitySystem.weight gm)%nat.
Proof.
  revert gm all. induction fuel as [|fuel IH]; intros gm all Hfuel; [lia|].
  simpl. destruct (GravitySystem.applyGravity gm) as [gm1 movements] eqn:Hpass.
  destruct movements as [|mv movements].
  - assert (Hq : snd (GravitySystem.applyGravity gm) = []) by (rewrite Hpass; reflexivity).
    destruct (applyGravity_quiet gm Hq) as [Hsame Hrest].
    rewrite Hpass in Hsame. injection Hsame as ->.
    exists gm, []. rewrite app_nil_r. split; [reflexivity|].
    split; [assumption|]. split; [assumption|].
    split; [apply settles_refl|simpl; lia].
  - pose proof (applyGravity_weight _ _ _ Hpass) as Hw. simpl in Hw.
    destruct (IH gm1 (all ++ [mv :: movements])) as (gm' & new & Hloop & Hfix & Hrest & Hset & Hlen);
      [lia|].
    exists gm', ((mv :: movements) :: new).
    split; [rewrite Hloop, <- app_assoc; reflexivity|].
    split; [assumption|]. split; [assumption|]. split; [|simpl; lia].
    pose proof (applyGravity_settles gm) as Hfirst. rewrite Hpass in Hfirst.
    eapply settles_trans; [exact Hfirst|].
    change (concat ((mv :: movements) :: new))
      with ((mv :: movements) ++ concat new).
    apply (settles_rebase gm1 gm' [] (mv :: movements) (concat new)). exact Hset.
Qed.

Lemma applyGravityLoop_fuel f1 f2 gm all :
  (GravitySystem.weight gm < f1)%nat -> (GravitySystem.weight gm < f2)%nat ->
  GravitySystem.applyGravityLoop f1 gm all = GravitySystem.applyGravityLoop f2 gm all.
Proof.
  intros H1 H2.
  destruct (applyGravityLoop_spec f1 gm all H1) as (g1 & n1 & L1 & _).
  revert f2 gm all H1 H2 g1 n1 L1.
  induction f1 as [|f1 IH]; intros f2 gm all H1 H2 g1 n1 L1; [lia|].
  destruct f2 as [|f2]; [lia|]. simpl.
  destruct (GravitySystem.applyGravity gm) as [gm1 movements] eqn:Hpass.
  destruct movements as [|mv movements]; [reflexivity|].
  pose proof (applyGravity_weight _ _ _ Hpass) as Hw. simpl in Hw.
  destruct (applyGravityLoop_spec f1 gm1 (all ++ [mv :: movements]))
    as (g & n & L & _); [lia|].
  eapply IH; [lia|lia|exact L].
Qed.

Lemma applyGravityFully_spec gm :
  exists gm' all,
    GravitySystem.applyGravityFully gm = (gm', all)
    /\ GravitySystem.applyGravityLoop (S (GravitySystem.weight gm)) gm [] = Some (gm', all)
    /\ GravitySystem.applyGravity gm' = (gm', [])
    /\ atRest gm'
    /\ settles (gm, []) (gm', concat all)
    /\ (List.length all <= GravitySystem.weight gm)%nat.
Proof.
  destruct (applyGravityLoop_spec (S (GravitySystem.weight gm)) gm [])
    as (gm' & new & Hloop & Hfix & Hrest & Hset & Hlen); [lia|].
  exists gm', new. unfold GravitySystem.applyGravityFully. rewrite Hloop.
  simpl. auto 10.
Qed.

(** C10.  applyGravityFully ends: its loop returns within [weight gm + 1]
    passes (and whatever larger number of passes is allowed, it returns
    the same result), at most [weight gm] of them with a movement.  The
    grid it returns is a fixed point of applyGravity: one more pass makes
    no movement and changes nothing, that is, no tile that can fall stands
    in a position that is not fixed above an empty position that is not
    fixed in its column. *)
Theorem applyGravityFully_fixed_point (gm : GridManager.t) :
  let r := GravitySystem.applyGravityFully gm in
  (forall fuel, (GravitySystem.weight gm < fuel)%nat ->
                GravitySystem.applyGravityLoop fuel gm [] = Some r)
  /\ (List.length (snd r) <= GravitySystem.weight gm)%nat
  /\ GravitySystem.applyGravity (fst r) = (fst r, [])
  /\ (forall x y y' tile,
        GravitySystem.isPositionFixed (fst r) x y = false ->
        GridManager.isEmpty (fst r) x y = true ->
        0 <= y' < y ->
        GravitySystem.isPositionFixed (fst r) x y' = false ->
        GridManager.getTile (fst r) x y' = Some tile ->
        Tile.isMatchable tile = false).
Proof.
  destruct (applyGravityFully_spec gm)
    as (gm' & all & Hfull & Hloop & Hfix & Hrest & _ & Hlen).
  simpl. rewrite Hfull. simpl.
  split; [|split; [assumption|split; [assumption|exact Hrest]]].
  intros fuel Hfuel. rewrite <- Hloop. apply applyGravityLoop_fuel; lia.
Qed.

(** ** Fixed cells under processGravity *)

Lemma keepsFixed_refl gm : keepsFixed gm gm.
Proof. split; [apply sameFrame_refl|reflexivity]. Qed.

Lemma keepsFixed_stays gm gm' x y :
  keepsFixed gm gm' ->
  GravitySystem.isPositionFixed gm x y = true ->
  GravitySystem.isPositionFixed gm' x y = true.
Proof.
  intros [(_ & _ & _ & _ & Hc) Ht] Hf. rewrite <- Hf.
  apply isPositionFixed_ext; [assumption|]. apply Ht. assumption.
Qed.

Lemma keepsFixed_trans gm1 gm2 gm3 :
  keepsFixed gm1 gm2 -> keepsFixed gm2 gm3 -> keepsFixed gm1 gm3.
Proof.
  intros H12 H23. split.
  - eapply sameFrame_trans; [apply H12|apply H23].
  - intros x y Hf. destruct H12 as [F1 T1], H23 as [F2 T2].
    rewrite T2, T1; [reflexivity|assumption|].
    eapply keepsFixed_stays; [split; eassumption|assumption].
Qed.

Lemma settles_keepsFixed st st' : settles st st' -> keepsFixed (fst st) (fst st').
Proof. intros (F & _ & T & _). split; assumption. Qed.

Lemma settles_targets st st' :
  settles st st' ->
  exists new,
    snd st' = snd st ++ new
    /\ Forall (fun mv => (Movement.toX mv, Movement.toY mv)
                         <> GridManager.characterPosition (fst st)) new.
Proof.
  intros (_ & _ & _ & new & M & _ & D). exists new. split; [assumption|].
  eapply Forall_impl; [eassumption|]. intros mv Hf.
  apply isPositionFixed_false in Hf. tauto.
Qed.

Lemma applyGravityFully_keepsFixed gm :
  keepsFixed gm (fst (GravitySystem.applyGravityFully gm))
  /\ Forall (fun mv => (Movement.toX mv, Movement.toY mv)
                       <> GridManager.characterPosition gm)
       (concat (snd (GravitySystem.applyGravityFully gm))).
Proof.
  destruct (applyGravityFully_spec gm) as (gm' & all & -> & _ & _ & _ & Hset & _).
  simpl. split; [apply (settles_keepsFixed _ _ Hset)|].
  destruct (settles_targets _ _ Hset) as (new & M & D). simpl in M. subst new.
  assumption.
Qed.

Lemma spawnAt_spec gm tape newTiles p :
  let st' := GravitySystem.spawnAt (gm, tape, newTiles) p in
  keepsFixed gm (fst (fst st'))
  /\ exists new,
       snd st' = newTiles ++ new
       /\ Forall (fun s => (Spawn.x s, Spawn.y s)
                           <> GridManager.characterPosition gm) new.
Proof.
  destruct p as [x y]. unfold GravitySystem.spawnAt.
  assert (Hsame : keepsFixed gm gm
                  /\ exists new, newTiles = newTiles ++ new
                       /\ Forall (fun s => (Spawn.x s, Spawn.y s)
                                           <> GridManager.characterPosition gm) new).
  { split; [apply keepsFixed_refl|]. exists []. rewrite app_nil_r.
    split; [reflexivity|]. apply Forall_nil. exact I. }
  destruct (GravitySystem.isPositionFixed gm x y) eqn:Hf; [exact Hsame|].
  destruct (GridManager.isEmpty gm x y) eqn:He; [|exact Hsame].
  destruct (GridManager.createNonMatchingTile (GridManager.grid gm) x y
              (GridManager.tileTypes gm) tape) as [newTile tape'].
  simpl. split.
  - split; [apply sameFrame_setTile|].
    intros x' y' Hf'. apply getTile_setTile_ne. intros [= -> ->]. congruence.
  - eexists. split; [reflexivity|].
    apply Forall_cons. split; [|apply Forall_nil; exact I].
    simpl. apply isPositionFixed_false in Hf. tauto.
Qed.

Lemma spawn_fold_spec ps gm tape newTiles :
  let st' := fold_left GravitySystem.spawnAt ps (gm, tape, newTiles) in
  keepsFixed gm (fst (fst st'))
  /\ exists new,
       snd st' = newTiles ++ new
       /\ Forall (fun s => (Spawn.x s, Spawn.y s)
                           <> GridManager.characterPosition gm) new.
Proof.
  revert gm tape newTiles. induction ps as [|p ps IH]; intros gm tape newTiles.
  - simpl. split; [apply keepsFixed_refl|]. exists []. rewrite app_nil_r.
    split; [reflexivity|]. apply Forall_nil. exact I.
  - cbn [fold_left]. pose proof (spawnAt_spec gm tape newTiles p) as Hstep.
    destruct (GravitySystem.spawnAt (gm, tape, newTiles) p) as [[gm1 tape1] nt1].
    simpl in Hstep. destruct Hstep as (K1 & n1 & -> & D1).
    destruct (IH gm1 tape1 (newTiles ++ n1)) as (K2 & n2 & M2 & D2).
    split; [eapply keepsFixed_trans; eassumption|].
    exists (n1 ++ n2). split; [rewrite M2, app_assoc; reflexivity|].
    apply Forall_app. split; [assumption|].
    destruct K1 as [(_ & _ & _ & _ & Hc) _]. rewrite Hc in D2. assumption.
Qed.

Lemma spawnNewTiles_spec gm tape :
  let st' := GravitySystem.spawnNewTiles gm tape in
  keepsFixed gm (fst (fst st'))
  /\ Forall (fun s => (Spawn.x s, Spawn.y s)
                      <> GridManager.characterPosition gm) (snd st').
Proof.
  unfold GravitySystem.spawnNewTiles.
  destruct (spawn_fold_spec
              (GravitySystem.columnMajor (GridManager.width gm) (GridManager.height gm))
              gm tape []) as (K & new & M & D).
  simpl in *. rewrite M. split; assumption.
Qed.

Lemma processGravity_spec gm tape :
  let r := GravitySystem.processGravity gm tape in
  keepsFixed gm (fst (fst (fst r)))
  /\ Forall (fun mv => (Movement.toX mv, Movement.toY mv)
                       <> GridManager.characterPosition gm) (snd (fst r))
  /\ Forall (fun s => (Spawn.x s, Spawn.y s)
                      <> GridManager.characterPosition gm) (snd r).
Proof.
  unfold GravitySystem.processGravity.
  pose proof (applyGravityFully_keepsFixed gm) as [K1 D1].
  destruct (GravitySystem.applyGravityFully gm) as [gm1 all1]. simpl in K1, D1.
  pose proof (spawnNewTiles_spec gm1 tape) as [K2 D2].
  destruct (GravitySystem.spawnNewTiles gm1 tape) as [[gm2 tape'] newTiles].
  simpl in K2, D2.
  assert (Hc1 : GridManager.characterPosition gm1 = GridManager.characterPosition gm)
    by apply K1.
  assert (Hc2 : GridManager.characterPosition gm2 = GridManager.characterPosition gm1)
    by apply K2.
  rewrite Hc1 in D2.
  destruct newTiles as [|nt newTiles].
  - simpl. split; [eapply keepsFixed_trans; eassumption|]. split; assumption.
  - pose proof (applyGravityFully_keepsFixed gm2) as [K3 D3].
    destruct (GravitySystem.applyGravityFully gm2) as [gm3 all3]. simpl in K3, D3.
    simpl. split; [|split; [|assumption]].
    + eapply keepsFixed_trans; [eassumption|].
      eapply keepsFixed_trans; eassumption.
    + apply Forall_app. split; [assumption|]. rewrite Hc2, Hc1 in D3. assumption.
Qed.

Lemma processGravityTimes_spec n gm tape :
  let r := processGravityTimes n gm tape in
  keepsFixed gm (fst (fst (fst r)))
  /\ Forall (fun mv => (Movement.toX mv, Movement.toY mv)
                       <> GridManager.characterPosition gm) (snd (fst r))
  /\ Forall (fun s => (Spawn.x s, Spawn.y s)
                      <> GridManager.characterPosition gm) (snd r).
Proof.
  revert gm tape. induction n as [|n IH]; intros gm tape; simpl.
  - split; [apply keepsFixed_refl|]. split; apply Forall_nil; exact I.
  - pose proof (processGravity_spec gm tape) as (K1 & M1 & S1).
    destruct (GravitySystem.processGravity gm tape) as [[[gm1 tape1] ms1] ns1].
    simpl in K1, M1, S1.
    specialize (IH gm1 tape1).
    destruct (processGravityTimes n gm1 tape1) as [[[gm2 tape2] ms2] ns2].
    simpl in IH. destruct IH as (K2 & M2 & S2). simpl.
    assert (Hc : GridManager.characterPosition gm1 = GridManager.characterPosition gm)
      by apply K1.
    rewrite Hc in M2, S2.
    split; [eapply keepsFixed_trans; eassumption|].
    split; apply Forall_app; split; assumption.
Qed.

(** C8.  After any number of calls of processGravity, on any grid and
    whatever the random draws: the exit position and the character position
    are the same, every cell that held the exit tile or a stone blocker
    holds the very same tile, and so does the cell of the character; no
    movement of any of the calls ends in the cell of the character and no
    spawn of any of the calls is in it. *)
Theorem processGravity_fixed_cells (n : nat) (gm : GridManager.t) (tape : Tape) :
  let r := processGravityTimes n gm tape in
  let gm' := fst (fst (fst r)) in
  GridManager.exitPosition gm' = GridManager.exitPosition gm
  /\ GridManager.characterPosition gm' = GridManager.characterPosition gm
  /\ (forall x y tile,
        GridManager.getTile gm x y = Some tile ->
        Tile.isExit tile || Tile.isBlocker tile = true ->
        GridManager.getTile gm' x y = Some tile)
  /\ GridManager.getTile gm' (fst (GridManager.characterPosition gm))
       (snd (GridManager.characterPosition gm))
     = GridManager.getTile gm (fst (GridManager.characterPosition gm))
         (snd (GridManager.characterPosition gm))
  /\ Forall (fun mv => (Movement.toX mv, Movement.toY mv)
                       <> GridManager.characterPosition gm) (snd (fst r))
  /\ Forall (fun s => (Spawn.x s, Spawn.y s)
                      <> GridManager.characterPosition gm) (snd r).
Proof.
  destruct (processGravityTimes_spec n gm tape) as ([F T] & M & S).
  simpl. split; [apply F|]. split; [apply F|]. split; [|split; [|split; assumption]].
  - intros x y tile Ht Hk. rewrite T; [assumption|].
    eapply isPositionFixed_tile; eassumption.
  - apply T, isPositionFixed_character.
Qed.


(** ** createNonMatchingTile *)

Lemma cellSet_cases cells x y v :
  cellExists cells x y \/ GridManager.cellSet cells x y v = cells.
Proof.
  unfold cellExists, GridManager.cellSet.
  destruct (0 <=? x) eqn:Hx, (0 <=? y) eqn:Hy; simpl; try (right; reflexivity).
  apply Z.leb_le in Hx, Hy.
  destruct (cells !! Z.to_nat y) as [row|] eqn:Hrow.
  - destruct (decide (Z.to_nat x < List.length row)%nat) as [Hlt|Hge].
    + left. eauto 6.
    + right. apply list_eq. intros i.
      destruct (decide (i = Z.to_nat y)) as [->|Hne].
      * rewrite list_lookup_alter_eq, Hrow. simpl.
        rewrite list_insert_ge by lia. reflexivity.
      * rewrite list_lookup_alter_ne by congruence. reflexivity.
  - right. apply list_eq. intros i.
    destruct (decide (i = Z.to_nat y)) as [->|Hne].
    + rewrite list_lookup_alter_eq, Hrow. reflexivity.
    + rewrite list_lookup_alter_ne by congruence. reflexivity.
Qed.

Lemma cellAt_cellSet cells x y v x' y' :
  GridManager.cellAt (GridManager.cellSet cells x y v) x' y'
  = GridManager.cellAt cells x' y'
  \/ ((x', y') = (x, y)
      /\ GridManager.cellAt (GridManager.cellSet cells x y v) x' y' = v).
Proof.
  destruct (decide ((x', y') = (x, y))) as [[= -> ->]|Hne].
  - destruct (cellSet_cases cells x y v) as [Hex| ->]; [|left; reflexivity].
    right. split; [reflexivity|]. apply cellAt_cellSet_eq. assumption.
  - left. apply cellAt_cellSet_ne. assumption.
Qed.

Lemma removeFirst_incl s a c :
  In c (GridManager.removeFirst s a) -> In c a.
Proof.
  induction a as [|d a IH]; simpl; [tauto|].
  destruct (String.eqb d s); [tauto|]. intros [->|H]; [tauto|]. right. auto.
Qed.

Lemma removeFirst_NoDup s a :
  List.NoDup a -> List.NoDup (GridManager.removeFirst s a).
Proof.
  induction 1 as [|d a Hd Ha IH]; simpl; [constructor|].
  destruct (String.eqb d s); [assumption|].
  constructor; [|assumption]. intros H. apply Hd. eapply removeFirst_incl; eauto.
Qed.

Lemma removeFirst_not_In s a :
  List.NoDup a -> ~ In s (GridManager.removeFirst s a).
Proof.
  induction 1 as [|d a Hd Ha IH]; simpl; [tauto|].
  destruct (String.eqb d s) eqn:Heq.
  - apply String.eqb_eq in Heq. subst. assumption.
  - apply String.eqb_neq in Heq. intros [H|H]; [congruence|]. contradiction.
Qed.

Lemma removeFirst_length s a :
  (List.length a <= S (List.length (GridManager.removeFirst s a)))%nat.
Proof.
  induction a as [|d a IH]; simpl; [lia|].
  destruct (String.eqb d s); simpl; lia.
Qed.

Lemma exclude_incl c1 c2 a c : In c (GridManager.exclude c1 c2 a) -> In c a.
Proof.
  unfold GridManager.exclude. destruct c1 as [t1|], c2 as [t2|]; try tauto.
  destruct (_ && _); [apply removeFirst_incl|tauto].
Qed.

Lemma exclude_NoDup c1 c2 a :
  List.NoDup a -> List.NoDup (GridManager.exclude c1 c2 a).
Proof.
  unfold GridManager.exclude. destruct c1 as [t1|], c2 as [t2|]; try tauto.
  destruct (_ && _); [apply removeFirst_NoDup|tauto].
Qed.

Lemma exclude_length c1 c2 a :
  (List.length a <= S (List.length (GridManager.exclude c1 c2 a)))%nat.
Proof.
  unfold GridManager.exclude. destruct c1 as [t1|], c2 as [t2|]; try lia.
  destruct (_ && _); [apply removeFirst_length|lia].
Qed.

(** The colour of two equal matchable tiles is not left by the exclusion
    test, when the types it starts from are distinct. *)
Lemma exclude_not_In t1 t2 a :
  List.NoDup a -> Tile.isMatchable t1 = true -> Tile.type t1 = Tile.type t2 ->
  ~ In (Tile.type t1) (GridManager.exclude (Some t1) (Some t2) a).
Proof.
  intros Hnd Hm Hty. unfold GridManager.exclude.
  rewrite <- Hty, String.eqb_refl, Hm. simpl. apply removeFirst_not_In. assumption.
Qed.

Lemma availableTypes_incl cells x y tileTypes c :
  In c (GridManager.availableTypes cells x y tileTypes) -> In c tileTypes.
Proof.
  unfold GridManager.availableTypes. intros H.
  destruct (2 <=? y); [apply exclude_incl in H|];
    (destruct (2 <=? x); [apply exclude_incl in H|]); assumption.
Qed.

Lemma availableTypes_length cells x y tileTypes :
  (List.length tileTypes
   <= 2 + List.length (GridManager.availableTypes cells x y tileTypes))%nat.
Proof.
  unfold GridManager.availableTypes.
  set (a1 := if 2 <=? x then GridManager.exclude _ _ tileTypes else tileTypes).
  assert (H1 : (List.length tileTypes <= S (List.length a1))%nat).
  { unfold a1. destruct (2 <=? x); [apply exclude_length|lia]. }
  destruct (2 <=? y); [|lia].
  pose proof (exclude_length (GridManager.cellAt cells x (y - 1))
                (GridManager.cellAt cells x (y - 2)) a1). lia.
Qed.

Lemma availableTypes_left cells x y tileTypes t1 t2 :
  List.NoDup tileTypes ->
  GridManager.cellAt cells (x - 1) y = Some t1 ->
  GridManager.cellAt cells (x - 2) y = Some t2 ->
  Tile.isMatchable t1 = true -> Tile.type t1 = Tile.type t2 ->
  ~ In (Tile.type t1) (GridManager.availableTypes cells x y tileTypes).
Proof.
  intros Hnd H1 H2 Hm Hty. unfold GridManager.availableTypes.
  assert (Hx : (2 <=? x) = true).
  { apply Z.leb_le. apply cellAt_Some_exists in H2 as (? & _). lia. }
  rewrite Hx, H1, H2. intros Hin.
  assert (Hin' : In (Tile.type t1) (GridManager.exclude (Some t1) (Some t2) tileTypes)).
  { destruct (2 <=? y); [apply exclude_incl in Hin|]; assumption. }
  revert Hin'. apply exclude_not_In; assumption.
Qed.

Lemma availableTypes_top cells x y tileTypes t1 t2 :
  List.NoDup tileTypes ->
  GridManager.cellAt cells x (y - 1) = Some t1 ->
  GridManager.cellAt cells x (y - 2) = Some t2 ->
  Tile.isMatchable t1 = true -> Tile.type t1 = Tile.type t2 ->
  ~ In (Tile.type t1) (GridManager.availableTypes cells x y tileTypes).
Proof.
  intros Hnd H1 H2 Hm Hty. unfold GridManager.availableTypes.
  assert (Hy : (2 <=? y) = true).
  { apply Z.leb_le. apply cellAt_Some_exists in H2 as (_ & ? & _). lia. }
  rewrite Hy, H1, H2. apply exclude_not_In; try assumption.
  destruct (2 <=? x); [apply exclude_NoDup|]; assumption.
Qed.

Lemma candidateTypes_incl cells x y tileTypes c :
  In c (GridManager.candidateTypes cells x y tileTypes) -> In c tileTypes.
Proof.
  unfold GridManager.candidateTypes.
  destruct (GridManager.availableTypes cells x y tileTypes) as [|a l] eqn:Ha;
    [tauto|].
  rewrite <- Ha. apply availableTypes_incl.
Qed.

Lemma randomIndex_lt n tape :
  (0 < n)%nat -> (fst (randomIndex n tape) < n)%nat.
Proof.
  intros Hn. destruct tape as [|r tape]; simpl; [assumption|].
  apply Nat.mod_upper_bound. lia.
Qed.

(** The type of the tile of createNonMatchingTile is one of the candidate
    types (when there is any). *)
Lemma createNonMatchingTile_type cells x y tileTypes tape :
  GridManager.candidateTypes cells x y tileTypes <> [] ->
  In (Tile.type (fst (GridManager.createNonMatchingTile cells x y tileTypes tape)))
    (GridManager.candidateTypes cells x y tileTypes).
Proof.
  intros Hne. unfold GridManager.createNonMatchingTile.
  pose proof (randomIndex_lt
                (List.length (GridManager.candidateTypes cells x y tileTypes)) tape) as Hlt.
  destruct (randomIndex _ tape) as [i tape']. simpl in *.
  apply nth_In, Hlt.
  destruct (GridManager.candidateTypes cells x y tileTypes); [congruence|simpl; lia].
Qed.

(** Every candidate type is drawn by some tape. *)
Lemma createNonMatchingTile_any cells x y tileTypes c :
  In c (GridManager.candidateTypes cells x y tileTypes) ->
  exists r, forall tape,
    Tile.type (fst (GridManager.createNonMatchingTile cells x y tileTypes (r :: tape))) = c.
Proof.
  intros Hin. apply In_nth with (d := "undefined"%string) in Hin as (i & Hi & Hnth).
  exists i. intros tape. unfold GridManager.createNonMatchingTile. simpl.
  rewrite Nat.mod_small by assumption. assumption.
Qed.

(** ** The filling loops of initialize *)

Lemma fillInv_mono p p' st :
  (forall q, before q p -> before q p') -> fillInv p st -> fillInv p' st.
Proof. intros Hpp [H1 H2]. split; [|assumption]. intros x y tile Ht Hm. eauto. Qed.

Section FillCell.
Variable tileTypes : list string.
Hypothesis Hpalette : List.NoDup tileTypes.
Variable cells : list (list (option Tile.t)).
Variables x y : Z.
Variable tape : Tape.
Hypothesis Hnull : GridManager.cellAt cells x y = None.
Hypothesis Hbefore :
  forall x' y' tile,
    GridManager.cellAt cells x' y' = Some tile ->
    Tile.isMatchable tile = true -> before (x', y') (x, y).
Hypothesis Hclean : noRun3 cells.
Hypothesis Havailable : GridManager.availableTypes cells x y tileTypes <> [].

Let tile : Tile.t :=
  fst (GridManager.createNonMatchingTile cells x y tileTypes tape).
Let cells' : list (list (option Tile.t)) :=
  GridManager.cellSet cells x y (Some tile).

Lemma fill_type_available :
  In (Tile.type tile) (GridManager.availableTypes cells x y tileTypes).
Proof.
  pose proof (createNonMatchingTile_type cells x y tileTypes tape) as H.
  unfold GridManager.candidateTypes in H. fold tile in H.
  destruct (GridManager.availableTypes cells x y tileTypes) as [|a l];
    [congruence|].
  apply H. discriminate.
Qed.

Lemma fill_old x' y' ty :
  (x', y') <> (x, y) ->
  matchableCell (GridManager.cellAt cells' x' y') ty ->
  matchableCell (GridManager.cellAt cells x' y') ty /\ before (x', y') (x, y).
Proof.
  intros Hne Hm. unfold cells' in Hm.
  rewrite cellAt_cellSet_ne in Hm by assumption.
  split; [assumption|]. destruct Hm as (tl & Htl & Hmatch & _). eauto.
Qed.

Lemma fill_new ty :
  matchableCell (GridManager.cellAt cells' x y) ty -> Tile.type tile = ty.
Proof.
  intros (tl & Htl & _ & Hty). unfold cells' in Htl.
  destruct (cellAt_cellSet cells x y (Some tile) x y) as [Hold|[_ Hnew]].
  - rewrite Hold, Hnull in Htl. discriminate.
  - rewrite Hnew in Htl. congruence.
Qed.

Lemma fill_noRun3 : noRun3 cells'.
Proof.
  intros a b ty. split; intros (H0 & H1 & H2).
  - destruct (decide ((a, b) = (x, y))) as [[= Ea Eb]|N0].
    { subst a b. apply fill_old in H1 as [_ [?|[_ ?]]]; [simpl in *; lia..|].
      intros [= ?]. lia. }
    destruct (decide ((a + 1, b) = (x, y))) as [[= Ea Eb]|N1].
    { subst b. apply fill_old in H2 as [_ [?|[_ ?]]]; [simpl in *; lia..|].
      intros [= ?]. lia. }
    destruct (decide ((a + 2, b) = (x, y))) as [[= Ea Eb]|N2].
    { subst b. assert (Ea' : a = x - 2) by lia. subst a.
      replace (x - 2 + 2) with x in H2 by lia.
      replace (x - 2 + 1) with (x - 1) in H1, N1 by lia.
      apply fill_new in H2.
      apply fill_old in H0 as [(t2 & E2 & M2 & T2) _]; [|assumption].
      apply fill_old in H1 as [(t1 & E1 & M1 & T1) _]; [|assumption].
      apply (availableTypes_left cells x y tileTypes t1 t2); try assumption.
      - congruence.
      - rewrite T1, <- H2. apply fill_type_available. }
    apply fill_old in H0 as [H0 _]; [|assumption].
    apply fill_old in H1 as [H1 _]; [|assumption].
    apply fill_old in H2 as [H2 _]; [|assumption].
    apply (proj1 (Hclean a b ty)). auto.
  - destruct (decide ((a, b) = (x, y))) as [[= Ea Eb]|N0].
    { subst a b. apply fill_old in H1 as [_ [?|[? _]]]; [simpl in *; lia..|].
      intros [= ?]. lia. }
    destruct (decide ((a, b + 1) = (x, y))) as [[= Ea Eb]|N1].
    { subst a. apply fill_old in H2 as [_ [?|[? _]]]; [simpl in *; lia..|].
      intros [= ?]. lia. }
    destruct (decide ((a, b + 2) = (x, y))) as [[= Ea Eb]|N2].
    { subst a. assert (Eb' : b = y - 2) by lia. subst b.
      replace (y - 2 + 2) with y in H2 by lia.
      replace (y - 2 + 1) with (y - 1) in H1, N1 by lia.
      apply fill_new in H2.
      apply fill_old in H0 as [(t2 & E2 & M2 & T2) _]; [|assumption].
      apply fill_old in H1 as [(t1 & E1 & M1 & T1) _]; [|assumption].
      apply (availableTypes_top cells x y tileTypes t1 t2); try assumption.
      - congruence.
      - rewrite T1, <- H2. apply fill_type_available. }
    apply fill_old in H0 as [H0 _]; [|assumption].
    apply fill_old in H1 as [H1 _]; [|assumption].
    apply fill_old in H2 as [H2 _]; [|assumption].
    apply (proj2 (Hclean a b ty)). auto.
Qed.
End FillCell.

Lemma fillCell_inv tileTypes st x y :
  List.NoDup tileTypes ->
  fillInv (x, y) st ->
  fillInv (x + 1, y) (GridManager.fillCell tileTypes st (x, y)).
Proof.
  intros Hpalette Hinv.
  assert (Hnext : forall q, before q (x, y) -> before q (x + 1, y)).
  { intros q [?|[? ?]]; [left|right]; simpl in *; lia. }
  destruct st as [[cells tape] fallbacks]. unfold GridManager.fillCell.
  destruct (GridManager.cellAt cells x y) as [old|] eqn:Hold.
  { eapply fillInv_mono; eassumption. }
  destruct Hinv as [Hbefore Hclean]. simpl in Hbefore, Hclean.
  pose proof (fill_noRun3 tileTypes Hpalette cells x y tape Hold Hbefore) as Hfill.
  destruct (GridManager.createNonMatchingTile cells x y tileTypes tape)
    as [tile tape'] eqn:Hcreate.
  simpl in Hfill. split; simpl.
  - intros x' y' tl Htl Hm.
    destruct (cellAt_cellSet cells x y (Some tile) x' y') as [Hsame|[[= -> ->] _]].
    + rewrite Hsame in Htl. eauto.
    + right. simpl. lia.
  - destruct (GridManager.availableTypes cells x y tileTypes) as [|a l] eqn:Ha.
    + intros H. apply app_eq_nil in H as [_ H]. discriminate.
    + intros ->. apply Hfill; [auto|discriminate].
Qed.

Lemma fillCell_fallbacks tileTypes st p :
  (3 <= List.length tileTypes)%nat -> snd st = [] ->
  snd (GridManager.fillCell tileTypes st p) = [].
Proof.
  intros Hlen Hfb. destruct st as [[cells tape] fallbacks], p as [x y].
  simpl in Hfb. subst. unfold GridManager.fillCell.
  destruct (GridManager.cellAt cells x y); [reflexivity|].
  destruct (GridManager.createNonMatchingTile cells x y tileTypes tape).
  pose proof (availableTypes_length cells x y tileTypes) as H.
  destruct (GridManager.availableTypes cells x y tileTypes); [simpl in H; lia|].
  reflexivity.
Qed.

Lemma fill_row_inv tileTypes y (k : nat) st :
  List.NoDup tileTypes ->
  fillInv (0, y) st ->
  fillInv (Z.of_nat k, y)
    (fold_left (GridManager.fillCell tileTypes)
       (map (fun x => (x, y)) (seqZ 0 (Z.of_nat k))) st).
Proof.
  intros Hpalette H0. induction k as [|k IH].
  - simpl. assumption.
  - rewrite seqZ_S, map_app, fold_left_app. simpl.
    replace (Z.of_nat (S k)) with (Z.of_nat k + 1) by lia.
    apply fillCell_inv; assumption.
Qed.

Lemma fill_row_next tileTypes y w st :
  List.NoDup tileTypes ->
  fillInv (0, y) st ->
  fillInv (0, y + 1)
    (fold_left (GridManager.fillCell tileTypes)
       (map (fun x => (x, y)) (seqZ 0 w)) st).
Proof.
  intros Hpalette H0.
  destruct (Z_le_gt_dec w 0) as [Hw|Hw].
  - rewrite seqZ_nil by assumption. simpl.
    eapply fillInv_mono; [|eassumption].
    intros q [?|[? ?]]; left; simpl in *; lia.
  - pose proof (fill_row_inv tileTypes y (Z.to_nat w) st Hpalette H0) as H.
    rewrite Z2Nat.id in H by lia.
    eapply fillInv_mono; [|eassumption].
    intros q [?|[? ?]]; left; simpl in *; lia.
Qed.

Lemma fold_left_flat_map {A B C} (f : A -> B -> A) (g : C -> list B)
  (l : list C) (a : A) :
  fold_left f (flat_map g l) a = fold_left (fun a c => fold_left f (g c) a) l a.
Proof.
  revert a. induction l as [|c l IH]; intros a; simpl; [reflexivity|].
  rewrite fold_left_app. apply IH.
Qed.

Lemma fill_rows_inv tileTypes w (j : nat) st :
  List.NoDup tileTypes ->
  fillInv (0, 0) st ->
  fillInv (0, Z.of_nat j)
    (fold_left (GridManager.fillCell tileTypes)
       (GridManager.rowMajor w (Z.of_nat j)) st).
Proof.
  intros Hpalette H0. unfold GridManager.rowMajor. rewrite fold_left_flat_map.
  induction j as [|j IH].
  - simpl. assumption.
  - rewrite seqZ_S, fold_left_app. cbn [fold_left]. rewrite Z.add_0_l.
    replace (Z.of_nat (S j)) with (Z.of_nat j + 1) by lia.
    apply (fill_row_next tileTypes (Z.of_nat j) w _ Hpalette IH).
Qed.

Lemma fill_all_inv tileTypes w h st :
  List.NoDup tileTypes ->
  fillInv (0, 0) st ->
  exists next,
    fillInv next
      (fold_left (GridManager.fillCell tileTypes) (GridManager.rowMajor w h) st).
Proof.
  intros Hpalette H0. destruct (Z_le_gt_dec h 0) as [Hh|Hh].
  - exists (0, 0). unfold GridManager.rowMajor. rewrite (seqZ_nil 0 h) by lia.
    assumption.
  - exists (0, h). pose proof (fill_rows_inv tileTypes w (Z.to_nat h) st Hpalette H0) as H.
    rewrite Z2Nat.id in H by lia. assumption.
Qed.

Lemma fill_all_fallbacks tileTypes ps st :
  (3 <= List.length tileTypes)%nat -> snd st = [] ->
  snd (fold_left (GridManager.fillCell tileTypes) ps st) = [].
Proof.
  intros Hlen. revert st. induction ps as [|p ps IH]; intros st Hfb; simpl.
  - assumption.
  - apply IH, fillCell_fallbacks; assumption.
Qed.

(** ** The grid before the filling loops *)

Lemma cellAt_replicate (n m : nat) x y :
  GridManager.cellAt (replicate n (replicate m None)) x y = None.
Proof.
  unfold GridManager.cellAt. destruct (_ && _); [|reflexivity].
  destruct (replicate n (replicate m None) !! Z.to_nat y) as [row|] eqn:Hrow;
    [|reflexivity].
  apply lookup_replicate in Hrow as [-> _].
  destruct (replicate m None !! Z.to_nat x) as [c|] eqn:Hc; [|reflexivity].
  apply lookup_replicate in Hc as [-> _]. reflexivity.
Qed.

Lemma cellSet_not_matchable cells x y tile :
  Tile.isMatchable tile = false ->
  (forall x' y' tl, GridManager.cellAt cells x' y' = Some tl ->
                    Tile.isMatchable tl = false) ->
  forall x' y' tl,
    GridManager.cellAt (GridManager.cellSet cells x y (Some tile)) x' y' = Some tl ->
    Tile.isMatchable tl = false.
Proof.
  intros Htile Hcells x' y' tl Hget.
  destruct (cellAt_cellSet cells x y (Some tile) x' y') as [Hsame|[_ Hnew]].
  - rewrite Hsame in Hget. eauto.
  - rewrite Hnew in Hget. congruence.
Qed.

Lemma blocker_not_matchable b cells :
  In (Blocker.type b) blockerTypes ->
  (forall x' y' tl, GridManager.cellAt cells x' y' = Some tl ->
                    Tile.isMatchable tl = false) ->
  forall x' y' tl,
    GridManager.cellAt (GridManager.placeBlocker cells b) x' y' = Some tl ->
    Tile.isMatchable tl = false.
Proof.
  intros Hty. unfold GridManager.placeBlocker. apply cellSet_not_matchable.
  unfold Tile.isMatchable.
  assert (Hcol : existsb (String.eqb (Blocker.type b)) CONFIG.MATCHABLE_COLORS = false).
  { simpl in Hty. destruct Hty as [<-|[<-|[<-|[]]]]; reflexivity. }
  destruct (negb (Blocker.iceLayer b =? 0)), (Blocker.locked b);
    unfold Tile.lock, Tile.setLocked, Tile.addIce, Tile.new;
    cbn [Tile.type Tile.isLocked]; rewrite Hcol; reflexivity.
Qed.

Lemma placeBlockers_not_matchable blockers cells :
  Forall (fun b => In (Blocker.type b) blockerTypes) blockers ->
  (forall x y tl, GridManager.cellAt cells x y = Some tl ->
                  Tile.isMatchable tl = false) ->
  forall x y tl,
    GridManager.cellAt (fold_left GridManager.placeBlocker blockers cells) x y = Some tl ->
    Tile.isMatchable tl = false.
Proof.
  intros Hbl. revert cells.
  induction Hbl as [|b blockers Hb Hbl IH]; intros cells Hcells; simpl.
  - assumption.
  - apply IH. apply blocker_not_matchable; assumption.
Qed.

Lemma placeFixed_not_matchable w h blockers exitPos characterStart :
  Forall (fun b => In (Blocker.type b) blockerTypes) blockers ->
  forall x y tl,
    GridManager.cellAt (GridManager.placeFixed w h blockers exitPos characterStart) x y
    = Some tl ->
    Tile.isMatchable tl = false.
Proof.
  intros Hbl. unfold GridManager.placeFixed.
  apply cellSet_not_matchable; [reflexivity|].
  apply cellSet_not_matchable; [reflexivity|].
  apply placeBlockers_not_matchable; [assumption|].
  intros x y tl Hget. rewrite cellAt_replicate in Hget. discriminate.
Qed.

Lemma tileTypeAt_matchableCell gm x y c :
  MatchResolver.tileTypeAt gm x y = Some c ->
  matchableCell (GridManager.cellAt (GridManager.grid gm) x y) c.
Proof.
  intros H. apply tileTypeAt_Some in H as (tile & Hget & Hm & Hty).
  exists tile. split; [|auto]. unfold GridManager.getTile in Hget.
  destruct (GridManager.isValidPosition gm x y); [assumption|discriminate].
Qed.

(** A grid without three matchable tiles of one type in a line has no
    match. *)
Lemma noRun3_findAllMatches gm :
  noRun3 (GridManager.grid gm) -> MatchResolver.findAllMatches gm = [].
Proof.
  intros Hclean.
  destruct (MatchResolver.findAllMatches gm) as [|m ms] eqn:Hfind; [reflexivity|].
  exfalso.
  assert (Hin : In m (MatchResolver.findAllMatches gm)) by (rewrite Hfind; left; reflexivity).
  destruct (findAllMatches_sound _ _ Hin)
    as [(y & s & e & c & _ & _ & _ & He & _ & Hrun)
       |(x & s & e & c & _ & _ & _ & He & _ & Hrun)].
  - apply (proj1 (Hclean s y c)).
    repeat split; apply tileTypeAt_matchableCell, Hrun; lia.
  - apply (proj2 (Hclean x s c)).
    repeat split; apply tileTypeAt_matchableCell, Hrun; lia.
Qed.

(** What initialize ensures.  For every well-formed level whose palette
    names no colour twice, and every outcome of the random draws: unless
    the fallback of createNonMatchingTile was taken at some cell, the grid
    built by initialize has no match (findAllMatches finds no horizontal
    or vertical run of three or more matchable tiles of one colour); and
    the fallback is never taken when the palette has at least 3 entries. *)
Theorem initialize_no_match (w h : Z) (level : Level.t) (tape : Tape) :
  wellFormedLevel w h level ->
  List.NoDup (default CONFIG.MATCHABLE_COLORS (Level.tileTypes level)) ->
  let r := GridManager.initializeTraced w h level tape in
  fst r = GridManager.initialize w h level tape
  /\ (snd r = [] -> MatchResolver.findAllMatches (fst (fst r)) = [])
  /\ ((3 <= List.length (default CONFIG.MATCHABLE_COLORS (Level.tileTypes level)))%nat ->
      snd r = []).
Proof.
  intros (Hbl & _ & _) Hpalette. simpl. split; [reflexivity|].
  unfold GridManager.initializeTraced.
  set (tileTypes := default CONFIG.MATCHABLE_COLORS (Level.tileTypes level)) in *.
  set (cells0 := GridManager.placeFixed w h _ _ _).
  assert (H0 : fillInv (0, 0) (cells0, tape, [])).
  { assert (Hnm : forall x y tl, GridManager.cellAt cells0 x y = Some tl ->
                                 Tile.isMatchable tl = false).
    { apply placeFixed_not_matchable. eapply Forall_impl; [eassumption|].
      intros b Hb. apply Hb. }
    split; simpl.
    - intros x y tl Hget Hm. rewrite (Hnm _ _ _ Hget) in Hm. discriminate.
    - intros _ x y ty.
      split; intros ((tl & Hget & Hm & _) & _); rewrite (Hnm _ _ _ Hget) in Hm;
        discriminate. }
  destruct (fill_all_inv tileTypes w h _ Hpalette H0) as (next & _ & Hclean).
  pose proof (fill_all_fallbacks tileTypes (GridManager.rowMajor w h) (cells0, tape, []))
    as Hfb.
  destruct (fold_left (GridManager.fillCell tileTypes) (GridManager.rowMajor w h)
              (cells0, tape, [])) as [[cells tape'] fallbacks].
  simpl in *. split.
  - intros Hno. apply noRun3_findAllMatches. simpl. auto.
  - intros Hlen. apply Hfb; [assumption|reflexivity].
Qed.

Lemma NoDup_level1_palette :
  List.NoDup (default CONFIG.MATCHABLE_COLORS (Level.tileTypes level1)).
Proof.
  simpl. repeat (constructor; [simpl; intuition discriminate|]). constructor.
Defined.

Lemma wellFormed_level1 : wellFormedLevel 7 8 level1.
Proof.
  split; [apply Forall_nil; exact I|]. unfold inBounds. simpl. lia.
Defined.

Lemma initialize_no_match_witness :
  wellFormedLevel 7 8 level1
  /\ List.NoDup (default CONFIG.MATCHABLE_COLORS (Level.tileTypes level1))
  /\ MatchResolver.findAllMatches
       (fst (GridManager.initialize 7 8 level1 [0; 0; 0; 1; 2; 3; 4; 5; 6; 7]%nat))
     = [].
Proof.
  split; [exact wellFormed_level1|]. split; [exact NoDup_level1_palette|].
  destruct (initialize_no_match 7 8 level1 [0; 0; 0; 1; 2; 3; 4; 5; 6; 7]%nat
              wellFormed_level1 NoDup_level1_palette) as (Heq & Hno & Hfb).
  rewrite <- Heq. apply Hno, Hfb. simpl. lia.
Defined.

(** C9 (the code departs from it).  createNonMatchingTile is to make a
    tile that forms no immediate match, but it takes only the first
    occurrence of an excluded colour out of the palette.  For the level
    [levelRepeatedColour] of 3 x 3 cells, whose palette red, red, blue,
    green names red twice (four entries, three colours), the fallback is
    never taken, and yet with the draws 2, 3, 0, 0, 0, 2, 3 the third cell
    of the middle row is made red next to two red tiles (the types left
    for that cell, computed from the two red tiles to its left, still
    hold red): the scan of the grid built by initialize finds a run of
    three. *)
Theorem initialize_match_with_repeated_colour :
  let tape := [2; 3; 0; 0; 0; 2; 3]%nat in
  let r := GridManager.initializeTraced 3 3 levelRepeatedColour tape in
  let gm := fst (GridManager.initialize 3 3 levelRepeatedColour tape) in
  wellFormedLevel 3 3 levelRepeatedColour
  /\ (3 <= List.length (GridManager.tileTypes gm))%nat
  /\ fst r = GridManager.initialize 3 3 levelRepeatedColour tape
  /\ snd r = []
  /\ Tile.type <$> GridManager.getTile gm 0 1 = Some "red"%string
  /\ Tile.type <$> GridManager.getTile gm 1 1 = Some "red"%string
  /\ GridManager.availableTypes
       (GridManager.cellSet (GridManager.grid gm) 2 1 None) 2 1
       (GridManager.tileTypes gm)
     = ["red"; "blue"; "green"]%string
  /\ Tile.type <$> GridManager.getTile gm 2 1 = Some "red"%string
  /\ MatchResolver.findAllMatches gm = [MatchResolver.horizontalMatch 1 0 3 "red"].
Proof.
  split.
  - split; [apply Forall_nil; exact I|]. unfold inBounds. simpl. lia.
  - vm_compute. repeat split. lia.
Qed.


(** ** spawnNewTiles *)

Lemma pending_ext gm gm' x y :
  GridManager.characterPosition gm' = GridManager.characterPosition gm ->
  GridManager.getTile gm' x y = GridManager.getTile gm x y ->
  pending gm x y -> pending gm' x y.
Proof.
  intros Hc Ht [Hf He]. split.
  - rewrite (isPositionFixed_ext gm gm'); assumption.
  - rewrite (isEmpty_ext gm gm'); assumption.
Qed.

Lemma spawnedFrom_refl gm : spawnedFrom gm gm.
Proof. split; [apply sameFrame_refl|reflexivity]. Qed.

Lemma spawnAt_pending gm tape newTiles x y :
  pending gm x y ->
  GravitySystem.spawnAt (gm, tape, newTiles) (x, y)
  = (GridManager.setTile gm x y
       (fst (GridManager.createNonMatchingTile (GridManager.grid gm) x y
               (GridManager.tileTypes gm) tape)),
     snd (GridManager.createNonMatchingTile (GridManager.grid gm) x y
            (GridManager.tileTypes gm) tape),
     newTiles ++
       [{| Spawn.x := x; Spawn.y := y;
           Spawn.tile :=
             Tile.moveTo
               (fst (GridManager.createNonMatchingTile (GridManager.grid gm) x y
                       (GridManager.tileTypes gm) tape)) x y |}]).
Proof.
  intros [Hf He]. unfold GravitySystem.spawnAt. rewrite Hf, He.
  destruct (GridManager.createNonMatchingTile _ _ _ _ _). reflexivity.
Qed.

Lemma spawnAt_other gm tape newTiles p x y :
  p <> (x, y) ->
  GridManager.getTile (fst (fst (GravitySystem.spawnAt (gm, tape, newTiles) p))) x y
  = GridManager.getTile gm x y.
Proof.
  intros Hne. destruct p as [px py]. unfold GravitySystem.spawnAt.
  destruct (GravitySystem.isPositionFixed gm px py); [reflexivity|].
  destruct (GridManager.isEmpty gm px py); [|reflexivity].
  destruct (GridManager.createNonMatchingTile _ _ _ _ _). simpl.
  apply getTile_setTile_ne. congruence.
Qed.

Lemma spawnAt_spawnedFrom gm tape newTiles p :
  spawnedFrom gm (fst (fst (GravitySystem.spawnAt (gm, tape, newTiles) p))).
Proof.
  destruct p as [px py]. unfold GravitySystem.spawnAt.
  destruct (GravitySystem.isPositionFixed gm px py) eqn:Hf; [apply spawnedFrom_refl|].
  destruct (GridManager.isEmpty gm px py) eqn:He; [|apply spawnedFrom_refl].
  destruct (GridManager.createNonMatchingTile _ _ _ _ _). simpl.
  split; [apply sameFrame_setTile|].
  intros x y Hnp. apply getTile_setTile_ne. intros [= -> ->].
  apply Hnp. split; assumption.
Qed.

Lemma spawnedFrom_trans gm1 gm2 gm3 :
  spawnedFrom gm1 gm2 -> spawnedFrom gm2 gm3 -> spawnedFrom gm1 gm3.
Proof.
  intros [F1 T1] [F2 T2]. split; [eapply sameFrame_trans; eassumption|].
  intros x y Hnp. rewrite T2, T1; [reflexivity|assumption|].
  intros Hp. apply Hnp. eapply pending_ext; [| |exact Hp].
  - destruct F1 as (_ & _ & _ & _ & Hc). symmetry. exact Hc.
  - symmetry. apply T1. assumption.
Qed.

Lemma spawn_fold_other ps gm tape newTiles x y :
  ~ In (x, y) ps ->
  GridManager.getTile
    (fst (fst (fold_left GravitySystem.spawnAt ps (gm, tape, newTiles)))) x y
  = GridManager.getTile gm x y.
Proof.
  revert gm tape newTiles. induction ps as [|p ps IH]; intros gm tape newTiles Hnin.
  - reflexivity.
  - cbn [fold_left].
    pose proof (spawnAt_other gm tape newTiles p x y) as Hstep.
    destruct (GravitySystem.spawnAt (gm, tape, newTiles) p) as [[gm1 tape1] nt1].
    simpl in Hstep. rewrite IH; [apply Hstep|].
    + intros ->. apply Hnin. left. reflexivity.
    + intros H. apply Hnin. right. assumption.
Qed.

(** The tile that spawnNewTiles leaves in a cell it fills is the tile of
    createNonMatchingTile on the grid as it is when the loops reach the
    cell. *)
Lemma spawn_fold_cell ps gm tape newTiles x y :
  List.NoDup ps -> In (x, y) ps -> pending gm x y ->
  exists gmT tapeT,
    spawnedFrom gm gmT
    /\ GridManager.getTile
         (fst (fst (fold_left GravitySystem.spawnAt ps (gm, tape, newTiles)))) x y
       = Some (Tile.moveTo
                 (fst (GridManager.createNonMatchingTile (GridManager.grid gmT) x y
                         (GridManager.tileTypes gm) tapeT)) x y).
Proof.
  intros Hnd. revert gm tape newTiles.
  induction Hnd as [|p ps Hp Hnd IH]; intros gm tape newTiles Hin Hpend; [contradiction|].
  cbn [fold_left]. destruct (decide (p = (x, y))) as [->|Hne].
  - exists gm, tape. split; [apply spawnedFrom_refl|].
    rewrite (spawnAt_pending _ _ _ _ _ Hpend), spawn_fold_other by assumption.
    destruct Hpend as [_ He]. apply isEmpty_Some in He as (hole & Hhole & _).
    eapply getTile_setTile_eq; eassumption.
  - destruct Hin as [?|Hin]; [contradiction|].
    pose proof (spawnAt_other gm tape newTiles p x y Hne) as Hsame.
    pose proof (spawnAt_spawnedFrom gm tape newTiles p) as Hfrom.
    destruct (GravitySystem.spawnAt (gm, tape, newTiles) p) as [[gm1 tape1] nt1].
    simpl in Hsame, Hfrom.
    assert (Hpend1 : pending gm1 x y).
    { eapply pending_ext; [apply Hfrom|exact Hsame|exact Hpend]. }
    destruct (IH gm1 tape1 nt1 Hin Hpend1) as (gmT & tapeT & HfromT & Hget).
    exists gmT, tapeT. split; [eapply spawnedFrom_trans; eassumption|].
    destruct Hfrom as [(_ & _ & Hty & _) _]. rewrite <- Hty. exact Hget.
Qed.

Lemma In_columnMajor (w h x y : Z) :
  In (x, y) (GravitySystem.columnMajor w h) <-> 0 <= x < w /\ 0 <= y < h.
Proof.
  unfold GravitySystem.columnMajor. rewrite in_flat_map. split.
  - intros (x' & Hx & Hy). apply in_map_iff in Hy as (y' & [= <- <-] & Hy).
    apply list_elem_of_In, elem_of_seqZ in Hy, Hx. lia.
  - intros [Hx Hy]. exists x. split.
    + apply list_elem_of_In, elem_of_seqZ. lia.
    + apply in_map_iff. exists y. split; [reflexivity|].
      apply list_elem_of_In, elem_of_seqZ. lia.
Qed.

Lemma NoDup_columnMajor (w h : Z) : List.NoDup (GravitySystem.columnMajor w h).
Proof.
  unfold GravitySystem.columnMajor.
  assert (H : forall xs ys : list Z, List.NoDup xs -> List.NoDup ys ->
               List.NoDup (flat_map (fun x => map (fun y => (x, y)) ys) xs)).
  { intros xs ys Hxs Hys. induction Hxs as [|x xs Hx Hxs IH]; simpl; [constructor|].
    apply List.NoDup_app.
    - apply Finite.Injective_map_NoDup; [|assumption]. intros a b [= ->]. reflexivity.
    - assumption.
    - intros [a b] Ha Hb. apply in_map_iff in Ha as (y & [= <- <-] & _).
      apply in_flat_map in Hb as (x' & Hx' & Hb).
      apply in_map_iff in Hb as (y' & [= <- <-] & _). contradiction. }
  apply H; apply NoDup_ListNoDup, NoDup_seqZ.
Qed.

Lemma spawnNewTiles_cell gm tape x y :
  pending gm x y ->
  exists gmT tapeT,
    spawnedFrom gm gmT
    /\ GridManager.getTile (fst (fst (GravitySystem.spawnNewTiles gm tape))) x y
       = Some (Tile.moveTo
                 (fst (GridManager.createNonMatchingTile (GridManager.grid gmT) x y
                         (GridManager.tileTypes gm) tapeT)) x y).
Proof.
  intros Hpend. unfold GravitySystem.spawnNewTiles.
  apply spawn_fold_cell; [apply NoDup_columnMajor| |assumption].
  apply In_columnMajor. apply isEmpty_valid. apply Hpend.
Qed.

Lemma getTile_cellAt gm x y :
  GridManager.isValidPosition gm x y = true ->
  GridManager.getTile gm x y = GridManager.cellAt (GridManager.grid gm) x y.
Proof. intros H. unfold GridManager.getTile. rewrite H. reflexivity. Qed.

Lemma isValidPosition_sameFrame gm gm' x y :
  sameFrame gm gm' ->
  GridManager.isValidPosition gm' x y = GridManager.isValidPosition gm x y.
Proof.
  intros (Hw & Hh & _). unfold GridManager.isValidPosition. rewrite Hw, Hh. reflexivity.
Qed.

Lemma spawn_fold_spawnedFrom ps : forall gm tape newTiles,
  spawnedFrom gm (fst (fst (fold_left GravitySystem.spawnAt ps (gm, tape, newTiles)))).
Proof.
  induction ps as [|p ps IH]; intros gm tape newTiles; [apply spawnedFrom_refl|].
  cbn [fold_left].
  pose proof (spawnAt_spawnedFrom gm tape newTiles p) as Hstep.
  destruct (GravitySystem.spawnAt (gm, tape, newTiles) p) as [[gm1 tape1] nt1].
  eapply spawnedFrom_trans; [exact Hstep|apply IH].
Qed.

(** *** The state in which the loops reach a cell *)

Lemma visitedBefore_split p ps :
  In p ps -> exists after, ps = visitedBefore p ps ++ p :: after.
Proof.
  destruct p as [px py]. induction ps as [|[qx qy] ps IH]; [contradiction|].
  cbn [visitedBefore fst snd].
  destruct ((qx =? px) && (qy =? py)) eqn:E.
  - apply andb_true_iff in E as [E1 E2]. apply Z.eqb_eq in E1, E2. subst.
    intros _. exists ps. reflexivity.
  - intros [H|H].
    + injection H as -> ->. rewrite !Z.eqb_refl in E. discriminate.
    + destruct (IH H) as [after Hafter]. exists after. simpl. f_equal. exact Hafter.
Qed.

Lemma visitedBefore_not_In p ps : ~ In p (visitedBefore p ps).
Proof.
  destruct p as [px py]. induction ps as [|[qx qy] ps IH]; [tauto|].
  cbn [visitedBefore fst snd].
  destruct ((qx =? px) && (qy =? py)) eqn:E; [tauto|].
  intros [H|H]; [|tauto].
  injection H as -> ->. rewrite !Z.eqb_refl in E. discriminate.
Qed.

(** createNonMatchingTile reads one draw: the head of the tape (0 when
    the tape is used up). *)
Lemma createNonMatchingTile_replay cells x y tileTypes tape rest :
  GridManager.createNonMatchingTile cells x y tileTypes (hd 0%nat tape :: rest)
  = (fst (GridManager.createNonMatchingTile cells x y tileTypes tape), rest).
Proof.
  unfold GridManager.createNonMatchingTile.
  destruct tape as [|r tape]; cbn [hd randomIndex fst]; [|reflexivity].
  rewrite Nat.Div0.mod_0_l. reflexivity.
Qed.

Lemma spawnAt_replay gm tape newTiles p :
  exists used, forall rest,
    GravitySystem.spawnAt (gm, used ++ rest, newTiles) p
    = (fst (fst (GravitySystem.spawnAt (gm, tape, newTiles) p)),
       rest,
       snd (GravitySystem.spawnAt (gm, tape, newTiles) p))
    /\ (snd (fst (GravitySystem.spawnAt (gm, tape, newTiles) p)) = tape /\ used = []
        \/ snd (fst (GravitySystem.spawnAt (gm, tape, newTiles) p)) = tl tape
           /\ used = [hd 0%nat tape]).
Proof.
  destruct p as [x y]. unfold GravitySystem.spawnAt.
  destruct (GravitySystem.isPositionFixed gm x y);
    [exists []; intros rest; split; [reflexivity|left; split; reflexivity]|].
  destruct (GridManager.isEmpty gm x y);
    [|exists []; intros rest; split; [reflexivity|left; split; reflexivity]].
  exists [hd 0%nat tape]. intros rest. cbn [app].
  rewrite createNonMatchingTile_replay.
  destruct (GridManager.createNonMatchingTile (GridManager.grid gm) x y
              (GridManager.tileTypes gm) tape) as [tile tape1] eqn:Hc.
  cbn [fst snd]. split; [reflexivity|]. right. split; [|reflexivity].
  unfold GridManager.createNonMatchingTile in Hc.
  destruct tape as [|r tape]; cbn [randomIndex] in Hc; injection Hc as _ <-;
    reflexivity.
Qed.

(** The draws that a stretch of the loops reads can be followed by any
    other tape: the stretch leaves the same grid and records, and that
    tape. *)
Lemma spawn_fold_replay ps : forall gm tape newTiles,
  exists used, forall rest,
    fold_left GravitySystem.spawnAt ps (gm, used ++ rest, newTiles)
    = (fst (fst (fold_left GravitySystem.spawnAt ps (gm, tape, newTiles))),
       rest,
       snd (fold_left GravitySystem.spawnAt ps (gm, tape, newTiles))).
Proof.
  induction ps as [|p ps IH]; intros gm tape newTiles.
  - exists []. intros rest. reflexivity.
  - cbn [fold_left].
    destruct (spawnAt_replay gm tape newTiles p) as [used1 Hstep].
    destruct (GravitySystem.spawnAt (gm, tape, newTiles) p) as [[gm1 tape1] nt1].
    cbn [fst snd] in Hstep.
    destruct (IH gm1 tape1 nt1) as [used2 Hrest].
    exists (used1 ++ used2). intros rest.
    rewrite <- app_assoc. rewrite (proj1 (Hstep (used2 ++ rest))). apply Hrest.
Qed.

(** The tile that the loops leave in a cell they fill is the tile that
    createNonMatchingTile makes on the grid, and with the tape, that the
    loops have when they reach the cell. *)
Lemma spawn_fold_at bf after gm tape newTiles x y :
  ~ In (x, y) bf -> ~ In (x, y) after -> pending gm x y ->
  let st := fold_left GravitySystem.spawnAt bf (gm, tape, newTiles) in
  pending (fst (fst st)) x y
  /\ GridManager.getTile
       (fst (fst (fold_left GravitySystem.spawnAt (bf ++ (x, y) :: after)
                    (gm, tape, newTiles)))) x y
     = Some (Tile.moveTo
               (fst (GridManager.createNonMatchingTile
                       (GridManager.grid (fst (fst st))) x y
                       (GridManager.tileTypes gm) (snd (fst st)))) x y).
Proof.
  intros Hbf Hafter Hpend st.
  pose proof (spawn_fold_spawnedFrom bf gm tape newTiles) as [Hframe _].
  pose proof (spawn_fold_other bf gm tape newTiles x y Hbf) as Hsame.
  fold st in Hframe, Hsame.
  assert (HpendT : pending (fst (fst st)) x y).
  { eapply pending_ext; [apply Hframe|exact Hsame|exact Hpend]. }
  split; [exact HpendT|].
  rewrite fold_left_app. fold st. cbn [fold_left].
  destruct st as [[gmT tapeT] ntT]. cbn [fst snd] in *.
  rewrite (spawnAt_pending _ _ _ _ _ HpendT), spawn_fold_other by assumption.
  destruct Hframe as (_ & _ & Hty & _). rewrite Hty.
  destruct HpendT as [_ He]. apply isEmpty_Some in He as (hole & Hhole & _).
  eapply getTile_setTile_eq; eassumption.
Qed.

Lemma columnMajor_split gm x y :
  pending gm x y ->
  exists after,
    GravitySystem.columnMajor (GridManager.width gm) (GridManager.height gm)
    = visitedBefore (x, y)
        (GravitySystem.columnMajor (GridManager.width gm) (GridManager.height gm))
      ++ (x, y) :: after
    /\ ~ In (x, y) after.
Proof.
  intros Hpend.
  assert (Hin : In (x, y)
                  (GravitySystem.columnMajor (GridManager.width gm)
                     (GridManager.height gm))).
  { apply In_columnMajor, isEmpty_valid, Hpend. }
  destruct (visitedBefore_split _ _ Hin) as [after Hsplit].
  exists after. split; [exact Hsplit|].
  pose proof (NoDup_columnMajor (GridManager.width gm) (GridManager.height gm)) as Hnd.
  rewrite Hsplit in Hnd. apply List.NoDup_remove_2 in Hnd.
  intros H. apply Hnd, in_or_app. right. exact H.
Qed.

Lemma spawnNewTiles_reaching gm tape x y :
  pending gm x y ->
  let reached := reaching gm tape x y in
  spawnedFrom gm (fst (fst reached))
  /\ pending (fst (fst reached)) x y
  /\ GridManager.getTile (fst (fst (GravitySystem.spawnNewTiles gm tape))) x y
     = Some (Tile.moveTo
               (fst (GridManager.createNonMatchingTile
                       (GridManager.grid (fst (fst reached))) x y
                       (GridManager.tileTypes gm) (snd (fst reached)))) x y).
Proof.
  intros Hpend reached. subst reached. unfold reaching, GravitySystem.spawnNewTiles.
  split; [apply spawn_fold_spawnedFrom|].
  destruct (columnMajor_split gm x y Hpend) as (after & Hsplit & Hafter).
  rewrite Hsplit at 2.
  apply spawn_fold_at; [apply visitedBefore_not_In|exact Hafter|exact Hpend].
Qed.

(** Every candidate type of the cell is spawned there under some tape
    that reaches the cell on the same grid. *)
Lemma spawnNewTiles_possible gm tape x y c :
  pending gm x y ->
  In c (GridManager.candidateTypes (GridManager.grid (fst (fst (reaching gm tape x y))))
          x y (GridManager.tileTypes gm)) ->
  exists tape',
    fst (fst (reaching gm tape' x y)) = fst (fst (reaching gm tape x y))
    /\ exists tile,
         GridManager.getTile (fst (fst (GravitySystem.spawnNewTiles gm tape'))) x y
         = Some tile
         /\ Tile.type tile = c.
Proof.
  intros Hpend Hc.
  destruct (createNonMatchingTile_any _ _ _ _ _ Hc) as [r Hr].
  destruct (spawn_fold_replay
              (visitedBefore (x, y)
                 (GravitySystem.columnMajor (GridManager.width gm)
                    (GridManager.height gm))) gm tape []) as [used Hused].
  exists (used ++ [r]).
  assert (Hreach : reaching gm (used ++ [r]) x y
                   = (fst (fst (reaching gm tape x y)), [r],
                      snd (reaching gm tape x y))).
  { unfold reaching. apply Hused. }
  split; [rewrite Hreach; reflexivity|].
  destruct (spawnNewTiles_reaching gm (used ++ [r]) x y Hpend) as (_ & _ & Hget).
  rewrite Hreach in Hget. cbn [fst snd] in Hget.
  eexists. split; [exact Hget|]. exact (Hr []).
Qed.

Lemma candidateTypes_nonempty cells x y tileTypes :
  tileTypes <> [] -> GridManager.candidateTypes cells x y tileTypes <> [].
Proof.
  intros Hne. unfold GridManager.candidateTypes.
  destruct (GridManager.availableTypes cells x y tileTypes); [exact Hne|discriminate].
Qed.


Lemma NoDup_boardSpawn_palette : List.NoDup (GridManager.tileTypes boardSpawn).
Proof.
  simpl. repeat (constructor; [simpl; intuition discriminate|]). constructor.
Defined.




(** ** checkForMatchAt *)

Lemma reverse_seqZ_S (n : nat) :
  reverse (seqZ 0 (Z.of_nat (S n))) = Z.of_nat n :: reverse (seqZ 0 (Z.of_nat n)).
Proof. rewrite seqZ_S, reverse_app. reflexivity. Qed.

Lemma countRun_left f (n : nat) :
  let k := MatchResolver.countRun f (reverse (seqZ 0 (Z.of_nat n))) in
  0 <= k <= Z.of_nat n
  /\ (forall j, Z.of_nat n - k <= j < Z.of_nat n -> f j = true)
  /\ (forall l, 0 <= l <= Z.of_nat n ->
        (forall j, Z.of_nat n - l <= j < Z.of_nat n -> f j = true) -> l <= k).
Proof.
  induction n as [|n IH]; cbv zeta.
  - simpl. split; [lia|]. split; [intros; lia|intros; lia].
  - rewrite reverse_seqZ_S. cbn [MatchResolver.countRun].
    destruct IH as (Hk & Hall & Hmax).
    destruct (f (Z.of_nat n)) eqn:Hf.
    + split; [lia|]. split.
      * intros j Hj. destruct (decide (j = Z.of_nat n)) as [->|]; [assumption|].
        apply Hall. lia.
      * intros l Hl Hfl. destruct (decide (l = 0)) as [->|]; [lia|].
        assert (l - 1 <= MatchResolver.countRun f (reverse (seqZ 0 (Z.of_nat n)))); [|lia].
        apply Hmax; [lia|]. intros j Hj. apply Hfl. lia.
    + split; [lia|]. split; [intros; lia|].
      intros l Hl Hfl. destruct (decide (l = 0)) as [->|]; [lia|].
      rewrite Hfl in Hf by lia. discriminate.
Qed.

Lemma countRun_right f (n : nat) (s : Z) :
  let k := MatchResolver.countRun f (seqZ s (Z.of_nat n)) in
  0 <= k <= Z.of_nat n
  /\ (forall j, s <= j < s + k -> f j = true)
  /\ (forall l, 0 <= l <= Z.of_nat n ->
        (forall j, s <= j < s + l -> f j = true) -> l <= k).
Proof.
  revert s. induction n as [|n IH]; intros s; cbv zeta.
  - simpl. split; [lia|]. split; [intros; lia|intros; lia].
  - rewrite seqZ_cons by lia. cbn [MatchResolver.countRun].
    replace (Z.pred (Z.of_nat (S n))) with (Z.of_nat n) by lia.
    destruct (IH (Z.succ s)) as (Hk & Hall & Hmax).
    destruct (f s) eqn:Hf.
    + split; [lia|]. split.
      * intros j Hj. destruct (decide (j = s)) as [->|]; [assumption|].
        apply Hall. lia.
      * intros l Hl Hfl. destruct (decide (l = 0)) as [->|]; [lia|].
        assert (l - 1 <= MatchResolver.countRun f (seqZ (Z.succ s) (Z.of_nat n))); [|lia].
        apply Hmax; [lia|]. intros j Hj. apply Hfl. lia.
    + split; [lia|]. split; [intros; lia|].
      intros l Hl Hfl. destruct (decide (l = 0)) as [->|]; [lia|].
      rewrite Hfl in Hf by lia. discriminate.
Qed.

Section Line.
(** One axis of checkForMatchAt: [f] tells whether the cell at an index
    of the line continues the run, [x] is the index of the cell and [n]
    the length of the line. *)
Variable f : Z -> bool.
Variables x n : Z.
Hypothesis Hx : 0 <= x < n.

Lemma lineCount_run :
  3 <= lineCount f x n ->
  exists s e, s <= x < e /\ s + 3 <= e
              /\ forall j, s <= j < e -> j <> x -> f j = true.
Proof.
  unfold lineCount. intros Hc.
  pose proof (countRun_left f (Z.to_nat x)) as (Hl & Hleft & _).
  pose proof (countRun_right f (Z.to_nat (n - (x + 1))) (x + 1)) as (Hr & Hright & _).
  rewrite Z2Nat.id in Hl, Hleft, Hr, Hright by lia.
  exists (x - MatchResolver.countRun f (reverse (seqZ 0 x))),
         (x + 1 + MatchResolver.countRun f (seqZ (x + 1) (n - (x + 1)))).
  split; [lia|]. split; [lia|].
  intros j Hj Hne. destruct (Z_lt_ge_dec j x); [apply Hleft|apply Hright]; lia.
Qed.

Lemma run_lineCount s e :
  0 <= s -> e <= n -> s <= x < e ->
  (forall j, s <= j < e -> j <> x -> f j = true) ->
  e - s <= lineCount f x n.
Proof.
  intros Hs He Hse Hrun. unfold lineCount.
  pose proof (countRun_left f (Z.to_nat x)) as (_ & _ & Hleft).
  pose proof (countRun_right f (Z.to_nat (n - (x + 1))) (x + 1)) as (_ & _ & Hright).
  rewrite Z2Nat.id in Hleft, Hright by lia.
  specialize (Hleft (x - s)). specialize (Hright (e - (x + 1))).
  assert (x - s <= MatchResolver.countRun f (reverse (seqZ 0 x))).
  { apply Hleft; [lia|]. intros j Hj. apply Hrun; lia. }
  assert (e - (x + 1) <= MatchResolver.countRun f (seqZ (x + 1) (n - (x + 1)))).
  { apply Hright; [lia|]. intros j Hj. apply Hrun; lia. }
  lia.
Qed.
End Line.

Lemma tileTypeAt_valid gm x y c :
  MatchResolver.tileTypeAt gm x y = Some c ->
  0 <= x < GridManager.width gm /\ 0 <= y < GridManager.height gm.
Proof.
  intros H. apply tileTypeAt_Some in H as (tile & Ht & _).
  apply getTile_Some_In_rowMajor, In_rowMajor in Ht. assumption.
Qed.

Lemma same_tileTypeAt gm tile x y :
  Tile.isMatchable tile = true ->
  match GridManager.getTile gm x y with
  | Some t' => String.eqb (Tile.type t') (Tile.type tile) && Tile.isMatchable t'
  | None => false
  end = true
  <-> MatchResolver.tileTypeAt gm x y = Some (Tile.type tile).
Proof.
  intros Hm. unfold MatchResolver.tileTypeAt.
  destruct (GridManager.getTile gm x y) as [t'|]; [|split; discriminate].
  rewrite andb_true_iff, String.eqb_eq.
  destruct (Tile.isMatchable t'); split; try (intros [? ?]; congruence);
    try discriminate; intros [= ?]; auto.
Qed.

(** checkForMatchAt holds exactly for the cells with a run of length >= 3
    through them. *)
Lemma checkForMatchAt_runAt gm x y :
  MatchResolver.checkForMatchAt gm x y = true <-> runAt gm x y.
Proof.
  unfold MatchResolver.checkForMatchAt, runAt.
  destruct (GridManager.getTile gm x y) as [tile|] eqn:Htile.
  2:{ split; [discriminate|]. intros (c & Hc & _).
      unfold MatchResolver.tileTypeAt in Hc. rewrite Htile in Hc. discriminate. }
  destruct (Tile.isMatchable tile) eqn:Hm; cbn [negb].
  2:{ split; [discriminate|]. intros (c & Hc & _).
      unfold MatchResolver.tileTypeAt in Hc. rewrite Htile, Hm in Hc. discriminate. }
  assert (Hc : MatchResolver.tileTypeAt gm x y = Some (Tile.type tile)).
  { unfold MatchResolver.tileTypeAt. rewrite Htile, Hm. reflexivity. }
  destruct (tileTypeAt_valid _ _ _ _ Hc) as [Hx Hy].
  set (fh := fun i => match GridManager.getTile gm i y with
                      | Some t' => String.eqb (Tile.type t') (Tile.type tile)
                                   && Tile.isMatchable t'
                      | None => false end).
  set (fv := fun j => match GridManager.getTile gm x j with
                      | Some t' => String.eqb (Tile.type t') (Tile.type tile)
                                   && Tile.isMatchable t'
                      | None => false end).
  change (1 + MatchResolver.countRun fh (reverse (seqZ 0 x))
          + MatchResolver.countRun fh (seqZ (x + 1) (GridManager.width gm - (x + 1))))
    with (lineCount fh x (GridManager.width gm)).
  change (1 + MatchResolver.countRun fv (reverse (seqZ 0 y))
          + MatchResolver.countRun fv (seqZ (y + 1) (GridManager.height gm - (y + 1))))
    with (lineCount fv y (GridManager.height gm)).
  unfold CONFIG.MATCH.MIN_MATCH.
  assert (Hfh : forall i, fh i = true
                          <-> MatchResolver.tileTypeAt gm i y = Some (Tile.type tile)).
  { intros i. apply same_tileTypeAt. assumption. }
  assert (Hfv : forall j, fv j = true
                          <-> MatchResolver.tileTypeAt gm x j = Some (Tile.type tile)).
  { intros j. apply same_tileTypeAt. assumption. }
  split.
  - intros Hcheck. exists (Tile.type tile). split; [assumption|].
    destruct (3 <=? lineCount fh x (GridManager.width gm)) eqn:Hh.
    + left. apply Z.leb_le in Hh.
      destruct (lineCount_run fh x (GridManager.width gm) Hx Hh) as (s & e & ? & ? & Hrun).
      exists s, e. split; [assumption|]. split; [assumption|].
      intros j Hj. destruct (decide (j = x)) as [->|]; [assumption|].
      apply Hfh, Hrun; assumption.
    + right. apply Z.leb_le in Hcheck.
      destruct (lineCount_run fv y (GridManager.height gm) Hy Hcheck) as (s & e & ? & ? & Hrun).
      exists s, e. split; [assumption|]. split; [assumption|].
      intros j Hj. destruct (decide (j = y)) as [->|]; [assumption|].
      apply Hfv, Hrun; assumption.
  - intros (c & Hc' & Hrun). rewrite Hc in Hc'. injection Hc' as <-.
    destruct (3 <=? lineCount fh x (GridManager.width gm)) eqn:Hh; [reflexivity|].
    apply Z.leb_gt in Hh. apply Z.leb_le.
    destruct Hrun as [(s & e & Hse & Hlen & Hrun)|(s & e & Hse & Hlen & Hrun)].
    + exfalso.
      assert (e - s <= lineCount fh x (GridManager.width gm)); [|lia].
      apply run_lineCount; try assumption.
      * destruct (tileTypeAt_valid gm s y _ (Hrun s ltac:(lia))). lia.
      * destruct (tileTypeAt_valid gm (e - 1) y _ (Hrun (e - 1) ltac:(lia))). lia.
      * intros j Hj _. apply Hfh, Hrun. assumption.
    + assert (e - s <= lineCount fv y (GridManager.height gm)); [|lia].
      apply run_lineCount; try assumption.
      * destruct (tileTypeAt_valid gm x s _ (Hrun s ltac:(lia))). lia.
      * destruct (tileTypeAt_valid gm x (e - 1) _ (Hrun (e - 1) ltac:(lia))). lia.
      * intros j Hj _. apply Hfv, Hrun. assumption.
Qed.


(** ** Swapping back *)

Lemma moveTo_home tile x y :
  Tile.x tile = x -> Tile.y tile = y -> Tile.moveTo tile x y = tile.
Proof. destruct tile. simpl. intros -> ->. reflexivity. Qed.

Lemma moveTo_moveTo tile x y x' y' :
  Tile.moveTo (Tile.moveTo tile x y) x' y' = Tile.moveTo tile x' y'.
Proof. reflexivity. Qed.

Lemma areAdjacent_distinct x1 y1 x2 y2 :
  GridManager.areAdjacent x1 y1 x2 y2 = true -> (x1, y1) <> (x2, y2).
Proof.
  unfold GridManager.areAdjacent. intros H [= -> ->].
  rewrite !Z.sub_diag in H. simpl in H. discriminate.
Qed.

Lemma swap_cells gm x1 y1 x2 y2 :
  (x1, y1) <> (x2, y2) ->
  cellExists (GridManager.grid gm) x1 y1 ->
  cellExists (GridManager.grid gm) x2 y2 ->
  let cells' := GridManager.grid (GridManager.swap gm x1 y1 x2 y2) in
  GridManager.cellAt cells' x1 y1
  = option_map (fun tl => Tile.moveTo tl x1 y1)
      (GridManager.cellAt (GridManager.grid gm) x2 y2)
  /\ GridManager.cellAt cells' x2 y2
     = option_map (fun tl => Tile.moveTo tl x2 y2)
         (GridManager.cellAt (GridManager.grid gm) x1 y1)
  /\ (forall x y, (x, y) <> (x1, y1) -> (x, y) <> (x2, y2) ->
        GridManager.cellAt cells' x y = GridManager.cellAt (GridManager.grid gm) x y)
  /\ cellExists cells' x1 y1 /\ cellExists cells' x2 y2.
Proof.
  intros Hne E1 E2. unfold GridManager.swap. simpl.
  split; [|split; [|split; [|split]]].
  - rewrite cellAt_cellSet_ne by assumption. apply cellAt_cellSet_eq. assumption.
  - apply cellAt_cellSet_eq. apply cellExists_cellSet. assumption.
  - intros x y N1 N2. rewrite !cellAt_cellSet_ne by assumption. reflexivity.
  - apply cellExists_cellSet, cellExists_cellSet. assumption.
  - apply cellExists_cellSet, cellExists_cellSet. assumption.
Qed.

(** Two swaps of the same two distinct cells restore every cell. *)
Lemma swap_swap gm x1 y1 x2 y2 :
  (x1, y1) <> (x2, y2) ->
  cellExists (GridManager.grid gm) x1 y1 ->
  cellExists (GridManager.grid gm) x2 y2 ->
  atHome gm x1 y1 -> atHome gm x2 y2 ->
  forall x y,
    GridManager.cellAt
      (GridManager.grid
         (GridManager.swap (GridManager.swap gm x1 y1 x2 y2) x1 y1 x2 y2)) x y
    = GridManager.cellAt (GridManager.grid gm) x y.
Proof.
  intros Hne E1 E2 A1 A2 x y.
  destruct (swap_cells gm x1 y1 x2 y2 Hne E1 E2) as (F1 & F2 & Fo & E1' & E2').
  destruct (swap_cells (GridManager.swap gm x1 y1 x2 y2) x1 y1 x2 y2 Hne E1' E2')
    as (S1 & S2 & So & _).
  simpl in *.
  destruct (decide ((x, y) = (x1, y1))) as [[= -> ->]|N1].
  - rewrite S1, F2.
    destruct (GridManager.cellAt (GridManager.grid gm) x1 y1) as [tile|] eqn:Ht;
      [|reflexivity].
    simpl. rewrite moveTo_moveTo. f_equal. apply moveTo_home; apply (A1 tile Ht).
  - destruct (decide ((x, y) = (x2, y2))) as [[= -> ->]|N2].
    + rewrite S2, F1.
      destruct (GridManager.cellAt (GridManager.grid gm) x2 y2) as [tile|] eqn:Ht;
        [|reflexivity].
      simpl. rewrite moveTo_moveTo. f_equal. apply moveTo_home; apply (A2 tile Ht).
    + rewrite So, Fo by assumption. reflexivity.
Qed.

Lemma sameFrame_swap gm x1 y1 x2 y2 : sameFrame gm (GridManager.swap gm x1 y1 x2 y2).
Proof. repeat split. Qed.

(** C2.  A swap of two adjacent cells of the grid after which neither cell
    lies on a run of length >= 3 is taken back and costs no move: handleSwap
    returns, the moves remaining are the same, the frame of the grid is the
    same and every cell holds the tile it held before; the character is
    where it was and the random tape is untouched. *)
Theorem invalid_swap_is_reverted (fuel : nat) (g : Game.t) (x1 y1 x2 y2 : Z)
  (tape : Tape) :
  let gm := Game.gridManager g in
  GridManager.isValidPosition gm x1 y1 = true ->
  GridManager.isValidPosition gm x2 y2 = true ->
  cellExists (GridManager.grid gm) x1 y1 ->
  cellExists (GridManager.grid gm) x2 y2 ->
  atHome gm x1 y1 -> atHome gm x2 y2 ->
  GridManager.areAdjacent x1 y1 x2 y2 = true ->
  ~ runAt (GridManager.swap gm x1 y1 x2 y2) x1 y1 ->
  ~ runAt (GridManager.swap gm x1 y1 x2 y2) x2 y2 ->
  exists g',
    Game.handleSwap fuel g x1 y1 x2 y2 tape = Some (g', tape)
    /\ LevelManager.movesRemaining (Game.levelManager g')
       = LevelManager.movesRemaining (Game.levelManager g)
    /\ sameFrame gm (Game.gridManager g')
    /\ (forall x y,
          GridManager.cellAt (GridManager.grid (Game.gridManager g')) x y
          = GridManager.cellAt (GridManager.grid gm) x y)
    /\ (forall x y,
          GridManager.getTile (Game.gridManager g') x y = GridManager.getTile gm x y)
    /\ Game.characterController g' = Game.characterController g.
Proof.
  intros gm V1 V2 E1 E2 A1 A2 Hadj Hno1 Hno2.
  pose proof (areAdjacent_distinct _ _ _ _ Hadj) as Hne.
  assert (Hno : MatchResolver.checkSwapForMatches
                  (GridManager.swap gm x1 y1 x2 y2) x1 y1 x2 y2 = false).
  { unfold MatchResolver.checkSwapForMatches. apply orb_false_iff.
    split; apply not_true_is_false; intros H; apply checkForMatchAt_runAt in H;
      contradiction. }
  unfold Game.handleSwap.
  destruct (Game.isProcessing g || LevelManager.isGameOver (Game.levelManager g)).
  - exists g. split; [reflexivity|]. split; [reflexivity|].
    split; [apply sameFrame_refl|]. auto.
  - cbn [Game.gridManager Game.setGridManager Game.emit Game.setState
           Game.setProcessing].
    fold gm. rewrite Hno.
    eexists. split; [reflexivity|]. split; [reflexivity|].
    cbn [Game.gridManager Game.setGridManager Game.emit Game.setState
           Game.setProcessing Game.characterController].
    pose proof (swap_swap gm x1 y1 x2 y2 Hne E1 E2 A1 A2) as Hcells.
    split; [repeat split|]. split; [exact Hcells|]. split; [|reflexivity].
    intros x y. unfold GridManager.getTile.
    rewrite Hcells. reflexivity.
Qed.

Lemma invalid_swap_is_reverted_witness :
  exists g',
    Game.handleSwap 5 (gameOn boardSwap (2, 2) 0 3) 0 0 1 0 [0; 0; 1]%nat
    = Some (g', [0; 0; 1]%nat)
    /\ LevelManager.movesRemaining (Game.levelManager g') = 3
    /\ Game.gridManager g' = boardSwap.
Proof.
  assert (E : forall x, 0 <= x < 5 -> cellExists (GridManager.grid boardSwap) x 0).
  { intros x Hx. split; [lia|]. split; [lia|]. eexists. split; [reflexivity|].
    simpl. lia. }
  assert (A : forall x, atHome boardSwap x 0).
  { intros x tile. unfold GridManager.cellAt. simpl.
    destruct (0 <=? x) eqn:Hx; [|discriminate]. simpl. apply Z.leb_le in Hx.
    destruct (Z.to_nat x) as [|[|[|[|[|n]]]]] eqn:Hn; simpl; try discriminate;
      intros [= <-]; simpl; lia. }
  assert (N : forall x, 0 <= x < 2 ->
                ~ runAt (GridManager.swap boardSwap 0 0 1 0) x 0).
  { intros x Hx H. apply checkForMatchAt_runAt in H.
    assert (Hcase : x = 0 \/ x = 1) by lia.
    destruct Hcase as [-> | ->]; vm_compute in H; discriminate H. }
  destruct (invalid_swap_is_reverted 5 (gameOn boardSwap (2, 2) 0 3) 0 0 1 0
              [0; 0; 1]%nat eq_refl eq_refl (E 0 ltac:(lia)) (E 1 ltac:(lia))
              (A 0) (A 1) eq_refl (N 0 ltac:(lia)) (N 1 ltac:(lia)))
    as (g' & Hswap & Hmoves & _).
  exists g'. split; [exact Hswap|]. split; [exact Hmoves|].
  assert (Hsome : Some (g', [0; 0; 1]%nat)
                  = Game.handleSwap 5 (gameOn boardSwap (2, 2) 0 3) 0 0 1 0 [0; 0; 1]%nat)
    by (symmetry; exact Hswap).
  vm_compute in Hsome. injection Hsome as ->. reflexivity.
Defined.

(** ** The last move *)

(** The move that brings the budget to zero makes useMove trigger the
    lose condition at once. *)
Lemma useMove_last_move lm :
  LevelManager.movesRemaining lm = 1 ->
  LevelManager.isWin (LevelManager.gameState lm) = false ->
  LevelManager.useMove lm
  = (LevelManager.setState (LevelManager.setMovesRemaining lm 0) CONFIG.LOSE,
     false,
     [MovesChanged 0 (LevelManager.maxMoves lm);
      OnLose (LevelManager.currentLevelIndex lm + 1)]).
Proof.
  intros Hmoves Hwin. unfold LevelManager.useMove. rewrite Hmoves. simpl.
  rewrite Hwin. reflexivity.
Qed.

Lemma processCascades_events fuel g tape g' tape' :
  Game.processCascades fuel g tape = Some (g', tape') ->
  exists rest, Game.events g' = Game.events g ++ rest.
Proof.
  revert g tape. induction fuel as [|fuel IH]; intros g tape; simpl; [discriminate|].
  destruct (MatchResolver.findAllMatches (Game.gridManager g)) as [|m ms].
  - intros [= <- <-]. exists []. simpl. rewrite app_nil_r. reflexivity.
  - destruct (Game.clearMatches (Game.gridManager g) (m :: ms)) as [gm cleared].
    simpl.
    destruct (GravitySystem.processGravity gm tape) as [[[gm' tape1] ms'] newTiles].
    intros H. apply IH in H as (rest & ->).
    destruct newTiles; simpl; rewrite <- ?app_assoc; eexists; reflexivity.
Qed.

Lemma moveCharacter_events g :
  exists rest, Game.events (Game.moveCharacter g) = Game.events g ++ rest.
Proof.
  unfold Game.moveCharacter.
  destruct (CharacterController.moveToHighestEmpty _ _) as [[cc gm] movements].
  destruct movements; simpl; eexists; [rewrite app_nil_r|]; reflexivity.
Qed.

(** On every last move that is a productive swap, the lose callback is
    called right after the move is counted, before anything of the cascade,
    of the advance of the character and of the escape test. *)
Lemma handleSwap_last_move fuel g x1 y1 x2 y2 tape g' tape' :
  Game.isProcessing g = false ->
  LevelManager.isGameOver (Game.levelManager g) = false ->
  LevelManager.movesRemaining (Game.levelManager g) = 1 ->
  MatchResolver.checkSwapForMatches
    (GridManager.swap (Game.gridManager g) x1 y1 x2 y2) x1 y1 x2 y2 = true ->
  Game.handleSwap fuel g x1 y1 x2 y2 tape = Some (g', tape') ->
  exists rest,
    Game.events g'
    = Game.events g
      ++ [AnimateSwap (x1, y1) (x2, y2);
          MovesChanged 0 (LevelManager.maxMoves (Game.levelManager g));
          OnLose (LevelManager.currentLevelIndex (Game.levelManager g) + 1)]
      ++ rest.
Proof.
  intros Hproc Hover Hmoves Hmatch. unfold Game.handleSwap.
  rewrite Hproc, Hover.
  cbn [orb Game.gridManager Game.setGridManager Game.emit Game.setState
         Game.setProcessing Game.levelManager].
  rewrite Hmatch.
  assert (Hwin : LevelManager.isWin
                   (LevelManager.gameState
                      (LevelManager.setState (Game.levelManager g) CONFIG.SWAPPING))
                 = false) by reflexivity.
  rewrite (useMove_last_move
             (LevelManager.setState (Game.levelManager g) CONFIG.SWAPPING) Hmoves Hwin).
  cbn [Game.emit Game.setLevelManager Game.gridManager Game.characterController
         Game.levelManager Game.isProcessing Game.events].
  destruct (Game.processCascades fuel _ tape) as [[g1 tape1]|] eqn:Hcasc; [|discriminate].
  apply processCascades_events in Hcasc as (rest1 & Hev1).
  cbn [Game.events] in Hev1.
  destruct (moveCharacter_events g1) as (rest2 & Hev2).
  intros [= <- <-].
  cbn [Game.events Game.emit Game.setLevelManager Game.setGridManager
         Game.setState Game.setProcessing LevelManager.maxMoves
         LevelManager.currentLevelIndex LevelManager.setState] in Hev1.
  unfold LevelManager.triggerWin, LevelManager.triggerLose.
  destruct (CharacterController.hasEscaped
              (Game.characterController (Game.moveCharacter g1)));
    [|destruct (LevelManager.getMovesRemaining _ <=? 0)];
    cbn [Game.events Game.setProcessing Game.setState Game.emit Game.setLevelManager];
    rewrite Hev2, Hev1, <- !app_assoc; cbn [app]; eexists;
    repeat f_equal; try reflexivity.
Qed.

(** C1 (the code departs from it).  On [boardSwap] with one move left, the
    swap of (2, 1) and (3, 1) is productive; handleSwap calls the lose
    callback as soon as the move is counted, before the cascade is
    animated, and calls it again after the escape test. *)
Theorem last_move_loses_before_cascade :
  let g := gameOn boardSwap (2, 2) 0 1 in
  MatchResolver.checkSwapForMatches
    (GridManager.swap (Game.gridManager g) 2 1 3 1) 2 1 3 1 = true
  /\ exists g',
       Game.handleSwap 5 g 2 1 3 1 [0; 0; 1]%nat = Some (g', [])
       /\ Game.events g'
          = [AnimateSwap (2, 1) (3, 1); MovesChanged 0 25; OnLose 1;
             AnimateMatch [(0, 1); (1, 1); (2, 1)];
             AnimateSpawn [(0, 0); (1, 0); (2, 1)]; CascadeDelay; OnLose 1]
       /\ CharacterController.hasEscaped (Game.characterController g') = false
       /\ LevelManager.gameState (Game.levelManager g') = CONFIG.IDLE.
Proof.
  split; [reflexivity|]. eexists. split; [vm_compute; reflexivity|].
  split; [reflexivity|]. split; reflexivity.
Qed.

(** With the character right below the exit, the last move wins the level
    and the lose callback is still called, before the win callback. *)
Lemma last_move_loses_then_wins :
  let g := gameOn boardLastStep (2, 1) 0 1 in
  exists g',
    Game.handleSwap 5 g 2 2 3 2 [0; 0; 1]%nat = Some (g', [])
    /\ Game.events g'
       = [AnimateSwap (2, 2) (3, 2); MovesChanged 0 25; OnLose 1;
          AnimateMatch [(0, 2); (1, 2); (2, 2)];
          AnimateSpawn [(0, 0); (1, 0); (2, 2)]; CascadeDelay;
          CharacterMoveDelay; OnWin 1 25 0]
    /\ CharacterController.hasEscaped (Game.characterController g') = true.
Proof.
  eexists. split; [vm_compute; reflexivity|]. split; reflexivity.
Qed.

(** ** Special tiles in the cascade *)

Lemma processTile_cleared st pos p :
  In p (MatchResolver.clearedPositions (MatchResolver.processTile st pos)) ->
  In p (MatchResolver.clearedPositions st) \/ p = pos.
Proof.
  unfold MatchResolver.processTile.
  destruct (pos_mem pos (MatchResolver.processed st)); [auto|].
  destruct (GridManager.getTile _ _ _); [|auto].
  destruct (_ && _); simpl; [auto|].
  rewrite in_app_iff. simpl. intuition.
Qed.

Lemma processTiles_cleared l st p :
  In p (MatchResolver.clearedPositions (fold_left MatchResolver.processTile l st)) ->
  In p (MatchResolver.clearedPositions st) \/ In p l.
Proof.
  revert st. induction l as [|pos l IH]; intros st H; simpl in *; [auto|].
  apply IH in H as [H|H]; [|auto].
  apply processTile_cleared in H as [H|H]; auto.
Qed.

(** processMatches clears matched cells only: no cell is cleared for being
    in the area of effect of a special tile. *)
Lemma processMatches_cleared gm ms p :
  In p (snd (fst (MatchResolver.processMatches gm ms))) ->
  exists m, In m ms /\ In p (MatchObj.tiles m).
Proof.
  unfold MatchResolver.processMatches.
  set (st0 := {| MatchResolver.gridManager := gm; MatchResolver.processed := [];
                 MatchResolver.clearedPositions := [] |}).
  assert (H : forall ms st sp,
             In p (MatchResolver.clearedPositions
                     (fst (fold_left MatchResolver.processMatch ms (st, sp)))) ->
             In p (MatchResolver.clearedPositions st)
             \/ exists m, In m ms /\ In p (MatchObj.tiles m)).
  { clear. induction ms as [|m ms IH]; intros st sp Hin; simpl in *; [auto|].
    unfold MatchResolver.processMatch at 2 in Hin. simpl in Hin.
    apply IH in Hin as [Hin|(m' & Hm' & Hp)]; [|eauto].
    apply processTiles_cleared in Hin as [Hin|Hin]; eauto. }
  specialize (H ms st0 []).
  destruct (fold_left MatchResolver.processMatch ms (st0, [])) as [st sp].
  simpl in *. intros Hin. destruct (H Hin) as [[]|Hm]. exact Hm.
Qed.

(** C4 (the code departs from it).  On [boardSpecial] the tile of (1, 1)
    carries the line-v power and is part of the run of three red tiles of
    the middle row.  Its area of effect is the column (1, 0), (1, 1),
    (1, 2), but the round clears the three cells of the run only: the
    cells (1, 0) and (1, 2) keep their tiles.  And the area of effect
    computed for a special in the column of the character contains the
    cell of the character. *)
Theorem special_tile_is_not_activated :
  let gm := boardSpecial in
  let ms := MatchResolver.findAllMatches gm in
  let r := Game.clearMatches gm ms in
  (Tile.specialType <$> GridManager.getTile gm 1 1) = Some (Some CONFIG.LINE_V)
  /\ ms = [MatchResolver.horizontalMatch 1 0 3 "red"]
  /\ MatchResolver.getSpecialTileAffectedPositions gm 1 1 CONFIG.LINE_V
     = [(1, 0); (1, 1); (1, 2)]
  /\ snd r = [(0, 1); (1, 1); (2, 1)]
  /\ (Tile.type <$> GridManager.getTile (fst r) 1 0) = Some "green"%string
  /\ (Tile.type <$> GridManager.getTile (fst r) 1 2) = Some "blue"%string
  /\ In (GridManager.characterPosition boardRun3)
       (MatchResolver.getSpecialTileAffectedPositions boardRun3 2 1 CONFIG.LINE_V).
Proof.
  repeat split; try reflexivity. right. left. reflexivity.
Qed.


(** ** The exit of an initialised grid *)

Lemma cellExists_replicate (w h x y : Z) :
  0 <= x < w -> 0 <= y < h ->
  cellExists (replicate (Z.to_nat h) (replicate (Z.to_nat w) None)) x y.
Proof.
  intros Hx Hy. split; [lia|]. split; [lia|].
  exists (replicate (Z.to_nat w) None). split.
  - apply lookup_replicate_2. lia.
  - rewrite length_replicate. lia.
Qed.

Lemma cellExists_placeBlockers blockers cells x y :
  cellExists cells x y ->
  cellExists (fold_left GridManager.placeBlocker blockers cells) x y.
Proof.
  revert cells. induction blockers as [|b blockers IH]; intros cells H; simpl.
  - assumption.
  - apply IH. unfold GridManager.placeBlocker. apply cellExists_cellSet. assumption.
Qed.

Lemma fillCell_keeps tileTypes st p x y tile :
  GridManager.cellAt (fst (fst st)) x y = Some tile ->
  GridManager.cellAt (fst (fst (GridManager.fillCell tileTypes st p))) x y = Some tile.
Proof.
  destruct st as [[cells tape] fallbacks], p as [px py]. simpl. intros Hget.
  destruct (GridManager.cellAt cells px py) as [old|] eqn:Hold; [assumption|].
  destruct (GridManager.createNonMatchingTile cells px py tileTypes tape). simpl.
  rewrite cellAt_cellSet_ne; [assumption|]. intros [= -> ->]. congruence.
Qed.

Lemma fill_keeps tileTypes ps st x y tile :
  GridManager.cellAt (fst (fst st)) x y = Some tile ->
  GridManager.cellAt
    (fst (fst (fold_left (GridManager.fillCell tileTypes) ps st))) x y = Some tile.
Proof.
  revert st. induction ps as [|p ps IH]; intros st H; simpl.
  - assumption.
  - apply IH, fillCell_keeps, H.
Qed.

(** After initialize the exit cell holds the exit tile (when the character
    does not start on it). *)
Lemma initialize_exit_tile w h level tape :
  wellFormedLevel w h level ->
  default (w / 2, 0) (Level.exitPosition level)
  <> default (w / 2, h - 1) (Level.characterStart level) ->
  let gm := fst (GridManager.initialize w h level tape) in
  GridManager.getTile gm (fst (GridManager.exitPosition gm))
    (snd (GridManager.exitPosition gm))
  = Some (Tile.new CONFIG.TILE_TYPES.EXIT (fst (GridManager.exitPosition gm))
            (snd (GridManager.exitPosition gm))).
Proof.
  intros (_ & [Hex Hey] & _) Hne.
  unfold GridManager.initialize, GridManager.initializeTraced.
  set (exitPos := default (w / 2, 0) (Level.exitPosition level)) in *.
  set (start := default (w / 2, h - 1) (Level.characterStart level)) in *.
  set (cells0 := GridManager.placeFixed w h _ exitPos start).
  assert (H0 : GridManager.cellAt cells0 (fst exitPos) (snd exitPos)
               = Some (Tile.new CONFIG.TILE_TYPES.EXIT (fst exitPos) (snd exitPos))).
  { unfold cells0, GridManager.placeFixed.
    rewrite cellAt_cellSet_ne by (destruct exitPos, start; assumption).
    apply cellAt_cellSet_eq, cellExists_placeBlockers, cellExists_replicate;
      assumption. }
  pose proof (fill_keeps (default CONFIG.MATCHABLE_COLORS (Level.tileTypes level))
                (GridManager.rowMajor w h) (cells0, tape, []) _ _ _ H0) as Hkeep.
  destruct (fold_left _ (GridManager.rowMajor w h) (cells0, tape, []))
    as [[cells tape'] fallbacks].
  simpl in *. unfold GridManager.getTile, GridManager.isValidPosition. simpl.
  replace ((0 <=? fst exitPos) && (fst exitPos <? w) && (0 <=? snd exitPos)
           && (snd exitPos <? h)) with true; [assumption|].
  symmetry. rewrite !andb_true_iff, !Z.leb_le, !Z.ltb_lt. lia.
Qed.

(** On an initialised grid, any number of calls of processGravity leave the
    exit tile in the exit cell. *)
Lemma processGravity_keeps_exit n w h level tape tape' :
  wellFormedLevel w h level ->
  default (w / 2, 0) (Level.exitPosition level)
  <> default (w / 2, h - 1) (Level.characterStart level) ->
  let gm := fst (GridManager.initialize w h level tape) in
  let gm' := fst (fst (fst (processGravityTimes n gm tape'))) in
  GridManager.exitPosition gm' = GridManager.exitPosition gm
  /\ GridManager.getTile gm' (fst (GridManager.exitPosition gm))
       (snd (GridManager.exitPosition gm))
     = Some (Tile.new CONFIG.TILE_TYPES.EXIT (fst (GridManager.exitPosition gm))
               (snd (GridManager.exitPosition gm))).
Proof.
  intros Hwf Hne gm gm'.
  pose proof (initialize_exit_tile w h level tape Hwf Hne) as Hexit.
  destruct (processGravityTimes_spec n gm tape') as ([F T] & _).
  split; [apply F|]. fold gm in Hexit. unfold gm'. rewrite T; [assumption|].
  eapply isPositionFixed_tile; [exact Hexit|reflexivity].
Qed.

(** ** moveToHighestEmpty *)

Lemma tryMoveUp_row cc gm cc' gm' step c :
  CharacterController.tryMoveUp cc gm = (cc', gm', Some step) ->
  CharacterController.character cc = Some c ->
  0 < Character.y c
  /\ exists c', CharacterController.character cc' = Some c'
                /\ Character.y c' = Character.y c - 1.
Proof.
  unfold CharacterController.tryMoveUp. intros H Hc. rewrite Hc in H.
  destruct (Character.isMoving c); [discriminate|].
  unfold Character.getPosition in H.
  destruct (Character.y c <=? 0) eqn:Hy; [discriminate|].
  apply Z.leb_gt in Hy.
  destruct (match GridManager.getTile gm (Character.x c) (Character.y c - 1) with
            | Some tileAbove => Tile.isEmpty tileAbove || Tile.isExit tileAbove
            | None => false end); [|discriminate].
  injection H as <- _ _. split; [assumption|]. eexists. split; reflexivity.
Qed.

Lemma tryMoveUp_no_character cc gm :
  CharacterController.character cc = None ->
  CharacterController.tryMoveUp cc gm = (cc, gm, None).
Proof. intros H. unfold CharacterController.tryMoveUp. rewrite H. reflexivity. Qed.

(** The bound on the steps of moveToHighestEmpty is never what stops the
    loop: with any larger bound the result is the same. *)
Lemma climb_fuel fuel fuel' cc gm movements :
  (match CharacterController.character cc with
   | Some c => Z.to_nat (Character.y c)
   | None => O
   end < fuel)%nat ->
  (fuel <= fuel')%nat ->
  CharacterController.climb fuel' cc gm movements
  = CharacterController.climb fuel cc gm movements.
Proof.
  revert fuel' cc gm movements.
  induction fuel as [|fuel IH]; intros fuel' cc gm movements Hrows Hle; [lia|].
  destruct fuel' as [|fuel']; [lia|]. simpl.
  destruct (CharacterController.tryMoveUp cc gm) as [[cc' gm'] [step|]] eqn:Hmove;
    [|reflexivity].
  destruct (CharacterController.hasEscaped cc'); [reflexivity|].
  apply IH; [|lia].
  destruct (CharacterController.character cc) as [c|] eqn:Hc.
  - destruct (tryMoveUp_row _ _ _ _ _ _ Hmove Hc) as (Hpos & c' & -> & Hy'). lia.
  - rewrite (tryMoveUp_no_character _ _ Hc) in Hmove. discriminate.
Qed.


(** * Part IV: further properties of the engine *)

(** ** The scan finds every run *)

Section ScanComplete.
Variable typeAt : Z -> option string.
Variable mkMatch : Z -> Z -> string -> MatchObj.t.

Lemma covered_app found extra s e c :
covered mkMatch found s e c -> covered mkMatch (found ++ extra) s e c.
Proof.
intros (s' & e' & Hin & ? & ?). exists s', e'.
split; [apply in_or_app; left; assumption|]. split; assumption.
Qed.

Lemma scanStep_inv2 i st :
0 <= i -> scanInv typeAt mkMatch i st -> scanInv2 typeAt mkMatch i st ->
scanInv2 typeAt mkMatch (i + 1) (MatchResolver.scanStep typeAt mkMatch st i).
Proof.
intros Hi (Hms & Hrun & _) (Hleft & Hlt & Hcov).
unfold MatchResolver.scanStep.
destruct (option_string_eqb (typeAt i) (MatchResolver.currentType st)
          && bool_decide (MatchResolver.currentType st <> None)) eqn:Hcont.
- apply andb_true_iff in Hcont as [Heq Hsome].
  apply option_string_eqb_eq in Heq. apply bool_decide_eq_true in Hsome.
  split; [assumption|]. split; [lia|].
  intros s e c Hs Hlen He Hall.
  destruct (decide (e <= i)) as [Hei|Hei]; [apply Hcov; assumption|].
  assert (e = i + 1) by lia. subst e. right.
  assert (Hc : MatchResolver.currentType st = Some c).
  { rewrite <- Heq. apply Hall. lia. }
  split; [assumption|].
  destruct (Z_le_gt_dec (MatchResolver.matchStart st) s) as [|Hgt]; [assumption|].
  exfalso. destruct Hleft as [Hnone|Hdiff]; [lia|congruence|].
  apply Hdiff. rewrite Hc. apply Hall. lia.
- assert (Hbreak : typeAt i <> MatchResolver.currentType st
                   \/ MatchResolver.currentType st = None).
  { apply andb_false_iff in Hcont as [Hne|Hnone].
    - left. intros Heq. apply option_string_eqb_eq in Heq. congruence.
    - right. apply bool_decide_eq_false in Hnone.
      destruct (MatchResolver.currentType st); [exfalso; apply Hnone; discriminate|].
      reflexivity. }
  split; [|split]; cbn [MatchResolver.matchStart MatchResolver.currentType
                          MatchResolver.found].
  + intros Hpos. destruct (typeAt i) as [ti|] eqn:Hti; [right|left; reflexivity].
    rewrite (Hrun (i - 1)) by lia.
    destruct Hbreak as [Hne|Hnone]; [congruence|]. rewrite Hnone. discriminate.
  + lia.
  + intros s e c Hs Hlen He Hall. left.
    assert (Hei : e <= i).
    { destruct (decide (e <= i)); [assumption|]. exfalso.
      assert (e = i + 1) by lia. subst e.
      assert (H1 : typeAt (i - 1) = Some c) by (apply Hall; lia).
      assert (H2 : typeAt i = Some c) by (apply Hall; lia).
      rewrite (Hrun (i - 1)) in H1 by lia.
      destruct Hbreak as [Hne|Hnone]; congruence. }
    destruct (Hcov s e c Hs Hlen Hei Hall) as [Hc|[Hc Hstart]].
    * destruct (MatchResolver.currentType st); [|assumption].
      destruct (CONFIG.MATCH.MIN_MATCH <=? i - MatchResolver.matchStart st);
        [apply covered_app|]; assumption.
    * rewrite Hc.
      assert (Hmin : (CONFIG.MATCH.MIN_MATCH <=? i - MatchResolver.matchStart st) = true).
      { apply Z.leb_le. unfold CONFIG.MATCH.MIN_MATCH. lia. }
      rewrite Hmin. exists (MatchResolver.matchStart st), i.
      split; [apply in_or_app; right; left; reflexivity|]. split; assumption.
Qed.

Lemma scan_fold_inv2 (k : nat) :
scanInv2 typeAt mkMatch (Z.of_nat k)
  (fold_left (MatchResolver.scanStep typeAt mkMatch) (seqZ 0 (Z.of_nat k))
     {| MatchResolver.matchStart := 0; MatchResolver.currentType := None;
        MatchResolver.found := [] |}).
Proof.
induction k as [|k IH].
- simpl. split; [simpl; lia|]. split; [lia|]. intros; lia.
- pose proof (scan_fold_inv typeAt mkMatch k) as Hinv.
  rewrite seqZ_S, fold_left_app. simpl.
  replace (Z.of_nat (S k)) with (Z.of_nat k + 1) by lia.
  apply scanStep_inv2; [lia|assumption|assumption].
Qed.

(** Every stretch of at least three cells of one colour on a line whose
  end is marked ([typeAt n = None]) is covered by a match of the scan. *)
Lemma scanLine_complete n s e c :
0 <= n -> typeAt n = None ->
0 <= s -> s + 3 <= e -> e <= n ->
(forall j, s <= j < e -> typeAt j = Some c) ->
covered mkMatch (MatchResolver.scanLine typeAt mkMatch n) s e c.
Proof.
intros Hn Hend Hs Hlen He Hall. unfold MatchResolver.scanLine.
pose proof (scan_fold_inv typeAt mkMatch (Z.to_nat (n + 1))) as (Hms & Hrun & _).
pose proof (scan_fold_inv2 (Z.to_nat (n + 1))) as (_ & Hlt & Hcov).
rewrite Z2Nat.id in Hms, Hrun, Hlt, Hcov by lia.
destruct (Hcov s e c Hs Hlen ltac:(lia) Hall) as [Hc|[Hc Hstart]]; [assumption|].
exfalso. rewrite <- (Hrun n) in Hc by lia. congruence.
Qed.
End ScanComplete.

Lemma tileTypeAt_outside gm x y :
  GridManager.isValidPosition gm x y = false -> MatchResolver.tileTypeAt gm x y = None.
Proof.
  intros H. unfold MatchResolver.tileTypeAt, GridManager.getTile. rewrite H. reflexivity.
Qed.

Lemma tileTypeAt_end_of_row gm y :
  MatchResolver.tileTypeAt gm (GridManager.width gm) y = None.
Proof.
  apply tileTypeAt_outside. unfold GridManager.isValidPosition.
  rewrite Z.ltb_irrefl, andb_false_r. reflexivity.
Qed.

Lemma tileTypeAt_end_of_column gm x :
  MatchResolver.tileTypeAt gm x (GridManager.height gm) = None.
Proof.
  apply tileTypeAt_outside. unfold GridManager.isValidPosition.
  rewrite Z.ltb_irrefl, andb_false_r. reflexivity.
Qed.

(** A cell with a run through it is a cell of a match of findAllMatches. *)
Lemma runAt_findAllMatches gm x y :
  runAt gm x y ->
  exists m, In m (MatchResolver.findAllMatches gm) /\ In (x, y) (MatchObj.tiles m).
Proof.
  intros (c & Hc & Hrun).
  destruct (tileTypeAt_valid _ _ _ _ Hc) as [Hx Hy].
  unfold MatchResolver.findAllMatches.
  destruct Hrun as [(s & e & Hse & Hlen & Hall)|(s & e & Hse & Hlen & Hall)].
  - destruct (tileTypeAt_valid gm s y _ (Hall s ltac:(lia))) as [Hs _].
    destruct (tileTypeAt_valid gm (e - 1) y _ (Hall (e - 1) ltac:(lia))) as [He _].
    destruct (scanLine_complete (fun x => MatchResolver.tileTypeAt gm x y)
                (MatchResolver.horizontalMatch y) (GridManager.width gm) s e c)
      as (s' & e' & Hin & ? & ?); try assumption; try lia.
    { apply tileTypeAt_end_of_row. }
    exists (MatchResolver.horizontalMatch y s' e' c). split.
    + apply in_or_app. left. apply in_flat_map. exists y. split; [|assumption].
      apply list_elem_of_In, elem_of_seqZ. lia.
    + simpl. apply in_map_iff. exists x. split; [reflexivity|].
      apply list_elem_of_In, elem_of_seqZ. lia.
  - destruct (tileTypeAt_valid gm x s _ (Hall s ltac:(lia))) as [_ Hs].
    destruct (tileTypeAt_valid gm x (e - 1) _ (Hall (e - 1) ltac:(lia))) as [_ He].
    destruct (scanLine_complete (fun y => MatchResolver.tileTypeAt gm x y)
                (MatchResolver.verticalMatch x) (GridManager.height gm) s e c)
      as (s' & e' & Hin & ? & ?); try assumption; try lia.
    { apply tileTypeAt_end_of_column. }
    exists (MatchResolver.verticalMatch x s' e' c). split.
    + apply in_or_app. right. apply in_flat_map. exists x. split; [|assumption].
      apply list_elem_of_In, elem_of_seqZ. lia.
    + simpl. apply in_map_iff. exists y. split; [reflexivity|].
      apply list_elem_of_In, elem_of_seqZ. lia.
Qed.

Lemma findAllMatches_runAt gm m x y :
  In m (MatchResolver.findAllMatches gm) -> In (x, y) (MatchObj.tiles m) ->
  runAt gm x y.
Proof.
  intros Hm Hp.
  destruct (findAllMatches_sound _ _ Hm)
    as [(y' & s & e & c & _ & -> & _ & Hlen & _ & Hrun)
       |(x' & s & e & c & _ & -> & _ & Hlen & _ & Hrun)];
    simpl in Hp; apply in_map_iff in Hp as (j & [= <- <-] & Hj);
    apply list_elem_of_In, elem_of_seqZ in Hj; exists c;
    (split; [apply Hrun; lia|]); [left|right]; exists s, e;
    (split; [lia|]); (split; [lia|]); assumption.
Qed.

(** X1.  MatchResolver.checkForMatchAt(x, y) is true exactly when the cell
    holds a matchable tile and lies on a horizontal or vertical stretch of
    at least three cells that hold matchable tiles of its colour. *)
Theorem checkForMatchAt_detects_runs (gm : GridManager.t) (x y : Z) :
  MatchResolver.checkForMatchAt gm x y = true <-> runAt gm x y.
Proof. apply checkForMatchAt_runAt. Qed.

(** X2.  findAllMatches finds every run and only runs: a cell is in one of
    the matches it returns exactly when a run of length >= 3 goes through
    the cell, that is, exactly when checkForMatchAt holds at the cell. *)
Theorem findAllMatches_covers_runs (gm : GridManager.t) (x y : Z) :
  ((exists m, In m (MatchResolver.findAllMatches gm)
              /\ In (x, y) (MatchObj.tiles m))
   <-> runAt gm x y)
  /\ ((exists m, In m (MatchResolver.findAllMatches gm)
                 /\ In (x, y) (MatchObj.tiles m))
      <-> MatchResolver.checkForMatchAt gm x y = true).
Proof.
  assert (H : (exists m, In m (MatchResolver.findAllMatches gm)
                         /\ In (x, y) (MatchObj.tiles m))
              <-> runAt gm x y).
  { split.
    - intros (m & Hm & Hp). eapply findAllMatches_runAt; eassumption.
    - apply runAt_findAllMatches. }
  split; [exact H|]. rewrite H. symmetry. apply checkForMatchAt_runAt.
Qed.


(** ** processMatches and getMatchedPositions *)

Ltac thawed_conj :=
  unfold thawed; simpl;
  repeat match goal with |- _ /\ _ => split end;
  try reflexivity; try lia; try tauto; try congruence.

Lemma thawed_refl t : thawed t t.
Proof. thawed_conj. Qed.

Lemma thawed_trans t1 t2 t3 : thawed t1 t2 -> thawed t2 t3 -> thawed t1 t3.
Proof.
  unfold thawed. intros (?&?&?&?&?&?&?&?&?) (?&?&?&?&?&?&?&?&?).
  thawed_conj.
Qed.

Lemma thawedCell_refl c : thawedCell c c.
Proof. destruct c; simpl; [apply thawed_refl|exact I]. Qed.

Lemma thawedCell_trans c1 c2 c3 :
  thawedCell c1 c2 -> thawedCell c2 c3 -> thawedCell c1 c3.
Proof.
  destruct c1, c2, c3; simpl; try tauto. apply thawed_trans.
Qed.

Lemma thawedGrid_refl gm : thawedGrid gm gm.
Proof. split; [apply sameFrame_refl|]. intros. apply thawedCell_refl. Qed.

Lemma thawedGrid_trans gm1 gm2 gm3 :
  thawedGrid gm1 gm2 -> thawedGrid gm2 gm3 -> thawedGrid gm1 gm3.
Proof.
  intros [F1 H1] [F2 H2]. split; [eapply sameFrame_trans; eassumption|].
  intros x y. eapply thawedCell_trans; [apply H1|apply H2].
Qed.

Lemma thawedGrid_updateTile gm x y f :
  (forall t, thawed t (f t)) -> thawedGrid gm (GridManager.updateTile gm x y f).
Proof.
  intros Hf. split; [apply sameFrame_updateTile|]. intros x' y'.
  destruct (decide ((x', y') = (x, y))) as [[= -> ->]|Hne].
  - rewrite getTile_updateTile_eq.
    destruct (GridManager.getTile gm x y); simpl; [apply Hf|exact I].
  - rewrite getTile_updateTile_ne by assumption. apply thawedCell_refl.
Qed.

Lemma thawed_unlock t : thawed t (Tile.unlock t).
Proof. thawed_conj. Qed.

Lemma thawed_removeIceLayer t : thawed t (fst (Tile.removeIceLayer t)).
Proof.
  unfold Tile.removeIceLayer. destruct (0 <? Tile.iceLayer t) eqn:H; simpl.
  - thawed_conj.
  - apply thawed_refl.
Qed.

Lemma unlock_fold_thawedGrid adj : forall g,
  thawedGrid g
    (fold_left
       (fun g (adj : Pos * Tile.t) =>
          if Tile.isLocked (snd adj)
          then GridManager.updateTile g (fst (fst adj)) (snd (fst adj)) Tile.unlock
          else g) adj g).
Proof.
  induction adj as [|a adj IH]; intros g; simpl; [apply thawedGrid_refl|].
  eapply thawedGrid_trans; [|apply IH].
  destruct (Tile.isLocked (snd a)); [|apply thawedGrid_refl].
  apply thawedGrid_updateTile, thawed_unlock.
Qed.

Lemma thawedGrid_unlockAdjacentTiles gm x y :
  thawedGrid gm (MatchResolver.unlockAdjacentTiles gm x y).
Proof. apply unlock_fold_thawedGrid. Qed.

Lemma thawedGrid_unlockedAt gm gm' q :
  thawedGrid gm gm' -> unlockedAt gm q -> unlockedAt gm' q.
Proof.
  intros [_ H] Hq tile' Htile'. specialize (H (fst q) (snd q)).
  rewrite Htile' in H.
  destruct (GridManager.getTile gm (fst q) (snd q)) as [tile|] eqn:Htile;
    simpl in H; [|contradiction].
  specialize (Hq tile Htile).
  destruct (Tile.isLocked tile') eqn:Hl; [|reflexivity].
  destruct H as (_&_&_&_&_&_&_&_&H). rewrite (H Hl) in Hq. discriminate.
Qed.

(** The grid of a step of processMatches is a thawed copy of the grid
    before the step. *)
Lemma processTile_thawedGrid st pos :
  thawedGrid (MatchResolver.gridManager st)
    (MatchResolver.gridManager (MatchResolver.processTile st pos)).
Proof.
  unfold MatchResolver.processTile.
  destruct (pos_mem pos (MatchResolver.processed st)); [apply thawedGrid_refl|].
  destruct (GridManager.getTile _ _ _) as [tile|]; [|apply thawedGrid_refl].
  assert (H1 : thawedGrid (MatchResolver.gridManager st)
                 (if 0 <? Tile.iceLayer tile
                  then GridManager.updateTile (MatchResolver.gridManager st)
                         (fst pos) (snd pos) (fun tl => fst (Tile.removeIceLayer tl))
                  else MatchResolver.gridManager st)).
  { destruct (0 <? Tile.iceLayer tile); [|apply thawedGrid_refl].
    apply thawedGrid_updateTile. intros t. apply thawed_removeIceLayer. }
  destruct (_ && _); simpl; [assumption|].
  eapply thawedGrid_trans; [eassumption|apply thawedGrid_unlockAdjacentTiles].
Qed.

Lemma processTiles_thawedGrid l st :
  thawedGrid (MatchResolver.gridManager st)
    (MatchResolver.gridManager (fold_left MatchResolver.processTile l st)).
Proof.
  revert st. induction l as [|pos l IH]; intros st; simpl; [apply thawedGrid_refl|].
  eapply thawedGrid_trans; [apply processTile_thawedGrid|apply IH].
Qed.

Lemma processMatch_fold_thawedGrid ms st sp :
  thawedGrid (MatchResolver.gridManager st)
    (MatchResolver.gridManager (fst (fold_left MatchResolver.processMatch ms (st, sp)))).
Proof.
  revert st sp. induction ms as [|m ms IH]; intros st sp; simpl; [apply thawedGrid_refl|].
  unfold MatchResolver.processMatch at 2. simpl.
  eapply thawedGrid_trans; [apply processTiles_thawedGrid|apply IH].
Qed.

Lemma processTile_clearedOnce st pos :
  clearedOnce st -> clearedOnce (MatchResolver.processTile st pos).
Proof.
  intros [Hnd Hsub]. unfold MatchResolver.processTile.
  destruct (pos_mem pos (MatchResolver.processed st)) eqn:Hmem; [split; assumption|].
  assert (Hnew : ~ In pos (MatchResolver.processed st)).
  { intros H. apply pos_mem_In in H. congruence. }
  assert (Hkeep : forall gm',
            clearedOnce {| MatchResolver.gridManager := gm';
                           MatchResolver.processed := pos :: MatchResolver.processed st;
                           MatchResolver.clearedPositions :=
                             MatchResolver.clearedPositions st |}).
  { intros gm'. split; simpl; [assumption|]. intros p Hp. right. apply Hsub, Hp. }
  destruct (GridManager.getTile _ _ _) as [tile|]; [|apply Hkeep].
  destruct (_ && _); [apply Hkeep|]. split; simpl.
  - apply NoDup_ListNoDup, NoDup_app. split; [apply NoDup_ListNoDup, Hnd|].
    split; [|apply NoDup_singleton].
    intros p Hp Hp'. apply list_elem_of_In in Hp.
    apply list_elem_of_singleton in Hp'. subst p. apply Hnew, Hsub, Hp.
  - intros p Hp. apply in_app_iff in Hp as [Hp|[<-|[]]].
    + right. apply Hsub, Hp.
    + left. reflexivity.
Qed.

Lemma processMatch_fold_clearedOnce ms st sp :
  clearedOnce st ->
  clearedOnce (fst (fold_left MatchResolver.processMatch ms (st, sp))).
Proof.
  revert st sp. induction ms as [|m ms IH]; intros st sp H; simpl; [assumption|].
  unfold MatchResolver.processMatch at 2. simpl. apply IH.
  generalize (MatchObj.tiles m) as l. intros l. revert st H.
  induction l as [|pos l IHl]; intros st H; simpl; [assumption|].
  apply IHl, processTile_clearedOnce, H.
Qed.

(** X3.  processMatches returns each cleared position once, and only
    positions of the matches it was given; the special tiles it returns are
    those of getSpecialTileForMatch, match by match; and no tile of the grid
    is removed, moved or recoloured by it: a tile can only lose ice or its
    lock (clearing the cells is left to the caller). *)
Theorem processMatches_result (gm : GridManager.t) (ms : list MatchObj.t) :
  let r := MatchResolver.processMatches gm ms in
  List.NoDup (snd (fst r))
  /\ (forall p, In p (snd (fst r)) ->
                exists m, In m ms /\ In p (MatchObj.tiles m))
  /\ snd r = omap MatchResolver.getSpecialTileForMatch ms
  /\ thawedGrid gm (fst (fst r)).
Proof.
  intros r. split; [|split; [|split]].
  - subst r. unfold MatchResolver.processMatches.
    set (st0 := {| MatchResolver.gridManager := gm; MatchResolver.processed := [];
                   MatchResolver.clearedPositions := [] |}).
    assert (H0 : clearedOnce st0).
    { split; simpl; [constructor|contradiction]. }
    pose proof (processMatch_fold_clearedOnce ms st0 [] H0) as [H _].
    destruct (fold_left MatchResolver.processMatch ms (st0, [])) as [st sp].
    exact H.
  - intros p. apply processMatches_cleared.
  - apply processMatches_specialTiles.
  - subst r. unfold MatchResolver.processMatches.
    set (st0 := {| MatchResolver.gridManager := gm; MatchResolver.processed := [];
                   MatchResolver.clearedPositions := [] |}).
    pose proof (processMatch_fold_thawedGrid ms st0 []) as H.
    destruct (fold_left MatchResolver.processMatch ms (st0, [])) as [st sp].
    exact H.
Qed.

(** *** Unlocking the neighbours *)

Lemma areAdjacent_direction x1 y1 x2 y2 :
  GridManager.areAdjacent x1 y1 x2 y2 = true
  <-> In (x2 - x1, y2 - y1) CONFIG.DIRECTIONS.
Proof.
  unfold GridManager.areAdjacent, CONFIG.DIRECTIONS. simpl.
  rewrite orb_true_iff, !andb_true_iff, !Z.eqb_eq. split.
  - intros [[H1 H2]|[H1 H2]].
    + assert (y2 - y1 = 0) by lia.
      destruct (Z_le_gt_dec x1 x2);
        [right; right; right; left|right; right; left]; f_equal; lia.
    + assert (x2 - x1 = 0) by lia.
      destruct (Z_le_gt_dec y1 y2);
        [right; left|left]; f_equal; lia.
  - intros [H|[H|[H|[H|[]]]]]; injection H as H1 H2; lia.
Qed.

Lemma getAdjacentTiles_In gm x y d tile :
  In d CONFIG.DIRECTIONS ->
  GridManager.getTile gm (x + fst d) (y + snd d) = Some tile ->
  In ((x + fst d, y + snd d), tile) (GridManager.getAdjacentTiles gm x y).
Proof.
  intros Hd Htile. unfold GridManager.getAdjacentTiles.
  apply in_flat_map. exists d. split; [assumption|].
  rewrite Htile. left. reflexivity.
Qed.

Lemma getAdjacentTiles_tile gm x y a :
  In a (GridManager.getAdjacentTiles gm x y) ->
  GridManager.getTile gm (fst (fst a)) (snd (fst a)) = Some (snd a).
Proof.
  unfold GridManager.getAdjacentTiles. intros H.
  apply in_flat_map in H as (d & _ & H).
  destruct (GridManager.getTile gm (x + fst d) (y + snd d)) eqn:Htile; [|contradiction].
  destruct H as [<-|[]]. exact Htile.
Qed.

Lemma unlockedAt_updateTile_unlock gm x y q :
  unlockedAt gm q -> unlockedAt (GridManager.updateTile gm x y Tile.unlock) q.
Proof.
  apply thawedGrid_unlockedAt, thawedGrid_updateTile, thawed_unlock.
Qed.

Lemma unlock_fold_unlockedAt adj : forall g,
  (forall a, In a adj -> Tile.isLocked (snd a) = false -> unlockedAt g (fst a)) ->
  forall a, In a adj ->
    unlockedAt
      (fold_left
         (fun g (adj : Pos * Tile.t) =>
            if Tile.isLocked (snd adj)
            then GridManager.updateTile g (fst (fst adj)) (snd (fst adj)) Tile.unlock
            else g) adj g) (fst a).
Proof.
  induction adj as [|a0 adj IH]; intros g Hg a Ha; [contradiction|].
  simpl.
  set (g' := if Tile.isLocked (snd a0)
             then GridManager.updateTile g (fst (fst a0)) (snd (fst a0)) Tile.unlock
             else g).
  assert (Hmono : forall q, unlockedAt g q -> unlockedAt g' q).
  { intros q Hq. subst g'. destruct (Tile.isLocked (snd a0)); [|assumption].
    apply unlockedAt_updateTile_unlock, Hq. }
  assert (H0 : unlockedAt g' (fst a0)).
  { subst g'. destruct (Tile.isLocked (snd a0)) eqn:Hl.
    - intros tile Htile. rewrite getTile_updateTile_eq in Htile.
      destruct (GridManager.getTile g _ _); [|discriminate].
      simpl in Htile. injection Htile as <-. reflexivity.
    - apply Hg; [left; reflexivity|assumption]. }
  destruct Ha as [<-|Ha].
  - eapply thawedGrid_unlockedAt; [apply unlock_fold_thawedGrid|assumption].
  - apply IH; [|assumption].
    intros a' Ha' Hl. apply Hmono, Hg; [right; assumption|assumption].
Qed.

(** After unlockAdjacentTiles(x, y) no neighbour of (x, y) holds a locked
    tile. *)
Lemma unlockAdjacentTiles_unlocks gm x y d :
  In d CONFIG.DIRECTIONS ->
  unlockedAt (MatchResolver.unlockAdjacentTiles gm x y) (x + fst d, y + snd d).
Proof.
  intros Hd.
  destruct (GridManager.getTile gm (x + fst d) (y + snd d)) as [tile|] eqn:Htile.
  - pose proof (getAdjacentTiles_In gm x y d tile Hd Htile) as Hin.
    unfold MatchResolver.unlockAdjacentTiles.
    apply (unlock_fold_unlockedAt (GridManager.getAdjacentTiles gm x y) gm
             ltac:(intros a Ha Hl tl Htl;
                   rewrite (getAdjacentTiles_tile gm x y a Ha) in Htl;
                   injection Htl as <-; exact Hl)
             ((x + fst d, y + snd d), tile) Hin).
  - intros tile' Htile'. simpl in Htile'.
    destruct (thawedGrid_unlockAdjacentTiles gm x y) as [_ H].
    specialize (H (x + fst d) (y + snd d)). rewrite Htile, Htile' in H.
    contradiction.
Qed.

Lemma processTile_clearedUnlocked st pos :
  clearedUnlocked st -> clearedUnlocked (MatchResolver.processTile st pos).
Proof.
  intros Hinv p d Hp Hd.
  pose proof (processTile_thawedGrid st pos) as Hthaw.
  revert Hp Hthaw. unfold MatchResolver.processTile.
  destruct (pos_mem pos (MatchResolver.processed st)); [intros; apply Hinv; assumption|].
  destruct (GridManager.getTile _ _ _) as [tile|];
    [|simpl; intros; apply Hinv; assumption].
  destruct (_ && _); simpl.
  - intros Hp Hthaw. eapply thawedGrid_unlockedAt; [exact Hthaw|].
    apply Hinv; assumption.
  - intros Hp Hthaw. apply in_app_iff in Hp as [Hp|[<-|[]]].
    + eapply thawedGrid_unlockedAt; [exact Hthaw|]. apply Hinv; assumption.
    + apply unlockAdjacentTiles_unlocks. assumption.
Qed.

Lemma processMatch_fold_clearedUnlocked ms st sp :
  clearedUnlocked st ->
  clearedUnlocked (fst (fold_left MatchResolver.processMatch ms (st, sp))).
Proof.
  revert st sp. induction ms as [|m ms IH]; intros st sp H; simpl; [assumption|].
  unfold MatchResolver.processMatch at 2. simpl. apply IH.
  generalize (MatchObj.tiles m) as l. intros l. revert st H.
  induction l as [|pos l IHl]; intros st H; simpl; [assumption|].
  apply IHl, processTile_clearedUnlocked, H.
Qed.

(** X4.  After processMatches no cell next to a cleared position (left,
    right, above or below it) holds a locked tile, and no tile that was
    unlocked before is locked afterwards. *)
Theorem processMatches_unlocks_neighbours (gm : GridManager.t)
  (ms : list MatchObj.t) :
  let r := MatchResolver.processMatches gm ms in
  (forall p q tile,
      In p (snd (fst r)) ->
      GridManager.areAdjacent (fst p) (snd p) (fst q) (snd q) = true ->
      GridManager.getTile (fst (fst r)) (fst q) (snd q) = Some tile ->
      Tile.isLocked tile = false)
  /\ (forall q, unlockedAt gm q -> unlockedAt (fst (fst r)) q).
Proof.
  intros r. split.
  - subst r. unfold MatchResolver.processMatches.
    set (st0 := {| MatchResolver.gridManager := gm; MatchResolver.processed := [];
                   MatchResolver.clearedPositions := [] |}).
    assert (H0 : clearedUnlocked st0) by (intros p d []).
    pose proof (processMatch_fold_clearedUnlocked ms st0 [] H0) as H.
    destruct (fold_left MatchResolver.processMatch ms (st0, [])) as [st sp].
    simpl in *. intros p q tile Hp Hadj Htile.
    apply areAdjacent_direction in Hadj.
    specialize (H p _ Hp Hadj tile). simpl in H. apply H.
    rewrite <- Htile. f_equal; lia.
  - intros q. apply thawedGrid_unlockedAt.
    subst r. unfold MatchResolver.processMatches.
    set (st0 := {| MatchResolver.gridManager := gm; MatchResolver.processed := [];
                   MatchResolver.clearedPositions := [] |}).
    pose proof (processMatch_fold_thawedGrid ms st0 []) as H.
    destruct (fold_left MatchResolver.processMatch ms (st0, [])) as [st sp].
    exact H.
Qed.

(** *** getMatchedPositions *)

Lemma getMatchedPositions_fold ms :
  MatchResolver.getMatchedPositions ms
  = fold_left (fun pm (m : MatchObj.t) => fold_left addPosition (MatchObj.tiles m) pm)
      ms [].
Proof. reflexivity. Qed.

Lemma addPosition_spec pm pos :
  List.NoDup pm ->
  List.NoDup (addPosition pm pos)
  /\ forall p, In p (addPosition pm pos) <-> In p pm \/ p = pos.
Proof.
  intros Hnd. unfold addPosition.
  destruct (pos_mem pos pm) eqn:Hmem.
  - apply pos_mem_In in Hmem. split; [assumption|].
    intros p. split; [tauto|]. intros [?| ->]; assumption.
  - assert (Hnew : ~ In pos pm).
    { intros H. apply pos_mem_In in H. congruence. }
    split.
    + apply NoDup_ListNoDup, NoDup_app. split; [apply NoDup_ListNoDup, Hnd|].
      split; [|apply NoDup_singleton].
      intros p Hp Hp'. apply list_elem_of_In in Hp.
      apply list_elem_of_singleton in Hp'. subst p. contradiction.
    + intros p. rewrite in_app_iff. simpl. split.
      * intros [?|[<-|[]]]; tauto.
      * intros [?| ->]; tauto.
Qed.

Lemma addPositions_spec l : forall pm,
  List.NoDup pm ->
  List.NoDup (fold_left addPosition l pm)
  /\ forall p, In p (fold_left addPosition l pm) <-> In p pm \/ In p l.
Proof.
  induction l as [|pos l IH]; intros pm Hnd; simpl.
  - split; [assumption|]. intros p. tauto.
  - destruct (addPosition_spec pm pos Hnd) as [Hnd' Hin'].
    destruct (IH _ Hnd') as [Hnd'' Hin'']. split; [assumption|].
    intros p. rewrite Hin'', Hin'. split.
    + intros [[?| ->]|?]; auto.
    + intros [?|[<-|?]]; auto.
Qed.

Lemma getMatchedPositions_spec ms : forall pm,
  List.NoDup pm ->
  let r := fold_left (fun pm (m : MatchObj.t) =>
                        fold_left addPosition (MatchObj.tiles m) pm) ms pm in
  List.NoDup r
  /\ forall p, In p r <-> In p pm \/ exists m, In m ms /\ In p (MatchObj.tiles m).
Proof.
  induction ms as [|m ms IH]; intros pm Hnd; simpl.
  - split; [assumption|]. intros p. split; [tauto|].
    intros [?|(m & Hm & _)]; [assumption|destruct Hm].
  - destruct (addPositions_spec (MatchObj.tiles m) pm Hnd) as [Hnd' Hin'].
    destruct (IH _ Hnd') as [Hnd'' Hin'']. split; [assumption|].
    intros p. rewrite Hin'', Hin'. split.
    + intros [[?|?]|(m' & Hm' & Hp)]; [auto|right; exists m; auto|].
      right. exists m'. auto.
    + intros [?|(m' & [<-|Hm'] & Hp)]; [auto|auto|]. right. exists m'. auto.
Qed.

(** X5.  getMatchedPositions lists every position of the given matches
    exactly once: a cell that lies on a horizontal and on a vertical match
    is not listed twice. *)
Theorem getMatchedPositions_unique (ms : list MatchObj.t) :
  List.NoDup (MatchResolver.getMatchedPositions ms)
  /\ forall p, In p (MatchResolver.getMatchedPositions ms)
               <-> exists m, In m ms /\ In p (MatchObj.tiles m).
Proof.
  rewrite getMatchedPositions_fold.
  destruct (getMatchedPositions_spec ms [] ltac:(constructor)) as [Hnd Hin].
  split; [exact Hnd|]. intros p. rewrite Hin. simpl. tauto.
Qed.

(** *** The cleared positions on a board with at most one ice layer *)

Lemma processTile_clearsAll targets st pm pos :
  targets pos -> clearsAll targets st pm ->
  clearsAll targets (MatchResolver.processTile st pos) (addPosition pm pos).
Proof.
  intros Hpos (Hcl & Hproc & Hice).
  unfold MatchResolver.processTile, addPosition.
  assert (Hmem : pos_mem pos pm = pos_mem pos (MatchResolver.processed st)).
  { destruct (pos_mem pos (MatchResolver.processed st)) eqn:H.
    - apply pos_mem_In. apply Hproc. apply pos_mem_In. assumption.
    - destruct (pos_mem pos pm) eqn:H'; [|reflexivity].
      apply pos_mem_In, Hproc, pos_mem_In in H'. congruence. }
  rewrite Hmem.
  destruct (pos_mem pos (MatchResolver.processed st)) eqn:Hdone;
    [split; [|split]; assumption|].
  destruct (Hice pos Hpos) as (n & Hn & Hle). unfold iceAt in Hn.
  destruct (GridManager.getTile (MatchResolver.gridManager st) (fst pos) (snd pos))
    as [tile|] eqn:Htile; [|discriminate].
  simpl in Hn. injection Hn as Hn.
  assert (Hstill : (0 <? Tile.iceLayer tile)
                   && (0 <? Tile.iceLayer (fst (Tile.removeIceLayer tile))) = false).
  { unfold Tile.removeIceLayer. destruct (0 <? Tile.iceLayer tile) eqn:H0; [|reflexivity].
    simpl. apply Z.ltb_ge. lia. }
  rewrite Hstill. split; [|split]; simpl.
  - rewrite Hcl. reflexivity.
  - intros p. rewrite in_app_iff. simpl. rewrite <- Hproc.
    split; [intros [<-|?]; tauto|intros [?|[<-|[]]]; tauto].
  - intros p Hp. destruct (Hice p Hp) as (k & Hk & Hk1).
    rewrite iceAt_unlockAdjacentTiles.
    destruct (0 <? Tile.iceLayer tile) eqn:H0; [|exists k; split; assumption].
    destruct (decide (p = pos)) as [->|Hne].
    + exists (Tile.iceLayer tile - 1). split; [|lia].
      unfold iceAt. rewrite getTile_updateTile_eq, Htile. simpl.
      unfold Tile.removeIceLayer. rewrite H0. reflexivity.
    + exists k. split; [|assumption].
      rewrite iceAt_updateTile_other; [assumption|].
      destruct pos. simpl. assumption.
Qed.

Lemma processTiles_clearsAll targets l : forall st pm,
  (forall p, In p l -> targets p) -> clearsAll targets st pm ->
  clearsAll targets (fold_left MatchResolver.processTile l st)
    (fold_left addPosition l pm).
Proof.
  induction l as [|pos l IH]; intros st pm Hl H; simpl; [assumption|].
  apply IH; [intros p Hp; apply Hl; right; assumption|].
  apply processTile_clearsAll; [apply Hl; left; reflexivity|assumption].
Qed.

Lemma processMatch_fold_clearsAll targets ms : forall st sp pm,
  (forall m p, In m ms -> In p (MatchObj.tiles m) -> targets p) ->
  clearsAll targets st pm ->
  clearsAll targets (fst (fold_left MatchResolver.processMatch ms (st, sp)))
    (fold_left (fun pm (m : MatchObj.t) => fold_left addPosition (MatchObj.tiles m) pm)
       ms pm).
Proof.
  induction ms as [|m ms IH]; intros st sp pm Hms H; simpl; [assumption|].
  unfold MatchResolver.processMatch at 2. simpl.
  apply IH; [intros m' p Hm'; apply Hms; right; assumption|].
  apply processTiles_clearsAll; [|assumption].
  intros p Hp. eapply Hms; [left; reflexivity|assumption].
Qed.

(** X6.  When every position of the matches holds a tile with at most one
    ice layer, the cleared positions returned by processMatches are the
    positions of getMatchedPositions, in the same order. *)
Theorem processMatches_clears_matched_positions (gm : GridManager.t)
  (ms : list MatchObj.t) :
  (forall m p, In m ms -> In p (MatchObj.tiles m) ->
     exists tile, GridManager.getTile gm (fst p) (snd p) = Some tile
                  /\ Tile.iceLayer tile <= 1) ->
  snd (fst (MatchResolver.processMatches gm ms))
  = MatchResolver.getMatchedPositions ms.
Proof.
  intros Hms. rewrite getMatchedPositions_fold.
  unfold MatchResolver.processMatches.
  set (st0 := {| MatchResolver.gridManager := gm; MatchResolver.processed := [];
                 MatchResolver.clearedPositions := [] |}).
  set (targets := fun p : Pos =>
         exists n, iceAt gm p = Some n /\ n <= 1).
  assert (H0 : clearsAll targets st0 []).
  { split; [reflexivity|]. split; [reflexivity|]. intros p Hp. exact Hp. }
  assert (Ht : forall m p, In m ms -> In p (MatchObj.tiles m) -> targets p).
  { intros m p Hm Hp. destruct (Hms m p Hm Hp) as (tile & Htile & Hice).
    exists (Tile.iceLayer tile). split; [|assumption].
    unfold iceAt. rewrite Htile. reflexivity. }
  pose proof (processMatch_fold_clearsAll targets ms st0 [] [] Ht H0) as (H & _).
  destruct (fold_left MatchResolver.processMatch ms (st0, [])) as [st sp].
  exact H.
Qed.

Lemma processMatches_clears_matched_positions_witness :
  snd (fst (MatchResolver.processMatches boardRun4
              (MatchResolver.findAllMatches boardRun4)))
  = MatchResolver.getMatchedPositions (MatchResolver.findAllMatches boardRun4).
Proof.
  apply processMatches_clears_matched_positions.
  intros m p Hm Hp. vm_compute in Hm.
  destruct Hm as [<-|[]]. vm_compute in Hp.
  destruct Hp as [<-|[<-|[<-|[<-|[]]]]]; vm_compute; eexists; (split; [reflexivity|]);
    discriminate.
Defined.


(** ** Neighbours *)

(** X7.  getAdjacentTiles(x, y) returns the tiles of exactly the cells that
    areAdjacent relates to (x, y) and that hold a tile; areAdjacent is
    symmetric and holds exactly at Manhattan distance 1. *)
Theorem getAdjacentTiles_areAdjacent (gm : GridManager.t) (x y : Z) :
  (forall q tile,
      In (q, tile) (GridManager.getAdjacentTiles gm x y)
      <-> GridManager.areAdjacent x y (fst q) (snd q) = true
          /\ GridManager.getTile gm (fst q) (snd q) = Some tile)
  /\ (forall x2 y2,
         GridManager.areAdjacent x y x2 y2 = GridManager.areAdjacent x2 y2 x y)
  /\ (forall x2 y2,
         GridManager.areAdjacent x y x2 y2 = true
         <-> Z.abs (x - x2) + Z.abs (y - y2) = 1).
Proof.
  split; [|split].
  - intros q tile. split.
    + intros Hin. pose proof (getAdjacentTiles_tile gm x y _ Hin) as Htile.
      simpl in Htile. split; [|assumption].
      unfold GridManager.getAdjacentTiles in Hin.
      apply in_flat_map in Hin as (d & Hd & Hin).
      destruct (GridManager.getTile gm (x + fst d) (y + snd d)); [|contradiction].
      destruct Hin as [[= <- _]|[]]. apply areAdjacent_direction. simpl.
      replace (x + fst d - x) with (fst d) by lia.
      replace (y + snd d - y) with (snd d) by lia.
      destruct d. assumption.
    + intros [Hadj Htile]. apply areAdjacent_direction in Hadj.
      pose proof (getAdjacentTiles_In gm x y _ tile Hadj) as Hin. simpl in Hin.
      replace (x + (fst q - x)) with (fst q) in Hin by lia.
      replace (y + (snd q - y)) with (snd q) in Hin by lia.
      destruct q. apply Hin. assumption.
  - intros x2 y2. unfold GridManager.areAdjacent.
    replace (Z.abs (x2 - x)) with (Z.abs (x - x2)) by lia.
    replace (Z.abs (y2 - y)) with (Z.abs (y - y2)) by lia. reflexivity.
  - intros x2 y2. unfold GridManager.areAdjacent. simpl.
    rewrite orb_true_iff, !andb_true_iff, !Z.eqb_eq. lia.
Qed.

(** ** The reach of a special tile *)

Lemma affectable_spec gm p :
  MatchResolver.affectable gm p = true
  <-> exists tile,
        GridManager.getTile gm (fst p) (snd p) = Some tile
        /\ Tile.isBlocker tile = false /\ Tile.isCharacter tile = false
        /\ Tile.isExit tile = false.
Proof.
  unfold MatchResolver.affectable.
  destruct (GridManager.getTile gm (fst p) (snd p)) as [tile|].
  - rewrite !andb_true_iff, !negb_true_iff. split.
    + intros [[? ?] ?]. exists tile. auto.
    + intros (t & [= <-] & ? & ? & ?). auto.
  - split; [discriminate|]. intros (t & ? & _). discriminate.
Qed.

(** X8.  getSpecialTileAffectedPositions(x, y, type) lists, each once, the
    cells of the row of a line-h tile, of the column of a line-v tile, or
    of the 3 x 3 square around a bomb, that hold a tile which is neither a
    stone, nor of the character type, nor the exit; every listed cell is
    inside the grid. *)
Theorem getSpecialTileAffectedPositions_spec (gm : GridManager.t) (x y : Z)
  (specialType : CONFIG.SPECIAL_TILES) :
  let ps := MatchResolver.getSpecialTileAffectedPositions gm x y specialType in
  List.NoDup ps
  /\ (forall p,
         In p ps
         <-> inShape gm specialType x y p
             /\ exists tile,
                  GridManager.getTile gm (fst p) (snd p) = Some tile
                  /\ Tile.isBlocker tile = false
                  /\ Tile.isCharacter tile = false
                  /\ Tile.isExit tile = false)
  /\ (forall p, In p ps -> GridManager.isValidPosition gm (fst p) (snd p) = true).
Proof.
  intros ps.
  assert (Hin : forall p,
             In p ps
             <-> inShape gm specialType x y p /\ MatchResolver.affectable gm p = true).
  { intros p. subst ps. unfold MatchResolver.getSpecialTileAffectedPositions, inShape.
    destruct specialType; rewrite <- list_elem_of_In, list_elem_of_filter.
    - rewrite list_elem_of_fmap. split.
      + intros [Ha (px & -> & Hpx)]. apply elem_of_seqZ in Hpx. simpl.
        split; [split; [reflexivity|lia]|assumption].
      + intros [[Hy Hx] Ha]. split; [assumption|]. exists (fst p).
        split; [destruct p; simpl in *; congruence|]. apply elem_of_seqZ. lia.
    - rewrite list_elem_of_fmap. split.
      + intros [Ha (py & -> & Hpy)]. apply elem_of_seqZ in Hpy. simpl.
        split; [split; [reflexivity|lia]|assumption].
      + intros [[Hx Hy] Ha]. split; [assumption|]. exists (snd p).
        split; [destruct p; simpl in *; congruence|]. apply elem_of_seqZ. lia.
    - rewrite list_elem_of_In, in_flat_map. split.
      + intros [Ha (py & Hpy & Hp)]. apply in_map_iff in Hp as (px & <- & Hpx).
        apply list_elem_of_In, elem_of_seqZ in Hpy.
        apply list_elem_of_In, elem_of_seqZ in Hpx. simpl.
        split; [lia|assumption].
      + intros [[Hx Hy] Ha]. split; [assumption|]. exists (snd p). split.
        * apply list_elem_of_In, elem_of_seqZ. lia.
        * apply in_map_iff. exists (fst p). split; [destruct p; reflexivity|].
          apply list_elem_of_In, elem_of_seqZ. lia. }
  split; [|split].
  - subst ps. unfold MatchResolver.getSpecialTileAffectedPositions.
    apply NoDup_ListNoDup.
    destruct specialType; apply NoDup_filter.
    + apply NoDup_fmap_2; [intros a b [= ->]; reflexivity|apply NoDup_seqZ].
    + apply NoDup_fmap_2; [intros a b [= ->]; reflexivity|apply NoDup_seqZ].
    + apply NoDup_ListNoDup.
      pose proof (NoDup_grid_positions (seqZ (x - 1) 3) (seqZ (y - 1) 3)) as H.
      apply H; apply NoDup_ListNoDup, NoDup_seqZ.
  - intros p. rewrite Hin, affectable_spec. reflexivity.
  - intros p Hp. apply Hin in Hp as [_ Ha]. apply affectable_spec in Ha
      as (tile & Htile & _).
    apply getTile_Some_valid in Htile as [Hv _]. exact Hv.
Qed.

(** ** The two checks for a match at a cell *)

Lemma countRun_countWhile f l : MatchResolver.countRun f l = GridManager.countWhile f l.
Proof. induction l as [|i l IH]; simpl; [reflexivity|]. rewrite IH. reflexivity. Qed.

Lemma countWhile_nonneg f l : 0 <= GridManager.countWhile f l.
Proof. induction l as [|i l IH]; simpl; [lia|]. destruct (f i); lia. Qed.

Lemma countWhile_mono f g l :
  (forall i, In i l -> f i = true -> g i = true) ->
  GridManager.countWhile f l <= GridManager.countWhile g l.
Proof.
  induction l as [|i l IH]; intros H; simpl; [lia|].
  destruct (f i) eqn:Hf.
  - rewrite (H i (or_introl eq_refl) Hf).
    specialize (IH (fun j Hj => H j (or_intror Hj))). lia.
  - destruct (g i); [|lia]. pose proof (countWhile_nonneg g l). lia.
Qed.

Lemma countWhile_ext f g l :
  (forall i, In i l -> f i = g i) ->
  GridManager.countWhile f l = GridManager.countWhile g l.
Proof.
  induction l as [|i l IH]; intros H; simpl; [reflexivity|].
  rewrite (H i (or_introl eq_refl)), IH; [reflexivity|].
  intros j Hj. apply H. right. assumption.
Qed.

Lemma check_mono (a b c d a' b' c' d' : Z) :
  a <= a' -> b <= b' -> c <= c' -> d <= d' ->
  (if 3 <=? 1 + a + b then true else 3 <=? 1 + c + d) = true ->
  (if 3 <=? 1 + a' + b' then true else 3 <=? 1 + c' + d') = true.
Proof.
  intros Ha Hb Hc Hd H.
  destruct (Z.leb_spec 3 (1 + a' + b')); [reflexivity|].
  destruct (Z.leb_spec 3 (1 + a + b)); [lia|].
  apply Z.leb_le in H. apply Z.leb_le. lia.
Qed.

(** X9.  The check of the hint search (GridManager.checkForMatchAt) accepts
    every cell that the check of the resolver (MatchResolver.checkForMatchAt)
    accepts; on a grid without locked tiles the two checks agree. *)
Theorem checkForMatchAt_grid_vs_resolver (gm : GridManager.t) (x y : Z) :
  (MatchResolver.checkForMatchAt gm x y = true ->
   GridManager.checkForMatchAt gm x y = true)
  /\ ((forall q, unlockedAt gm q) ->
      GridManager.checkForMatchAt gm x y = MatchResolver.checkForMatchAt gm x y).
Proof.
  unfold MatchResolver.checkForMatchAt, GridManager.checkForMatchAt.
  destruct (GridManager.getTile gm x y) as [tile|]; [|split; auto].
  destruct (Tile.isMatchable tile) eqn:Hm; cbn [negb]; [|split; auto].
  cbv zeta. rewrite !countRun_countWhile. unfold CONFIG.MATCH.MIN_MATCH.
  split.
  - apply check_mono; apply countWhile_mono; intros i _;
      (destruct (GridManager.getTile gm _ _) as [t'|]; [|discriminate]);
      rewrite andb_true_iff; tauto.
  - intros Hunlocked.
    assert (Heq : forall px py,
               match GridManager.getTile gm px py with
               | Some t' => String.eqb (Tile.type t') (Tile.type tile)
               | None => false
               end
               = match GridManager.getTile gm px py with
                 | Some t' => String.eqb (Tile.type t') (Tile.type tile)
                              && Tile.isMatchable t'
                 | None => false
                 end).
    { intros px py.
      destruct (GridManager.getTile gm px py) as [t'|] eqn:Ht'; [|reflexivity].
      destruct (String.eqb (Tile.type t') (Tile.type tile)) eqn:Hty; [|reflexivity].
      simpl. apply String.eqb_eq in Hty. unfold Tile.isMatchable in *.
      rewrite Hty. apply andb_true_iff in Hm as [-> _].
      rewrite (Hunlocked (px, py) t' Ht'). reflexivity. }
    rewrite (countWhile_ext _ _ (reverse (seqZ 0 x)) (fun i _ => Heq i y)).
    rewrite (countWhile_ext _ _ (seqZ (x + 1) (GridManager.width gm - (x + 1)))
               (fun i _ => Heq i y)).
    rewrite (countWhile_ext _ _ (reverse (seqZ 0 y)) (fun j _ => Heq x j)).
    rewrite (countWhile_ext _ _ (seqZ (y + 1) (GridManager.height gm - (y + 1)))
               (fun j _ => Heq x j)).
    reflexivity.
Qed.


(** ** The grid invariant *)

Lemma isValidPosition_bounds gm x y :
  GridManager.isValidPosition gm x y = true
  <-> 0 <= x < GridManager.width gm /\ 0 <= y < GridManager.height gm.
Proof.
  unfold GridManager.isValidPosition.
  rewrite !andb_true_iff, !Z.leb_le, !Z.ltb_lt. lia.
Qed.

Lemma fullGridb_fullGrid gm : fullGridb gm = true -> fullGrid gm.
Proof.
  unfold fullGridb. rewrite forallb_forall. intros H x y Hv.
  apply isValidPosition_bounds in Hv.
  specialize (H (x, y) (proj2 (In_rowMajor _ _ x y) Hv)). simpl in H.
  destruct (GridManager.getTile gm x y) as [tile|]; [|discriminate].
  apply andb_true_iff in H as [Hx Hy]. apply Z.eqb_eq in Hx, Hy. eauto.
Qed.

Lemma sameBoard_refl gm : sameBoard gm gm.
Proof. repeat split. Qed.

Lemma sameBoard_trans gm1 gm2 gm3 :
  sameBoard gm1 gm2 -> sameBoard gm2 gm3 -> sameBoard gm1 gm3.
Proof.
  unfold sameBoard. intros (?&?&?&?) (?&?&?&?). repeat split; congruence.
Qed.

Lemma sameFrame_sameBoard gm gm' : sameFrame gm gm' -> sameBoard gm gm'.
Proof. intros (?&?&?&?&?). repeat split; assumption. Qed.

Lemma isValidPosition_sameBoard gm gm' x y :
  sameBoard gm gm' ->
  GridManager.isValidPosition gm' x y = GridManager.isValidPosition gm x y.
Proof.
  intros (Hw & Hh & _). unfold GridManager.isValidPosition. rewrite Hw, Hh. reflexivity.
Qed.

Lemma fullGrid_cellExists gm x y :
  fullGrid gm -> GridManager.isValidPosition gm x y = true ->
  cellExists (GridManager.grid gm) x y.
Proof.
  intros H Hv. destruct (H x y Hv) as (tile & Htile & _).
  apply getTile_Some_valid in Htile as [_ Hex]. exact Hex.
Qed.

Lemma fullGrid_atHome gm x y :
  fullGrid gm -> GridManager.isValidPosition gm x y = true -> atHome gm x y.
Proof.
  intros H Hv tile Htile. destruct (H x y Hv) as (tile' & Htile' & Hx & Hy).
  rewrite getTile_cellAt in Htile' by assumption. rewrite Htile in Htile'.
  injection Htile' as <-. auto.
Qed.

Lemma fullGrid_setTile gm x y tile :
  fullGrid gm -> fullGrid (GridManager.setTile gm x y tile).
Proof.
  intros H x' y' Hv.
  rewrite (isValidPosition_sameFrame _ _ _ _ (sameFrame_setTile gm x y tile)) in Hv.
  destruct (decide ((x', y') = (x, y))) as [[= -> ->]|Hne].
  - destruct (H x y Hv) as (old & Hold & _).
    rewrite (getTile_setTile_eq _ _ _ _ _ Hold). eexists. split; [reflexivity|].
    split; reflexivity.
  - rewrite getTile_setTile_ne by assumption. apply H, Hv.
Qed.

Lemma fullGrid_setEmpty gm x y : fullGrid gm -> fullGrid (GridManager.setEmpty gm x y).
Proof. apply fullGrid_setTile. Qed.

Lemma fullGrid_thawed gm gm' : thawedGrid gm gm' -> fullGrid gm -> fullGrid gm'.
Proof.
  intros [F T] H x y Hv. rewrite (isValidPosition_sameFrame _ _ _ _ F) in Hv.
  destruct (H x y Hv) as (tile & Htile & Hx & Hy).
  specialize (T x y). rewrite Htile in T.
  destruct (GridManager.getTile gm' x y) as [tile'|]; simpl in T; [|contradiction].
  destruct T as (_ & Hx' & Hy' & _). exists tile'. split; [reflexivity|].
  split; congruence.
Qed.

Lemma fullGrid_setCharacterPosition gm p :
  fullGrid gm -> fullGrid (GridManager.setCharacterPosition gm p).
Proof. intros H x y Hv. apply (H x y Hv). Qed.

Lemma fullGrid_updateCharacterPosition gm oldX oldY newX newY :
  fullGrid gm -> fullGrid (GridManager.updateCharacterPosition gm oldX oldY newX newY).
Proof.
  intros H. unfold GridManager.updateCharacterPosition.
  apply fullGrid_setCharacterPosition.
  destruct (negb _); [apply fullGrid_setEmpty|]; assumption.
Qed.

Lemma sameBoard_updateCharacterPosition gm oldX oldY newX newY :
  sameBoard gm (GridManager.updateCharacterPosition gm oldX oldY newX newY).
Proof.
  unfold GridManager.updateCharacterPosition.
  destruct (negb _).
  - destruct (sameFrame_setEmpty gm oldX oldY) as (?&?&?&?&?).
    repeat split; assumption.
  - repeat split.
Qed.

Lemma fullGrid_swap gm x1 y1 x2 y2 :
  GridManager.isValidPosition gm x1 y1 = true ->
  GridManager.isValidPosition gm x2 y2 = true ->
  (x1, y1) <> (x2, y2) ->
  fullGrid gm -> fullGrid (GridManager.swap gm x1 y1 x2 y2).
Proof.
  intros V1 V2 Hne H x y Hv.
  destruct (swap_cells gm x1 y1 x2 y2 Hne (fullGrid_cellExists _ _ _ H V1)
              (fullGrid_cellExists _ _ _ H V2)) as (F1 & F2 & Fo & _).
  rewrite getTile_cellAt by assumption.
  change (GridManager.isValidPosition gm x y = true) in Hv.
  destruct (decide ((x, y) = (x1, y1))) as [[= -> ->]|N1].
  - rewrite F1. destruct (H x2 y2 V2) as (tile & Htile & _).
    rewrite getTile_cellAt in Htile by assumption. rewrite Htile. simpl.
    eexists. split; [reflexivity|]. split; reflexivity.
  - destruct (decide ((x, y) = (x2, y2))) as [[= -> ->]|N2].
    + rewrite F2. destruct (H x1 y1 V1) as (tile & Htile & _).
      rewrite getTile_cellAt in Htile by assumption. rewrite Htile. simpl.
      eexists. split; [reflexivity|]. split; reflexivity.
    + rewrite Fo by assumption. rewrite <- getTile_cellAt by assumption. apply H, Hv.
Qed.

(** *** Gravity keeps the grid full *)

Lemma fullGrid_fallInto x st emptyY :
  fullGrid (fst st) -> fullGrid (fst (GravitySystem.fallInto x st emptyY)).
Proof.
  intros H. unfold GravitySystem.fallInto.
  destruct (GravitySystem.findFalling _ _ _) as [[searchY tile]|]; [|assumption].
  simpl. apply fullGrid_setEmpty, fullGrid_setTile, H.
Qed.

Lemma fullGrid_fold {S A} (gridOf : S -> GridManager.t) (f : S -> A -> S) l :
  (forall st a, fullGrid (gridOf st) -> fullGrid (gridOf (f st a))) ->
  forall st, fullGrid (gridOf st) -> fullGrid (gridOf (fold_left f l st)).
Proof.
  intros Hf. induction l as [|a l IH]; intros st H; simpl; [assumption|].
  apply IH, Hf, H.
Qed.

Lemma fullGrid_applyGravityColumn st x :
  fullGrid (fst st) -> fullGrid (fst (GravitySystem.applyGravityColumn st x)).
Proof.
  unfold GravitySystem.applyGravityColumn.
  apply (fullGrid_fold fst). intros st' a. apply fullGrid_fallInto.
Qed.

Lemma fullGrid_applyGravity gm :
  fullGrid gm -> fullGrid (fst (GravitySystem.applyGravity gm)).
Proof.
  unfold GravitySystem.applyGravity. intros H.
  apply (fullGrid_fold fst); [|exact H].
  intros st' a. apply fullGrid_applyGravityColumn.
Qed.

Lemma fullGrid_applyGravityLoop fuel : forall gm all r,
  fullGrid gm -> GravitySystem.applyGravityLoop fuel gm all = Some r ->
  fullGrid (fst r).
Proof.
  induction fuel as [|fuel IH]; intros gm all r H Hr; simpl in Hr; [discriminate|].
  pose proof (fullGrid_applyGravity gm H) as H1.
  destruct (GravitySystem.applyGravity gm) as [gm' movements].
  destruct movements.
  - injection Hr as <-. exact H1.
  - eapply IH; [exact H1|exact Hr].
Qed.

Lemma fullGrid_applyGravityFully gm :
  fullGrid gm -> fullGrid (fst (GravitySystem.applyGravityFully gm)).
Proof.
  intros H. unfold GravitySystem.applyGravityFully.
  destruct (GravitySystem.applyGravityLoop _ gm []) as [r|] eqn:Hr; simpl.
  - eapply fullGrid_applyGravityLoop; eassumption.
  - exact H.
Qed.

Lemma fullGrid_spawnAt st p :
  fullGrid (fst (fst st)) -> fullGrid (fst (fst (GravitySystem.spawnAt st p))).
Proof.
  destruct st as [[gm tape] newTiles], p as [x y]. simpl. intros H.
  destruct (GravitySystem.isPositionFixed gm x y); [assumption|].
  destruct (GridManager.isEmpty gm x y); [|assumption].
  destruct (GridManager.createNonMatchingTile _ _ _ _ _) as [newTile tape'].
  simpl. apply fullGrid_setTile, H.
Qed.

Lemma fullGrid_spawnNewTiles gm tape :
  fullGrid gm -> fullGrid (fst (fst (GravitySystem.spawnNewTiles gm tape))).
Proof.
  intros H. unfold GravitySystem.spawnNewTiles.
  apply (fullGrid_fold (fun st => fst (fst st))); [|exact H].
  intros st a. apply fullGrid_spawnAt.
Qed.

Lemma fullGrid_processGravity gm tape :
  fullGrid gm ->
  fullGrid (fst (fst (fst (GravitySystem.processGravity gm tape)))).
Proof.
  intros H. unfold GravitySystem.processGravity.
  pose proof (fullGrid_applyGravityFully gm H) as H1.
  destruct (GravitySystem.applyGravityFully gm) as [gm1 all].
  pose proof (fullGrid_spawnNewTiles gm1 tape H1) as H2.
  destruct (GravitySystem.spawnNewTiles gm1 tape) as [[gm2 tape'] newTiles].
  simpl in *. destruct newTiles; [exact H2|].
  pose proof (fullGrid_applyGravityFully gm2 H2) as H3.
  destruct (GravitySystem.applyGravityFully gm2) as [gm3 more]. exact H3.
Qed.

(** *** Clearing the matches keeps the grid full *)

Lemma processMatches_thawedGrid gm ms :
  thawedGrid gm (fst (fst (MatchResolver.processMatches gm ms))).
Proof.
  unfold MatchResolver.processMatches.
  set (st0 := {| MatchResolver.gridManager := gm; MatchResolver.processed := [];
                 MatchResolver.clearedPositions := [] |}).
  pose proof (processMatch_fold_thawedGrid ms st0 []) as H.
  destruct (fold_left MatchResolver.processMatch ms (st0, [])) as [st sp].
  exact H.
Qed.

Lemma fullGrid_createSpecial gm special :
  fullGrid gm -> fullGrid (Game.createSpecial gm special).
Proof.
  intros H. unfold Game.createSpecial.
  destruct (SpecialObj.position special); [apply fullGrid_setTile|]; assumption.
Qed.

Lemma fullGrid_clearMatches gm ms :
  fullGrid gm -> fullGrid (fst (Game.clearMatches gm ms)).
Proof.
  intros H. unfold Game.clearMatches.
  pose proof (fullGrid_thawed _ _ (processMatches_thawedGrid gm ms) H) as H1.
  destruct (MatchResolver.processMatches gm ms) as [[gm1 cleared] specials].
  simpl in *.
  apply (fullGrid_fold (fun g => g)); [intros; apply fullGrid_createSpecial; assumption|].
  apply (fullGrid_fold (fun g => g)); [intros; apply fullGrid_setEmpty; assumption|].
  exact H1.
Qed.

Lemma sameFrame_fold {A} (f : GridManager.t -> A -> GridManager.t) l :
  (forall g a, sameFrame g (f g a)) ->
  forall g, sameFrame g (fold_left f l g).
Proof.
  intros Hf. induction l as [|a l IH]; intros g; simpl; [apply sameFrame_refl|].
  eapply sameFrame_trans; [apply Hf|apply IH].
Qed.

Lemma sameFrame_createSpecial gm special : sameFrame gm (Game.createSpecial gm special).
Proof.
  unfold Game.createSpecial.
  destruct (SpecialObj.position special); [apply sameFrame_setTile|apply sameFrame_refl].
Qed.

Lemma sameFrame_clearMatches gm ms : sameFrame gm (fst (Game.clearMatches gm ms)).
Proof.
  unfold Game.clearMatches.
  destruct (processMatches_thawedGrid gm ms) as [F _].
  destruct (MatchResolver.processMatches gm ms) as [[gm1 cleared] specials].
  simpl in *.
  eapply sameFrame_trans; [exact F|].
  eapply sameFrame_trans; [|apply sameFrame_fold; intros; apply sameFrame_createSpecial].
  apply sameFrame_fold. intros. apply sameFrame_setEmpty.
Qed.

Lemma sameFrame_processGravity gm tape :
  sameFrame gm (fst (fst (fst (GravitySystem.processGravity gm tape)))).
Proof. destruct (processGravity_spec gm tape) as ([F _] & _). exact F. Qed.


(** ** initialize builds a full grid *)

Lemma cellsHome_cellSet cells x y tile :
  cellsHome cells -> Tile.x tile = x -> Tile.y tile = y ->
  cellsHome (GridManager.cellSet cells x y (Some tile)).
Proof.
  intros H Hx Hy x' y' tile' Hget.
  destruct (cellAt_cellSet cells x y (Some tile) x' y') as [Heq|[[= -> ->] Heq]];
    rewrite Heq in Hget.
  - apply (H _ _ _ Hget).
  - injection Hget as <-. auto.
Qed.

Lemma cellsHome_replicate (n m : nat) :
  cellsHome (replicate n (replicate m None)).
Proof. intros x y tile H. rewrite cellAt_replicate in H. discriminate. Qed.

Lemma cellsHome_placeBlockers blockers : forall cells,
  cellsHome cells -> cellsHome (fold_left GridManager.placeBlocker blockers cells).
Proof.
  induction blockers as [|b blockers IH]; intros cells H; simpl; [assumption|].
  apply IH. unfold GridManager.placeBlocker. apply cellsHome_cellSet; [assumption| |].
  - destruct (negb _), (Blocker.locked b); reflexivity.
  - destruct (negb _), (Blocker.locked b); reflexivity.
Qed.

Lemma cellsHome_placeFixed w h blockers exitPos start :
  cellsHome (GridManager.placeFixed w h blockers exitPos start).
Proof.
  unfold GridManager.placeFixed.
  apply cellsHome_cellSet; [|reflexivity|reflexivity].
  apply cellsHome_cellSet; [|reflexivity|reflexivity].
  apply cellsHome_placeBlockers, cellsHome_replicate.
Qed.

Lemma cellExists_placeFixed w h blockers exitPos start x y :
  0 <= x < w -> 0 <= y < h ->
  cellExists (GridManager.placeFixed w h blockers exitPos start) x y.
Proof.
  intros Hx Hy. unfold GridManager.placeFixed.
  apply cellExists_cellSet, cellExists_cellSet, cellExists_placeBlockers,
    cellExists_replicate; assumption.
Qed.

Lemma cellsHome_fillCell tileTypes st p :
  cellsHome (fst (fst st)) ->
  cellsHome (fst (fst (GridManager.fillCell tileTypes st p))).
Proof.
  destruct st as [[cells tape] fallbacks], p as [x y]. simpl. intros H.
  destruct (GridManager.cellAt cells x y); [assumption|].
  unfold GridManager.createNonMatchingTile.
  destruct (randomIndex _ tape) as [i tape']. simpl.
  apply cellsHome_cellSet; [assumption|reflexivity|reflexivity].
Qed.

Lemma cellExists_fillCell tileTypes st p x y :
  cellExists (fst (fst st)) x y ->
  cellExists (fst (fst (GridManager.fillCell tileTypes st p))) x y.
Proof.
  destruct st as [[cells tape] fallbacks], p as [px py]. simpl. intros H.
  destruct (GridManager.cellAt cells px py); [assumption|].
  destruct (GridManager.createNonMatchingTile _ _ _ _ _) as [tile tape']. simpl.
  apply cellExists_cellSet. assumption.
Qed.

Lemma fillCell_fills tileTypes st p :
  cellExists (fst (fst st)) (fst p) (snd p) ->
  exists tile,
    GridManager.cellAt (fst (fst (GridManager.fillCell tileTypes st p))) (fst p) (snd p)
    = Some tile.
Proof.
  destruct st as [[cells tape] fallbacks], p as [x y]. simpl. intros H.
  destruct (GridManager.cellAt cells x y) as [tile|] eqn:Hget; [eauto|].
  destruct (GridManager.createNonMatchingTile _ _ _ _ _) as [tile tape']. simpl.
  exists tile. apply cellAt_cellSet_eq. assumption.
Qed.

Lemma fill_fills tileTypes ps : forall st p,
  In p ps ->
  (forall q, In q ps -> cellExists (fst (fst st)) (fst q) (snd q)) ->
  exists tile,
    GridManager.cellAt
      (fst (fst (fold_left (GridManager.fillCell tileTypes) ps st))) (fst p) (snd p)
    = Some tile.
Proof.
  induction ps as [|q ps IH]; intros st p Hp Hex; [contradiction|].
  simpl. destruct Hp as [->|Hp].
  - destruct (fillCell_fills tileTypes st p (Hex p (or_introl eq_refl)))
      as (tile & Htile).
    exists tile. apply fill_keeps. exact Htile.
  - apply IH; [assumption|]. intros q' Hq'.
    apply cellExists_fillCell, Hex. right. assumption.
Qed.

Lemma cellsHome_fill tileTypes ps : forall st,
  cellsHome (fst (fst st)) ->
  cellsHome (fst (fst (fold_left (GridManager.fillCell tileTypes) ps st))).
Proof.
  induction ps as [|q ps IH]; intros st H; simpl; [assumption|].
  apply IH, cellsHome_fillCell, H.
Qed.

Lemma initialize_fullGrid w h level tape :
  fullGrid (fst (GridManager.initialize w h level tape)).
Proof.
  unfold GridManager.initialize, GridManager.initializeTraced.
  set (cells0 := GridManager.placeFixed w h _ _ _).
  set (tileTypes := default CONFIG.MATCHABLE_COLORS (Level.tileTypes level)).
  pose proof (cellsHome_fill tileTypes (GridManager.rowMajor w h) (cells0, tape, [])
                (cellsHome_placeFixed _ _ _ _ _)) as Hhome.
  assert (Hfill : forall p, In p (GridManager.rowMajor w h) ->
            exists tile,
              GridManager.cellAt
                (fst (fst (fold_left (GridManager.fillCell tileTypes)
                             (GridManager.rowMajor w h) (cells0, tape, []))))
                (fst p) (snd p) = Some tile).
  { intros p Hp. apply fill_fills; [assumption|].
    intros [qx qy] Hq. apply In_rowMajor in Hq as [Hx Hy].
    apply cellExists_placeFixed; assumption. }
  destruct (fold_left _ (GridManager.rowMajor w h) (cells0, tape, []))
    as [[cells tape'] fallbacks].
  simpl in *. intros x y Hv. pose proof Hv as Hb.
  apply isValidPosition_bounds in Hb. simpl in Hb.
  destruct (Hfill (x, y) (proj2 (In_rowMajor w h x y) Hb)) as (tile & Htile).
  simpl in Htile. exists tile. unfold GridManager.getTile. rewrite Hv. simpl.
  split; [assumption|]. apply (Hhome _ _ _ Htile).
Qed.

Lemma initialize_frame w h level tape :
  let gm := fst (GridManager.initialize w h level tape) in
  GridManager.width gm = w /\ GridManager.height gm = h
  /\ GridManager.tileTypes gm
     = default CONFIG.MATCHABLE_COLORS (Level.tileTypes level)
  /\ GridManager.exitPosition gm = default (w / 2, 0) (Level.exitPosition level)
  /\ GridManager.characterPosition gm
     = default (w / 2, h - 1) (Level.characterStart level).
Proof.
  unfold GridManager.initialize, GridManager.initializeTraced.
  destruct (fold_left _ (GridManager.rowMajor w h) _) as [[cells tape'] fallbacks].
  simpl. repeat split.
Qed.

Lemma initialize_character_tile w h level tape :
  wellFormedLevel w h level ->
  let gm := fst (GridManager.initialize w h level tape) in
  GridManager.getTile gm (fst (GridManager.characterPosition gm))
    (snd (GridManager.characterPosition gm))
  = Some (Tile.new CONFIG.TILE_TYPES.EMPTY (fst (GridManager.characterPosition gm))
            (snd (GridManager.characterPosition gm))).
Proof.
  intros (_ & _ & [Hsx Hsy]).
  unfold GridManager.initialize, GridManager.initializeTraced.
  set (exitPos := default (w / 2, 0) (Level.exitPosition level)) in *.
  set (start := default (w / 2, h - 1) (Level.characterStart level)) in *.
  set (cells0 := GridManager.placeFixed w h _ exitPos start).
  assert (H0 : GridManager.cellAt cells0 (fst start) (snd start)
               = Some (Tile.new CONFIG.TILE_TYPES.EMPTY (fst start) (snd start))).
  { unfold cells0, GridManager.placeFixed.
    apply cellAt_cellSet_eq, cellExists_cellSet, cellExists_placeBlockers,
      cellExists_replicate; assumption. }
  pose proof (fill_keeps (default CONFIG.MATCHABLE_COLORS (Level.tileTypes level))
                (GridManager.rowMajor w h) (cells0, tape, []) _ _ _ H0) as Hkeep.
  destruct (fold_left _ (GridManager.rowMajor w h) (cells0, tape, []))
    as [[cells tape'] fallbacks].
  simpl in *. unfold GridManager.getTile, GridManager.isValidPosition. simpl.
  replace ((0 <=? fst start) && (fst start <? w) && (0 <=? snd start)
           && (snd start <? h)) with true; [assumption|].
  symmetry. rewrite !andb_true_iff, !Z.leb_le, !Z.ltb_lt. lia.
Qed.

(** X10.  For a well-formed level, initialize fills the whole grid:
    afterwards every cell holds a tile that carries the coordinates of its
    cell (no cell is left null), the size of the grid is the one it was
    built with, the cell of the character holds an empty tile and the exit
    cell holds the exit tile (unless the character starts on the exit). *)
Theorem initialize_full_grid (w h : Z) (level : Level.t) (tape : Tape) :
  wellFormedLevel w h level ->
  let gm := fst (GridManager.initialize w h level tape) in
  fullGrid gm
  /\ GridManager.width gm = w /\ GridManager.height gm = h
  /\ GridManager.getTile gm (fst (GridManager.characterPosition gm))
       (snd (GridManager.characterPosition gm))
     = Some (Tile.new CONFIG.TILE_TYPES.EMPTY
               (fst (GridManager.characterPosition gm))
               (snd (GridManager.characterPosition gm)))
  /\ (GridManager.exitPosition gm <> GridManager.characterPosition gm ->
      GridManager.getTile gm (fst (GridManager.exitPosition gm))
        (snd (GridManager.exitPosition gm))
      = Some (Tile.new CONFIG.TILE_TYPES.EXIT
                (fst (GridManager.exitPosition gm))
                (snd (GridManager.exitPosition gm)))).
Proof.
  intros Hwf gm. split; [apply initialize_fullGrid|].
  destruct (initialize_frame w h level tape) as (Hw & Hh & _ & He & Hc).
  split; [exact Hw|]. split; [exact Hh|]. split.
  - apply initialize_character_tile, Hwf.
  - intros Hne. apply initialize_exit_tile; [exact Hwf|].
    fold gm in He, Hc. rewrite <- He, <- Hc. exact Hne.
Qed.

Lemma initialize_full_grid_witness :
  let gm := fst (GridManager.initialize 7 8 level1 [3; 1; 4; 1; 5; 9; 2; 6]%nat) in
  fullGrid gm /\ GridManager.width gm = 7 /\ GridManager.height gm = 8
  /\ GridManager.getTile gm 3 7 = Some (Tile.new CONFIG.TILE_TYPES.EMPTY 3 7)
  /\ GridManager.getTile gm 3 0 = Some (Tile.new CONFIG.TILE_TYPES.EXIT 3 0).
Proof.
  destruct (initialize_full_grid 7 8 level1 [3; 1; 4; 1; 5; 9; 2; 6]%nat
              wellFormed_level1)
    as (Hfull & Hw & Hh & Hc & He).
  split; [exact Hfull|]. split; [exact Hw|]. split; [exact Hh|].
  split; [exact Hc|]. apply He. vm_compute. discriminate.
Defined.


(** ** The hint search *)

Lemma shape_cellSet (cells : list (list (option Tile.t))) x y v :
  List.length <$> GridManager.cellSet cells x y v = List.length <$> cells.
Proof.
  unfold GridManager.cellSet. destruct ((0 <=? x) && (0 <=? y)); [|reflexivity].
  apply list_eq. intros i. rewrite !list_lookup_fmap.
  destruct (decide (i = Z.to_nat y)) as [->|Hne].
  - rewrite list_lookup_alter_eq. destruct (cells !! Z.to_nat y); simpl; [|reflexivity].
    rewrite length_insert. reflexivity.
  - rewrite list_lookup_alter_ne by congruence. reflexivity.
Qed.

(** Two grids of the same shape that hold the same cells are equal. *)
Lemma grid_ext (cells cells' : list (list (option Tile.t))) :
  List.length <$> cells = List.length <$> cells' ->
  (forall x y, GridManager.cellAt cells x y = GridManager.cellAt cells' x y) ->
  cells = cells'.
Proof.
  intros Hshape Hcells. apply list_eq. intros j.
  pose proof (f_equal (fun l => l !! j) Hshape) as Hj. simpl in Hj.
  rewrite !list_lookup_fmap in Hj.
  destruct (cells !! j) as [row|] eqn:Hrow, (cells' !! j) as [row'|] eqn:Hrow';
    simpl in Hj; try discriminate; [|reflexivity].
  injection Hj as Hlen. f_equal. apply list_eq. intros i.
  specialize (Hcells (Z.of_nat i) (Z.of_nat j)). unfold GridManager.cellAt in Hcells.
  replace ((0 <=? Z.of_nat i) && (0 <=? Z.of_nat j)) with true in Hcells
    by (symmetry; apply andb_true_iff; split; apply Z.leb_le; lia).
  rewrite !Nat2Z.id, Hrow, Hrow' in Hcells.
  destruct (row !! i) as [c|] eqn:Hc, (row' !! i) as [c'|] eqn:Hc'.
  - congruence.
  - apply lookup_lt_Some in Hc. apply lookup_ge_None in Hc'. lia.
  - apply lookup_ge_None in Hc. apply lookup_lt_Some in Hc'. lia.
  - reflexivity.
Qed.

Lemma setGrid_grid gm : GridManager.setGrid gm (GridManager.grid gm) = gm.
Proof. destruct gm. reflexivity. Qed.

(** Swapping the same two cells twice gives back the grid. *)
Lemma swap_swap_eq gm x1 y1 x2 y2 :
  fullGrid gm ->
  GridManager.isValidPosition gm x1 y1 = true ->
  GridManager.isValidPosition gm x2 y2 = true ->
  (x1, y1) <> (x2, y2) ->
  GridManager.swap (GridManager.swap gm x1 y1 x2 y2) x1 y1 x2 y2 = gm.
Proof.
  intros H V1 V2 Hne.
  pose proof (swap_swap gm x1 y1 x2 y2 Hne (fullGrid_cellExists _ _ _ H V1)
                (fullGrid_cellExists _ _ _ H V2) (fullGrid_atHome _ _ _ H V1)
                (fullGrid_atHome _ _ _ H V2)) as Hcells.
  assert (Hshape : List.length <$> GridManager.grid
                     (GridManager.swap (GridManager.swap gm x1 y1 x2 y2) x1 y1 x2 y2)
                   = List.length <$> GridManager.grid gm).
  { unfold GridManager.swap. simpl. rewrite !shape_cellSet. reflexivity. }
  pose proof (grid_ext _ _ Hshape Hcells) as Hgrid.
  destruct gm as [w h cells types exitPos charPos].
  unfold GridManager.swap, GridManager.setGrid in *. simpl in *.
  f_equal. exact Hgrid.
Qed.

Lemma swap_comm gm x1 y1 x2 y2 :
  cellExists (GridManager.grid gm) x1 y1 ->
  cellExists (GridManager.grid gm) x2 y2 ->
  (x1, y1) <> (x2, y2) ->
  GridManager.swap gm x2 y2 x1 y1 = GridManager.swap gm x1 y1 x2 y2.
Proof.
  intros E1 E2 Hne.
  assert (Hne' : (x2, y2) <> (x1, y1)) by congruence.
  destruct (swap_cells gm x1 y1 x2 y2 Hne E1 E2) as (F1 & F2 & Fo & _).
  destruct (swap_cells gm x2 y2 x1 y1 Hne' E2 E1) as (G2 & G1 & Go & _).
  unfold GridManager.swap in *. unfold GridManager.setGrid in *. simpl in *. f_equal.
  apply grid_ext; [rewrite !shape_cellSet; reflexivity|].
  intros x y.
  destruct (decide ((x, y) = (x1, y1))) as [[= -> ->]|N1]; [rewrite F1, G1; reflexivity|].
  destruct (decide ((x, y) = (x2, y2))) as [[= -> ->]|N2]; [rewrite F2, G2; reflexivity|].
  rewrite Fo, Go by assumption. reflexivity.
Qed.

Lemma isMatchableAt_valid gm x y :
  GridManager.isMatchableAt gm x y = true ->
  GridManager.isValidPosition gm x y = true.
Proof.
  unfold GridManager.isMatchableAt.
  destruct (GridManager.getTile gm x y) as [tile|] eqn:H; [|discriminate].
  intros _. apply getTile_Some_valid in H as [Hv _]. exact Hv.
Qed.

Lemma probe_grid gm x1 y1 x2 y2 :
  fullGrid gm ->
  GridManager.isMatchableAt gm x1 y1 = true ->
  GridManager.isMatchableAt gm x2 y2 = true ->
  (x1, y1) <> (x2, y2) ->
  snd (GridManager.probe gm x1 y1 x2 y2) = gm.
Proof.
  intros H M1 M2 Hne. unfold GridManager.probe. simpl.
  apply swap_swap_eq; auto using isMatchableAt_valid.
Qed.

Lemma hintAt_grid gm x y : fullGrid gm -> snd (GridManager.hintAt gm x y) = gm.
Proof.
  intros H. unfold GridManager.hintAt.
  destruct (GridManager.isMatchableAt gm x y) eqn:M; simpl; [|reflexivity].
  assert (H1 : snd (if (x <? GridManager.width gm - 1)
                       && GridManager.isMatchableAt gm (x + 1) y
                    then GridManager.probe gm x y (x + 1) y
                    else (false, gm)) = gm).
  { destruct (_ && _) eqn:Hr; [|reflexivity].
    apply andb_true_iff in Hr as [_ Mr].
    apply probe_grid; try assumption. intros [= Hx]. lia. }
  destruct (if (x <? GridManager.width gm - 1)
               && GridManager.isMatchableAt gm (x + 1) y
            then GridManager.probe gm x y (x + 1) y
            else (false, gm)) as [rightMatch gm1].
  simpl in H1. subst gm1. destruct rightMatch; [reflexivity|].
  assert (H2 : snd (if (y <? GridManager.height gm - 1)
                       && GridManager.isMatchableAt gm x (y + 1)
                    then GridManager.probe gm x y x (y + 1)
                    else (false, gm)) = gm).
  { destruct (_ && _) eqn:Hd; [|reflexivity].
    apply andb_true_iff in Hd as [_ Md].
    apply probe_grid; try assumption. intros [= Hy]. lia. }
  destruct (if (y <? GridManager.height gm - 1)
               && GridManager.isMatchableAt gm x (y + 1)
            then GridManager.probe gm x y x (y + 1)
            else (false, gm)) as [downMatch gm2].
  simpl in H2. subst gm2. destruct downMatch; reflexivity.
Qed.

(** What the loop body of findHint returns at a cell. *)
Lemma hintAt_hint gm x y :
  fullGrid gm ->
  match fst (GridManager.hintAt gm x y) with
  | Some (p1, p2) =>
      p1 = (x, y) /\ (p2 = (x + 1, y) \/ p2 = (x, y + 1))
      /\ GridManager.isMatchableAt gm x y = true
      /\ GridManager.isMatchableAt gm (fst p2) (snd p2) = true
      /\ fst (GridManager.probe gm x y (fst p2) (snd p2)) = true
  | None =>
      GridManager.isMatchableAt gm x y = true ->
      (GridManager.isMatchableAt gm (x + 1) y = true ->
       fst (GridManager.probe gm x y (x + 1) y) = false)
      /\ (GridManager.isMatchableAt gm x (y + 1) = true ->
          fst (GridManager.probe gm x y x (y + 1)) = false)
  end.
Proof.
  intros H. unfold GridManager.hintAt.
  destruct (GridManager.isMatchableAt gm x y) eqn:M; cbn [negb fst snd];
    [|discriminate].
  assert (Hw : forall b, GridManager.isMatchableAt gm (x + 1) y = b ->
                 (x <? GridManager.width gm - 1) && b = b).
  { intros [|] Hb; [|apply andb_false_r].
    apply isMatchableAt_valid, isValidPosition_bounds in Hb.
    rewrite andb_true_r. apply Z.ltb_lt. lia. }
  assert (Hh : forall b, GridManager.isMatchableAt gm x (y + 1) = b ->
                 (y <? GridManager.height gm - 1) && b = b).
  { intros [|] Hb; [|apply andb_false_r].
    apply isMatchableAt_valid, isValidPosition_bounds in Hb.
    rewrite andb_true_r. apply Z.ltb_lt. lia. }
  rewrite (Hw _ eq_refl).
  destruct (GridManager.isMatchableAt gm (x + 1) y) eqn:Mr.
  - pose proof (probe_grid gm x y (x + 1) y H M Mr ltac:(intros [= ?]; lia)) as Hg.
    destruct (GridManager.probe gm x y (x + 1) y) as [rightMatch gm1] eqn:Hp.
    cbn [fst snd] in Hg. subst gm1. destruct rightMatch; cbn [fst snd].
    + split; [reflexivity|]. split; [left; reflexivity|]. split; [reflexivity|].
      split; [exact Mr|]. rewrite Hp. reflexivity.
    + rewrite (Hh _ eq_refl).
      destruct (GridManager.isMatchableAt gm x (y + 1)) eqn:Md.
      * destruct (GridManager.probe gm x y x (y + 1)) as [downMatch gm2] eqn:Hp2.
        destruct downMatch; cbn [fst snd].
        -- split; [reflexivity|]. split; [right; reflexivity|]. split; [reflexivity|].
           split; [exact Md|]. rewrite Hp2. reflexivity.
        -- intros _. split; intros _; reflexivity.
      * cbn [fst snd]. intros _. split; [reflexivity|discriminate].
  - rewrite (Hh _ eq_refl).
    destruct (GridManager.isMatchableAt gm x (y + 1)) eqn:Md.
    + destruct (GridManager.probe gm x y x (y + 1)) as [downMatch gm2] eqn:Hp2.
      destruct downMatch; cbn [fst snd].
      * split; [reflexivity|]. split; [right; reflexivity|]. split; [reflexivity|].
        split; [exact Md|]. rewrite Hp2. reflexivity.
      * intros _. split; [discriminate|reflexivity].
    + cbn [fst snd]. intros _. split; discriminate.
Qed.

Lemma findHintIn_grid ps gm :
  fullGrid gm -> snd (GridManager.findHintIn ps gm) = gm.
Proof.
  intros H. induction ps as [|p ps IH]; simpl; [reflexivity|].
  pose proof (hintAt_grid gm (fst p) (snd p) H) as Hg.
  destruct (GridManager.hintAt gm (fst p) (snd p)) as [[hint|] gm']; simpl in *.
  - exact Hg.
  - subst gm'. exact IH.
Qed.

Lemma findHintIn_Some ps gm hint :
  fullGrid gm -> fst (GridManager.findHintIn ps gm) = Some hint ->
  exists p, In p ps /\ fst (GridManager.hintAt gm (fst p) (snd p)) = Some hint.
Proof.
  intros H. induction ps as [|p ps IH]; simpl; [discriminate|].
  pose proof (hintAt_grid gm (fst p) (snd p) H) as Hg.
  destruct (GridManager.hintAt gm (fst p) (snd p)) as [[hint'|] gm'] eqn:Hp;
    simpl in *.
  - intros [= <-]. exists p. rewrite Hp. auto.
  - subst gm'. intros Hf. destruct (IH Hf) as (q & Hq & Hhint). eauto.
Qed.

Lemma findHintIn_None ps gm :
  fullGrid gm -> fst (GridManager.findHintIn ps gm) = None ->
  forall p, In p ps -> fst (GridManager.hintAt gm (fst p) (snd p)) = None.
Proof.
  intros H. induction ps as [|p ps IH]; simpl; [contradiction|].
  pose proof (hintAt_grid gm (fst p) (snd p) H) as Hg.
  destruct (GridManager.hintAt gm (fst p) (snd p)) as [[hint'|] gm'] eqn:Hp;
    simpl in *; [discriminate|].
  subst gm'. intros Hf q [<-|Hq]; [rewrite Hp; reflexivity|]. apply IH; assumption.
Qed.

(** What a hint of findHint is. *)
Lemma findHint_Some_move gm p1 p2 :
  fullGrid gm ->
  fst (GridManager.findHint gm) = Some (p1, p2) ->
  (p2 = (fst p1 + 1, snd p1) \/ p2 = (fst p1, snd p1 + 1))
  /\ GridManager.areAdjacent (fst p1) (snd p1) (fst p2) (snd p2) = true
  /\ GridManager.isMatchableAt gm (fst p1) (snd p1) = true
  /\ GridManager.isMatchableAt gm (fst p2) (snd p2) = true
  /\ (let gm1 := GridManager.swap gm (fst p1) (snd p1) (fst p2) (snd p2) in
      GridManager.checkForMatchAt gm1 (fst p1) (snd p1)
      || GridManager.checkForMatchAt gm1 (fst p2) (snd p2) = true).
Proof.
  intros H Hhint. unfold GridManager.findHint in *.
  destruct (findHintIn_Some _ _ _ H Hhint) as ([x y] & _ & Hp).
  pose proof (hintAt_hint gm x y H) as Hspec. simpl in Hp. rewrite Hp in Hspec.
  destruct Hspec as (-> & Hp2 & M1 & M2 & Hprobe). simpl.
  split; [exact Hp2|]. split; [|split; [exact M1|split; [exact M2|exact Hprobe]]].
  unfold GridManager.areAdjacent.
  destruct Hp2 as [-> | ->]; simpl.
  - replace (x - (x + 1)) with (-1) by lia. rewrite Z.sub_diag. reflexivity.
  - replace (y - (y + 1)) with (-1) by lia. rewrite Z.sub_diag. reflexivity.
Qed.

(** X11.  On a full grid findHint leaves the grid as it found it, whether
    it returns a hint or null; and a hint it returns names a cell and its
    right or lower neighbour, both holding matchable tiles, whose swap
    lines up a match at one of the two cells (by the check of the grid
    manager). *)
Theorem findHint_sound (gm : GridManager.t) :
  fullGrid gm ->
  snd (GridManager.findHint gm) = gm
  /\ forall p1 p2 : Pos,
       fst (GridManager.findHint gm) = Some (p1, p2) ->
       (p2 = (fst p1 + 1, snd p1) \/ p2 = (fst p1, snd p1 + 1))
       /\ GridManager.areAdjacent (fst p1) (snd p1) (fst p2) (snd p2) = true
       /\ GridManager.isMatchableAt gm (fst p1) (snd p1) = true
       /\ GridManager.isMatchableAt gm (fst p2) (snd p2) = true
       /\ (let gm1 := GridManager.swap gm (fst p1) (snd p1) (fst p2) (snd p2) in
           GridManager.checkForMatchAt gm1 (fst p1) (snd p1)
           || GridManager.checkForMatchAt gm1 (fst p2) (snd p2) = true).
Proof.
  intros H. split.
  - unfold GridManager.findHint. apply findHintIn_grid, H.
  - intros p1 p2. apply findHint_Some_move, H.
Qed.

Lemma boardSwap_full : fullGrid boardSwap.
Proof. apply fullGridb_fullGrid. vm_compute. reflexivity. Qed.

Lemma boardStuck_full : fullGrid boardStuck.
Proof. apply fullGridb_fullGrid. vm_compute. reflexivity. Qed.

Lemma findHint_sound_witness :
  (fst (GridManager.findHint boardSwap) = Some ((2, 1), (3, 1))
   /\ snd (GridManager.findHint boardSwap) = boardSwap
   /\ GridManager.areAdjacent 2 1 3 1 = true
   /\ GridManager.isMatchableAt boardSwap 2 1 = true
   /\ GridManager.isMatchableAt boardSwap 3 1 = true
   /\ (let gm1 := GridManager.swap boardSwap 2 1 3 1 in
       GridManager.checkForMatchAt gm1 2 1 || GridManager.checkForMatchAt gm1 3 1 = true))
  /\ fst (GridManager.findHint boardStuck) = None
  /\ snd (GridManager.findHint boardStuck) = boardStuck.
Proof.
  destruct (findHint_sound boardSwap boardSwap_full) as [Hgrid Hhint].
  assert (Hfound : fst (GridManager.findHint boardSwap) = Some ((2, 1), (3, 1)))
    by (vm_compute; reflexivity).
  destruct (Hhint (2, 1) (3, 1) Hfound) as (_ & Hadj & M1 & M2 & Hcheck).
  split; [repeat split; assumption|].
  split; [vm_compute; reflexivity|].
  exact (proj1 (findHint_sound boardStuck boardStuck_full)).
Defined.

(** When findHint returns null on a full grid, no swap lines up a match. *)
Lemma findHint_None_no_move (gm : GridManager.t) :
  fullGrid gm ->
  fst (GridManager.findHint gm) = None ->
  forall x1 y1 x2 y2,
    GridManager.areAdjacent x1 y1 x2 y2 = true ->
    GridManager.isMatchableAt gm x1 y1 = true ->
    GridManager.isMatchableAt gm x2 y2 = true ->
    let gm1 := GridManager.swap gm x1 y1 x2 y2 in
    GridManager.checkForMatchAt gm1 x1 y1
    || GridManager.checkForMatchAt gm1 x2 y2 = false.
Proof.
  intros H Hnone x1 y1 x2 y2 Hadj M1 M2.
  unfold GridManager.findHint in Hnone.
  pose proof (findHintIn_None _ _ H Hnone) as Hall.
  assert (Hat : forall x y, GridManager.isMatchableAt gm x y = true ->
            (GridManager.isMatchableAt gm (x + 1) y = true ->
             fst (GridManager.probe gm x y (x + 1) y) = false)
            /\ (GridManager.isMatchableAt gm x (y + 1) = true ->
                fst (GridManager.probe gm x y x (y + 1)) = false)).
  { intros x y M. pose proof (hintAt_hint gm x y H) as Hspec.
    pose proof (isMatchableAt_valid _ _ _ M) as Hv.
    apply isValidPosition_bounds in Hv.
    pose proof (Hall (x, y) (proj2 (In_rowMajor _ _ x y) Hv)) as Hnone'.
    cbn [fst snd] in Hnone'. rewrite Hnone' in Hspec.
    apply Hspec, M. }
  pose proof (isMatchableAt_valid _ _ _ M1) as V1.
  pose proof (isMatchableAt_valid _ _ _ M2) as V2.
  apply areAdjacent_direction in Hadj. simpl.
  unfold CONFIG.DIRECTIONS in Hadj.
  destruct Hadj as [Hd|[Hd|[Hd|[Hd|[]]]]]; injection Hd as Hdx Hdy.
  - (* (x2, y2) is above (x1, y1) *)
    assert (x2 = x1) by lia. assert (y1 = y2 + 1) by lia. subst x2 y1.
    destruct (Hat x1 y2 M2) as [_ Hdown]. specialize (Hdown M1).
    unfold GridManager.probe in Hdown. simpl in Hdown.
    rewrite <- (swap_comm gm x1 (y2 + 1) x1 y2); [rewrite orb_comm; exact Hdown| | |].
    + apply fullGrid_cellExists; assumption.
    + apply fullGrid_cellExists; assumption.
    + intros [= ?]. lia.
  - assert (x2 = x1) by lia. assert (y2 = y1 + 1) by lia. subst x2 y2.
    destruct (Hat x1 y1 M1) as [_ Hdown]. exact (Hdown M2).
  - assert (y2 = y1) by lia. assert (x1 = x2 + 1) by lia. subst y2 x1.
    destruct (Hat x2 y1 M2) as [Hright _]. specialize (Hright M1).
    unfold GridManager.probe in Hright. simpl in Hright.
    rewrite <- (swap_comm gm (x2 + 1) y1 x2 y1); [rewrite orb_comm; exact Hright| | |].
    + apply fullGrid_cellExists; assumption.
    + apply fullGrid_cellExists; assumption.
    + intros [= ?]. lia.
  - assert (y2 = y1) by lia. assert (x2 = x1 + 1) by lia. subst y2 x2.
    destruct (Hat x1 y1 M1) as [Hright _]. exact (Hright M2).
Qed.

(** X12.  When, on a full grid, findHint returns null, no swap of two
    adjacent cells that hold matchable tiles lines up a match at either
    cell (by the check of the grid manager): the search misses no move. *)
Theorem findHint_complete (gm : GridManager.t) :
  fullGrid gm ->
  fst (GridManager.findHint gm) = None ->
  forall x1 y1 x2 y2,
    GridManager.areAdjacent x1 y1 x2 y2 = true ->
    GridManager.isMatchableAt gm x1 y1 = true ->
    GridManager.isMatchableAt gm x2 y2 = true ->
    let gm1 := GridManager.swap gm x1 y1 x2 y2 in
    GridManager.checkForMatchAt gm1 x1 y1
    || GridManager.checkForMatchAt gm1 x2 y2 = false.
Proof. exact (findHint_None_no_move gm). Qed.

Lemma findHint_complete_witness :
  let gm1 := GridManager.swap boardStuck 0 0 1 0 in
  GridManager.checkForMatchAt gm1 0 0 || GridManager.checkForMatchAt gm1 1 0 = false.
Proof.
  apply (findHint_complete boardStuck boardStuck_full); vm_compute; reflexivity.
Defined.

(** *** hasPossibleMoves *)

(** The loop body of hasPossibleMoves returns true where the loop body of
    findHint returns a hint, and leaves the same grid. *)
Lemma possibleMoveAt_hintAt gm x y :
  GridManager.possibleMoveAt gm x y
  = (match fst (GridManager.hintAt gm x y) with Some _ => true | None => false end,
     snd (GridManager.hintAt gm x y)).
Proof.
  unfold GridManager.possibleMoveAt, GridManager.hintAt, GridManager.isMatchableAt,
    GridManager.probe.
  destruct (GridManager.getTile gm x y) as [tile|]; [|reflexivity].
  destruct (Tile.isMatchable tile); cbn [negb]; [|reflexivity].
  assert (Hdown : forall g : GridManager.t,
            (let '(bottomMatch, gm2) :=
               if y <? GridManager.height g - 1 then
                 match GridManager.getTile g x (y + 1) with
                 | Some bottomTile =>
                     if Tile.isMatchable bottomTile then
                       (GridManager.checkForMatchAt (GridManager.swap g x y x (y + 1)) x y
                        || GridManager.checkForMatchAt
                             (GridManager.swap g x y x (y + 1)) x (y + 1),
                        GridManager.swap (GridManager.swap g x y x (y + 1)) x y x (y + 1))
                     else (false, g)
                 | None => (false, g)
                 end
               else (false, g) in
             if bottomMatch then (true, gm2) else (false, gm2))
            = (let r :=
                 let '(downMatch, gm2) :=
                   if (y <? GridManager.height g - 1)
                      && match GridManager.getTile g x (y + 1) with
                         | Some tl => Tile.isMatchable tl
                         | None => false
                         end
                   then
                     (GridManager.checkForMatchAt (GridManager.swap g x y x (y + 1)) x y
                      || GridManager.checkForMatchAt
                           (GridManager.swap g x y x (y + 1)) x (y + 1),
                      GridManager.swap (GridManager.swap g x y x (y + 1)) x y x (y + 1))
                   else (false, g) in
                 if downMatch then (Some ((x, y), (x, y + 1)), gm2) else (None, gm2) in
               (match fst r with Some _ => true | None => false end, snd r))).
  { intros g. destruct (y <? GridManager.height g - 1); cbn [andb]; [|reflexivity].
    destruct (GridManager.getTile g x (y + 1)) as [bottomTile|]; [|reflexivity].
    destruct (Tile.isMatchable bottomTile); [|reflexivity].
    destruct (_ || _); reflexivity. }
  destruct (x <? GridManager.width gm - 1); cbn [andb]; [|apply Hdown].
  destruct (GridManager.getTile gm (x + 1) y) as [rightTile|]; [|apply Hdown].
  destruct (Tile.isMatchable rightTile); [|apply Hdown].
  cbv zeta.
  destruct (_ || _); [reflexivity|apply Hdown].
Qed.

Lemma hasPossibleMovesIn_findHintIn ps : forall gm,
  GridManager.hasPossibleMovesIn ps gm
  = (match fst (GridManager.findHintIn ps gm) with Some _ => true | None => false end,
     snd (GridManager.findHintIn ps gm)).
Proof.
  induction ps as [|p ps IH]; intros gm; simpl; [reflexivity|].
  rewrite possibleMoveAt_hintAt.
  destruct (GridManager.hintAt gm (fst p) (snd p)) as [[hint|] gm']; cbn [fst snd];
    [reflexivity|].
  apply IH.
Qed.

(** X13.  hasPossibleMoves returns true exactly where findHint returns a
    hint, and both leave the same grid behind.  On a full grid
    hasPossibleMoves leaves the grid as it found it, and it returns true
    exactly when some swap of two adjacent cells that hold matchable tiles
    lines up a match at one of the two cells (by the check of the grid
    manager). *)
Theorem hasPossibleMoves_findHint (gm : GridManager.t) :
  GridManager.hasPossibleMoves gm
  = (match fst (GridManager.findHint gm) with Some _ => true | None => false end,
     snd (GridManager.findHint gm))
  /\ (fullGrid gm ->
      snd (GridManager.hasPossibleMoves gm) = gm
      /\ (fst (GridManager.hasPossibleMoves gm) = true
          <-> exists x1 y1 x2 y2,
                GridManager.areAdjacent x1 y1 x2 y2 = true
                /\ GridManager.isMatchableAt gm x1 y1 = true
                /\ GridManager.isMatchableAt gm x2 y2 = true
                /\ (let gm1 := GridManager.swap gm x1 y1 x2 y2 in
                    GridManager.checkForMatchAt gm1 x1 y1
                    || GridManager.checkForMatchAt gm1 x2 y2 = true))).
Proof.
  assert (Heq : GridManager.hasPossibleMoves gm
                = (match fst (GridManager.findHint gm) with
                   | Some _ => true
                   | None => false
                   end, snd (GridManager.findHint gm))).
  { unfold GridManager.hasPossibleMoves, GridManager.findHint.
    apply hasPossibleMovesIn_findHintIn. }
  split; [exact Heq|]. intros H. rewrite Heq. cbn [fst snd].
  split; [unfold GridManager.findHint; apply findHintIn_grid, H|].
  destruct (fst (GridManager.findHint gm)) as [[p1 p2]|] eqn:Hhint.
  - split; [intros _|reflexivity].
    destruct (findHint_Some_move gm p1 p2 H Hhint) as (_ & Hadj & M1 & M2 & Hcheck).
    exists (fst p1), (snd p1), (fst p2), (snd p2). auto.
  - split; [discriminate|].
    intros (x1 & y1 & x2 & y2 & Hadj & M1 & M2 & Hcheck).
    pose proof (findHint_None_no_move gm H Hhint x1 y1 x2 y2 Hadj M1 M2) as Hno.
    cbv zeta in Hno, Hcheck. congruence.
Qed.

Lemma hasPossibleMoves_findHint_witness :
  fst (GridManager.hasPossibleMoves boardSwap) = true
  /\ snd (GridManager.hasPossibleMoves boardSwap) = boardSwap
  /\ GridManager.hasPossibleMoves boardStuck = (false, boardStuck).
Proof.
  destruct (hasPossibleMoves_findHint boardSwap) as [_ Hswap].
  destruct (Hswap boardSwap_full) as [Hgrid Htrue].
  destruct (hasPossibleMoves_findHint boardStuck) as [Hstuck _].
  split; [|split; [exact Hgrid|]].
  - apply Htrue. exists 2, 1, 3, 1. vm_compute. auto.
  - rewrite Hstuck. vm_compute. reflexivity.
Defined.


(** ** processGravity leaves no hole *)

Lemma pendingb_pending gm x y : pendingb gm (x, y) = true <-> pending gm x y.
Proof.
  unfold pendingb, pending. simpl. rewrite andb_true_iff, negb_true_iff. tauto.
Qed.

Lemma emptyPositions_nil gm x :
  (forall y, ~ pending gm x y) -> GravitySystem.emptyPositions gm x = [].
Proof.
  intros H. destruct (GravitySystem.emptyPositions gm x) as [|y l] eqn:Hl; [reflexivity|].
  exfalso. apply (H y).
  assert (Hin : In y (GravitySystem.emptyPositions gm x)) by (rewrite Hl; left; reflexivity).
  apply In_emptyPositions in Hin. split; tauto.
Qed.

Lemma applyGravity_no_hole gm :
  (forall x y, ~ pending gm x y) -> GravitySystem.applyGravity gm = (gm, []).
Proof.
  intros H. unfold GravitySystem.applyGravity.
  generalize (seqZ 0 (GridManager.width gm)) as xs.
  induction xs as [|x xs IH]; simpl; [reflexivity|].
  unfold GravitySystem.applyGravityColumn at 2. simpl.
  rewrite emptyPositions_nil by apply H. simpl. exact IH.
Qed.

Lemma applyGravityFully_no_hole gm :
  (forall x y, ~ pending gm x y) -> GravitySystem.applyGravityFully gm = (gm, []).
Proof.
  intros H. unfold GravitySystem.applyGravityFully. simpl.
  rewrite (applyGravity_no_hole gm H). reflexivity.
Qed.

Lemma createNonMatchingTile_not_empty cells x y tileTypes tape :
  ~ In CONFIG.TILE_TYPES.EMPTY tileTypes ->
  Tile.isEmpty (fst (GridManager.createNonMatchingTile cells x y tileTypes tape)) = false.
Proof.
  intros Hpal. unfold Tile.isEmpty.
  destruct (String.eqb_spec
              (Tile.type (fst (GridManager.createNonMatchingTile cells x y tileTypes tape)))
              CONFIG.TILE_TYPES.EMPTY) as [Heq|]; [exfalso|reflexivity].
  destruct (GridManager.candidateTypes cells x y tileTypes) as [|c cs] eqn:Hcand.
  - unfold GridManager.createNonMatchingTile in Heq. rewrite Hcand in Heq.
    destruct (randomIndex _ tape) as [i tape']. simpl in Heq.
    destruct i; discriminate.
  - pose proof (createNonMatchingTile_type cells x y tileTypes tape) as Hin.
    rewrite Hcand in Hin. specialize (Hin ltac:(discriminate)).
    rewrite <- Hcand in Hin. apply candidateTypes_incl in Hin.
    rewrite Heq in Hin. contradiction.
Qed.

(** After spawnNewTiles no cell is left to fill, when the palette does not
    name the empty type. *)
Lemma spawnNewTiles_no_hole gm tape :
  ~ In CONFIG.TILE_TYPES.EMPTY (GridManager.tileTypes gm) ->
  forall x y, ~ pending (fst (fst (GravitySystem.spawnNewTiles gm tape))) x y.
Proof.
  intros Hpal x y Hpend.
  pose proof (spawn_fold_spawnedFrom
                (GravitySystem.columnMajor (GridManager.width gm) (GridManager.height gm))
                gm tape []) as [F T].
  fold (GravitySystem.spawnNewTiles gm tape) in F, T.
  destruct (pendingb gm (x, y)) eqn:Hb;
    [apply pendingb_pending in Hb; rename Hb into Hold
    |assert (Hold : ~ pending gm x y)
       by (intros Hp; apply pendingb_pending in Hp; congruence)].
  - destruct (spawnNewTiles_cell gm tape x y Hold) as (gmT & tapeT & _ & Hget).
    destruct Hpend as [_ He]. unfold GridManager.isEmpty in He. rewrite Hget in He.
    unfold Tile.isEmpty in He. simpl in He.
    pose proof (createNonMatchingTile_not_empty (GridManager.grid gmT) x y
                  (GridManager.tileTypes gm) tapeT Hpal) as Hne.
    unfold Tile.isEmpty in Hne. congruence.
  - apply Hold. eapply pending_ext; [| |exact Hpend].
    + destruct F as (_ & _ & _ & _ & Hc). symmetry. exact Hc.
    + symmetry. apply T. exact Hold.
Qed.

(** X14.  When the palette does not name the empty type, processGravity
    leaves no hole: afterwards every empty cell is a fixed one (the cell of
    the character), getEmptyPositions returns nothing, and the compaction
    that follows the spawning moves no tile, so that the grid is the one
    spawnNewTiles made and the movements are those of the first
    compaction. *)
Theorem processGravity_leaves_no_hole (gm : GridManager.t) (tape : Tape) :
  ~ In CONFIG.TILE_TYPES.EMPTY (GridManager.tileTypes gm) ->
  let r := GravitySystem.processGravity gm tape in
  let gm' := fst (fst (fst r)) in
  let compacted := GravitySystem.applyGravityFully gm in
  (forall x y, GridManager.isEmpty gm' x y = true ->
               GravitySystem.isPositionFixed gm' x y = true)
  /\ GravitySystem.getEmptyPositions gm' = []
  /\ gm' = fst (fst (GravitySystem.spawnNewTiles (fst compacted) tape))
  /\ snd (fst r) = concat (snd compacted).
Proof.
  intros Hpal r gm' compacted.
  pose proof (applyGravityFully_keepsFixed gm) as [[F _] _]. fold compacted in F.
  assert (Hpal1 : ~ In CONFIG.TILE_TYPES.EMPTY (GridManager.tileTypes (fst compacted))).
  { destruct F as (_ & _ & -> & _). exact Hpal. }
  pose proof (spawnNewTiles_no_hole (fst compacted) tape Hpal1) as Hno.
  assert (Hr : gm' = fst (fst (GravitySystem.spawnNewTiles (fst compacted) tape))
               /\ snd (fst r) = concat (snd compacted)).
  { subst gm' r. unfold GravitySystem.processGravity. fold compacted.
    destruct compacted as [gm1 all]. simpl in *.
    destruct (GravitySystem.spawnNewTiles gm1 tape) as [[gm2 tape'] newTiles].
    simpl in *. destruct newTiles; [split; reflexivity|].
    rewrite (applyGravityFully_no_hole gm2 Hno). simpl.
    rewrite app_nil_r. split; reflexivity. }
  destruct Hr as [Hgm Hmv]. rewrite <- Hgm in Hno.
  split; [|split; [|split; assumption]].
  - intros x y He.
    destruct (GravitySystem.isPositionFixed gm' x y) eqn:Hf; [reflexivity|].
    exfalso. apply (Hno x y). split; assumption.
  - unfold GravitySystem.getEmptyPositions.
    destruct (filter _ _) as [|p l] eqn:Hl; [reflexivity|]. exfalso.
    assert (Hin : p ∈ p :: l) by (left).
    rewrite <- Hl in Hin. apply list_elem_of_filter in Hin as [Hp _].
    apply andb_true_iff in Hp as [He Hf]. apply negb_true_iff in Hf.
    apply (Hno (fst p) (snd p)). split; assumption.
Qed.

Lemma processGravity_leaves_no_hole_witness :
  let r := GravitySystem.processGravity boardSpawn [1; 2]%nat in
  let gm' := fst (fst (fst r)) in
  let compacted := GravitySystem.applyGravityFully boardSpawn in
  (forall x y, GridManager.isEmpty gm' x y = true ->
               GravitySystem.isPositionFixed gm' x y = true)
  /\ GravitySystem.getEmptyPositions gm' = []
  /\ gm' = fst (fst (GravitySystem.spawnNewTiles (fst compacted) [1; 2]%nat))
  /\ snd (fst r) = concat (snd compacted).
Proof.
  apply (processGravity_leaves_no_hole boardSpawn [1; 2]%nat).
  vm_compute. intros [H|[H|[H|[]]]]; discriminate.
Defined.

(** ** The records of spawnNewTiles *)

Lemma pendingb_ext gm gm' p :
  GridManager.characterPosition gm' = GridManager.characterPosition gm ->
  GridManager.getTile gm' (fst p) (snd p) = GridManager.getTile gm (fst p) (snd p) ->
  pendingb gm' p = pendingb gm p.
Proof.
  intros Hc Ht. unfold pendingb.
  rewrite (isEmpty_ext gm gm' _ _ Ht), (isPositionFixed_ext gm gm' _ _ Hc Ht).
  reflexivity.
Qed.

Lemma spawnAt_frame gm tape newTiles p :
  sameFrame gm (fst (fst (GravitySystem.spawnAt (gm, tape, newTiles) p))).
Proof. apply spawnAt_spawnedFrom. Qed.

Lemma spawnAt_records gm tape newTiles p :
  map spawnPos (snd (GravitySystem.spawnAt (gm, tape, newTiles) p))
  = map spawnPos newTiles ++ (if pendingb gm p then [p] else []).
Proof.
  destruct p as [x y]. unfold GravitySystem.spawnAt, pendingb. simpl.
  destruct (GravitySystem.isPositionFixed gm x y); simpl.
  - rewrite andb_false_r, app_nil_r. reflexivity.
  - rewrite andb_true_r. destruct (GridManager.isEmpty gm x y).
    + destruct (GridManager.createNonMatchingTile _ _ _ _ _) as [newTile tape'].
      simpl. rewrite map_app. reflexivity.
    + rewrite app_nil_r. reflexivity.
Qed.

Lemma spawn_fold_records ps : forall gm tape newTiles,
  List.NoDup ps ->
  map spawnPos (snd (fold_left GravitySystem.spawnAt ps (gm, tape, newTiles)))
  = map spawnPos newTiles ++ List.filter (pendingb gm) ps.
Proof.
  induction ps as [|p ps IH]; intros gm tape newTiles Hnd.
  - simpl. rewrite app_nil_r. reflexivity.
  - inversion Hnd as [|? ? Hp Hnd']; subst. cbn [fold_left List.filter].
    pose proof (spawnAt_records gm tape newTiles p) as Hrec.
    pose proof (spawnAt_frame gm tape newTiles p) as (_ & _ & _ & _ & Hc).
    assert (Hother : forall q, In q ps ->
              GridManager.getTile
                (fst (fst (GravitySystem.spawnAt (gm, tape, newTiles) p))) (fst q) (snd q)
              = GridManager.getTile gm (fst q) (snd q)).
    { intros [qx qy] Hq. apply spawnAt_other. intros ->. contradiction. }
    destruct (GravitySystem.spawnAt (gm, tape, newTiles) p) as [[gm1 tape1] nt1].
    simpl in Hrec, Hc, Hother. rewrite (IH gm1 tape1 nt1 Hnd'), Hrec, <- app_assoc.
    f_equal.
    assert (Hfilter : List.filter (pendingb gm1) ps = List.filter (pendingb gm) ps).
    { apply List.filter_ext_in. intros q Hq. apply pendingb_ext; [exact Hc|].
      apply Hother, Hq. }
    rewrite Hfilter. destruct (pendingb gm p); reflexivity.
Qed.

Lemma spawnAt_spawned gm tape newTiles p ps :
  ~ In p ps ->
  spawned (p :: ps) (gm, tape, newTiles) ->
  spawned ps (GravitySystem.spawnAt (gm, tape, newTiles) p).
Proof.
  intros Hp Hinv. destruct p as [x y].
  assert (Hkeep : spawned ps (gm, tape, newTiles)).
  { intros s Hs. destruct (Hinv s Hs) as [Hnot Hget]. split; [|exact Hget].
    intros Hin. apply Hnot. right. exact Hin. }
  unfold GravitySystem.spawnAt.
  destruct (GravitySystem.isPositionFixed gm x y) eqn:Hf; [exact Hkeep|].
  destruct (GridManager.isEmpty gm x y) eqn:He; [|exact Hkeep].
  destruct (GridManager.createNonMatchingTile _ _ _ _ _) as [newTile tape'].
  intros s Hs. simpl in Hs. apply in_app_iff in Hs as [Hs|[<-|[]]].
  - destruct (Hinv s Hs) as [Hnot Hget]. simpl in *. split.
    + intros Hin. apply Hnot. right. exact Hin.
    + rewrite getTile_setTile_ne; [exact Hget|].
      intros Heq. apply Hnot. left. unfold spawnPos. congruence.
  - simpl. split; [exact Hp|].
    apply isEmpty_Some in He as (hole & Hhole & _).
    eapply getTile_setTile_eq. exact Hhole.
Qed.

Lemma spawn_fold_spawned ps : forall st,
  List.NoDup ps -> spawned ps st ->
  spawned [] (fold_left GravitySystem.spawnAt ps st).
Proof.
  induction ps as [|p ps IH]; intros st Hnd Hinv; [exact Hinv|].
  inversion Hnd as [|? ? Hp Hnd']; subst. cbn [fold_left].
  apply IH; [exact Hnd'|]. destruct st as [[gm tape] newTiles].
  apply spawnAt_spawned; assumption.
Qed.

Lemma filter_pendingb_In gm ps p :
  In p (List.filter (pendingb gm) ps) <-> In p ps /\ pendingb gm p = true.
Proof. apply List.filter_In. Qed.

(** X15.  spawnNewTiles returns one record for every cell that was empty
    and not fixed, in the order of its loops (column by column) and for no
    other cell: the cells of the records are those of getEmptyPositions, up
    to the order; and the tile of each record is the tile that the grid
    holds in the cell of the record afterwards. *)
Theorem spawnNewTiles_records (gm : GridManager.t) (tape : Tape) :
  let r := GravitySystem.spawnNewTiles gm tape in
  map spawnPos (snd r)
  = List.filter (pendingb gm)
      (GravitySystem.columnMajor (GridManager.width gm) (GridManager.height gm))
  /\ Permutation (map spawnPos (snd r)) (GravitySystem.getEmptyPositions gm)
  /\ (forall s, In s (snd r) ->
        GridManager.getTile (fst (fst r)) (Spawn.x s) (Spawn.y s)
        = Some (Spawn.tile s)).
Proof.
  intros r.
  assert (Hrec : map spawnPos (snd r)
                 = List.filter (pendingb gm)
                     (GravitySystem.columnMajor (GridManager.width gm)
                        (GridManager.height gm))).
  { subst r. unfold GravitySystem.spawnNewTiles.
    rewrite spawn_fold_records by apply NoDup_columnMajor. reflexivity. }
  split; [exact Hrec|]. split.
  - rewrite Hrec. apply NoDup_Permutation.
    + apply NoDup_ListNoDup, List.NoDup_filter, NoDup_columnMajor.
    + unfold GravitySystem.getEmptyPositions. apply NoDup_filter.
      apply NoDup_ListNoDup, NoDup_rowMajor.
    + intros [x y]. unfold GravitySystem.getEmptyPositions.
      rewrite list_elem_of_filter, !list_elem_of_In, filter_pendingb_In.
      rewrite In_columnMajor, In_rowMajor. unfold pendingb. simpl. tauto.
  - subst r. unfold GravitySystem.spawnNewTiles.
    pose proof (spawn_fold_spawned
                  (GravitySystem.columnMajor (GridManager.width gm)
                     (GridManager.height gm)) (gm, tape, [])
                  (NoDup_columnMajor _ _) ltac:(intros s [])) as H.
    intros s Hs. apply (H s Hs).
Qed.

(** ** Gravity conserves the tiles *)

Lemma typeCount_setTile gm x y tile old c :
  GridManager.getTile gm x y = Some old ->
  (typeCount (GridManager.setTile gm x y tile) c + typeIs gm c (x, y)
   = typeCount gm c + typeIs (GridManager.setTile gm x y tile) c (x, y))%nat.
Proof.
  intros Hold. unfold typeCount.
  destruct (sameFrame_setTile gm x y tile) as (-> & -> & _).
  apply list_sum_map_change.
  - apply NoDup_rowMajor.
  - eapply getTile_Some_In_rowMajor; eauto.
  - intros [x' y'] Hne. unfold typeIs. simpl.
    rewrite getTile_setTile_ne by assumption. reflexivity.
Qed.

Lemma conserves_refl st : conserves st st.
Proof.
  split; [apply sameFrame_refl|]. split; [reflexivity|].
  exists []. rewrite app_nil_r. split; [reflexivity|constructor].
Qed.

Lemma falls_sameFrame gm gm' mv : sameFrame gm gm' -> falls gm' mv -> falls gm mv.
Proof. intros (Hw & Hh & _). unfold falls. rewrite Hw, Hh. tauto. Qed.

Lemma conserves_trans st1 st2 st3 :
  conserves st1 st2 -> conserves st2 st3 -> conserves st1 st3.
Proof.
  intros (F1 & C1 & n1 & M1 & D1) (F2 & C2 & n2 & M2 & D2).
  split; [eapply sameFrame_trans; eassumption|].
  split; [intros c; rewrite C2, C1; reflexivity|].
  exists (n1 ++ n2). split; [rewrite M2, M1, app_assoc; reflexivity|].
  apply Forall_app. split; [assumption|].
  eapply Forall_impl; [exact D2|]. intros mv. apply falls_sameFrame, F1.
Qed.

Lemma fallInto_conserves x st emptyY l :
  0 <= x < GridManager.width (fst st) ->
  holes (fst st) x (emptyY :: l) ->
  conserves st (GravitySystem.fallInto x st emptyY).
Proof.
  intros Hx [_ Hholes]. unfold GravitySystem.fallInto.
  destruct (GravitySystem.findFalling (fst st) x (reverse (seqZ 0 emptyY)))
    as [[searchY tile]|] eqn:Hfind; [|apply conserves_refl].
  apply findFalling_Some in Hfind as (Hin & Hfree & Htile & Hmatch).
  apply elem_of_reverse_seqZ in Hin.
  destruct (Hholes emptyY (or_introl eq_refl)) as [HholeFree HholeEmpty].
  pose proof (isEmpty_valid _ _ _ HholeEmpty) as [_ HemptyY].
  apply isEmpty_Some in HholeEmpty as (hole & Hhole & HholeEmpty).
  cbn [fst snd]. split; [|split]; cbn [fst snd].
  - eapply move_sameFrame.
  - intros c.
    pose proof (typeCount_setTile (fst st) x emptyY tile hole c Hhole) as H1.
    assert (Hmid : GridManager.getTile (GridManager.setTile (fst st) x emptyY tile)
                     x searchY = Some tile).
    { rewrite getTile_setTile_ne by (intros [= ?]; lia). assumption. }
    pose proof (typeCount_setTile (GridManager.setTile (fst st) x emptyY tile) x searchY
                  (Tile.new CONFIG.TILE_TYPES.EMPTY x searchY) tile c Hmid) as H2.
    fold (GridManager.setEmpty (GridManager.setTile (fst st) x emptyY tile) x searchY)
      in H2.
    unfold typeIs in H1, H2. cbn [fst snd] in H1, H2.
    rewrite Hhole in H1.
    erewrite getTile_setTile_eq in H1 by eassumption.
    rewrite Hmid in H2.
    erewrite getTile_setEmpty_eq in H2 by eassumption.
    cbn [Tile.type Tile.new Tile.moveTo] in H1, H2.
    unfold Tile.isEmpty in HholeEmpty. apply String.eqb_eq in HholeEmpty.
    rewrite HholeEmpty in H1.
    destruct (String.eqb CONFIG.TILE_TYPES.EMPTY c),
      (String.eqb (Tile.type tile) c); lia.
  - eexists. split; [reflexivity|]. constructor; [|constructor].
    unfold falls. simpl. lia.
Qed.

Lemma column_conserves x l : forall st,
  0 <= x < GridManager.width (fst st) ->
  holes (fst st) x l -> conserves st (fold_left (GravitySystem.fallInto x) l st).
Proof.
  induction l as [|emptyY l IH]; intros st Hx Hholes; simpl.
  - apply conserves_refl.
  - destruct (fallInto_settles x st emptyY l Hholes) as [[F _] Hrest].
    eapply conserves_trans; [eapply fallInto_conserves; eassumption|].
    apply IH; [|exact Hrest]. destruct F as (-> & _). exact Hx.
Qed.

Lemma applyGravityColumn_conserves st x :
  0 <= x < GridManager.width (fst st) ->
  conserves st (GravitySystem.applyGravityColumn st x).
Proof. intros Hx. apply column_conserves; [exact Hx|apply emptyPositions_holes]. Qed.

Lemma columns_conserve xs : forall st,
  (forall x, In x xs -> 0 <= x < GridManager.width (fst st)) ->
  conserves st (fold_left GravitySystem.applyGravityColumn xs st).
Proof.
  induction xs as [|x xs IH]; intros st Hxs; simpl; [apply conserves_refl|].
  pose proof (applyGravityColumn_conserves st x (Hxs x (or_introl eq_refl))) as Hstep.
  eapply conserves_trans; [exact Hstep|]. apply IH.
  intros x' Hx'. destruct Hstep as ((-> & _) & _). apply Hxs. right. exact Hx'.
Qed.

Lemma applyGravity_conserves gm : conserves (gm, []) (GravitySystem.applyGravity gm).
Proof.
  apply columns_conserve. intros x Hx.
  apply list_elem_of_In, elem_of_seqZ in Hx. simpl. lia.
Qed.

Lemma applyGravityLoop_conserves fuel : forall gm all r,
  GravitySystem.applyGravityLoop fuel gm all = Some r ->
  exists new, snd r = all ++ new /\ conserves (gm, []) (fst r, concat new).
Proof.
  induction fuel as [|fuel IH]; intros gm all r Hr; simpl in Hr; [discriminate|].
  pose proof (applyGravity_conserves gm) as Hpass.
  destruct (GravitySystem.applyGravity gm) as [gm1 movements].
  destruct movements as [|mv movements].
  - injection Hr as <-. exists []. simpl. rewrite app_nil_r. split; [reflexivity|].
    exact Hpass.
  - destruct (IH _ _ _ Hr) as (new & Hnew & Hrest).
    exists ((mv :: movements) :: new).
    split; [rewrite Hnew, <- app_assoc; reflexivity|].
    eapply conserves_trans; [exact Hpass|].
    destruct Hrest as (F & Cn & n & M & D). simpl in *.
    split; [exact F|]. split; [exact Cn|].
    exists (concat new). split; [reflexivity|]. subst n. exact D.
Qed.

(** X16.  applyGravityFully neither makes nor loses a tile: the grid it
    returns holds as many tiles of every type as the grid it started from;
    and every movement it records goes straight down inside the grid (same
    column, from a row to a row below it). *)
Theorem applyGravityFully_conserves_tiles (gm : GridManager.t) :
  let r := GravitySystem.applyGravityFully gm in
  (forall c, typeCount (fst r) c = typeCount gm c)
  /\ Forall (falls gm) (concat (snd r))
  /\ sameFrame gm (fst r).
Proof.
  destruct (applyGravityFully_spec gm) as (gm' & all & Hfull & Hloop & _).
  simpl. rewrite Hfull. simpl.
  destruct (applyGravityLoop_conserves _ _ _ _ Hloop) as (new & Hnew & F & Cn & n & M & D).
  simpl in *. subst new n. split; [exact Cn|]. split; [exact D|exact F].
Qed.


(** ** The character *)

Lemma tryMoveUp_Some cc gm cc' gm' step c :
  CharacterController.character cc = Some c ->
  CharacterController.tryMoveUp cc gm = (cc', gm', Some step) ->
  Character.isMoving c = false /\ 0 < Character.y c
  /\ (exists tile,
         GridManager.getTile gm (Character.x c) (Character.y c - 1) = Some tile
         /\ Tile.isEmpty tile || Tile.isExit tile = true)
  /\ cc' = {| CharacterController.character :=
                Some (Character.moveTo c (Character.x c) (Character.y c - 1));
              CharacterController.exitY := CharacterController.exitY cc |}
  /\ gm' = GridManager.updateCharacterPosition gm (Character.x c) (Character.y c)
             (Character.x c) (Character.y c - 1)
  /\ step = stepAt c 0.
Proof.
  intros Hc. unfold CharacterController.tryMoveUp. rewrite Hc.
  destruct (Character.isMoving c); [discriminate|].
  unfold Character.getPosition.
  destruct (Character.y c <=? 0) eqn:Hy; [discriminate|]. apply Z.leb_gt in Hy.
  destruct (GridManager.getTile gm (Character.x c) (Character.y c - 1)) as [tile|];
    [|discriminate].
  destruct (Tile.isEmpty tile || Tile.isExit tile) eqn:Hcan; [|discriminate].
  intros [= <- <- <-]. split; [reflexivity|]. split; [assumption|].
  split; [eauto|]. split; [reflexivity|]. split; [reflexivity|].
  unfold stepAt. simpl. f_equal; lia.
Qed.

Lemma tryMoveUp_None cc gm cc' gm' :
  CharacterController.tryMoveUp cc gm = (cc', gm', None) -> cc' = cc /\ gm' = gm.
Proof.
  unfold CharacterController.tryMoveUp.
  destruct (CharacterController.character cc) as [c|]; [|intros [= <- <-]; auto].
  destruct (Character.isMoving c); [intros [= <- <-]; auto|].
  unfold Character.getPosition.
  destruct (Character.y c <=? 0); [intros [= <- <-]; auto|].
  destruct (match GridManager.getTile gm (Character.x c) (Character.y c - 1) with
            | Some tileAbove => Tile.isEmpty tileAbove || Tile.isExit tileAbove
            | None => false
            end); [discriminate|intros [= <- <-]; auto].
Qed.

(** X17.  tryMoveUp refuses to move exactly when the character is in row 0
    (or above it) or isBlocked says so; and when it moves, the character
    goes up one row in its column, onto a cell that held an empty tile or
    the exit tile, and the grid manager is told the new position. *)
Theorem tryMoveUp_isBlocked (cc : CharacterController.t) (gm : GridManager.t)
  (c : Character.t) :
  CharacterController.character cc = Some c ->
  Character.isMoving c = false ->
  let r := CharacterController.tryMoveUp cc gm in
  (snd r = None
   <-> Character.y c <= 0 \/ CharacterController.isBlocked cc gm = true)
  /\ (snd r = None -> fst r = (cc, gm))
  /\ (forall step, snd r = Some step ->
        step = stepAt c 0
        /\ CharacterController.character (fst (fst r))
           = Some (Character.moveTo c (Character.x c) (Character.y c - 1))
        /\ GridManager.characterPosition (snd (fst r))
           = (Character.x c, Character.y c - 1)
        /\ exists tile,
             GridManager.getTile gm (Character.x c) (Character.y c - 1) = Some tile
             /\ Tile.isEmpty tile || Tile.isExit tile = true).
Proof.
  intros Hc Hm r. split; [|split].
  - subst r. unfold CharacterController.tryMoveUp, CharacterController.isBlocked.
    rewrite Hc, Hm. unfold Character.getPosition.
    destruct (Character.y c <=? 0) eqn:Hy.
    + apply Z.leb_le in Hy. simpl. tauto.
    + apply Z.leb_gt in Hy.
      destruct (GridManager.getTile gm (Character.x c) (Character.y c - 1)) as [tile|].
      * destruct (Tile.isEmpty tile), (Tile.isExit tile); simpl;
          (split; [try discriminate; auto
                  |intros [?|?]; try lia; try discriminate; reflexivity]).
      * simpl. split; auto.
  - destruct r as [[cc' gm'] [step|]] eqn:Hr; simpl; [discriminate|].
    intros _. apply tryMoveUp_None in Hr as [-> ->]. reflexivity.
  - intros step Hstep. destruct r as [[cc' gm'] s] eqn:Hr. simpl in *. subst s.
    destruct (tryMoveUp_Some _ _ _ _ _ _ Hc Hr) as (_ & _ & Htile & -> & -> & ->).
    split; [reflexivity|]. split; [reflexivity|]. split; [reflexivity|exact Htile].
Qed.

Lemma tryMoveUp_isBlocked_witness :
  let cc := Game.characterController (gameOn boardLastStep (2, 1) 0 1) in
  let r := CharacterController.tryMoveUp cc boardLastStep in
  snd r = Some (stepAt (Character.new 2 1) 0)
  /\ GridManager.characterPosition (snd (fst r)) = (2, 0).
Proof.
  intros cc r.
  destruct (tryMoveUp_isBlocked cc boardLastStep (Character.new 2 1) eq_refl eq_refl)
    as (_ & _ & Hstep).
  destruct (Hstep (stepAt (Character.new 2 1) 0) ltac:(vm_compute; reflexivity))
    as (_ & _ & Hpos & _).
  split; [vm_compute; reflexivity|exact Hpos].
Defined.


(** ** moveToHighestEmpty *)

Lemma emptied_refl gm : emptied gm gm.
Proof. split; [apply sameBoard_refl|]. intros; left; reflexivity. Qed.

Lemma emptied_trans gm1 gm2 gm3 : emptied gm1 gm2 -> emptied gm2 gm3 -> emptied gm1 gm3.
Proof.
  intros [B1 E1] [B2 E2]. split; [eapply sameBoard_trans; eassumption|].
  intros x y. destruct (E2 x y) as [H2|H2]; [|right; exact H2].
  destruct (E1 x y) as [H1|H1]; [left; congruence|].
  right. unfold GridManager.isEmpty in *. rewrite H2. exact H1.
Qed.

Lemma getTile_setCharacterPosition gm p x y :
  GridManager.getTile (GridManager.setCharacterPosition gm p) x y
  = GridManager.getTile gm x y.
Proof. reflexivity. Qed.

Lemma getTile_updateCharacterPosition_other gm oldX oldY newX newY x y :
  (x, y) <> (oldX, oldY) ->
  GridManager.getTile (GridManager.updateCharacterPosition gm oldX oldY newX newY) x y
  = GridManager.getTile gm x y.
Proof.
  intros Hne. unfold GridManager.updateCharacterPosition.
  rewrite getTile_setCharacterPosition.
  destruct (negb _); [apply getTile_setEmpty_ne; assumption|reflexivity].
Qed.

Lemma setEmpty_emptied gm x y : emptied gm (GridManager.setEmpty gm x y).
Proof.
  split; [apply sameFrame_sameBoard, sameFrame_setEmpty|]. intros x' y'.
  destruct (decide ((x', y') = (x, y))) as [[= -> ->]|Hne];
    [|left; apply getTile_setEmpty_ne; assumption].
  unfold GridManager.setEmpty, GridManager.setTile, GridManager.isEmpty.
  destruct (GridManager.isValidPosition gm x y) eqn:Hv; [|left; reflexivity].
  unfold GridManager.getTile. rewrite isValidPosition_setGrid, Hv. simpl.
  destruct (cellSet_cases (GridManager.grid gm) x y
              (Some (Tile.moveTo (Tile.new CONFIG.TILE_TYPES.EMPTY x y) x y)))
    as [Hex|Heq]; [|left; rewrite Heq; reflexivity].
  right. rewrite cellAt_cellSet_eq by assumption. reflexivity.
Qed.

Lemma updateCharacterPosition_emptied gm oldX oldY newX newY :
  emptied gm (GridManager.updateCharacterPosition gm oldX oldY newX newY).
Proof.
  unfold GridManager.updateCharacterPosition.
  assert (Hset : forall g p, emptied g (GridManager.setCharacterPosition g p)).
  { intros g p. split; [repeat split|]. intros x y. left. reflexivity. }
  destruct (negb _); [|apply Hset].
  eapply emptied_trans; [apply setEmpty_emptied|apply Hset].
Qed.

Lemma stepAt_moveTo c i :
  stepAt (Character.moveTo c (Character.x c) (Character.y c - 1)) i = stepAt c (S i).
Proof. unfold stepAt. simpl Character.y. simpl Character.x. f_equal; lia. Qed.

Lemma climbedTo_step cc c k :
  climbedTo
    {| CharacterController.character :=
         Some (Character.moveTo c (Character.x c) (Character.y c - 1));
       CharacterController.exitY := CharacterController.exitY cc |}
    (Character.moveTo c (Character.x c) (Character.y c - 1)) k
  = climbedTo cc c (S k).
Proof.
  destruct k as [|k]; unfold climbedTo.
  - f_equal.
  - cbn [CharacterController.exitY]. f_equal. f_equal.
    unfold Character.moveTo. cbn [Character.x Character.y Character.startX
                                    Character.startY Character.isMoving
                                    Character.hasEscaped].
    f_equal. lia.
Qed.

(** The loop of moveToHighestEmpty. *)
Lemma climb_spec fuel : forall cc gm movements c,
  CharacterController.character cc = Some c ->
  exists k,
    let r := CharacterController.climb fuel cc gm movements in
    climbs cc gm c k (fst r, map (stepAt c) (seq 0 k))
    /\ snd r = movements ++ map (stepAt c) (seq 0 k)
    /\ ((Z.to_nat (Character.y c) < fuel)%nat ->
        (k <> O /\ CharacterController.hasEscaped (fst (fst r)) = true)
        \/ snd (CharacterController.tryMoveUp (fst (fst r)) (snd (fst r))) = None).
Proof.
  induction fuel as [|fuel IH]; intros cc gm movements c Hc.
  - exists O. simpl. split; [|split; [rewrite app_nil_r; reflexivity|lia]].
    split; [reflexivity|]. split; [lia|]. split; [reflexivity|].
    split; [reflexivity|]. split; [congruence|]. split; [apply emptied_refl|].
    split; [reflexivity|]. intros i Hi. lia.
  - cbn [CharacterController.climb].
    destruct (CharacterController.tryMoveUp cc gm) as [[cc1 gm1] [step|]] eqn:Hmove.
    + destruct (tryMoveUp_Some _ _ _ _ _ _ Hc Hmove)
        as (Hm & Hy & Htile & Hcc1 & Hgm1 & Hstep).
      set (c1 := Character.moveTo c (Character.x c) (Character.y c - 1)) in *.
      assert (Hc1 : CharacterController.character cc1 = Some c1)
        by (rewrite Hcc1; reflexivity).
      assert (Hfirst : climbs cc gm c 1 (cc1, gm1, [stepAt c 0])).
      { split; [reflexivity|]. split; [simpl; lia|]. split; [exact Hcc1|].
        split; [discriminate|]. split; [intros _; rewrite Hgm1; reflexivity|].
        split; [rewrite Hgm1; apply updateCharacterPosition_emptied|].
        split.
        - intros x y Hout. rewrite Hgm1.
          apply getTile_updateCharacterPosition_other. intros [= -> ->].
          apply Hout. simpl. lia.
        - intros i Hi. assert (i = O) by lia. subst i. simpl.
          rewrite Z.sub_0_r. exact Htile. }
      destruct (CharacterController.hasEscaped cc1) eqn:Hesc.
      * exists 1%nat. cbn [fst snd]. split; [exact Hfirst|].
        split; [rewrite Hstep; reflexivity|]. intros _. left. split; [discriminate|].
        exact Hesc.
      * destruct (IH cc1 gm1 (movements ++ [step]) c1 Hc1) as (k1 & Hclimb & Hrec & Hstop).
        cbn zeta in Hclimb, Hrec, Hstop.
        destruct (CharacterController.climb fuel cc1 gm1 (movements ++ [step]))
          as [[cc2 gm2] steps] eqn:Hrest.
        cbn [fst snd] in *.
        assert (Hmap : map (stepAt c1) (seq 0 k1) = map (stepAt c) (seq 1 k1)).
        { rewrite <- seq_shift, map_map. apply map_ext. intros i.
          apply stepAt_moveTo. }
        exists (S k1). cbn [fst snd]. split; [|split].
        -- destruct Hclimb as (_ & Hk1 & Hcc2 & Hzero & Hpos & Hemp & Hout & Hsteps).
           destruct Hfirst as (_ & _ & _ & _ & Hpos1 & Hemp1 & Hout1 & Hsteps1).
           unfold climbs. cbn [fst snd] in *.
           split; [reflexivity|]. split; [simpl Character.y in Hk1; lia|].
           split; [rewrite Hcc2, Hcc1; apply climbedTo_step|].
           split; [discriminate|]. split.
           { intros _. destruct k1 as [|k1].
             - rewrite (Hzero eq_refl). rewrite (Hpos1 ltac:(discriminate)). reflexivity.
             - rewrite (Hpos ltac:(discriminate)). simpl Character.x.
               simpl Character.y. f_equal. lia. }
           split; [eapply emptied_trans; eassumption|]. split.
           { intros x y Hno. rewrite Hout, Hout1; [reflexivity| |].
             - intros [-> Hy']. apply Hno. split; [reflexivity|]. simpl in Hy'. lia.
             - intros [Hx' Hy']. simpl in Hx', Hy'. apply Hno. split; [exact Hx'|]. lia. }
           intros i Hi. destruct i as [|i]; [apply Hsteps1; lia|].
           destruct (Hsteps i ltac:(lia)) as (tile & Ht & Hcan).
           exists tile. split; [|exact Hcan]. simpl Character.x in Ht.
           simpl Character.y in Ht. rewrite Hout1 in Ht.
           ++ rewrite <- Ht. f_equal. lia.
           ++ intros [_ Hy']. simpl in Hy'. lia.
        -- rewrite Hrec, Hstep, <- app_assoc, Hmap. reflexivity.
        -- intros Hfuel. destruct Hstop as [[Hk Hesc2]|Hnone].
           ++ simpl Character.y. lia.
           ++ left. split; [discriminate|exact Hesc2].
           ++ right. exact Hnone.
    + apply tryMoveUp_None in Hmove as Heq. destruct Heq as [-> ->].
      exists O. cbn [fst snd]. split; [|split].
      * split; [reflexivity|]. split; [lia|]. split; [reflexivity|].
        split; [reflexivity|]. split; [congruence|]. split; [apply emptied_refl|].
        split; [reflexivity|]. intros i Hi. lia.
      * simpl. rewrite app_nil_r. reflexivity.
      * intros _. right. rewrite Hmove. reflexivity.
Qed.

(** X18.  moveToHighestEmpty takes the character [k] rows straight up, one
    recorded step per row, never above row 0, and tells the grid manager
    the new position; it stops because the character has escaped or
    because tryMoveUp refuses the next step (the bound on the loop is never
    what stops it).  Of the grid only the cells that the character left
    change (they are empty afterwards, but for the exit cell), and every
    step went onto a cell that held an empty tile or the exit tile. *)
Theorem moveToHighestEmpty_climbs (cc : CharacterController.t)
  (gm : GridManager.t) (c : Character.t) :
  CharacterController.character cc = Some c ->
  let r := CharacterController.moveToHighestEmpty cc gm in
  exists k : nat,
    snd r = map (stepAt c) (seq 0 k)
    /\ Z.of_nat k <= Z.max 0 (Character.y c)
    /\ fst (fst r) = climbedTo cc c k
    /\ (k = O -> snd (fst r) = gm)
    /\ (k <> O ->
        GridManager.characterPosition (snd (fst r))
        = (Character.x c, Character.y c - Z.of_nat k))
    /\ (forall x y,
          ~ (x = Character.x c /\ Character.y c - Z.of_nat k < y <= Character.y c) ->
          GridManager.getTile (snd (fst r)) x y = GridManager.getTile gm x y)
    /\ (forall x y,
          GridManager.getTile (snd (fst r)) x y = GridManager.getTile gm x y
          \/ GridManager.isEmpty (snd (fst r)) x y = true)
    /\ (forall i, (i < k)%nat ->
          exists tile,
            GridManager.getTile gm (Character.x c) (Character.y c - Z.of_nat i - 1)
            = Some tile
            /\ Tile.isEmpty tile || Tile.isExit tile = true)
    /\ ((k <> O /\ CharacterController.hasEscaped (fst (fst r)) = true)
        \/ snd (CharacterController.tryMoveUp (fst (fst r)) (snd (fst r))) = None).
Proof.
  intros Hc r. subst r. unfold CharacterController.moveToHighestEmpty. rewrite Hc.
  destruct (climb_spec (S (Z.to_nat (Character.y c))) cc gm [] c Hc)
    as (k & Hclimb & Hrec & Hstop).
  cbn zeta in Hclimb, Hrec, Hstop.
  destruct Hclimb as (_ & Hk & Hcc & Hzero & Hpos & [_ Hemp] & Hout & Hsteps).
  cbn [fst snd] in *. exists k.
  split; [exact Hrec|]. split; [exact Hk|]. split; [exact Hcc|].
  split; [exact Hzero|]. split; [exact Hpos|]. split; [exact Hout|].
  split; [exact Hemp|]. split; [exact Hsteps|]. apply Hstop. lia.
Qed.

Lemma moveToHighestEmpty_climbs_witness :
  let cc := Game.characterController (gameOn boardLastStep (2, 1) 0 1) in
  let r := CharacterController.moveToHighestEmpty cc boardLastStep in
  exists k : nat,
    snd r = map (stepAt (Character.new 2 1)) (seq 0 k)
    /\ Z.of_nat k <= Z.max 0 1
    /\ fst (fst r) = climbedTo cc (Character.new 2 1) k.
Proof.
  intros cc r.
  destruct (moveToHighestEmpty_climbs cc boardLastStep (Character.new 2 1) eq_refl)
    as (k & Hrec & Hk & Hcc & _).
  exists k. split; [exact Hrec|]. split; [exact Hk|exact Hcc].
Defined.

Lemma holeFree_emptiesBelow gm c :
  holeFree gm ->
  GridManager.characterPosition gm = (Character.x c, Character.y c) ->
  emptiesBelow gm c.
Proof.
  intros Hfree Hpos x y He. specialize (Hfree x y He).
  unfold GravitySystem.isPositionFixed in Hfree. rewrite Hpos in Hfree. simpl in Hfree.
  destruct ((x =? Character.x c) && (y =? Character.y c)) eqn:Hat.
  - apply andb_true_iff in Hat as [Hx Hy]. apply Z.eqb_eq in Hx, Hy. lia.
  - exfalso. apply isEmpty_Some in He as (tile & Htile & Hempty).
    rewrite Htile in Hfree. unfold Tile.isEmpty in Hempty.
    apply String.eqb_eq in Hempty. unfold Tile.isExit, Tile.isBlocker in Hfree.
    rewrite Hempty in Hfree. discriminate.
Qed.

(** On a grid whose empty cells are all at or below the character, every
    step of a climb goes onto the exit tile. *)
Lemma climbs_onto_exit cc gm c k r :
  climbs cc gm c k r -> emptiesBelow gm c ->
  forall i, (i < k)%nat ->
    exists tile,
      GridManager.getTile gm (Character.x c) (Character.y c - Z.of_nat i - 1)
      = Some tile
      /\ Tile.isExit tile = true.
Proof.
  intros (_ & _ & _ & _ & _ & _ & _ & Hsteps) Hbelow i Hi.
  destruct (Hsteps i Hi) as (tile & Htile & Hcan). exists tile.
  split; [exact Htile|].
  destruct (Tile.isEmpty tile) eqn:He; [exfalso|exact Hcan].
  destruct (Hbelow (Character.x c) (Character.y c - Z.of_nat i - 1)) as [_ Hy].
  - unfold GridManager.isEmpty. rewrite Htile. exact He.
  - lia.
Qed.

Lemma moveToHighestEmpty_climb cc gm c :
  CharacterController.character cc = Some c ->
  exists k, climbs cc gm c k (CharacterController.moveToHighestEmpty cc gm).
Proof.
  intros Hc. unfold CharacterController.moveToHighestEmpty. rewrite Hc.
  destruct (climb_spec (S (Z.to_nat (Character.y c))) cc gm [] c Hc)
    as (k & Hclimb & Hrec & _).
  cbn zeta in Hclimb, Hrec. exists k.
  destruct (CharacterController.climb _ cc gm []) as [[cc' gm'] steps].
  cbn [fst snd] in *. rewrite Hrec. exact Hclimb.
Qed.

Lemma processGravity_holeFree gm tape :
  ~ In CONFIG.TILE_TYPES.EMPTY (GridManager.tileTypes gm) ->
  holeFree (fst (fst (fst (GravitySystem.processGravity gm tape)))).
Proof.
  intros Hpal.
  pose proof (applyGravityFully_keepsFixed gm) as [[F _] _].
  assert (Hpal1 : ~ In CONFIG.TILE_TYPES.EMPTY
                      (GridManager.tileTypes (fst (GravitySystem.applyGravityFully gm)))).
  { destruct F as (_ & _ & -> & _). exact Hpal. }
  pose proof (spawnNewTiles_no_hole _ tape Hpal1) as Hno.
  unfold GravitySystem.processGravity.
  destruct (GravitySystem.applyGravityFully gm) as [gm1 all]. simpl in *.
  destruct (GravitySystem.spawnNewTiles gm1 tape) as [[gm2 tape'] newTiles].
  simpl in *.
  assert (Hfree : holeFree gm2).
  { intros x y He.
    destruct (GravitySystem.isPositionFixed gm2 x y) eqn:Hf; [reflexivity|].
    exfalso. apply (Hno x y). split; assumption. }
  destruct newTiles; [exact Hfree|].
  rewrite (applyGravityFully_no_hole gm2 Hno). exact Hfree.
Qed.

(** X19.  After processGravity (with a palette that does not name the empty
    type) the character can only step onto the exit: every step that
    moveToHighestEmpty takes on the grid that processGravity returns goes
    onto a cell that holds the exit tile, since the cell it cleared above
    itself has been filled again. *)
Theorem character_climbs_only_onto_exit (gm : GridManager.t) (tape : Tape)
  (cc : CharacterController.t) (c : Character.t) :
  ~ In CONFIG.TILE_TYPES.EMPTY (GridManager.tileTypes gm) ->
  CharacterController.character cc = Some c ->
  GridManager.characterPosition gm = (Character.x c, Character.y c) ->
  let gm' := fst (fst (fst (GravitySystem.processGravity gm tape))) in
  forall s, In s (snd (CharacterController.moveToHighestEmpty cc gm')) ->
    Step.x s = Character.x c
    /\ exists tile,
         GridManager.getTile gm' (Step.x s) (Step.toY s) = Some tile
         /\ Tile.isExit tile = true.
Proof.
  intros Hpal Hc Hpos gm' s Hs.
  destruct (moveToHighestEmpty_climb cc gm' c Hc) as (k & Hclimb).
  assert (Hbelow : emptiesBelow gm' c).
  { apply holeFree_emptiesBelow; [apply processGravity_holeFree, Hpal|].
    destruct (sameFrame_processGravity gm tape) as (_ & _ & _ & _ & Hcp).
    unfold gm'. rewrite Hcp. exact Hpos. }
  pose proof (climbs_onto_exit _ _ _ _ _ Hclimb Hbelow) as Hexit.
  destruct Hclimb as (Hrec & _). rewrite Hrec in Hs.
  apply in_map_iff in Hs as (i & <- & Hi). apply in_seq in Hi.
  split; [reflexivity|]. apply Hexit. lia.
Qed.

Lemma character_climbs_only_onto_exit_witness :
  let cc := Game.characterController (gameOn boardLastStep (2, 1) 0 1) in
  let gm' := fst (fst (fst (GravitySystem.processGravity boardLastStep []))) in
  Forall
    (fun s =>
       Step.x s = 2
       /\ exists tile,
            GridManager.getTile gm' (Step.x s) (Step.toY s) = Some tile
            /\ Tile.isExit tile = true)
    (snd (CharacterController.moveToHighestEmpty cc gm')).
Proof.
  intros cc gm'. apply Forall_forall. intros s Hs. apply list_elem_of_In in Hs.
  revert s Hs.
  apply (character_climbs_only_onto_exit boardLastStep [] cc (Character.new 2 1)).
  - vm_compute. intros [H|[H|[H|[]]]]; discriminate.
  - reflexivity.
  - reflexivity.
Defined.


(** ** The cascade loop *)

Lemma findAllMatches_tile gm m :
  In m (MatchResolver.findAllMatches gm) -> exists p, In p (MatchObj.tiles m).
Proof.
  intros Hm.
  destruct (findAllMatches_sound _ _ Hm)
    as [(y & s & e & c & _ & -> & _ & Hlen & _)|(x & s & e & c & _ & -> & _ & Hlen & _)].
  - exists (s, y). simpl. apply in_map_iff. exists s. split; [reflexivity|].
    apply list_elem_of_In, elem_of_seqZ. lia.
  - exists (x, s). simpl. apply in_map_iff. exists s. split; [reflexivity|].
    apply list_elem_of_In, elem_of_seqZ. lia.
Qed.

Lemma noMatches_iff gm :
  MatchResolver.findAllMatches gm = [] <-> forall x y, ~ runAt gm x y.
Proof.
  split.
  - intros Hnil x y Hrun. apply runAt_findAllMatches in Hrun as (m & Hm & _).
    rewrite Hnil in Hm. contradiction.
  - intros Hno. destruct (MatchResolver.findAllMatches gm) as [|m ms] eqn:Hms;
      [reflexivity|]. exfalso.
    assert (Hm : In m (MatchResolver.findAllMatches gm)) by (rewrite Hms; left; reflexivity).
    destruct (findAllMatches_tile gm m Hm) as ([x y] & Hp).
    apply (Hno x y). eapply findAllMatches_runAt; eassumption.
Qed.

Lemma tileTypeAt_emptied gm gm' x y c :
  emptied gm gm' ->
  MatchResolver.tileTypeAt gm' x y = Some c -> MatchResolver.tileTypeAt gm x y = Some c.
Proof.
  intros [_ He] H. destruct (He x y) as [Hsame|Hempty].
  - unfold MatchResolver.tileTypeAt in *. rewrite <- Hsame. exact H.
  - exfalso. unfold MatchResolver.tileTypeAt, GridManager.isEmpty in *.
    destruct (GridManager.getTile gm' x y) as [tile|]; [|discriminate].
    rewrite (isMatchable_isEmpty _ Hempty) in H. discriminate.
Qed.

Lemma runAt_emptied gm gm' x y : emptied gm gm' -> runAt gm' x y -> runAt gm x y.
Proof.
  intros He (c & Hc & Hrun). exists c.
  split; [eapply tileTypeAt_emptied; eassumption|].
  destruct Hrun as [(s & e & Hse & Hlen & Hall)|(s & e & Hse & Hlen & Hall)];
    [left|right]; exists s, e; (split; [exact Hse|]); (split; [exact Hlen|]);
    intros j Hj; eapply tileTypeAt_emptied; eauto.
Qed.

Lemma noMatches_emptied gm gm' :
  emptied gm gm' ->
  MatchResolver.findAllMatches gm = [] -> MatchResolver.findAllMatches gm' = [].
Proof.
  intros He Hnil. apply noMatches_iff. intros x y Hrun.
  apply (proj1 (noMatches_iff gm) Hnil x y). eapply runAt_emptied; eassumption.
Qed.

Lemma sameLevel_refl lm : sameLevel lm lm.
Proof. repeat split. Qed.

Lemma sameLevel_setState lm s : sameLevel lm (LevelManager.setState lm s).
Proof. repeat split. Qed.

Lemma sameLevel_trans lm1 lm2 lm3 :
  sameLevel lm1 lm2 -> sameLevel lm2 lm3 -> sameLevel lm1 lm3.
Proof.
  unfold sameLevel. intros (?&?&?&?&?) (?&?&?&?&?). repeat split; congruence.
Qed.

(** One round of the cascade loop, as far as the grid is concerned. *)
Lemma cascade_round gm ms tape :
  let gm1 := fst (Game.clearMatches gm ms) in
  let gm2 := fst (fst (fst (GravitySystem.processGravity gm1 tape))) in
  sameFrame gm gm2
  /\ (fullGrid gm -> fullGrid gm2)
  /\ (~ In CONFIG.TILE_TYPES.EMPTY (GridManager.tileTypes gm) -> holeFree gm2).
Proof.
  intros gm1 gm2.
  pose proof (sameFrame_clearMatches gm ms) as F1. fold gm1 in F1.
  pose proof (sameFrame_processGravity gm1 tape) as F2. fold gm2 in F2.
  split; [eapply sameFrame_trans; eassumption|]. split.
  - intros H. apply fullGrid_processGravity, fullGrid_clearMatches, H.
  - intros Hpal. apply processGravity_holeFree.
    destruct F1 as (_ & _ & -> & _). exact Hpal.
Qed.

Lemma processCascades_spec fuel : forall g tape g' tape',
  Game.processCascades fuel g tape = Some (g', tape') ->
  MatchResolver.findAllMatches (Game.gridManager g') = []
  /\ Game.characterController g' = Game.characterController g
  /\ sameLevel (Game.levelManager g) (Game.levelManager g')
  /\ LevelManager.gameState (Game.levelManager g') = CONFIG.MATCHING
  /\ Game.isProcessing g' = Game.isProcessing g
  /\ sameFrame (Game.gridManager g) (Game.gridManager g')
  /\ (fullGrid (Game.gridManager g) -> fullGrid (Game.gridManager g'))
  /\ (~ In CONFIG.TILE_TYPES.EMPTY (GridManager.tileTypes (Game.gridManager g)) ->
      MatchResolver.findAllMatches (Game.gridManager g) <> []
      \/ holeFree (Game.gridManager g) ->
      holeFree (Game.gridManager g')).
Proof.
  induction fuel as [|fuel IH]; intros g tape g' tape'; simpl; [discriminate|].
  destruct (MatchResolver.findAllMatches (Game.gridManager g)) as [|m ms] eqn:Hms.
  - intros [= <- <-]. simpl. split; [exact Hms|]. split; [reflexivity|].
    split; [apply sameLevel_setState|]. split; [reflexivity|]. split; [reflexivity|].
    split; [apply sameFrame_refl|]. split; [auto|].
    intros _ [Hne|Hfree]; [congruence|exact Hfree].
  - pose proof (cascade_round (Game.gridManager g) (m :: ms) tape) as Hround.
    cbn zeta in Hround.
    destruct (Game.clearMatches (Game.gridManager g) (m :: ms)) as [gm1 cleared].
    simpl in *.
    destruct (GravitySystem.processGravity gm1 tape) as [[[gm2 tape1] mvs] newTiles].
    simpl in *. destruct Hround as (F & Hfull & Hfree).
    intros H. apply IH in H.
    destruct H as (Hnil & Hcc & Hlm & Hstate & Hproc & F' & Hfull' & Hfree').
    assert (Hpal : GridManager.tileTypes gm2 = GridManager.tileTypes (Game.gridManager g))
      by apply F.
    destruct newTiles; simpl in *;
      (split; [exact Hnil|]; split; [exact Hcc|];
       split; [destruct Hlm as (?&?&?&?&?); repeat split; assumption|];
       split; [exact Hstate|]; split; [exact Hproc|];
       split; [eapply sameFrame_trans; eassumption|];
       split; [auto|];
       intros Hp _; apply Hfree'; [rewrite Hpal; exact Hp|right; apply Hfree, Hp]).
Qed.

Lemma processCascades_more_fuel fuel : forall g tape r k,
  Game.processCascades fuel g tape = Some r ->
  Game.processCascades (fuel + k) g tape = Some r.
Proof.
  induction fuel as [|fuel IH]; intros g tape r k; simpl; [discriminate|].
  destruct (MatchResolver.findAllMatches (Game.gridManager g)); [auto|].
  destruct (Game.clearMatches _ _) as [gm1 cleared]. simpl.
  destruct (GravitySystem.processGravity gm1 tape) as [[[gm2 tape1] mvs] newTiles].
  apply IH.
Qed.

(** X20.  When the cascade loop returns, no match is left on the board.
    The loop changes the grid and the state of the game only: the
    character, the moves and the level are as before, the frame of the grid
    is the same, a full grid stays full; and a larger bound on the number
    of rounds gives the same result. *)
Theorem processCascades_settles (fuel : nat) (g : Game.t) (tape : Tape)
  (g' : Game.t) (tape' : Tape) :
  Game.processCascades fuel g tape = Some (g', tape') ->
  MatchResolver.findAllMatches (Game.gridManager g') = []
  /\ (forall x y, MatchResolver.checkForMatchAt (Game.gridManager g') x y = false)
  /\ Game.characterController g' = Game.characterController g
  /\ sameLevel (Game.levelManager g) (Game.levelManager g')
  /\ LevelManager.gameState (Game.levelManager g') = CONFIG.MATCHING
  /\ sameFrame (Game.gridManager g) (Game.gridManager g')
  /\ (fullGrid (Game.gridManager g) -> fullGrid (Game.gridManager g'))
  /\ (forall k, Game.processCascades (fuel + k) g tape = Some (g', tape')).
Proof.
  intros H.
  destruct (processCascades_spec _ _ _ _ _ H)
    as (Hnil & Hcc & Hlm & Hstate & _ & F & Hfull & _).
  split; [exact Hnil|]. split.
  - intros x y.
    destruct (MatchResolver.checkForMatchAt (Game.gridManager g') x y) eqn:Hchk;
      [|reflexivity].
    apply checkForMatchAt_runAt in Hchk.
    exfalso. exact (proj1 (noMatches_iff _) Hnil x y Hchk).
  - split; [exact Hcc|]. split; [exact Hlm|]. split; [exact Hstate|].
    split; [exact F|]. split; [exact Hfull|].
    intros k. apply processCascades_more_fuel, H.
Qed.

Lemma processCascades_settles_witness :
  let g := gameOn (GridManager.swap boardSwap 2 1 3 1) (2, 2) 0 5 in
  match Game.processCascades 5 g [0; 0; 1]%nat with
  | Some (g', _) =>
      MatchResolver.findAllMatches (Game.gridManager g') = []
      /\ Game.characterController g' = Game.characterController g
  | None => False
  end.
Proof.
  intros g.
  destruct (Game.processCascades 5 g [0; 0; 1]%nat) as [[g' tape']|] eqn:H.
  - destruct (processCascades_settles _ _ _ _ _ H) as (Hnil & _ & Hcc & _).
    split; [exact Hnil|exact Hcc].
  - vm_compute in H. discriminate.
Defined.


(** ** handleSwap *)

Lemma useMove_moves lm :
  let r := LevelManager.useMove lm in
  LevelManager.movesRemaining (fst (fst r))
  = (if LevelManager.movesRemaining lm <=? 0
     then LevelManager.movesRemaining lm
     else LevelManager.movesRemaining lm - 1)
  /\ LevelManager.levels (fst (fst r)) = LevelManager.levels lm
  /\ LevelManager.currentLevelIndex (fst (fst r)) = LevelManager.currentLevelIndex lm
  /\ LevelManager.currentLevel (fst (fst r)) = LevelManager.currentLevel lm
  /\ LevelManager.maxMoves (fst (fst r)) = LevelManager.maxMoves lm.
Proof.
  unfold LevelManager.useMove.
  destruct (LevelManager.movesRemaining lm <=? 0); [repeat split|].
  cbn [LevelManager.movesRemaining LevelManager.setMovesRemaining
         LevelManager.gameState LevelManager.maxMoves].
  destruct ((LevelManager.movesRemaining lm - 1 <=? 0) && _); repeat split.
Qed.

(** A swap that lines up a match: the game [g2] on which the cascade
    runs has the move counted already; handleSwap returns when the cascade
    does, and this is the state in which it leaves the game. *)
Lemma handleSwap_counted fuel g x1 y1 x2 y2 tape :
  Game.isProcessing g = false ->
  LevelManager.isGameOver (Game.levelManager g) = false ->
  MatchResolver.checkSwapForMatches
    (GridManager.swap (Game.gridManager g) x1 y1 x2 y2) x1 y1 x2 y2 = true ->
  exists g2,
    Game.gridManager g2 = GridManager.swap (Game.gridManager g) x1 y1 x2 y2
    /\ Game.characterController g2 = Game.characterController g
    /\ Game.levelManager g2
       = fst (fst (LevelManager.useMove
                     (LevelManager.setState (Game.levelManager g) CONFIG.SWAPPING)))
    /\ (Game.handleSwap fuel g x1 y1 x2 y2 tape = None
        <-> Game.processCascades fuel g2 tape = None)
    /\ forall g' tape',
         Game.handleSwap fuel g x1 y1 x2 y2 tape = Some (g', tape') ->
         exists g3,
           Game.processCascades fuel g2 tape = Some (g3, tape')
           /\ (Game.characterController g', Game.gridManager g')
              = fst (CharacterController.moveToHighestEmpty
                       (Game.characterController g3) (Game.gridManager g3))
           /\ sameLevel (Game.levelManager g3) (Game.levelManager g')
           /\ LevelManager.gameState (Game.levelManager g') = CONFIG.IDLE
           /\ Game.isProcessing g' = false.
Proof.
  intros Hproc Hover Hmatch. unfold Game.handleSwap.
  rewrite Hproc, Hover.
  cbn [orb Game.gridManager Game.setGridManager Game.emit Game.setState
         Game.setProcessing Game.levelManager].
  rewrite Hmatch.
  destruct (LevelManager.useMove
              (LevelManager.setState (Game.levelManager g) CONFIG.SWAPPING))
    as [[lm used] evs] eqn:Huse.
  match goal with
  | |- context [Game.processCascades fuel ?st tape] => set (g2 := st)
  end.
  exists g2.
  split; [reflexivity|]. split; [reflexivity|]. split; [reflexivity|].
  destruct (Game.processCascades fuel g2 tape) as [[g3 tape3]|] eqn:Hcasc;
    [|split; [tauto|intros g' tape'; discriminate]].
  split; [split; discriminate|].
  intros g' tape' [= <- <-]. exists g3.
  split; [reflexivity|].
  unfold Game.moveCharacter.
  cbn [Game.characterController Game.gridManager Game.setState].
  destruct (CharacterController.moveToHighestEmpty (Game.characterController g3)
              (Game.gridManager g3)) as [[cc4 gm4] steps].
  unfold LevelManager.triggerWin, LevelManager.triggerLose,
    LevelManager.getMovesRemaining.
  destruct steps;
    cbn [Game.characterController Game.setGridManager Game.setCharacterController
           Game.setState Game.emit Game.levelManager Game.gridManager];
    (destruct (CharacterController.hasEscaped cc4);
     [|destruct (LevelManager.movesRemaining _ <=? 0)]);
    cbn [fst Game.characterController Game.setGridManager Game.setCharacterController
           Game.setState Game.emit Game.levelManager Game.gridManager
           Game.setLevelManager Game.setProcessing Game.isProcessing
           LevelManager.setState LevelManager.gameState];
    repeat split.
Qed.

(** The state in which a swap that lines up a match leaves the game. *)
Lemma handleSwap_productive fuel g x1 y1 x2 y2 tape g' tape' :
  Game.isProcessing g = false ->
  LevelManager.isGameOver (Game.levelManager g) = false ->
  MatchResolver.checkSwapForMatches
    (GridManager.swap (Game.gridManager g) x1 y1 x2 y2) x1 y1 x2 y2 = true ->
  Game.handleSwap fuel g x1 y1 x2 y2 tape = Some (g', tape') ->
  exists g2 g3,
    Game.gridManager g2 = GridManager.swap (Game.gridManager g) x1 y1 x2 y2
    /\ Game.characterController g2 = Game.characterController g
    /\ Game.levelManager g2
       = fst (fst (LevelManager.useMove
                     (LevelManager.setState (Game.levelManager g) CONFIG.SWAPPING)))
    /\ Game.processCascades fuel g2 tape = Some (g3, tape')
    /\ (Game.characterController g', Game.gridManager g')
       = fst (CharacterController.moveToHighestEmpty (Game.characterController g3)
                (Game.gridManager g3))
    /\ sameLevel (Game.levelManager g3) (Game.levelManager g')
    /\ LevelManager.gameState (Game.levelManager g') = CONFIG.IDLE
    /\ Game.isProcessing g' = false.
Proof.
  intros Hproc Hover Hmatch H.
  destruct (handleSwap_counted fuel g x1 y1 x2 y2 tape Hproc Hover Hmatch)
    as (g2 & Hgm & Hcc & Hlm & _ & Hret).
  destruct (Hret g' tape' H) as (g3 & Hcasc & Hrest).
  exists g2, g3. tauto.
Qed.

(** A swap that lines up nothing, or one that is not taken up at all. *)
Lemma handleSwap_other fuel g x1 y1 x2 y2 tape g' tape' :
  (Game.isProcessing g || LevelManager.isGameOver (Game.levelManager g) = true
   \/ MatchResolver.checkSwapForMatches
        (GridManager.swap (Game.gridManager g) x1 y1 x2 y2) x1 y1 x2 y2 = false) ->
  Game.handleSwap fuel g x1 y1 x2 y2 tape = Some (g', tape') ->
  Game.characterController g' = Game.characterController g
  /\ sameLevel (Game.levelManager g) (Game.levelManager g')
  /\ tape' = tape
  /\ (Game.gridManager g' = Game.gridManager g
      \/ Game.gridManager g'
         = GridManager.swap (GridManager.swap (Game.gridManager g) x1 y1 x2 y2)
             x1 y1 x2 y2).
Proof.
  intros Hcase. unfold Game.handleSwap.
  destruct (Game.isProcessing g || LevelManager.isGameOver (Game.levelManager g))
    eqn:Hbusy.
  - intros [= <- <-]. split; [reflexivity|]. split; [apply sameLevel_refl|].
    split; [reflexivity|]. left. reflexivity.
  - destruct Hcase as [?|Hmatch]; [discriminate|].
    cbn [Game.gridManager Game.setGridManager Game.emit Game.setState
           Game.setProcessing Game.levelManager].
    rewrite Hmatch. intros [= <- <-].
    split; [reflexivity|]. split; [repeat split|]. split; [reflexivity|].
    right. reflexivity.
Qed.

(** The state in which handleSwap returns after a swap that lined up a
    match. *)
Lemma handleSwap_returns fuel g x1 y1 x2 y2 tape g' tape' :
  Game.isProcessing g = false ->
  LevelManager.isGameOver (Game.levelManager g) = false ->
  MatchResolver.checkSwapForMatches
    (GridManager.swap (Game.gridManager g) x1 y1 x2 y2) x1 y1 x2 y2 = true ->
  Game.handleSwap fuel g x1 y1 x2 y2 tape = Some (g', tape') ->
  LevelManager.movesRemaining (Game.levelManager g')
  = (if LevelManager.movesRemaining (Game.levelManager g) <=? 0
     then LevelManager.movesRemaining (Game.levelManager g)
     else LevelManager.movesRemaining (Game.levelManager g) - 1)
  /\ LevelManager.maxMoves (Game.levelManager g')
     = LevelManager.maxMoves (Game.levelManager g)
  /\ LevelManager.currentLevelIndex (Game.levelManager g')
     = LevelManager.currentLevelIndex (Game.levelManager g)
  /\ LevelManager.gameState (Game.levelManager g') = CONFIG.IDLE
  /\ Game.isProcessing g' = false
  /\ MatchResolver.findAllMatches (Game.gridManager g') = [].
Proof.
  intros Hproc Hover Hmatch H.
  destruct (handleSwap_productive _ _ _ _ _ _ _ _ _ Hproc Hover Hmatch H)
    as (g2 & g3 & _ & _ & Hlm2 & Hcasc & Hmove & Hlm' & Hstate & Hproc').
  destruct (processCascades_spec _ _ _ _ _ Hcasc) as (Hnil & _ & Hlm3 & _).
  pose proof (useMove_moves
                (LevelManager.setState (Game.levelManager g) CONFIG.SWAPPING)) as Huse.
  cbn zeta in Huse. rewrite <- Hlm2 in Huse.
  destruct Huse as (Hmoves & _ & Hidx & _ & Hmax).
  destruct Hlm3 as (_ & Hidx3 & _ & Hmoves3 & Hmax3).
  destruct Hlm' as (_ & Hidx' & _ & Hmoves' & Hmax').
  split; [rewrite Hmoves', Hmoves3, Hmoves; reflexivity|].
  split; [rewrite Hmax', Hmax3, Hmax; reflexivity|].
  split; [rewrite Hidx', Hidx3, Hidx; reflexivity|].
  split; [exact Hstate|]. split; [exact Hproc'|].
  destruct (CharacterController.character (Game.characterController g3)) as [c|] eqn:Hc.
  - destruct (moveToHighestEmpty_climb (Game.characterController g3)
                (Game.gridManager g3) c Hc) as (k & Hclimb).
    destruct Hclimb as (_ & _ & _ & _ & _ & Hemp & _).
    apply (f_equal snd) in Hmove. simpl in Hmove. rewrite <- Hmove in Hemp.
    eapply noMatches_emptied; eassumption.
  - unfold CharacterController.moveToHighestEmpty in Hmove. rewrite Hc in Hmove.
    simpl in Hmove. rewrite (tryMoveUp_no_character _ _ Hc) in Hmove.
    injection Hmove as _ ->. exact Hnil.
Qed.




(** ** The invariants of the game *)

Lemma fullGrid_tryMoveUp cc gm :
  fullGrid gm -> fullGrid (snd (fst (CharacterController.tryMoveUp cc gm))).
Proof.
  intros H. unfold CharacterController.tryMoveUp.
  destruct (CharacterController.character cc) as [c|]; [|exact H].
  destruct (Character.isMoving c); [exact H|].
  unfold Character.getPosition.
  destruct (Character.y c <=? 0); [exact H|].
  destruct (match GridManager.getTile gm (Character.x c) (Character.y c - 1) with
            | Some tileAbove => Tile.isEmpty tileAbove || Tile.isExit tileAbove
            | None => false
            end); [|exact H].
  simpl. apply fullGrid_updateCharacterPosition, H.
Qed.

Lemma fullGrid_climb fuel : forall cc gm movements,
  fullGrid gm -> fullGrid (snd (fst (CharacterController.climb fuel cc gm movements))).
Proof.
  induction fuel as [|fuel IH]; intros cc gm movements H; [exact H|].
  cbn [CharacterController.climb].
  pose proof (fullGrid_tryMoveUp cc gm H) as H1.
  destruct (CharacterController.tryMoveUp cc gm) as [[cc1 gm1] [step|]];
    [|exact H1].
  simpl in H1. destruct (CharacterController.hasEscaped cc1); [exact H1|].
  apply IH, H1.
Qed.

Lemma fullGrid_moveToHighestEmpty cc gm :
  fullGrid gm -> fullGrid (snd (fst (CharacterController.moveToHighestEmpty cc gm))).
Proof. apply fullGrid_climb. Qed.

Lemma sameBoard_moveToHighestEmpty cc gm :
  sameBoard gm (snd (fst (CharacterController.moveToHighestEmpty cc gm))).
Proof.
  destruct (CharacterController.character cc) as [c|] eqn:Hc.
  - destruct (moveToHighestEmpty_climb cc gm c Hc) as (k & Hclimb).
    destruct Hclimb as (_ & _ & _ & _ & _ & [B _] & _). exact B.
  - unfold CharacterController.moveToHighestEmpty. rewrite Hc. simpl.
    rewrite (tryMoveUp_no_character _ _ Hc). apply sameBoard_refl.
Qed.

Lemma swap_twice_frame gm x1 y1 x2 y2 :
  sameFrame gm (GridManager.swap (GridManager.swap gm x1 y1 x2 y2) x1 y1 x2 y2).
Proof. repeat split. Qed.

(** X22.  handleSwap keeps the grid full: when it is called on a full grid
    with two distinct cells of the grid, then, whether the swap is refused,
    taken back, or followed by a cascade and a climb, afterwards every cell
    still holds a tile that carries the coordinates of its cell, and the
    size, the palette and the exit of the board are the same. *)
Theorem handleSwap_keeps_grid_full (fuel : nat) (g : Game.t) (x1 y1 x2 y2 : Z)
  (tape : Tape) (g' : Game.t) (tape' : Tape) :
  fullGrid (Game.gridManager g) ->
  GridManager.isValidPosition (Game.gridManager g) x1 y1 = true ->
  GridManager.isValidPosition (Game.gridManager g) x2 y2 = true ->
  (x1, y1) <> (x2, y2) ->
  Game.handleSwap fuel g x1 y1 x2 y2 tape = Some (g', tape') ->
  fullGrid (Game.gridManager g')
  /\ sameBoard (Game.gridManager g) (Game.gridManager g').
Proof.
  intros Hfull V1 V2 Hne H.
  destruct (Game.isProcessing g || LevelManager.isGameOver (Game.levelManager g))
    eqn:Hbusy.
  { unfold Game.handleSwap in H. rewrite Hbusy in H. injection H as <- <-.
    split; [exact Hfull|apply sameBoard_refl]. }
  destruct (MatchResolver.checkSwapForMatches
              (GridManager.swap (Game.gridManager g) x1 y1 x2 y2) x1 y1 x2 y2)
    eqn:Hmatch.
  - apply orb_false_iff in Hbusy as [Hproc Hover].
    destruct (handleSwap_productive _ _ _ _ _ _ _ _ _ Hproc Hover Hmatch H)
      as (g2 & g3 & Hgm2 & _ & _ & Hcasc & Hmove & _).
    destruct (processCascades_spec _ _ _ _ _ Hcasc) as (_ & _ & _ & _ & _ & F & Hkeep & _).
    apply (f_equal snd) in Hmove. simpl in Hmove. rewrite Hmove. split.
    + apply fullGrid_moveToHighestEmpty, Hkeep. rewrite Hgm2.
      apply fullGrid_swap; assumption.
    + eapply sameBoard_trans; [|apply sameBoard_moveToHighestEmpty].
      apply sameFrame_sameBoard. rewrite Hgm2 in F.
      eapply sameFrame_trans; [apply sameFrame_swap|exact F].
  - destruct (handleSwap_other _ _ _ _ _ _ _ _ _ (or_intror Hmatch) H)
      as (_ & _ & _ & [Hgm|Hgm]); rewrite Hgm.
    + split; [exact Hfull|apply sameBoard_refl].
    + rewrite swap_swap_eq by assumption. split; [exact Hfull|apply sameBoard_refl].
Qed.

Lemma handleSwap_keeps_grid_full_witness :
  let g := gameOn boardSwap (2, 2) 0 5 in
  match Game.handleSwap 5 g 2 1 3 1 [0; 0; 1]%nat with
  | Some (g', _) =>
      fullGrid (Game.gridManager g')
      /\ sameBoard (Game.gridManager g) (Game.gridManager g')
  | None => False
  end.
Proof.
  intros g.
  destruct (Game.handleSwap 5 g 2 1 3 1 [0; 0; 1]%nat) as [[g' tape']|] eqn:H.
  - apply (handleSwap_keeps_grid_full 5 g 2 1 3 1 _ _ _ boardSwap_full
             eq_refl eq_refl ltac:(discriminate) H).
  - vm_compute in H. discriminate.
Defined.

Lemma checkSwapForMatches_findAllMatches gm x1 y1 x2 y2 :
  MatchResolver.checkSwapForMatches gm x1 y1 x2 y2 = true ->
  MatchResolver.findAllMatches gm <> [].
Proof.
  unfold MatchResolver.checkSwapForMatches. intros H Hnil.
  apply orb_true_iff in H as [H|H]; apply checkForMatchAt_runAt in H;
    exact (proj1 (noMatches_iff gm) Hnil _ _ H).
Qed.

(** X23.  Whatever the swap, handleSwap moves the character only onto the
    exit: when the grid manager and the controller agree on the position of
    the character and the palette does not name the empty type, then after
    handleSwap the character is in its column, at its row or above it, the
    two still agree on its position, and if the character has moved it
    stands on the exit tile.  (The cell cleared above the character is
    filled again before the character is asked to move.) *)
Theorem handleSwap_moves_character_only_onto_exit (fuel : nat) (g : Game.t)
  (x1 y1 x2 y2 : Z) (tape : Tape) (g' : Game.t) (tape' : Tape) (c : Character.t) :
  CharacterController.character (Game.characterController g) = Some c ->
  GridManager.characterPosition (Game.gridManager g)
  = (Character.x c, Character.y c) ->
  ~ In CONFIG.TILE_TYPES.EMPTY (GridManager.tileTypes (Game.gridManager g)) ->
  Game.handleSwap fuel g x1 y1 x2 y2 tape = Some (g', tape') ->
  exists c',
    CharacterController.character (Game.characterController g') = Some c'
    /\ Character.x c' = Character.x c
    /\ Character.y c' <= Character.y c
    /\ GridManager.characterPosition (Game.gridManager g')
       = (Character.x c', Character.y c')
    /\ (Character.y c' < Character.y c ->
        exists tile,
          GridManager.getTile (Game.gridManager g') (Character.x c') (Character.y c')
          = Some tile
          /\ Tile.isExit tile = true).
Proof.
  intros Hc Hpos Hpal H.
  assert (Hstay : Game.characterController g' = Game.characterController g ->
                  GridManager.characterPosition (Game.gridManager g')
                  = GridManager.characterPosition (Game.gridManager g) ->
                  exists c',
                    CharacterController.character (Game.characterController g') = Some c'
                    /\ Character.x c' = Character.x c
                    /\ Character.y c' <= Character.y c
                    /\ GridManager.characterPosition (Game.gridManager g')
                       = (Character.x c', Character.y c')
                    /\ (Character.y c' < Character.y c ->
                        exists tile,
                          GridManager.getTile (Game.gridManager g')
                            (Character.x c') (Character.y c') = Some tile
                          /\ Tile.isExit tile = true)).
  { intros Hcc Hcp. exists c. rewrite Hcc, Hcp.
    split; [exact Hc|]. split; [reflexivity|]. split; [lia|].
    split; [exact Hpos|]. intros ?. lia. }
  destruct (Game.isProcessing g || LevelManager.isGameOver (Game.levelManager g))
    eqn:Hbusy.
  { unfold Game.handleSwap in H. rewrite Hbusy in H. injection H as <- <-.
    apply Hstay; reflexivity. }
  destruct (MatchResolver.checkSwapForMatches
              (GridManager.swap (Game.gridManager g) x1 y1 x2 y2) x1 y1 x2 y2)
    eqn:Hmatch.
  2:{ destruct (handleSwap_other _ _ _ _ _ _ _ _ _ (or_intror Hmatch) H)
        as (Hcc & _ & _ & [Hgm|Hgm]); apply Hstay; try exact Hcc;
        rewrite Hgm; reflexivity. }
  apply orb_false_iff in Hbusy as [Hproc Hover].
  destruct (handleSwap_productive _ _ _ _ _ _ _ _ _ Hproc Hover Hmatch H)
    as (g2 & g3 & Hgm2 & Hcc2 & _ & Hcasc & Hmove & _).
  destruct (processCascades_spec _ _ _ _ _ Hcasc)
    as (_ & Hcc3 & _ & _ & _ & F & _ & Hfree).
  rewrite Hgm2 in F, Hfree.
  assert (Hc3 : CharacterController.character (Game.characterController g3) = Some c)
    by (rewrite Hcc3, Hcc2; exact Hc).
  assert (Hpos3 : GridManager.characterPosition (Game.gridManager g3)
                  = (Character.x c, Character.y c)).
  { destruct F as (_ & _ & _ & _ & ->). exact Hpos. }
  assert (Hbelow : emptiesBelow (Game.gridManager g3) c).
  { apply holeFree_emptiesBelow; [|exact Hpos3].
    apply Hfree; [exact Hpal|]. left.
    eapply checkSwapForMatches_findAllMatches. exact Hmatch. }
  destruct (moveToHighestEmpty_climb _ (Game.gridManager g3) c Hc3) as (k & Hclimb).
  pose proof (climbs_onto_exit _ _ _ _ _ Hclimb Hbelow) as Hexit.
  destruct Hclimb as (_ & Hk & Hcc' & Hzero & Hcp & _ & Hout & _).
  rewrite <- Hmove in Hcc', Hzero, Hcp, Hout. cbn [fst snd] in *.
  destruct k as [|k].
  - apply Hstay.
    + rewrite Hcc'. simpl. rewrite Hcc3, Hcc2. reflexivity.
    + rewrite (Hzero eq_refl). destruct F as (_ & _ & _ & _ & ->). reflexivity.
  - exists (Character.moveTo c (Character.x c) (Character.y c - Z.of_nat (S k))).
    rewrite Hcc'. cbn [climbedTo CharacterController.character Character.x
                         Character.y Character.moveTo].
    split; [reflexivity|]. split; [reflexivity|]. split; [lia|].
    split; [apply Hcp; discriminate|]. intros _.
    destruct (Hexit k ltac:(lia)) as (tile & Htile & Hex). exists tile.
    split; [|exact Hex]. rewrite Hout.
    + rewrite <- Htile. f_equal. lia.
    + intros [_ Hy]. lia.
Qed.

Lemma handleSwap_moves_character_only_onto_exit_witness :
  let g := gameOn boardLastStep (2, 1) 0 5 in
  match Game.handleSwap 5 g 2 2 3 2 [0; 0; 1]%nat with
  | Some (g', _) =>
      exists c',
        CharacterController.character (Game.characterController g') = Some c'
        /\ Character.x c' = 2
        /\ Character.y c' <= 1
        /\ GridManager.characterPosition (Game.gridManager g')
           = (Character.x c', Character.y c')
        /\ (Character.y c' < 1 ->
            exists tile,
              GridManager.getTile (Game.gridManager g') (Character.x c')
                (Character.y c') = Some tile
              /\ Tile.isExit tile = true)
  | None => False
  end.
Proof.
  intros g.
  destruct (Game.handleSwap 5 g 2 2 3 2 [0; 0; 1]%nat) as [[g' tape']|] eqn:H.
  - apply (handleSwap_moves_character_only_onto_exit 5 g 2 2 3 2 _ _ _
             (Character.new 2 1) eq_refl eq_refl
             ltac:(vm_compute; intros [?|[?|[?|[]]]]; discriminate) H).
  - vm_compute in H. discriminate.
Defined.


(** ** Selecting tiles *)

Lemma canSwap_isMatchable tile : Tile.canSwap tile = true -> Tile.isMatchable tile = true.
Proof.
  unfold Tile.canSwap. intros H. apply andb_true_iff in H as [H _].
  apply andb_true_iff in H as [H _]. exact H.
Qed.

(** X24.  Two clicks on an unselected board hand a swap to the callback
    exactly when both clicked cells hold tiles that can be swapped and the
    cells are adjacent; the swap is then the one of the two cells, both
    tiles are matchable (so neither is the exit, a stone, a locked tile or
    the empty tile of the character), and the selection is cleared.  The
    first click never swaps. *)
Theorem handleTileSelect_two_clicks (gm : GridManager.t) (p1 p2 : Pos) :
  let first := GridManager.handleTileSelect gm None (fst p1) (snd p1) in
  let second := GridManager.handleTileSelect gm (fst first) (fst p2) (snd p2) in
  snd first = None
  /\ (fst first = if canSwapAt gm p1 then Some p1 else None)
  /\ (snd second <> None
      <-> canSwapAt gm p1 = true /\ canSwapAt gm p2 = true
          /\ GridManager.areAdjacent (fst p1) (snd p1) (fst p2) (snd p2) = true)
  /\ (snd second <> None ->
      snd second = Some (p1, p2) /\ fst second = None
      /\ exists t1 t2,
           GridManager.cellAt (GridManager.grid gm) (fst p1) (snd p1) = Some t1
           /\ GridManager.cellAt (GridManager.grid gm) (fst p2) (snd p2) = Some t2
           /\ Tile.isMatchable t1 = true /\ Tile.isMatchable t2 = true).
Proof.
  intros first second. subst first second. destruct p1 as [x1 y1], p2 as [x2 y2].
  unfold GridManager.handleTileSelect, canSwapAt. cbn [fst snd].
  destruct (GridManager.cellAt (GridManager.grid gm) x1 y1) as [t1|] eqn:H1;
    [destruct (Tile.canSwap t1) eqn:C1|]; cbn [negb fst snd];
    (destruct (GridManager.cellAt (GridManager.grid gm) x2 y2) as [t2|] eqn:H2;
     [destruct (Tile.canSwap t2) eqn:C2|]); cbn [negb fst snd];
    try destruct (GridManager.areAdjacent x1 y1 x2 y2); cbn [fst snd];
    (split; [reflexivity|]; split; [reflexivity|]; split;
     [split; [intros H; try (exfalso; apply H; reflexivity); auto
             |intros (? & ? & ?); try discriminate]
     |intros H; try (exfalso; apply H; reflexivity)]).
  split; [reflexivity|]. split; [reflexivity|]. exists t1, t2.
  auto using canSwap_isMatchable.
Qed.


(** ** The level manager *)

(** X25.  useMove: without a move left nothing happens and false is
    returned; otherwise (for a count below 2^53, where the numbers of JS
    subtract as the integers do) exactly one move is taken, the callback
    is told the new count, the count stays non-negative, and the call
    returns true unless this was the last move of a game that is not won,
    in which case the game is lost at once. *)
Theorem useMove_counts (lm : LevelManager.t) :
  let r := LevelManager.useMove lm in
  (LevelManager.movesRemaining lm <= 0 -> r = (lm, false, []))
  /\ (0 < LevelManager.movesRemaining lm < 2 ^ 53 ->
      LevelManager.movesRemaining (fst (fst r)) = LevelManager.movesRemaining lm - 1
      /\ 0 <= LevelManager.movesRemaining (fst (fst r))
      /\ sameLevel (LevelManager.setMovesRemaining lm
                      (LevelManager.movesRemaining (fst (fst r)))) (fst (fst r))
      /\ hd_error (snd r)
         = Some (MovesChanged (LevelManager.movesRemaining lm - 1)
                   (LevelManager.maxMoves lm))
      /\ (snd (fst r) = false
          <-> LevelManager.movesRemaining lm = 1
              /\ LevelManager.gameState lm <> CONFIG.WIN)
      /\ (snd (fst r) = false ->
          LevelManager.gameState (fst (fst r)) = CONFIG.LOSE)
      /\ (snd (fst r) = true ->
          LevelManager.gameState (fst (fst r)) = LevelManager.gameState lm)).
Proof.
  intros r. subst r. unfold LevelManager.useMove. split.
  - intros H. apply Z.leb_le in H. rewrite H. reflexivity.
  - intros [H _]. assert (Hgt : (LevelManager.movesRemaining lm <=? 0) = false)
      by (apply Z.leb_gt; exact H).
    rewrite Hgt.
    cbn [LevelManager.movesRemaining LevelManager.setMovesRemaining
           LevelManager.gameState LevelManager.maxMoves].
    assert (Hwin : LevelManager.isWin (LevelManager.gameState lm) = true
                   <-> LevelManager.gameState lm = CONFIG.WIN).
    { destruct (LevelManager.gameState lm); simpl; split; congruence. }
    destruct (LevelManager.movesRemaining lm - 1 <=? 0) eqn:Hlast.
    + apply Z.leb_le in Hlast.
      destruct (LevelManager.isWin (LevelManager.gameState lm)) eqn:Hw;
        cbn [andb negb LevelManager.triggerLose fst snd LevelManager.setState
               LevelManager.movesRemaining LevelManager.setMovesRemaining
               LevelManager.gameState LevelManager.currentLevelIndex app hd_error];
        (split; [reflexivity|]); (split; [lia|]); (split; [repeat split|]);
        (split; [reflexivity|]).
      * split; [split; [discriminate|]|split; [discriminate|reflexivity]].
        intros [_ Hne]. exfalso. apply Hne, Hwin. reflexivity.
      * split; [split; [intros _; split; [lia|]|reflexivity]
               |split; [reflexivity|discriminate]].
        intros Heq. apply Hwin in Heq. discriminate.
    + apply Z.leb_gt in Hlast.
      cbn [andb fst snd LevelManager.movesRemaining LevelManager.setMovesRemaining
             LevelManager.gameState hd_error].
      split; [reflexivity|]. split; [lia|]. split; [repeat split|].
      split; [reflexivity|].
      split; [split; [discriminate|intros [? _]; lia]|].
      split; [discriminate|reflexivity].
Qed.

Lemma useMove_counts_witness :
  let lm := Game.levelManager (gameOn boardSwap (2, 2) 0 1) in
  let r := LevelManager.useMove lm in
  0 < LevelManager.movesRemaining lm < 2 ^ 53
  /\ LevelManager.movesRemaining (fst (fst r)) = 0
  /\ LevelManager.gameState (fst (fst r)) = CONFIG.LOSE.
Proof.
  intros lm r.
  assert (Hrange : 0 < LevelManager.movesRemaining lm < 2 ^ 53)
    by (split; reflexivity).
  split; [exact Hrange|].
  destruct (useMove_counts lm) as [_ H].
  destruct (H Hrange) as (Hm & _ & _ & _ & Hfalse & Hlose & _).
  split; [exact Hm|]. apply Hlose, Hfalse. split; [reflexivity|discriminate].
Defined.

Lemma getLevel_Some lm index :
  0 <= index < Z.of_nat (List.length (LevelManager.levels lm)) ->
  exists level, LevelManager.getLevel lm index = Some level
                /\ LevelManager.levels lm !! Z.to_nat index = Some level.
Proof.
  intros H. unfold LevelManager.getLevel.
  replace ((0 <=? index) && (index <? Z.of_nat (List.length (LevelManager.levels lm))))
    with true by (symmetry; apply andb_true_iff; split;
                  [apply Z.leb_le|apply Z.ltb_lt]; lia).
  destruct (LevelManager.levels lm !! Z.to_nat index) as [level|] eqn:Hl.
  - exists level. split; reflexivity.
  - apply lookup_ge_None in Hl. lia.
Qed.

Lemma getLevel_None lm index :
  ~ (0 <= index < Z.of_nat (List.length (LevelManager.levels lm))) ->
  LevelManager.getLevel lm index = None.
Proof.
  intros H. unfold LevelManager.getLevel.
  destruct ((0 <=? index) && (index <? Z.of_nat (List.length (LevelManager.levels lm))))
    eqn:Hb; [|reflexivity].
  apply andb_true_iff in Hb as [H1 H2]. apply Z.leb_le in H1. apply Z.ltb_lt in H2.
  lia.
Qed.

(** X26.  startLevel(index) returns null and changes nothing when the index
    names no level; otherwise it returns that level and makes it the
    current one, with the full budget of moves (20 when the level gives
    none) and the game idle, so not over.  hasMoreLevels is true exactly
    when nextLevel finds a level, and restartLevel starts the current
    level again. *)
Theorem startLevel_starts (lm : LevelManager.t) (index : Z) :
  let r := LevelManager.startLevel lm index in
  (~ (0 <= index < Z.of_nat (List.length (LevelManager.levels lm))) ->
   r = (lm, None, []))
  /\ (0 <= index < Z.of_nat (List.length (LevelManager.levels lm)) ->
      exists level,
        LevelManager.levels lm !! Z.to_nat index = Some level
        /\ snd (fst r) = Some level
        /\ LevelManager.currentLevel (fst (fst r)) = Some level
        /\ LevelManager.currentLevelIndex (fst (fst r)) = index
        /\ LevelManager.movesRemaining (fst (fst r)) = budget level
        /\ LevelManager.maxMoves (fst (fst r)) = budget level
        /\ LevelManager.levels (fst (fst r)) = LevelManager.levels lm
        /\ LevelManager.gameState (fst (fst r)) = CONFIG.IDLE
        /\ LevelManager.isGameOver (fst (fst r)) = false
        /\ snd r = [MovesChanged (budget level) (budget level)])
  /\ (0 <= LevelManager.currentLevelIndex lm ->
      (LevelManager.hasMoreLevels lm = true
       <-> snd (fst (LevelManager.nextLevel lm)) <> None))
  /\ LevelManager.restartLevel lm
     = LevelManager.startLevel lm (LevelManager.currentLevelIndex lm).
Proof.
  intros r. subst r. split; [|split; [|split]].
  - intros H. unfold LevelManager.startLevel. rewrite (getLevel_None _ _ H).
    reflexivity.
  - intros H. destruct (getLevel_Some _ _ H) as (level & Hget & Hnth).
    exists level. unfold LevelManager.startLevel. rewrite Hget. simpl.
    repeat split; try reflexivity. exact Hnth.
  - intros Hidx. unfold LevelManager.hasMoreLevels, LevelManager.nextLevel,
      LevelManager.startLevel.
    destruct (decide (LevelManager.currentLevelIndex lm + 1
                      < Z.of_nat (List.length (LevelManager.levels lm)))) as [Hlt|Hge].
    + destruct (getLevel_Some lm (LevelManager.currentLevelIndex lm + 1) ltac:(lia))
        as (level & -> & _).
      simpl. split; [discriminate|]. intros _. apply Z.ltb_lt. lia.
    + rewrite (getLevel_None lm (LevelManager.currentLevelIndex lm + 1)) by lia.
      simpl. split; [|congruence]. intros H. apply Z.ltb_lt in H. lia.
  - reflexivity.
Qed.

Lemma startLevel_starts_witness :
  let lm := {| LevelManager.levels := [level1; levelRepeatedColour];
               LevelManager.currentLevelIndex := 0;
               LevelManager.currentLevel := None;
               LevelManager.movesRemaining := 0; LevelManager.maxMoves := 0;
               LevelManager.gameState := CONFIG.IDLE |} in
  LevelManager.startLevel lm 2 = (lm, None, [])
  /\ LevelManager.movesRemaining (fst (fst (LevelManager.startLevel lm 1))) = 10
  /\ LevelManager.hasMoreLevels lm = true.
Proof.
  intros lm.
  destruct (startLevel_starts lm 2) as (Hout & _).
  destruct (startLevel_starts lm 1) as (_ & Hin & Hmore & _).
  split; [apply Hout; simpl; lia|].
  destruct (Hin ltac:(simpl; lia)) as (level & Hnth & _ & _ & _ & Hmoves & _).
  injection Hnth as <-. split; [exact Hmoves|].
  apply Hmore; [simpl; lia|]. vm_compute. discriminate.
Defined.

(** ** Loading a level *)

Lemma initialize_lockStep gm x y exitY :
  let r := CharacterController.initialize gm x y exitY in
  lockStep (snd r) (fst r)
  /\ CharacterController.character (fst r) = Some (Character.new x y)
  /\ CharacterController.exitY (fst r) = exitY
  /\ emptied gm (snd r).
Proof.
  unfold CharacterController.initialize. cbn [fst snd].
  split; [|split; [reflexivity|split; [reflexivity|]]].
  - exists (Character.new x y). split; [reflexivity|]. split; [reflexivity|].
    reflexivity.
  - apply updateCharacterPosition_emptied.
Qed.

(** X27.  loadCurrentLevel on a well-formed level that names its character
    start and its exit gives a full grid of the size of the level, puts the
    character on its start with the grid manager told so, keeps the level
    manager and is ready for input (not processing); without a current
    level it does nothing. *)
Theorem loadCurrentLevel_ready (g : Game.t) (tape : Tape) (level : Level.t)
  (start exitPos : Pos) :
  LevelManager.currentLevel (Game.levelManager g) = Some level ->
  Level.characterStart level = Some start ->
  Level.exitPosition level = Some exitPos ->
  wellFormedLevel (Level.gridWidth level) (Level.gridHeight level) level ->
  exists g' tape',
    Game.loadCurrentLevel g tape = Some (g', tape')
    /\ fullGrid (Game.gridManager g')
    /\ GridManager.width (Game.gridManager g') = Level.gridWidth level
    /\ GridManager.height (Game.gridManager g') = Level.gridHeight level
    /\ GridManager.exitPosition (Game.gridManager g') = exitPos
    /\ CharacterController.character (Game.characterController g')
       = Some (Character.new (fst start) (snd start))
    /\ CharacterController.exitY (Game.characterController g') = snd exitPos
    /\ GridManager.characterPosition (Game.gridManager g') = start
    /\ GridManager.isEmpty (Game.gridManager g') (fst start) (snd start) = true
    /\ Game.levelManager g' = Game.levelManager g
    /\ Game.isProcessing g' = false.
Proof.
  intros Hlevel Hstart Hexit Hwf. unfold Game.loadCurrentLevel.
  rewrite Hlevel, Hstart, Hexit.
  pose proof (initialize_fullGrid (Level.gridWidth level) (Level.gridHeight level)
                level tape) as Hfull.
  pose proof (initialize_frame (Level.gridWidth level) (Level.gridHeight level)
                level tape) as (Hw & Hh & _ & He & Hc).
  pose proof (initialize_character_tile _ _ level tape Hwf) as Hct.
  pose proof (initialize_exit_tile _ _ level tape Hwf) as Het.
  cbn zeta in Hct, Het. rewrite Hexit, Hstart in Het. simpl in Het.
  rewrite Hc, Hstart in Hct. rewrite Hexit in He. rewrite Hstart in Hc.
  simpl in He, Hc, Hct.
  destruct (GridManager.initialize (Level.gridWidth level) (Level.gridHeight level)
              level tape) as [gm tape'].
  cbn [fst snd] in *.
  eexists. eexists. split; [reflexivity|].
  cbn [Game.gridManager Game.characterController Game.levelManager
         Game.isProcessing CharacterController.initialize fst snd].
  assert (Hb : sameBoard gm (GridManager.updateCharacterPosition gm (fst start)
                               (snd start) (fst start) (snd start)))
    by apply sameBoard_updateCharacterPosition.
  destruct Hb as (Hw' & Hh' & _ & He').
  split; [apply fullGrid_updateCharacterPosition, Hfull|].
  split; [rewrite Hw'; exact Hw|]. split; [rewrite Hh'; exact Hh|].
  split; [rewrite He'; exact He|]. split; [reflexivity|]. split; [reflexivity|].
  split; [unfold GridManager.updateCharacterPosition; simpl; destruct start; reflexivity|].
  split; [|split; reflexivity].
  unfold GridManager.updateCharacterPosition, GridManager.isEmpty.
  rewrite getTile_setCharacterPosition.
  destruct (negb _).
  - rewrite (getTile_setEmpty_eq _ _ _ _ Hct). reflexivity.
  - rewrite Hct. reflexivity.
Qed.

Lemma loadCurrentLevel_ready_witness :
  let g := {| Game.gridManager := boardSwap;
              Game.characterController :=
                {| CharacterController.character := None;
                   CharacterController.exitY := 0 |};
              Game.levelManager :=
                {| LevelManager.levels := [level1];
                   LevelManager.currentLevelIndex := 0;
                   LevelManager.currentLevel := Some level1;
                   LevelManager.movesRemaining := 25; LevelManager.maxMoves := 25;
                   LevelManager.gameState := CONFIG.IDLE |};
              Game.isProcessing := true;
              Game.events := [] |} in
  exists g' tape',
    Game.loadCurrentLevel g [3; 1; 4; 1; 5; 9; 2; 6]%nat = Some (g', tape')
    /\ fullGrid (Game.gridManager g')
    /\ GridManager.characterPosition (Game.gridManager g') = (3, 7)
    /\ Game.isProcessing g' = false.
Proof.
  intros g.
  destruct (loadCurrentLevel_ready g [3; 1; 4; 1; 5; 9; 2; 6]%nat level1 (3, 7) (3, 0)
              eq_refl eq_refl eq_refl wellFormed_level1)
    as (g' & tape' & Hload & Hfull & _ & _ & _ & _ & _ & Hpos & _ & _ & Hproc).
  exists g', tape'. split; [exact Hload|]. split; [exact Hfull|].
  split; [exact Hpos|exact Hproc].
Defined.

(** ** The path of the character *)

(** X28.  getPathToExit lists the cells of the column of the character
    from the one right above it up to the exit row, and no other cell: each
    of them is above the character (isPositionAboveCharacter), and the path
    is empty exactly when the character has escaped. *)
Theorem getPathToExit_cells (cc : CharacterController.t) (c : Character.t) :
  CharacterController.character cc = Some c ->
  let path := CharacterController.getPathToExit cc in
  (forall p, In p path
             <-> fst p = Character.x c
                 /\ CharacterController.exitY cc <= snd p < Character.y c)
  /\ (forall p, In p path ->
        CharacterController.isPositionAboveCharacter cc (fst p) (snd p) = true)
  /\ Z.of_nat (List.length path)
     = Z.max 0 (Character.y c - CharacterController.exitY cc)
  /\ (path = [] <-> CharacterController.hasEscaped cc = true)
  /\ hd_error path
     = (if CharacterController.hasEscaped cc then None
        else Some (Character.x c, Character.y c - 1)).
Proof.
  intros Hc path.
  assert (Hin : forall p, In p path
                          <-> fst p = Character.x c
                              /\ CharacterController.exitY cc <= snd p < Character.y c).
  { intros [px py]. subst path. unfold CharacterController.getPathToExit.
    rewrite Hc, in_map_iff. simpl. split.
    - intros (y & [= <- <-] & Hy).
      apply list_elem_of_In, elem_of_reverse, elem_of_seqZ in Hy. lia.
    - intros [-> Hy]. exists py. split; [reflexivity|].
      apply list_elem_of_In, elem_of_reverse, elem_of_seqZ. lia. }
  assert (Hlen : Z.of_nat (List.length path)
                 = Z.max 0 (Character.y c - CharacterController.exitY cc)).
  { subst path. unfold CharacterController.getPathToExit. rewrite Hc.
    rewrite length_map, length_reverse, length_seqZ. lia. }
  assert (Hesc : CharacterController.hasEscaped cc
                 = (Character.y c <=? CharacterController.exitY cc)).
  { unfold CharacterController.hasEscaped. rewrite Hc. reflexivity. }
  split; [exact Hin|]. split; [|split; [exact Hlen|split]].
  - intros p Hp. apply Hin in Hp as [Hx Hy].
    unfold CharacterController.isPositionAboveCharacter. rewrite Hc.
    apply andb_true_iff. split; [apply Z.eqb_eq; exact Hx|apply Z.ltb_lt; lia].
  - rewrite Hesc, Z.leb_le. split.
    + intros Hnil. rewrite Hnil in Hlen. simpl in Hlen. lia.
    + intros Hle. destruct path; [reflexivity|]. simpl in Hlen. lia.
  - rewrite Hesc. subst path. unfold CharacterController.getPathToExit. rewrite Hc.
    destruct (Character.y c <=? CharacterController.exitY cc) eqn:Hle.
    + apply Z.leb_le in Hle. rewrite seqZ_nil by lia. reflexivity.
    + apply Z.leb_gt in Hle.
      replace (Character.y c - CharacterController.exitY cc)
        with (Z.of_nat (S (Z.to_nat (Character.y c - CharacterController.exitY cc - 1))))
        by lia.
      rewrite seqZ_S, reverse_app. simpl. f_equal. f_equal. lia.
Qed.

Lemma getPathToExit_cells_witness :
  let cc := Game.characterController (gameOn boardSwap (2, 2) 0 5) in
  Z.of_nat (List.length (CharacterController.getPathToExit cc)) = Z.max 0 (2 - 0)
  /\ hd_error (CharacterController.getPathToExit cc) = Some (2, 1).
Proof.
  intros cc.
  destruct (getPathToExit_cells cc (Character.new 2 2) eq_refl)
    as (_ & _ & Hlen & _ & Hhd).
  split; [exact Hlen|exact Hhd].
Defined.

(** X29.  reset puts the character back on its start, not moving, and
    tells the grid manager so: afterwards the two agree on the position of
    the character.  The start cell, when it is a cell of the grid, holds a
    new empty tile, unless it is the exit position: then the grid is left
    as it is.  Every other cell is as before, and a second reset changes
    nothing more about the character. *)
Theorem reset_returns_to_start (cc : CharacterController.t) (gm : GridManager.t)
  (c : Character.t) :
  CharacterController.character cc = Some c ->
  let r := CharacterController.reset cc gm in
  let start := (Character.startX c, Character.startY c) in
  CharacterController.character (fst r)
  = Some (Character.new (Character.startX c) (Character.startY c))
  /\ CharacterController.exitY (fst r) = CharacterController.exitY cc
  /\ lockStep (snd r) (fst r)
  /\ GridManager.characterPosition (snd r) = start
  /\ (start <> GridManager.exitPosition gm ->
      forall old,
        GridManager.getTile gm (Character.startX c) (Character.startY c) = Some old ->
        GridManager.getTile (snd r) (Character.startX c) (Character.startY c)
        = Some (Tile.new CONFIG.TILE_TYPES.EMPTY
                  (Character.startX c) (Character.startY c)))
  /\ (start = GridManager.exitPosition gm ->
      GridManager.grid (snd r) = GridManager.grid gm)
  /\ (forall x y, (x, y) <> start ->
        GridManager.getTile (snd r) x y = GridManager.getTile gm x y)
  /\ emptied gm (snd r)
  /\ fst (CharacterController.reset (fst r) (snd r)) = fst r.
Proof.
  intros Hc r start. subst r start. unfold CharacterController.reset. rewrite Hc.
  cbn [fst snd CharacterController.character CharacterController.exitY
         Character.reset Character.x Character.y Character.startX Character.startY].
  split; [reflexivity|]. split; [reflexivity|]. split.
  { eexists. split; [reflexivity|]. split; reflexivity. }
  split; [reflexivity|]. split.
  { intros Hne old Hold. unfold GridManager.updateCharacterPosition.
    destruct ((Character.startX c =? fst (GridManager.exitPosition gm))
              && (Character.startY c =? snd (GridManager.exitPosition gm))) eqn:E.
    - exfalso. apply Hne. apply andb_true_iff in E as [E1 E2].
      apply Z.eqb_eq in E1, E2. destruct (GridManager.exitPosition gm).
      simpl in *. congruence.
    - cbn [negb].
      change (GridManager.getTile
                (GridManager.setCharacterPosition
                   (GridManager.setEmpty gm (Character.startX c) (Character.startY c))
                   (Character.startX c, Character.startY c))
                (Character.startX c) (Character.startY c))
        with (GridManager.getTile
                (GridManager.setEmpty gm (Character.startX c) (Character.startY c))
                (Character.startX c) (Character.startY c)).
      unfold GridManager.setEmpty.
      rewrite (getTile_setTile_eq _ _ _ _ _ Hold). reflexivity. }
  split.
  { intros Heq. unfold GridManager.updateCharacterPosition. rewrite <- Heq.
    cbn [fst snd]. rewrite !Z.eqb_refl. reflexivity. }
  split.
  { intros x y Hne. apply getTile_updateCharacterPosition_other. exact Hne. }
  split; [apply updateCharacterPosition_emptied|reflexivity].
Qed.

Lemma reset_returns_to_start_witness :
  let cc := {| CharacterController.character :=
                 Some (Character.moveTo (Character.new 0 1) 0 0);
               CharacterController.exitY := 0 |} in
  let r := CharacterController.reset cc boardSwap in
  CharacterController.character cc = Some (Character.moveTo (Character.new 0 1) 0 0)
  /\ Tile.type <$> GridManager.getTile boardSwap 0 1 = Some "red"%string
  /\ CharacterController.character (fst r) = Some (Character.new 0 1)
  /\ GridManager.getTile (snd r) 0 1 = Some (Tile.new CONFIG.TILE_TYPES.EMPTY 0 1).
Proof.
  intros cc r.
  destruct (reset_returns_to_start cc boardSwap
              (Character.moveTo (Character.new 0 1) 0 0) eq_refl)
    as (H & _ & _ & _ & Hstart & _).
  split; [reflexivity|]. split; [reflexivity|]. split; [exact H|].
  exact (Hstart ltac:(discriminate) (Tile.new "red" 0 1) eq_refl).
Defined.


(** ** Swapping two tiles *)

(** X30.  swap on two distinct cells of a full grid exchanges the two tiles
    and gives each the coordinates of its new cell; no other cell and
    nothing else of the grid manager changes, the grid stays full, the
    order of the two cells does not matter, and swapping again gives back
    the grid as it was. *)
Theorem swap_exchanges (gm : GridManager.t) (x1 y1 x2 y2 : Z) :
  fullGrid gm ->
  GridManager.isValidPosition gm x1 y1 = true ->
  GridManager.isValidPosition gm x2 y2 = true ->
  (x1, y1) <> (x2, y2) ->
  let gm' := GridManager.swap gm x1 y1 x2 y2 in
  GridManager.getTile gm' x1 y1
  = (fun tl => Tile.moveTo tl x1 y1) <$> GridManager.getTile gm x2 y2
  /\ GridManager.getTile gm' x2 y2
     = (fun tl => Tile.moveTo tl x2 y2) <$> GridManager.getTile gm x1 y1
  /\ (forall x y, (x, y) <> (x1, y1) -> (x, y) <> (x2, y2) ->
        GridManager.getTile gm' x y = GridManager.getTile gm x y)
  /\ sameFrame gm gm'
  /\ fullGrid gm'
  /\ GridManager.swap gm x2 y2 x1 y1 = gm'
  /\ GridManager.swap gm' x1 y1 x2 y2 = gm.
Proof.
  intros Hfull V1 V2 Hne gm'.
  pose proof (fullGrid_cellExists _ _ _ Hfull V1) as E1.
  pose proof (fullGrid_cellExists _ _ _ Hfull V2) as E2.
  destruct (swap_cells gm x1 y1 x2 y2 Hne E1 E2) as (F1 & F2 & Fo & _).
  cbn zeta in F1, F2, Fo. fold gm' in F1, F2, Fo.
  assert (Hv : forall x y, GridManager.isValidPosition gm' x y
                           = GridManager.isValidPosition gm x y) by reflexivity.
  split; [|split; [|split; [|split; [|split; [|split]]]]].
  - rewrite !getTile_cellAt by (rewrite ?Hv; assumption). rewrite F1.
    destruct (GridManager.cellAt (GridManager.grid gm) x2 y2); reflexivity.
  - rewrite !getTile_cellAt by (rewrite ?Hv; assumption). rewrite F2.
    destruct (GridManager.cellAt (GridManager.grid gm) x1 y1); reflexivity.
  - intros x y N1 N2. unfold GridManager.getTile. rewrite Hv.
    destruct (GridManager.isValidPosition gm x y); [|reflexivity].
    apply Fo; assumption.
  - apply sameFrame_swap.
  - apply fullGrid_swap; assumption.
  - apply swap_comm; assumption.
  - apply swap_swap_eq; assumption.
Qed.

Lemma swap_exchanges_witness :
  let gm' := GridManager.swap boardSwap 2 1 3 1 in
  GridManager.getTile gm' 2 1
  = (fun tl => Tile.moveTo tl 2 1) <$> GridManager.getTile boardSwap 3 1
  /\ GridManager.swap gm' 2 1 3 1 = boardSwap.
Proof.
  intros gm'.
  destruct (swap_exchanges boardSwap 2 1 3 1 boardSwap_full eq_refl eq_refl
              ltac:(discriminate)) as (H1 & _ & _ & _ & _ & _ & H7).
  split; [exact H1|exact H7].
Defined.
